(* ===== verification/_CoqProject ===== *)
-Q . S2P
Prelude.v
Labrpc.v
LabrpcTheorems.v
LabrpcCalls.v
Persister.v
RaftNode.v
RaftCluster.v
RaftNodeFacts.v
RaftWf.v
RaftHandlers.v
RaftHistory.v
RaftSafety.v
RaftReplication.v
RaftRuns.v
RaftTheorems.v
RaftCommit.v
RaftCommitHist.v
RaftCommitPeer.v
RaftCommitRoles.v
RaftCommitInv.v
RaftCommitAppend.v
RaftStateMachine.v
RaftOrigin.v
Harness.v
RaftConfig.v
RaftConfigLinks.v
RaftConfigStore.v
RaftConfigTally.v
RaftConfigChecks.v
RaftConfigRuns.v
RaftOverLabrpc.v
RaftOverLabrpcSim.v
RaftOverLabrpcTypes.v
RaftOverLabrpcRuns.v
LockStore.v
LockServer.v
LockTheorems.v
LockClerk.v
LockSystem.v
LockSystemInv.v
LockSystemTheorems.v
LockConfig.v
RaftReplicas.v
LockSystemRuns.v
ApplyPipeline.v
Bank.v
BankLogic.v
BankTheorems.v
MRCoordinator.v
MRWorker.v
MRFiles.v
MRJob.v
Json.v
MRApps.v
MRSystem.v
MRWords.v
MRTheorems.v
MRTiming.v
MRTimingTheorems.v
MRJobCount.v
MRJobSteps.v
MRJobStepsTheorems.v
MRPlugin.v
MRMain.v
MRMainTheorems.v
MRWordJobs.v
Float64.v
WeatherAggregator.v
WeatherLoops.v
WeatherStation.v
WeatherTimed.v
Labgob.v
