(* ===== verification/Prelude.v ===== *)
(** * Verification of the mr-and-raft repository

    The repository holds five small systems written in Go for a course on
    distributed systems: a Raft library (src/raft), a lock service replicated
    with it (src/raft-lock), MapReduce (src/mr, src/mr-main), a bank with
    locks (src/bank) and weather aggregators (src/ws); the first two run on a
    simulated network (src/labrpc, src/labgob) under testers (config.go).
    This library translates their code into executable definitions and proves what makes
    it correct.  Where the code departs from what it means to do, a theorem
    shows the execution in which it does.

    ** How the code is modelled

    - A Go statement that can panic or end the process returns a [result]
      (this file): [Ok] or the reason of the abort.  Slices are lists with Go's
      bounds checks ([index], [assign], [slice_to], [slice_from]); [int]s
      whose overflow matters are wrapped ([wrap64]).  Terms, log indices and
      batch numbers are unbounded integers: none can reach 2^63 in a run.
    - A method that holds its mutex from its first to its last access is one
      definition from state to state.  Methods that take several locks (the
      bank) or hold a lock while they block (Raft's sends on [applyCh]) are
      sequences of accesses, interleaved by a step function.
    - Concurrency is an executable step function over labels: a label names
      the goroutine or message that moves next, [None] means it cannot.
      Reachability is inductive, and theorems quantify over all schedules.
      Time-outs are labels, hence always possible; only WeatherTimed has times.
    - Loops that are not structural have fuel.  Running out of fuel is the
      panic [OutOfFuel], and the theorems that say a computation returns [Ok]
      show the fuel is enough: [commitIndex - lastApplied] rounds for
      [applyLoop], [len log - commitIndex] for [commitLoop], one per pair for
      [reduceLoop], one per server for the loop of [SendMutex]; the decoder
      of Json.v and the trimming of MRApps.v consume input in each round.

    ** Parts

    Raft, src/raft/raft.go and persister.go.
    - Persister, RaftNode: the persister and the struct [Raft] with one
      definition per method, named as in the source.  [labgob] is the class
      [Gob]: what was encoded decodes to itself; RaftRuns has an instance.
    - RaftCluster: peers, their tickers, and RPCs on their way, with a handler
      blocked on the ticker's channels, loss, delay, reordering and restarts.
    - RaftNodeFacts, RaftWf, RaftHandlers: the loops against closed forms,
      the well-formedness invariant, the branches of each handler.
    - RaftHistory, RaftSafety, RaftReplication: a peer over time; the ghost
      history behind election safety and log matching; heartbeats until a
      follower has the leader's log.
    - RaftTheorems: [election_safety] and [log_matching] (for executions
      without crashes in which a granted vote is counted in the term it was
      asked for; [stale_vote_two_leaders] and [unsaved_vote_two_leaders] show
      that the code needs both conditions), [no_panic], [peer_history],
      [delivery_in_order], [follower_catches_up], the exact behaviour of
      the RPC handlers, [restart_restores], and [stale_append_diverges]: an
      AppendEntries overtaken by a later one of the same leader truncates a
      log, so that two peers apply different commands.
    - RaftCommit, RaftCommitHist, RaftCommitPeer, RaftCommitRoles,
      RaftCommitInv, RaftCommitAppend: a ghost record of what each peer
      accepted in which term, and the invariant that every entry a peer
      counts as committed is accepted by a majority, in layers: entries,
      peers, roles, requests and replies on their way.
    - RaftStateMachine: [state_machine_safety], no two peers deliver
      different messages at an index, and [leader_has_applied], for the
      executions [orderly] allows: besides the conditions above, no
      AppendEntries that a later one overtook is delivered and no reply is
      counted in a term other than its request's.  [stale_append_diverges]
      and [stale_reply_diverges] show that the code needs both.  The
      condition is one of each step, on the state it starts from.
    - RaftOrigin: every command in a log or a request came from [Start].

    The simulated network, src/labrpc/labrpc.go and src/labgob/labgob.go.
    - Labrpc: the tables of ends, servers and connections with one definition
      per method, dispatch to services, and one step function over the
      goroutines of [Call], [processReq] and the handler.  What travels is
      encoded by the class [Codec].
    - LabrpcTheorems, LabrpcCalls: a handler runs at most once per call and a
      true result is its reply; nothing comes back over a cut link; a call
      always can return.
    - Labgob: the checks of types and values; [checkType] ends on every graph
      of types and finds every field that would be lost.

    Raft on the network.
    - RaftOverLabrpc: peers whose RPCs are calls of Labrpc, their handlers
      blocked inside [dispatch], their tickers and goroutines.
    - RaftOverLabrpcSim: a simulation into RaftCluster, call by call;
      [raft_over_labrpc] is the refinement, so that what is proved of the
      cluster without crashes holds of the peers on the network.
    - RaftOverLabrpcTypes, RaftOverLabrpcRuns: messages have the types of
      their methods and no step panics; the network of [make_config] is one
      on which all of this holds; an election on it, computed.
    - RaftReplicas: state machine safety carried over: peers on the network
      of [make_config] deliver one history (for schedules a [policy]
      restricts as [orderly] does), the tester passes them, and replicas of
      the lock server fed by them agree.

    The testers, src/raft/config.go and src/raft-lock/config.go.
    - Harness: what both share; [randstring], end names.
    - RaftConfig: the tester of raft, split into its links, its store of
      instances and persisters (pointers into heaps) and its tally of what
      was applied.  RaftConfigLinks: who can reach whom; RaftConfigStore: a
      replaced instance cannot change the saved state; RaftConfigTally: the
      verdict on what peers deliver, and [one]; RaftConfigChecks:
      [checkOneLeader] on a cluster that keeps election safety;
      RaftConfigRuns: concrete tests.
    - LockConfig: the tester of the lock service; a server that was shut down
      is isolated.

    Lock service, src/raft-lock.
    - LockStore: the table of locks refines a FIFO mutex per key.
    - LockServer, LockTheorems: a replica, its apply loop, duplicate filter
      and RPC handlers; a replica computes the replicated state machine, an
      acknowledged request was applied, the apply loop never blocks.
    - LockClerk: the client's loop over the servers, and clients that send
      one request at a time: each request takes effect once.
    - LockSystem, LockSystemInv: the service end to end: clerks, a lock
      server on each peer of RaftCluster, and calls of [Mutex] that travel,
      start agreement, wait, are answered, time out or are never heard of;
      the invariant relates it to the clients of LockClerk.
      [sys_step] has all steps but crashes, [sys_reach] the executions
      whose peer steps are [orderly].
    - LockSystemTheorems, LockSystemRuns: in these executions the service is
      linearizable ([lock_service_linearizable]; [lock_order_grows]: the
      order is never revised), hands a lock to its owner only (client 0
      apart, which stands for nobody in the code), and never panics; concrete
      runs, one of them [hand_over_lost]: an owner that is never told.
    - ApplyPipeline: Raft's sends on [applyCh] interleaved with the apply
      loop: batches of up to two commands are delivered, three new commands
      deadlock the replica.

    Bank, src/bank/bank.go.
    - Bank: methods as sequences of accesses to locks, the map and balances.
    - BankLogic, BankTheorems: concurrent calls return, are serializable and
      conserve money; a transfer to oneself and a deposit to a missing
      account do not behave.

    MapReduce, src/mr and src/mr-main.
    - MRCoordinator: tables of tasks, [GetTask], [MarkComplete],
      [DetectStraggler]; MRWorker and MRFiles: map and reduce tasks on the
      shared directory and mrsequential.go; MRJob: an abstraction in which a
      task is one step, with repeated tasks, late reports and dying workers,
      and the invariant of a job.
    - Json, MRApps, MRWords: the lines [encoding/json] writes and what
      [DoReduce] reads of what [DoMap] wrote, and the applications; UTF-8 and
      [strings.FieldsFunc] for those on words.
    - MRTheorems: the abstract job never panics and can always be finished;
      the counts of the credit reports.
    - MRJobSteps, MRJobStepsTheorems: the tasks taken apart into their
      accesses to files, interleaved; with no live worker slower than its
      timer the invariant of MRJob holds and a finished job has the lines of
      mrsequential.go; two runs show what a slower worker does to it.
      MRWordJobs: word counts and the index of such jobs.
    - MRPlugin: [loadPlugin] and [main] of mrsequential.go; the package
      plugin is a parameter.  MRMain, MRMainTheorems: mrcoordinator.go and
      mrworker.go as processes with calls that fail when the coordinator is
      gone; their executions are those of MRJobSteps, the coordinator leaves
      only when the output is that of mrsequential.go, and every worker then
      ends.
    - MRSystem: processes with a shared directory, as programs of system
      calls; MRTiming, MRTimingTheorems: mtiming.go and rtiming.go, and
      bounds on the number of workers they report; MRJobCount: jobcount.go,
      which reports the map tasks begun, and crash.go.

    Weather, src/ws.
    - Float64: the float64 operations of the code, and where they are exact.
    - WeatherAggregator: a machine that says what an aggregator does; it
      reports the average of each batch.
    - WeatherLoops: [channelAggregator] with its select loop and goroutines,
      [mutexAggregator] with its mutex and critical sections, and the class
      [Implementation]: both implement the machine and, up to reports added
      after quit, have each other's events.
    - WeatherStation: the station's handler and [getWeatherData]; a call comes
      back well within the period or well after it.  The station that net/rpc
      serves is the first one registered.
    - WeatherTimed: an implementation, the station and the tester's channels
      with a clock; every report is the exact average of the calls that were
      answered within the period, and the tester notes the same calls.

    ** How the parts meet

    Raft hands committed entries to the lock server through [applyCh]:
    [delivery_in_order] is what the server's [rt_step] assumes of the order,
    and ApplyPipeline is the only place where the two interleave while Raft
    holds its lock.
    RaftOverLabrpc puts Raft on the network; RaftConfigTally feeds the tester
    with what [delivery_in_order] says peers deliver, and RaftConfigChecks
    with the roles [election_safety] allows.  The
    clerk's requests reach the log through [Start]; LockClerk takes the log
    as the order in which copies of requests are appended, and LockSystem
    gets that order from the peers: [state_machine_safety] makes it one
    order, RaftOrigin says its commands are the clerks', and LockClerk's
    theorems then apply to it.  The coordinator
    and the workers meet in MRJobSteps and MRMain, through replies, reports
    and the directory; [whole] forgets how far a task is and gives a job of
    MRJob; the workers' use of [encoding/json] and [sort] goes through
    the classes [JsonStream] and [GoSort], which Json.v discharges.

    ** What is not modelled

    The test scripts, random seeds and printing.  Only WeatherTimed has a
    clock (its runs assume that no step is more than 70 ms late); elsewhere
    time-outs can happen at any moment, and what a program reads from a
    clock is an argument.  RaftOverLabrpc has no
    crashes of peers: those are steps of RaftCluster, and of the tester's
    state in RaftConfig.  LockSystem stands on RaftCluster, not on Labrpc,
    and has no crashes either.  In Raft the entries of a request
    are a copy of the leader's log at the time of the heartbeat.  In
    MRJobSteps an access to a file is atomic and a file is read in one
    access.  Of the
    standard library, encoding/gob, package plugin, the Unicode tables above
    ASCII and the order of map iterations are parameters. *)

From Stdlib Require Import ZArith Lia Ascii.
From stdpp Require Import base numbers strings gmap list.

Declare Scope go_scope.
Delimit Scope go_scope with go.

(** ** Outcomes of Go code

    A Go statement either completes with a value or aborts the goroutine
    (and, since nothing in the repository recovers, the process). *)

(** Why a Go computation aborted.  [OutOfFuel] is not a Go panic: it marks a
    fuelled loop that was given too little fuel, and every theorem that says
    a computation returns [Ok] also says that this case does not occur. *)
Inductive panic : Type :=
| IndexOutOfRange
| SliceOutOfRange
| NilDereference
| DivideByZero
| TypeAssertion
| PanicMsg (msg : string)
| LogFatal (msg : string)
| OutOfFuel.

#[export] Instance panic_eq_dec : EqDecision panic.
Proof. solve_decision. Defined.

Inductive result (A : Type) : Type :=
| Ok (a : A)
| Panic (p : panic).
Arguments Ok {A} a.
Arguments Panic {A} p.

#[export] Instance result_eq_dec {A} `{EqDecision A} : EqDecision (result A).
Proof. solve_decision. Defined.

#[export] Instance result_ret : MRet result := @Ok.
#[export] Instance result_bind : MBind result := fun A B f m =>
  match m with Ok a => f a | Panic p => Panic p end.
#[export] Instance result_fmap : FMap result := fun A B f m =>
  match m with Ok a => Ok (f a) | Panic p => Panic p end.

Definition is_ok {A} (m : result A) : bool :=
  match m with Ok _ => true | Panic _ => false end.

Lemma result_bind_Ok {A B} (f : A -> result B) (m : result A) (b : B) :
  (m ≫= f) = Ok b <-> exists a, m = Ok a /\ f a = Ok b.
Proof.
  destruct m as [a|p]; simpl; split; [by eauto| |done|].
  - by intros (a' & [= ->] & ?).
  - by intros (a' & ? & ?).
Qed.

Lemma result_bind_ret {A B} (f : A -> result B) (a : A) : (Ok a ≫= f) = f a.
Proof. reflexivity. Qed.

(** ** Go slices

    Indices are Go [int]s, so they are integers and can be negative; an
    access outside [0, len) panics. *)

Section slices.
Context {A : Type}.
Implicit Types (l : list A) (i n : Z).

(** [len(l)] *)
Definition len l : Z := Z.of_nat (length l).

(** [l[i]] *)
Definition index l i : result A :=
  if decide (0 <= i)%Z then
    match l !! Z.to_nat i with
    | Some x => Ok x
    | None => Panic IndexOutOfRange
    end
  else Panic IndexOutOfRange.

(** [l[i] = x] *)
Definition assign l i (x : A) : result (list A) :=
  if decide (0 <= i < len l)%Z then Ok (<[Z.to_nat i := x]> l)
  else Panic IndexOutOfRange.

(** [l[:n]].  Go bounds [n] by the capacity; the model bounds it by the
    length, and panics in between, so a result [Ok] is Go's result. *)
Definition slice_to l n : result (list A) :=
  if decide (0 <= n <= len l)%Z then Ok (take (Z.to_nat n) l)
  else Panic SliceOutOfRange.

(** [l[n:]] *)
Definition slice_from l n : result (list A) :=
  if decide (0 <= n <= len l)%Z then Ok (drop (Z.to_nat n) l)
  else Panic SliceOutOfRange.

Lemma len_nonneg l : (0 <= len l)%Z.
Proof. unfold len. lia. Qed.

Lemma len_nil : len (@nil A) = 0%Z.
Proof. reflexivity. Qed.

Lemma len_cons x l : len (x :: l) = (1 + len l)%Z.
Proof. unfold len. simpl. lia. Qed.

Lemma len_app l k : len (l ++ k) = (len l + len k)%Z.
Proof. unfold len. rewrite length_app. lia. Qed.

Lemma len_insert l (n : nat) x : len (<[n := x]> l) = len l.
Proof. unfold len. by rewrite length_insert. Qed.

Lemma len_take l n : (0 <= n <= len l)%Z -> len (take (Z.to_nat n) l) = n.
Proof. unfold len. rewrite length_take. lia. Qed.

Lemma index_Ok l i x :
  index l i = Ok x <-> (0 <= i)%Z /\ l !! Z.to_nat i = Some x.
Proof.
  unfold index. destruct (decide (0 <= i)%Z); [|naive_solver].
  destruct (l !! Z.to_nat i); naive_solver.
Qed.

Lemma index_in_range l i : (0 <= i < len l)%Z -> exists x, index l i = Ok x.
Proof.
  intros [H0 H1]. unfold index. rewrite decide_True by done.
  destruct (l !! Z.to_nat i) eqn:E; [by eexists|].
  apply lookup_ge_None in E. unfold len in H1. lia.
Qed.

Lemma index_Ok_range l i x : index l i = Ok x -> (0 <= i < len l)%Z.
Proof.
  intros [Hi Hx]%index_Ok. apply lookup_lt_Some in Hx. unfold len. lia.
Qed.

Lemma assign_in_range l i x :
  (0 <= i < len l)%Z -> assign l i x = Ok (<[Z.to_nat i := x]> l).
Proof. intros H. unfold assign. by rewrite decide_True. Qed.

Lemma slice_to_in_range l n :
  (0 <= n <= len l)%Z -> slice_to l n = Ok (take (Z.to_nat n) l).
Proof. intros H. unfold slice_to. by rewrite decide_True. Qed.

Lemma slice_from_in_range l n :
  (0 <= n <= len l)%Z -> slice_from l n = Ok (drop (Z.to_nat n) l).
Proof. intros H. unfold slice_from. by rewrite decide_True. Qed.
End slices.

(** ** Slices indexed by a loop variable *)

Section nat_index.
Context {A : Type}.
Implicit Types (l : list A) (i : nat).

(** [l[i]] and [l[i] = x] for an [i] that is not negative. *)
Definition at_ l i : result A := index l (Z.of_nat i).
Definition put_at l i (x : A) : result (list A) := assign l (Z.of_nat i) x.

Lemma at_Ok l i x : at_ l i = Ok x <-> l !! i = Some x.
Proof. unfold at_. rewrite index_Ok, Nat2Z.id. split; [by intros [_ ?]|split; [lia|done]]. Qed.

Lemma put_at_Ok l i x l' :
  put_at l i x = Ok l' <-> (i < length l)%nat /\ l' = <[i := x]> l.
Proof.
  unfold put_at, assign, len. case_decide; split.
  - intros [= <-]. rewrite Nat2Z.id. split; [lia|done].
  - intros [_ ->]. by rewrite Nat2Z.id.
  - done.
  - intros [? _]. lia.
Qed.
End nat_index.

(** ** Loops

    [for _, x := range l { body }], where the body may panic. *)

Fixpoint for_each {A S} (body : A -> S -> result S) (l : list A) (s : S) : result S :=
  match l with
  | [] => Ok s
  | x :: l => s ← body x s; for_each body l s
  end.

(** The rule of a loop with its invariant on the elements already visited. *)
Lemma for_each_ind {A S} (P : list A -> S -> Prop) (body : A -> S -> result S) l s s' :
  P [] s ->
  (forall pre x post s s', l = pre ++ x :: post -> P pre s -> body x s = Ok s' -> P (pre ++ [x]) s') ->
  for_each body l s = Ok s' -> P l s'.
Proof.
  intros H0 Hstep.
  assert (forall post pre s, l = pre ++ post -> P pre s -> for_each body post s = Ok s' -> P l s')
    as Hgen; [|by apply (Hgen l [])].
  induction post as [|x post IH]; intros pre s1 El HP Hrun; simpl in Hrun.
  - injection Hrun as <-. by rewrite El, app_nil_r.
  - apply result_bind_Ok in Hrun as (s2 & Hb & Hrun).
    apply (IH (pre ++ [x]) s2); [by rewrite <- app_assoc|by eapply Hstep|done].
Qed.

Lemma for_each_inv {A S} (P : S -> Prop) (body : A -> S -> result S) l s s' :
  P s -> (forall x s s', x ∈ l -> P s -> body x s = Ok s' -> P s') ->
  for_each body l s = Ok s' -> P s'.
Proof.
  intros H0 Hstep. apply (for_each_ind (fun _ => P)); [done|].
  intros pre x post s1 s2 -> HP. apply Hstep; [set_solver|done].
Qed.

Lemma for_each_app {A S} (body : A -> S -> result S) l k s :
  for_each body (l ++ k) s = (s ← for_each body l s; for_each body k s).
Proof.
  revert s. induction l as [|x l IH]; intros s; simpl; [done|].
  destruct (body x s); simpl; [apply IH|done].
Qed.

Lemma for_each_fmap {A B S} (f : A -> B) (body : B -> S -> result S) l s :
  for_each body (f <$> l) s = for_each (fun x => body (f x)) l s.
Proof.
  revert s. induction l as [|x l IH]; intros s; simpl; [done|].
  destruct (body (f x) s); simpl; [apply IH|done].
Qed.

(** ** Lists updated at an index *)

Lemma lookup_update {A} (l : list A) i x y j z :
  l !! i = Some x -> <[i := y]> l !! j = Some z ->
  (j = i /\ z = y) \/ (j <> i /\ l !! j = Some z).
Proof. intros Hi [(-> & -> & _)|[? ?]]%list_lookup_insert_Some; auto. Qed.

Lemma lookup_updated {A} (l : list A) i x y : l !! i = Some x -> <[i := y]> l !! i = Some y.
Proof. intros Hi. apply list_lookup_insert_eq. by eapply lookup_lt_Some. Qed.

(** Entries other than the updated one are unchanged. *)
Lemma lookup_kept {A} (l : list A) i y j z :
  j <> i -> l !! j = Some z -> <[i := y]> l !! j = Some z.
Proof. intros. by rewrite list_lookup_insert_ne. Qed.

(** ** Machine integers *)

(** A Go [int] or [int64] result, wrapped to 64-bit two's complement. *)
Definition wrap64 (z : Z) : Z :=
  ((z + 2 ^ 63) mod 2 ^ 64 - 2 ^ 63)%Z.

Definition in_int64 (z : Z) : Prop := (- 2 ^ 63 <= z < 2 ^ 63)%Z.

#[export] Instance in_int64_dec z : Decision (in_int64 z).
Proof. unfold in_int64. apply _. Defined.

Lemma wrap64_id z : in_int64 z -> wrap64 z = z.
Proof. unfold wrap64, in_int64. intros. rewrite Z.mod_small; lia. Qed.

Lemma wrap64_range z : in_int64 (wrap64 z).
Proof.
  unfold wrap64, in_int64.
  pose proof (Z.mod_pos_bound (z + 2 ^ 63) (2 ^ 64) ltac:(lia)). lia.
Qed.

Lemma wrap64_mod z : (wrap64 z mod 2 ^ 64 = z mod 2 ^ 64)%Z.
Proof.
  unfold wrap64. rewrite Zminus_mod_idemp_l. f_equal. lia.
Qed.

(** The same for [int32]. *)
Definition wrap32 (z : Z) : Z := ((z + 2 ^ 31) mod 2 ^ 32 - 2 ^ 31)%Z.

Lemma wrap32_id z : (- 2 ^ 31 <= z < 2 ^ 31)%Z -> wrap32 z = z.
Proof. unfold wrap32. intros. rewrite Z.mod_small; lia. Qed.

(** ** Bytes: [[]byte] *)

Abbreviation bytes := (list Byte.byte).

(** ** Strings *)

(** What follows the prefix [p] of [s]. *)
Fixpoint strip (p s : string) : option string :=
  match p, s with
  | EmptyString, _ => Some s
  | String a p, String b s => if Ascii.eqb a b then strip p s else None
  | String _ _, EmptyString => None
  end.

Lemma strip_app p s : strip p (p +:+ s) = Some s.
Proof.
  induction p as [|c p IH]; [by destruct s|]. cbn [strip].
  change (String c p +:+ s) with (String c (p +:+ s)). cbn [strip]. by rewrite Ascii.eqb_refl.
Qed.

(** ** Monadic traversal *)

(** [for _, x := range l { y := f(x); out = append(out, y) }] *)
Fixpoint collect {A B} (f : A -> result B) (l : list A) : result (list B) :=
  match l with
  | [] => Ok []
  | x :: l => y ← f x; ys ← collect f l; Ok (y :: ys)
  end.

Lemma collect_Ok {A B} (f : A -> result B) (l : list A) (k : list B) :
  collect f l = Ok k <-> Forall2 (fun x y => f x = Ok y) l k.
Proof.
  revert k. induction l as [|x l IH]; intros k; simpl.
  - split; [intros [= <-]; constructor | by inversion 1].
  - rewrite result_bind_Ok. split.
    + intros (y & Hy & (ys & Hys & [= <-])%result_bind_Ok).
      constructor; [done|]. by apply IH.
    + inversion 1; subst. eexists; split; [done|].
      apply result_bind_Ok. eexists; split; [|done]. by apply IH.
Qed.

Lemma collect_total {A B} (f : A -> result B) (l : list A) :
  Forall (fun x => exists y, f x = Ok y) l -> exists k, collect f l = Ok k.
Proof.
  induction 1 as [|x l [y Hy] _ [k Hk]]; simpl; [by eexists|].
  rewrite Hy, result_bind_ret, Hk. by eexists.
Qed.

(** ** Automation *)

Create HintDb go.
Create Rewrite HintDb go.
#[export] Hint Resolve len_nonneg wrap64_range : go.
#[export] Hint Rewrite @len_nil @len_cons @len_app @len_insert : go.

(** Run the monadic binds whose left-hand side is known. *)
Ltac go_run := cbn [mbind mret result_bind result_ret].

(** Split a hypothesis that says a monadic computation returned [Ok]. *)
Ltac go_inv :=
  repeat match goal with
  | H : Ok _ = Ok _ |- _ => injection H as H; subst
  | H : Ok _ = Panic _ |- _ => discriminate H
  | H : Panic _ = Ok _ |- _ => discriminate H
  | H : Some _ = Some _ |- _ => apply (inj Some) in H; subst
  | H : None = Some _ |- _ => discriminate H
  | H : Some _ = None |- _ => discriminate H
  | H : (_ ≫= _) = Ok _ |- _ =>
      apply result_bind_Ok in H;
      let a := fresh "a" in let Ha := fresh "Ha" in destruct H as (a & Ha & H)
  | H : mret _ = Ok _ |- _ => unfold mret, result_ret in H
  end.

(** Evaluate the boolean comparisons on integers into facts [lia] can use. *)
Ltac zbool :=
  repeat match goal with
  | H : (_ <? _)%Z = true |- _ => apply Z.ltb_lt in H
  | H : (_ <? _)%Z = false |- _ => apply Z.ltb_ge in H
  | H : (_ <=? _)%Z = true |- _ => apply Z.leb_le in H
  | H : (_ <=? _)%Z = false |- _ => apply Z.leb_gt in H
  | H : (_ =? _)%Z = true |- _ => apply Z.eqb_eq in H
  | H : (_ =? _)%Z = false |- _ => apply Z.eqb_neq in H
  | H : (_ && _)%bool = true |- _ => apply andb_true_iff in H as [? ?]
  end.

(** Case split on the innermost conditionals of the goal or a hypothesis. *)
Ltac split_ifs :=
  repeat match goal with
  | |- context [if ?b then _ else _] =>
      lazymatch b with
      | context [if _ then _ else _] => fail
      | _ => let E := fresh "E" in destruct b eqn:E
      end
  | H : context [if ?b then _ else _] |- _ =>
      lazymatch b with
      | context [if _ then _ else _] => fail
      | _ => let E := fresh "E" in destruct b eqn:E
      end
  end.
