(* ===== verification/Labrpc.v ===== *)
(** * labrpc/labrpc.go: the simulated network

    The network's tables, the operations of the tester on them, and the
    goroutines behind one [Call]: the caller, [processReq], and the goroutine
    that runs the handler.  Every access to the tables holds [rn.mu] (or
    [rs.mu]), so each is atomic; [step] interleaves them.  The random
    decisions of [processReq] and its delays are choices of the label.
    Server pointers are indices into [heap], nil is [None]. *)

From Stdlib Require Import ZArith Lia Ascii.
From stdpp Require Import base numbers strings gmap list.
From S2P Require Import Prelude.
Local Open Scope Z_scope.

(** [labgob] on the values that travel: encoding may fail, and what was
    encoded decodes to itself. *)
Class Codec (V : Type) := {
  encode : V -> option bytes;
  decode : bytes -> option V;
  zero_value : V;
  codec_roundtrip v b : encode v = Some b -> decode b = Some v;
}.

Record replyMsg := mkReplyMsg { ok : bool; reply : bytes }.

(** ** Services and servers *)

(** A method as [reflect] sees it: the kinds of its inputs (the receiver is
    the first) are reduced to being pointers or not. *)
Record method := mkMethod {
  m_name : string;
  m_PkgPath : string;
  m_in_ptr : list bool;
  m_NumOut : Z;
}.

Record Service := mkService { svc_name : string; methods : gmap string method }.

(** The test in the loop of [MakeService]; [mtype.In(2)] is only reached
    when there are three inputs. *)
Definition suitable (m : method) : bool :=
  negb (negb (bool_decide (m_PkgPath m = ""%string))
        || negb (len (m_in_ptr m) =? 3)
        || negb (default false (m_in_ptr m !! 2%nat))
        || negb (m_NumOut m =? 0)).

Definition MakeService (name : string) (ms : list method) : Service :=
  mkService name
    (foldl (fun t m => if suitable m then <[m_name m := m]> t else t) ∅ ms).

Record Server := mkServer { services : gmap string Service; srv_count : Z }.

Definition MakeServer : Server := mkServer ∅ 0.

Definition AddService (rs : Server) (svc : Service) : Server :=
  mkServer (<[svc_name svc := svc]> (services rs)) (srv_count rs).

(** [strings.LastIndex(s, ".")] with the two slices around it; without a dot
    the index is -1 and slicing panics. *)
Fixpoint lastDot (s : string) : option (string * string) :=
  match s with
  | EmptyString => None
  | String c s =>
    match lastDot s with
    | Some (before, after) => Some (String c before, after)
    | None => if Ascii.eqb c "."%char then Some (""%string, s) else None
    end
  end.

(** [Service.dispatch]: the method to call. *)
Definition service_dispatch (svc : Service) (methname : string) : result method :=
  match methods svc !! methname with
  | Some m => Ok m
  | None => Panic (LogFatal "labrpc.Service.dispatch(): unknown method")
  end.

(** [Server.dispatch]: the server with its count, and the method to call. *)
Definition server_dispatch (rs : Server) (svcMeth : string) : result (Server * method) :=
  let rs := mkServer (services rs) (srv_count rs + 1) in
  match lastDot svcMeth with
  | None => Panic SliceOutOfRange
  | Some (serviceName, methodName) =>
    match services rs !! serviceName with
    | Some svc => m ← service_dispatch svc methodName; Ok (rs, m)
    | None => Panic (LogFatal "labrpc.Server.dispatch(): unknown service")
    end
  end.

Section network.
Context {Name V : Type} `{Countable Name} `{Codec V}.

(** ** The network's tables *)

Record Network := mkNetwork {
  reliable : bool;
  longDelays : bool;
  longReordering : bool;
  ends : gset Name;
  enabled : gmap Name bool;
  servers : gmap Name (option nat);
  connections : gmap Name (option Name);
  done : bool;
  count : Z;
  nbytes : Z;
}.

Definition MakeNetwork : Network :=
  mkNetwork true false false ∅ ∅ ∅ ∅ false 0 0.

Implicit Types (rn : Network) (endname servername : Name).

(** [close(rn.done)] *)
Definition Cleanup rn : result Network :=
  if done rn then Panic (PanicMsg "close of closed channel")
  else Ok (mkNetwork (reliable rn) (longDelays rn) (longReordering rn) (ends rn) (enabled rn)
             (servers rn) (connections rn) true (count rn) (nbytes rn)).

Definition Reliable rn (yes : bool) : Network :=
  mkNetwork yes (longDelays rn) (longReordering rn) (ends rn) (enabled rn) (servers rn)
    (connections rn) (done rn) (count rn) (nbytes rn).

Definition LongReordering rn (yes : bool) : Network :=
  mkNetwork (reliable rn) (longDelays rn) yes (ends rn) (enabled rn) (servers rn)
    (connections rn) (done rn) (count rn) (nbytes rn).

Definition LongDelays rn (yes : bool) : Network :=
  mkNetwork (reliable rn) yes (longReordering rn) (ends rn) (enabled rn) (servers rn)
    (connections rn) (done rn) (count rn) (nbytes rn).

Definition set_enabled rn (m : gmap Name bool) : Network :=
  mkNetwork (reliable rn) (longDelays rn) (longReordering rn) (ends rn) m (servers rn)
    (connections rn) (done rn) (count rn) (nbytes rn).

Definition set_servers rn (m : gmap Name (option nat)) : Network :=
  mkNetwork (reliable rn) (longDelays rn) (longReordering rn) (ends rn) (enabled rn) m
    (connections rn) (done rn) (count rn) (nbytes rn).

Definition set_connections rn (m : gmap Name (option Name)) : Network :=
  mkNetwork (reliable rn) (longDelays rn) (longReordering rn) (ends rn) (enabled rn)
    (servers rn) m (done rn) (count rn) (nbytes rn).

Definition MakeEnd rn endname : result Network :=
  if bool_decide (endname ∈ ends rn) then Panic (LogFatal "MakeEnd: already exists")
  else
    let rn := mkNetwork (reliable rn) (longDelays rn) (longReordering rn)
                ({[endname]} ∪ ends rn) (enabled rn) (servers rn) (connections rn)
                (done rn) (count rn) (nbytes rn) in
    let rn := set_enabled rn (<[endname := false]> (enabled rn)) in
    Ok (set_connections rn (<[endname := None]> (connections rn))).

Definition AddServer rn servername (rs : nat) : Network :=
  set_servers rn (<[servername := Some rs]> (servers rn)).

Definition DeleteServer rn servername : Network :=
  set_servers rn (<[servername := None]> (servers rn)).

Definition Connect rn endname servername : Network :=
  set_connections rn (<[endname := Some servername]> (connections rn)).

Definition Enable rn endname (yes : bool) : Network :=
  set_enabled rn (<[endname := yes]> (enabled rn)).

(** A missing key of a Go map reads as the zero value. *)
Definition is_enabled rn endname : bool := default false (enabled rn !! endname).
Definition server_of rn servername : option nat := mjoin (servers rn !! servername).
Definition connection rn endname : option Name := mjoin (connections rn !! endname).

(** The result has the server name and the server, when both are not nil. *)
Definition readEndnameInfo rn endname : bool * option (Name * nat) * bool * bool :=
  (is_enabled rn endname,
   servername ← connection rn endname; server ← server_of rn servername; Some (servername, server),
   reliable rn, longReordering rn).

Definition isServerDead rn endname servername (server : nat) : bool :=
  negb (is_enabled rn endname) || negb (bool_decide (server_of rn servername = Some server)).

Definition GetCount rn (heap : list Server) servername : result Z :=
  match server_of rn servername with
  | Some s => match heap !! s with Some rs => Ok (srv_count rs) | None => Panic NilDereference end
  | None => Panic NilDereference
  end.

Definition GetTotalCount rn : Z := count rn.
Definition GetTotalBytes rn : Z := nbytes rn.

Definition add_count rn (n : Z) : Network :=
  mkNetwork (reliable rn) (longDelays rn) (longReordering rn) (ends rn) (enabled rn)
    (servers rn) (connections rn) (done rn) (wrap32 (count rn + 1)) (wrap64 (nbytes rn + n)).

Definition add_bytes rn (n : Z) : Network :=
  mkNetwork (reliable rn) (longDelays rn) (longReordering rn) (ends rn) (enabled rn)
    (servers rn) (connections rn) (done rn) (count rn) (wrap64 (nbytes rn + n)).

(** ** Calls *)

Record reqMsg := mkReqMsg { endname : Name; svcMeth : string; args : bytes }.

(** Where [Call] is: in its first select, waiting for the reply, returned
    ([None] for false, [Some v] for true with the reply decoded to [v]). *)
Inductive caller := Sending | Waiting | Returned (r : option V).

(** What [processReq] read at its start. *)
Record info := mkInfo {
  i_servername : Name;
  i_server : nat;
  i_reliable : bool;
  i_longreordering : bool;
}.

(** Where [processReq] is. *)
Inductive proc :=
| Absent                                (* not started *)
| Reading                               (* before readEndnameInfo *)
| Deciding (i : info)                   (* before the first random drop *)
| Polling (i : info)                    (* in the loop on ech *)
| Finishing (i : info) (r : option replyMsg) (* after the loop *)
| Delayed (r : replyMsg)                (* AfterFunc with a reply to deliver *)
| Replying (r : replyMsg)               (* req.replyCh <- r *)
| Ended.

(** Where the goroutine that runs the handler is. *)
Inductive handler :=
| NoHandler
| Dispatching (server : nat)            (* started, before server.dispatch *)
| Running (server : nat)                (* inside the method *)
| Holding (r : replyMsg)                (* ech <- r *)
| Drained.

Record call := mkCall { c_req : reqMsg; c_caller : caller; c_proc : proc; c_handler : handler }.

(** [listening]: the goroutine of [MakeNetwork] is in its loop. *)
Record World := mkWorld {
  net : Network;
  heap : list Server;
  calls : list call;
  listening : bool;
}.

Definition init_world : World := mkWorld MakeNetwork [] [] true.

(** What the outside sees of a call. *)
Inductive event :=
| Called (k : nat) (e : Name) (v : V)      (* end e is called with v *)
| Invoked (k server : nat) (args : V)      (* the handler is called *)
| HandlerReturned (k : nat) (v : V)        (* it returns *)
| CallReturned (k : nat) (r : option V).   (* Call returns *)

Inductive admin :=
| ACleanup | AReliable (b : bool) | ALongReordering (b : bool) | ALongDelays (b : bool)
| AMakeEnd (e : Name) | AConnect (e s : Name) | AEnable (e : Name) (b : bool)
| AMakeServer | AAddService (server : nat) (svc : Service)
| AAddServer (s : Name) (server : nat) | ADeleteServer (s : Name).

Inductive label :=
| LCall (e : Name) (svcMeth : string) (v : V)  (* a goroutine calls end e *)
| LAccept (k : nat)          (* e.ch <- req meets <-rn.endCh *)
| LAbort (k : nat)           (* <-e.done *)
| LStop                      (* the network goroutine returns *)
| LRead (k : nat)            (* readEndnameInfo *)
| LDecide (k : nat) (drop : bool)  (* the delay is over; drop the request? *)
| LDispatch (k : nat)        (* server.dispatch calls the method *)
| LHandler (k : nat) (v : V) (* the method returns with the reply v *)
| LReceive (k : nat)         (* reply = <-ech *)
| LPoll (k : nat)            (* the 100ms time-out of the loop *)
| LDrain (k : nat)           (* the draining goroutine receives *)
| LFinal (k : nat) (drop reorder : bool)  (* isServerDead, then the random tests *)
| LTimer (k : nat)           (* the delay of a reordered reply is over *)
| LDeliver (k : nat)         (* req.replyCh <- r meets <-req.replyCh *)
| LAdmin (a : admin).

Definition failure : replyMsg := mkReplyMsg false [].

(** [Call] up to its first select: [None] of the codec panics. *)
Definition startCall (e : Name) (svcMeth : string) (v : V) : result call :=
  match encode v with
  | Some b => Ok (mkCall (mkReqMsg e svcMeth b) Sending Absent NoHandler)
  | None => Panic (PanicMsg "labgob: encode")
  end.

(** [Call] after it received the reply. *)
Definition finishCall (r : replyMsg) : result (option V) :=
  if ok r then
    match decode (reply r) with
    | Some v => Ok (Some v)
    | None => Panic (LogFatal "ClientEnd.Call(): decode reply")
    end
  else Ok None.

(** [processReq] from its start to its first random test or its end. *)
Definition proc_read (rn : Network) (req : reqMsg) : proc :=
  let '(enabled, server, reliable, longreordering) := readEndnameInfo rn (endname req) in
  match server with
  | Some (servername, server) =>
    if enabled then Deciding (mkInfo servername server reliable longreordering)
    else Replying failure
  | None => Replying failure
  end.

(** [drop]: the outcome of [(rand.Int()%1000) < 100]. *)
Definition proc_decide (i : info) (drop : bool) : proc * handler :=
  if negb (i_reliable i) && drop then (Replying failure, NoHandler)
  else (Polling i, Dispatching (i_server i)).

(** The end of [processReq]; the bytes of the reply are counted when it is
    sent. *)
Definition proc_final (rn : Network) (req : reqMsg) (i : info) (r : option replyMsg)
    (drop reorder : bool) : Network * proc :=
  let serverDead := isServerDead rn (endname req) (i_servername i) (i_server i) in
  match r with
  | Some r =>
    if serverDead then (rn, Replying failure)
    else if negb (i_reliable i) && drop then (rn, Replying failure)
    else if i_longreordering i && reorder then (rn, Delayed r)
    else (add_bytes rn (len (reply r)), Replying r)
  | None => (rn, Replying failure)
  end.

Definition admin_step (a : admin) (w : World) : result World :=
  let put rn := mkWorld rn (heap w) (calls w) (listening w) in
  match a with
  | ACleanup => rn ← Cleanup (net w); Ok (put rn)
  | AReliable b => Ok (put (Reliable (net w) b))
  | ALongReordering b => Ok (put (LongReordering (net w) b))
  | ALongDelays b => Ok (put (LongDelays (net w) b))
  | AMakeEnd e => rn ← MakeEnd (net w) e; Ok (put rn)
  | AConnect e s => Ok (put (Connect (net w) e s))
  | AEnable e b => Ok (put (Enable (net w) e b))
  | AMakeServer => Ok (mkWorld (net w) (heap w ++ [MakeServer]) (calls w) (listening w))
  | AAddService s svc =>
    match heap w !! s with
    | Some rs => Ok (mkWorld (net w) (<[s := AddService rs svc]> (heap w)) (calls w) (listening w))
    | None => Panic NilDereference
    end
  | AAddServer n s => Ok (put (AddServer (net w) n s))
  | ADeleteServer n => Ok (put (DeleteServer (net w) n))
  end.

(** A pointer to a server is the result of [MakeServer]. *)
Definition admin_valid (a : admin) (w : World) : bool :=
  match a with
  | AAddService s _ | AAddServer _ s => bool_decide (s < length (heap w))%nat
  | _ => true
  end.

(** The k-th call's goroutines move. *)
Definition upd (w : World) (k : nat) (c : call) : World :=
  mkWorld (net w) (heap w) (<[k := c]> (calls w)) (listening w).
Definition upd_net (w : World) (rn : Network) (k : nat) (c : call) : World :=
  mkWorld rn (heap w) (<[k := c]> (calls w)) (listening w).

Definition call_step (l : label) (k : nat) (c : call) (w : World)
    : option (result (World * list event)) :=
  let req := c_req c in
  match l, c_caller c, c_proc c, c_handler c with
  | LAccept _, Sending, Absent, h =>
    if listening w
    then Some (Ok (upd_net w (add_count (net w) (len (args req))) k
                     (mkCall req Waiting Reading h), []))
    else None
  | LAbort _, Sending, p, h =>
    if done (net w)
    then Some (Ok (upd w k (mkCall req (Returned None) p h), [CallReturned k None]))
    else None
  | LRead _, cl, Reading, h =>
    Some (Ok (upd w k (mkCall req cl (proc_read (net w) req) h), []))
  | LDecide _ drop, cl, Deciding i, _ =>
    let '(p, h) := proc_decide i drop in
    Some (Ok (upd w k (mkCall req cl p h), []))
  | LDispatch _, cl, p, Dispatching s =>
    rs ← heap w !! s;
    Some ('(rs, _) ← server_dispatch rs (svcMeth req);
          Ok (mkWorld (net w) (<[s := rs]> (heap w))
                (<[k := mkCall req cl p (Running s)]> (calls w)) (listening w),
              [Invoked k s (default zero_value (decode (args req)))]))
  | LHandler _ v, cl, p, Running s =>
    Some (Ok (upd w k (mkCall req cl p (Holding (mkReplyMsg true (default [] (encode v))))),
              [HandlerReturned k v]))
  | LReceive _, cl, Polling i, Holding r =>
    Some (Ok (upd w k (mkCall req cl (Finishing i (Some r)) Drained), []))
  | LPoll _, cl, Polling i, h =>
    let dead := isServerDead (net w) (endname req) (i_servername i) (i_server i) in
    Some (Ok (upd w k (mkCall req cl (if dead then Finishing i None else Polling i) h), []))
  | LDrain _, cl, (Finishing _ None | Replying _ | Ended) as p, Holding r =>
    Some (Ok (upd w k (mkCall req cl p Drained), []))
  | LFinal _ drop reorder, cl, Finishing i r, h =>
    let '(rn, p) := proc_final (net w) req i r drop reorder in
    Some (Ok (upd_net w rn k (mkCall req cl p h), []))
  | LTimer _, cl, Delayed r, h =>
    Some (Ok (upd_net w (add_bytes (net w) (len (reply r))) k (mkCall req cl (Replying r) h), []))
  | LDeliver _, Waiting, Replying r, h =>
    Some (v ← finishCall r;
          Ok (upd w k (mkCall req (Returned v) Ended h), [CallReturned k v]))
  | _, _, _, _ => None
  end.

(** The call a label is about. *)
Definition label_call (l : label) : option nat :=
  match l with
  | LCall _ _ _ | LStop | LAdmin _ => None
  | LAccept k | LAbort k | LRead k | LDecide k _ | LDispatch k | LHandler k _ | LReceive k
  | LPoll k | LDrain k | LFinal k _ _ | LTimer k | LDeliver k => Some k
  end.

Definition step (l : label) (w : World) : option (result (World * list event)) :=
  match l with
  | LCall e m v => Some (c ← startCall e m v;
      Ok (mkWorld (net w) (heap w) (calls w ++ [c]) (listening w),
          [Called (length (calls w)) e v]))
  | LStop =>
    if done (net w) && listening w
    then Some (Ok (mkWorld (net w) (heap w) (calls w) false, []))
    else None
  | LAdmin a =>
    if admin_valid a w then Some (w ← admin_step a w; Ok (w, [])) else None
  | _ =>
    k ← label_call l;
    c ← calls w !! k;
    call_step l k c w
  end.

Fixpoint run (ls : list label) (w : World) : option (result (World * list event)) :=
  match ls with
  | [] => Some (Ok (w, []))
  | l :: ls =>
    r ← step l w;
    match r with
    | Panic e => Some (Panic e)
    | Ok (w, tr) =>
      r ← run ls w;
      Some ('(w, tr') ← r; Ok (w, tr ++ tr'))
    end
  end.
End network.
