(* ===== verification/LabrpcTheorems.v ===== *)
(** * labrpc/labrpc.go: what a call promises

    The history of a call as the outside sees it, the invariant that ties it
    to the three goroutines behind the call, and the properties of [Call] its
    users rely on. *)

From Stdlib Require Import ZArith Lia Strings.Byte.
From stdpp Require Import base numbers strings gmap list.
From S2P Require Import Prelude Labrpc.
Local Open Scope Z_scope.

Section history.
Context {Name V : Type} `{Countable Name} `{Codec V}.
Implicit Types (w : World (Name := Name) (V := V)) (c : call (Name := Name) (V := V)).
Implicit Types (tr h : list (event (Name := Name) (V := V))).

(** ** The history of a call *)

Definition event_call (e : event (Name := Name) (V := V)) : nat :=
  match e with
  | Called k _ _ | Invoked k _ _ | HandlerReturned k _ | CallReturned k _ => k
  end.

Definition history (k : nat) tr : list event := filter (fun e => event_call e = k) tr.

Definition returned_of (e : event (Name := Name) (V := V)) : option (option V) :=
  match e with CallReturned _ r => Some r | _ => None end.

(** What happened to the call at the other side. *)
Definition work h : list event := filter (fun e => returned_of e = None) h.

(** The values [Call] returned. *)
Definition returns h : list (option V) := omap returned_of h.

(** The reply message that carries what the handler returned. *)
Definition reply_of (v : V) : replyMsg := mkReplyMsg true (default [] (encode v)).

(** The reply a goroutine of the call holds. *)
Definition proc_reply (p : proc (Name := Name)) : option replyMsg :=
  match p with
  | Finishing _ r => r
  | Delayed r | Replying r => Some r
  | _ => None
  end.

Definition holds c (r : replyMsg) : Prop :=
  c_handler c = Holding r \/ (proc_reply (c_proc c) = Some r /\ ok r = true).

(** The history that belongs to the state of the handler's goroutine. *)
Inductive work_ok (k : nat) (e : Name) (b : bytes) : handler -> list event -> Prop :=
| work_called hd v :
    hd = NoHandler \/ (exists s, hd = Dispatching s) -> encode v = Some b ->
    work_ok k e b hd [Called k e v]
| work_running s v :
    encode v = Some b -> work_ok k e b (Running s) [Called k e v; Invoked k s v]
| work_returned hd s v v' :
    hd = Holding (reply_of v') \/ hd = Drained -> encode v = Some b ->
    work_ok k e b hd [Called k e v; Invoked k s v; HandlerReturned k v'].

Record call_inv (k : nat) c h : Prop := {
  ca_work : work_ok k (endname (c_req c)) (args (c_req c)) (c_handler c) (work h);
  ca_returns : returns h = match c_caller c with Returned r => [r] | _ => [] end;
  ca_holds r : holds c r -> exists v, r = reply_of v /\ HandlerReturned k v ∈ work h;
  ca_reply r : proc_reply (c_proc c) = Some r -> ok r = true -> c_handler c = Drained;
  ca_early : match c_proc c with
             | Absent | Reading | Deciding _ => c_handler c = NoHandler
             | _ => True
             end;
  ca_true x : c_caller c = Returned (Some x) ->
    exists e v s v', h = [Called k e v; Invoked k s v; HandlerReturned k v'; CallReturned k (Some x)] /\
      decode (reply (reply_of v')) = Some x;
}.

Lemma work_app h h' : work (h ++ h') = work h ++ work h'.
Proof. apply filter_app. Qed.

Lemma returns_app h h' : returns (h ++ h') = returns h ++ returns h'.
Proof. unfold returns. by rewrite omap_app. Qed.

Lemma work_prefix k e b hd h :
  work_ok k e b hd h ->
  exists v s v', h `prefix_of` [Called k e v; Invoked k s v; HandlerReturned k v'].
Proof.
  intros [hd' v _ _|s v _|hd' s v v' _ _].
  - exists v, 0%nat, zero_value. by eexists.
  - exists v, s, zero_value. by eexists.
  - by exists v, s, v'.
Qed.

(** Without a return, the history is the work. *)
Lemma work_all h : returns h = [] -> work h = h.
Proof.
  unfold returns, work. induction h as [|e h IH]; [done|]. simpl.
  destruct (returned_of e) eqn:E; simpl; [done|]. intros Hr.
  rewrite filter_cons, decide_True by done. f_equal. by apply IH.
Qed.

(** A step of the call that the outside does not see. *)
Lemma call_inv_quiet k c c' h :
  call_inv k c h -> c_req c' = c_req c -> c_caller c' = c_caller c ->
  (c_handler c' = c_handler c \/
   (c_handler c = NoHandler /\ exists s, c_handler c' = Dispatching s) \/
   (exists r, c_handler c = Holding r /\ c_handler c' = Drained)) ->
  (forall r, holds c' r -> holds c r) ->
  (forall r, proc_reply (c_proc c') = Some r -> ok r = true -> c_handler c' = Drained) ->
  match c_proc c' with
  | Absent | Reading | Deciding _ => c_handler c' = NoHandler
  | _ => True
  end -> call_inv k c' h.
Proof.
  intros [Hw Hret Hh _ _ Ht] Er Ec Ehd Hholds Hrep Hearly.
  constructor; rewrite ?Er, ?Ec; try done; [|by eauto].
  destruct Ehd as [->|[[E [s ->]]|(r & E & ->)]]; [done| |]; rewrite E in Hw.
  - inversion Hw as [hd v _ He|s' v He|hd s' v v' [Hd|Hd] He]; subst; try done.
    apply work_called; [right; by eexists|done].
  - inversion Hw as [hd v [Hd|[? Hd]] He|s' v He|hd s' v v' Hd He]; subst; try done.
    apply work_returned; [by right|done].
Qed.

(** The events of another call. *)
Lemma history_other k k' tr evs :
  Forall (fun e => event_call e = k') evs -> k <> k' -> history k (tr ++ evs) = history k tr.
Proof.
  intros Hev Hne. unfold history. rewrite filter_app.
  assert (filter (fun e => event_call e = k) evs = []) as ->; [|by rewrite app_nil_r].
  clear tr. induction Hev as [|e evs He _ IH]; [done|].
  rewrite filter_cons, decide_False; [done|]. by rewrite He.
Qed.

Lemma history_own k tr evs :
  Forall (fun e => event_call e = k) evs -> history k (tr ++ evs) = history k tr ++ evs.
Proof.
  intros Hev. unfold history. rewrite filter_app. f_equal.
  induction Hev as [|e evs He _ IH]; [done|]. by rewrite filter_cons, decide_True, IH.
Qed.
End history.

(** ** The invariant of the network *)

Section invariant.
Context {Name V : Type} `{Countable Name} `{Codec V}.
Implicit Types (w : World (Name := Name) (V := V)) (c : call (Name := Name) (V := V)).
Implicit Types (tr h : list (event (Name := Name) (V := V))).

(** The requests server [s] has handled. *)
Definition invoked_on (e : event (Name := Name) (V := V)) : option nat :=
  match e with Invoked _ s _ => Some s | _ => None end.

Definition handled (s : nat) tr : list event := filter (fun e => invoked_on e = Some s) tr.

Record rpc_inv w tr : Prop := {
  ri_calls k c : calls w !! k = Some c -> call_inv k c (history k tr);
  ri_known : Forall (fun e => (event_call e < length (calls w))%nat) tr;
  ri_counts s rs : heap w !! s = Some rs -> srv_count rs = len (handled s tr);
  ri_heap : Forall (fun e => forall s, invoked_on e = Some s -> (s < length (heap w))%nat) tr;
}.

(** What one step of a call changes. *)
Record call_moved (k : nat) c w w' (evs : list (event (Name := Name) (V := V))) : Prop := {
  cm_call c' h : calls w' !! k = Some c' -> call_inv k c h -> call_inv k c' (h ++ evs);
  cm_others k' : k' <> k -> calls w' !! k' = calls w !! k';
  cm_length : length (calls w') = length (calls w);
  cm_events : Forall (fun e => event_call e = k) evs;
  cm_counts s rs : heap w' !! s = Some rs ->
    exists rs0, heap w !! s = Some rs0 /\ srv_count rs = srv_count rs0 + len (handled s evs);
  cm_heap : length (heap w') = length (heap w);
  cm_served : Forall (fun e => forall s, invoked_on e = Some s -> (s < length (heap w))%nat) evs;
}.

Lemma moved_put k c w rn c' evs :
  calls w !! k = Some c -> (forall h, call_inv k c h -> call_inv k c' (h ++ evs)) ->
  Forall (fun e => event_call e = k) evs ->
  Forall (fun e => invoked_on e = None) evs ->
  call_moved k c w (upd_net w rn k c') evs.
Proof.
  intros Hk Hc Hev Hno. constructor; simpl; try done.
  - intros c2 h. rewrite list_lookup_insert_eq by (by eapply lookup_lt_Some).
    intros [= <-]. by apply Hc.
  - intros k' Hne. by apply list_lookup_insert_ne.
  - apply length_insert.
  - intros s rs Hs. exists rs. split; [done|].
    assert (handled s evs = []) as ->; [|rewrite len_nil; lia].
    clear -Hno. unfold handled. induction Hno as [|e evs He _ IH]; [done|].
    rewrite filter_cons, decide_False; [done|]. by rewrite He.
  - eapply Forall_impl; [done|]. intros e He s. by rewrite He.
Qed.

Lemma moved_quiet k c w rn c' :
  calls w !! k = Some c -> (forall h, call_inv k c h -> call_inv k c' h) ->
  call_moved k c w (upd_net w rn k c') [].
Proof.
  intros Hk Hc. apply moved_put; [done| |done|done]. intros h. rewrite app_nil_r. by apply Hc.
Qed.

Lemma quiet_early k c p h :
  call_inv k c h -> match c_proc c with Absent | Reading | Deciding _ => True | _ => False end ->
  proc_reply p = None \/ proc_reply p = Some failure ->
  forall cl, cl = c_caller c \/ (c_caller c = Sending /\ cl = Waiting) ->
  call_inv k (mkCall (c_req c) cl p (c_handler c)) h.
Proof.
  intros [Hw Hret Hh Hrep He Ht] Hp Hr cl Hcl. constructor; unfold holds; simpl; try done.
  - destruct Hcl as [->|[Ec ->]]; [done|]. by rewrite Ec in Hret.
  - intros r [Hd|[Hpr Hok]]; [apply Hh; by left|].
    destruct Hr as [Hr|Hr]; rewrite Hr in Hpr; [done|]. injection Hpr as <-. done.
  - intros r Hpr Hok. destruct Hr as [Hr|Hr]; rewrite Hr in Hpr; [done|].
    by injection Hpr as <-.
  - destruct (c_proc c); try done; by destruct p.
  - intros x Hx. apply Ht. destruct Hcl as [<-|[_ ->]]; done.
Qed.

Lemma proc_read_reply (rn : Network (Name := Name)) req :
  proc_reply (proc_read rn req) = None \/ proc_reply (proc_read rn req) = Some failure.
Proof.
  unfold proc_read, readEndnameInfo. destruct (_ ≫= _) as [[n s]|]; [|by right].
  destruct (is_enabled rn _); [by left|by right].
Qed.

Lemma returned_none k c h :
  call_inv k c h -> c_caller c = Sending ->
  call_inv k (mkCall (c_req c) (Returned None) (c_proc c) (c_handler c)) (h ++ [CallReturned k None]).
Proof.
  intros [Hw Hret Hh Hrep He Ht] Hc. rewrite Hc in Hret. constructor; unfold holds; simpl; try done.
  - by rewrite work_app, app_nil_r.
  - by rewrite returns_app, Hret.
  - intros r Hr. rewrite work_app, app_nil_r. by apply Hh.
Qed.

Lemma decided k c i drop h :
  call_inv k c h -> c_proc c = Deciding i ->
  let '(p, hd) := proc_decide i drop in call_inv k (mkCall (c_req c) (c_caller c) p hd) h.
Proof.
  intros Hi Hp. unfold proc_decide. pose proof (ca_early _ _ _ Hi) as Hn. rewrite Hp in Hn.
  destruct (negb (i_reliable i) && drop).
  - rewrite <- Hn. apply quiet_early; [done|by rewrite Hp|by right|by left].
  - eapply call_inv_quiet; [exact Hi|done|done| | | |done]; simpl.
    + right; left. split; [done|by eexists].
    + intros r [?|[? ?]]; done.
    + done.
Qed.

Lemma invoked k c s v h :
  call_inv k c h -> c_handler c = Dispatching s ->
  v = default zero_value (decode (args (c_req c))) ->
  call_inv k (mkCall (c_req c) (c_caller c) (c_proc c) (Running s)) (h ++ [Invoked k s v]).
Proof.
  intros [Hw Hret Hh Hrep He Ht] Hd Hv. rewrite Hd in Hw.
  inversion Hw as [hd v0 Hhd He0 E1 E2|s' v0 He0|hd s' v0 v' [Hhd|Hhd] He0]; subst; try done.
  constructor; unfold holds; simpl; try done.
  - rewrite work_app, <- E2. cbn. rewrite (codec_roundtrip _ _ He0). by apply work_running.
  - by rewrite returns_app, app_nil_r.
  - intros r [?|[Hpr Hok]]; [done|]. specialize (Hrep r Hpr Hok). congruence.
  - intros r Hpr Hok. specialize (Hrep r Hpr Hok). congruence.
  - destruct (c_proc c); simpl in *; congruence.
  - intros x Hx. destruct (Ht x Hx) as (e & v1 & s' & v' & -> & _). by inversion E2.
Qed.

Lemma handler_returned k c s v h :
  call_inv k c h -> c_handler c = Running s ->
  call_inv k (mkCall (c_req c) (c_caller c) (c_proc c) (Holding (reply_of v)))
    (h ++ [HandlerReturned k v]).
Proof.
  intros [Hw Hret Hh Hrep He Ht] Hd. rewrite Hd in Hw.
  inversion Hw as [hd v0 [Hhd|[? Hhd]] He0|s' v0 He0 E1 E2|hd s' v0 v' [Hhd|Hhd] He0]; subst; try done.
  constructor; unfold holds; simpl; try done.
  - rewrite work_app, <- E2. apply work_returned; [by left|done].
  - by rewrite returns_app, app_nil_r.
  - intros r [[= <-]|[Hpr Hok]]; [|specialize (Hrep r Hpr Hok); congruence].
    exists v. split; [done|]. rewrite work_app. set_solver.
  - intros r Hpr Hok. specialize (Hrep r Hpr Hok). congruence.
  - destruct (c_proc c); simpl in *; congruence.
  - intros x Hx. destruct (Ht x Hx) as (e & v1 & s' & v' & -> & _). by inversion E2.
Qed.

Lemma delivered k c r x h :
  call_inv k c h -> c_caller c = Waiting -> c_proc c = Replying r -> finishCall r = Ok x ->
  call_inv k (mkCall (c_req c) (Returned x) Ended (c_handler c)) (h ++ [CallReturned k x]).
Proof.
  intros [Hw Hret Hh Hrep He Ht] Hc Hp Hf. rewrite Hc in Hret. rewrite Hp in Hrep. simpl in *.
  constructor; unfold holds; simpl; try done.
  - by rewrite work_app, app_nil_r.
  - by rewrite returns_app, Hret.
  - intros r' [Hr'|[? _]]; [|done]. rewrite work_app, app_nil_r. apply Hh. by left.
  - intros x' [= ->]. unfold finishCall in Hf. destruct (ok r) eqn:Ho; [|by injection Hf].
    destruct (decode (reply r)) as [v'|] eqn:Ed; [|done]. injection Hf as ->.
    destruct (Hh r) as (v0 & -> & Hin); [right; by rewrite Hp|].
    specialize (Hrep _ eq_refl eq_refl). rewrite Hrep in Hw.
    inversion Hw as [hd v [Hhd|[? Hhd]] He0|s v He0|hd s v v1 _ He0 E1 E2]; subst; try done.
    rewrite <- (work_all h Hret), <- E2. eexists _, _, _, _. split; [done|].
    assert (v0 = v1) as -> by set_solver. done.
Qed.

(** The reply moves from one place of [processReq] to the next. *)
Lemma forwarded k c p h :
  call_inv k c h ->
  match c_proc c with Finishing _ _ | Delayed _ => True | _ => False end ->
  match p with Delayed _ | Replying _ => True | _ => False end ->
  (forall r, proc_reply p = Some r -> ok r = true -> proc_reply (c_proc c) = Some r) ->
  call_inv k (mkCall (c_req c) (c_caller c) p (c_handler c)) h.
Proof.
  intros Hi Hp Hp' Hr. eapply call_inv_quiet; [exact Hi|done|done|by left| | |]; unfold holds; simpl.
  - intros r [?|[? ?]]; [by left|right; auto].
  - intros r Hpr Hok. apply (ca_reply _ _ _ Hi r); [by apply Hr|done].
  - by destruct p.
Qed.

Lemma finished k c w i r drop reorder h :
  call_inv k c h -> c_proc c = Finishing i r ->
  call_inv k (mkCall (c_req c) (c_caller c)
    (snd (proc_final (net w) (c_req c) i r drop reorder)) (c_handler c)) h.
Proof.
  intros Hi Hp. apply forwarded; [done|by rewrite Hp| |]; rewrite ?Hp; unfold proc_final.
  - destruct r as [r|]; [|done]. repeat (case_match; simpl; try done).
  - intros r' Hr' Hok. destruct r as [r|]; simpl in *; [|by injection Hr' as <-].
    repeat (case_match; simpl in Hr'; try done); try (by injection Hr' as <-).
Qed.

Lemma server_dispatch_count rs m rs' me :
  server_dispatch rs m = Ok (rs', me) -> srv_count rs' = srv_count rs + 1.
Proof.
  unfold server_dispatch. destruct (lastDot m) as [[sv me']|]; [|done].
  destruct (services _ !! sv); [|done]. intros Hd. by go_inv.
Qed.

Lemma moved_dispatch k c w s rs rs' :
  calls w !! k = Some c -> c_handler c = Dispatching s ->
  heap w !! s = Some rs -> srv_count rs' = srv_count rs + 1 ->
  call_moved k c w
    (mkWorld (net w) (<[s := rs']> (heap w))
       (<[k := mkCall (c_req c) (c_caller c) (c_proc c) (Running s)]> (calls w)) (listening w))
    [Invoked k s (default zero_value (decode (args (c_req c))))].
Proof.
  intros Hk Hd Hs Hc. constructor; simpl; try done.
  - intros c' h. rewrite list_lookup_insert_eq by (by eapply lookup_lt_Some). intros [= <-] Hi.
    by apply invoked.
  - intros k' Hne. by apply list_lookup_insert_ne.
  - apply length_insert.
  - by repeat constructor.
  - intros s' rs2 Hs'. unfold handled. rewrite filter_cons. simpl.
    destruct (lookup_update _ _ _ _ _ _ Hs Hs') as [[-> ->]|[Hne Hs2]].
    + exists rs. split; [done|]. rewrite decide_True by done. by rewrite Hc.
    + exists rs2. split; [done|]. rewrite decide_False by congruence. unfold len. simpl. lia.
  - apply length_insert.
  - constructor; [|constructor]. intros s' [= <-]. by eapply lookup_lt_Some.
Qed.

Lemma call_step_moved l k c w w' evs :
  calls w !! k = Some c -> call_step l k c w = Some (Ok (w', evs)) -> call_moved k c w w' evs.
Proof.
  intros Hk Hst. destruct c as [req cl p hd].
  destruct l; simpl in Hst; try done.
  - destruct cl; try done. destruct p; try done. case_match; [|done]. go_inv. apply moved_quiet; [done|]. intros h Hi.
    apply (quiet_early _ _ Reading h Hi); [done|by left|by right].
  - destruct cl; try done. case_match; [|done]. go_inv.
    apply moved_put; [done| |by repeat constructor|by repeat constructor]. intros h Hi.
    by apply (returned_none _ _ h Hi).
  - destruct p; try done. go_inv. apply moved_quiet; [done|].
    intros h Hi. apply (quiet_early _ _ _ h Hi); [done|apply proc_read_reply|by left].
  - destruct p; try done. destruct (proc_decide i drop) as [p' hd'] eqn:E. go_inv. apply moved_quiet; [done|]. intros h Hi.
    pose proof (decided _ _ i drop h Hi eq_refl) as Hd. by rewrite E in Hd.
  - destruct hd as [|s| | |]; try done. apply bind_Some in Hst as (rs & Hs & Hst). go_inv.
    destruct a as [rs' me]. go_inv.
    by eapply (moved_dispatch _ (mkCall req cl p (Dispatching s)) _ _ _ _ Hk eq_refl Hs),
      server_dispatch_count.
  - destruct hd as [| |s| |]; try done. go_inv.
    apply moved_put; [done| |by repeat constructor|by repeat constructor]. intros h Hi.
    by apply (handler_returned _ _ s v h Hi).
  - destruct p; try done. destruct hd as [| | |r|]; try done. go_inv.
    apply moved_quiet; [done|]. intros h Hi.
    eapply call_inv_quiet; [exact Hi|done|done| | |done|done]; unfold holds; simpl.
    + right; right. by eexists.
    + intros r' [?|[[= <-] _]]; [done|]. by left.
  - destruct p; try done. go_inv. apply moved_quiet; [done|]. intros h Hi.
    case_match; (eapply call_inv_quiet; [exact Hi|done|done|by left| |done|done]);
      unfold holds; simpl; intros r [?|[? ?]]; try done; by left.
  - assert (exists r, hd = Holding r /\ w' = upd w k (mkCall req cl p Drained) /\ evs = [])
      as (r & -> & -> & ->).
    { destruct p as [| | | |? [?|]| | |], hd; try done; go_inv; by eexists. }
    apply moved_quiet; [done|]. intros h Hi.
    eapply call_inv_quiet; [exact Hi|done|done| | |done|]; unfold holds; simpl.
    + right; right. by eexists.
    + intros r' [?|?]; [done|by right].
    + pose proof (ca_early _ _ _ Hi) as He. by destruct p.
  - destruct p as [| | | |i r| | |]; try done.
    destruct (proc_final (net w) req i r drop reorder) as [rn p'] eqn:E. go_inv. apply moved_quiet; [done|]. intros h Hi.
    pose proof (finished _ _ w i r drop reorder h Hi eq_refl) as Hf. simpl in Hf. by rewrite E in Hf.
  - destruct p; try done. go_inv. apply moved_quiet; [done|]. intros h Hi.
    by apply (forwarded _ _ _ h Hi).
  - destruct cl; try done. destruct p; try done. go_inv.
    apply moved_put; [done| |by repeat constructor|by repeat constructor]. intros h Hi.
    by eapply (delivered _ _ _ _ h Hi).
Qed.

Lemma handled_app s tr evs : handled s (tr ++ evs) = handled s tr ++ handled s evs.
Proof. apply filter_app. Qed.

Lemma rpc_inv_moved k c w w' tr evs :
  rpc_inv w tr -> calls w !! k = Some c -> call_moved k c w w' evs -> rpc_inv w' (tr ++ evs).
Proof.
  intros [Hc Hk Hn Hh] Hkc [Hm Ho Hl He Hcnt Hhl Hsv]. constructor.
  - intros k' c' Hk'. destruct (decide (k' = k)) as [->|Hne].
    + rewrite history_own by done. by eapply Hm, Hc.
    + rewrite (history_other _ k) by done. apply Hc. by rewrite <- Ho.
  - rewrite Hl. apply Forall_app. split; [done|]. apply (Forall_impl _ _ _ He).
    intros e ->. exact (lookup_lt_Some _ _ _ Hkc).
  - intros s rs Hs. destruct (Hcnt s rs Hs) as (rs0 & Hs0 & ->).
    rewrite handled_app, len_app. by rewrite (Hn s rs0).
  - rewrite Hhl. apply Forall_app. by split.
Qed.

(** A new call begins with an empty history. *)
Lemma rpc_inv_call w tr e m v c :
  rpc_inv w tr -> startCall e m v = Ok c ->
  rpc_inv (mkWorld (net w) (heap w) (calls w ++ [c]) (listening w))
    (tr ++ [Called (length (calls w)) e v]).
Proof.
  intros [Hc Hk Hn Hh] Hs. unfold startCall in Hs.
  destruct (encode v) as [b|] eqn:Eb; [|done]. injection Hs as <-. constructor; simpl.
  - intros k c Hkc. apply lookup_app_Some in Hkc as [Hkc|[Hle Hkc]].
    + rewrite (history_other _ (length (calls w))); [by apply Hc|by repeat constructor|].
      intros ->. by apply lookup_lt_Some, Nat.lt_irrefl in Hkc.
    + apply list_lookup_singleton_Some in Hkc as [E <-].
      assert (k = length (calls w)) as -> by lia. rewrite history_own by (by repeat constructor).
      assert (history (length (calls w)) tr = []) as ->.
      { unfold history. clear -Hk. induction Hk as [|ev tr Hlt _ IH]; [done|].
        rewrite filter_cons, decide_False; [done|]. lia. }
      constructor; unfold holds; simpl; try done.
      * apply work_called; [by left|done].
      * by intros r [?|[? _]].
  - rewrite length_app. apply Forall_app. split; [apply (Forall_impl _ _ _ Hk); simpl; lia|].
    constructor; [simpl; lia|constructor].
  - intros s rs Hs. rewrite handled_app, app_nil_r. by apply Hn.
  - apply Forall_app. split; [done|]. by repeat constructor.
Qed.

Lemma rpc_inv_admin a w w' tr :
  rpc_inv w tr -> admin_step a w = Ok w' -> rpc_inv w' tr.
Proof.
  intros [Hc Hk Hn Hh] Ha. destruct a; simpl in Ha; go_inv; try by constructor.
  - constructor; simpl; try done.
    + intros s rs Hs. apply lookup_app_Some in Hs as [Hs|[Hle Hs]]; [by apply Hn|].
      apply list_lookup_singleton_Some in Hs as [E <-]. simpl.
      assert (handled s tr = []) as ->; [|done]. unfold handled.
      clear -Hh Hle. induction Hh as [|ev tr Hlt _ IH]; [done|].
      rewrite filter_cons, decide_False; [done|]. intros Hs. specialize (Hlt s Hs). lia.
    + apply (Forall_impl _ _ _ Hh). intros ev He s Hs. specialize (He s Hs).
      rewrite length_app. simpl. lia.
  - destruct (heap w !! server) as [rs|] eqn:Hs; go_inv.
    constructor; simpl; try done.
    + intros s rs' Hs'. destruct (lookup_update _ _ _ _ _ _ Hs Hs') as [[-> ->]|[Hne Hs2]];
        [|by apply Hn]. simpl. by apply Hn.
    + by rewrite length_insert.
Qed.

Lemma rpc_inv_step l w w' tr evs :
  rpc_inv w tr -> step l w = Some (Ok (w', evs)) -> rpc_inv w' (tr ++ evs).
Proof.
  intros Hi Hst. destruct (label_call l) as [k|] eqn:El.
  - assert (exists c, calls w !! k = Some c /\ call_step l k c w = Some (Ok (w', evs)))
      as (c & Hk & Hcs).
    { destruct l; simpl in El, Hst; try done; injection El as ->;
        apply bind_Some in Hst as (c & ? & ?); by exists c. }
    eapply rpc_inv_moved; [done|done|by eapply call_step_moved].
  - destruct l; simpl in El, Hst; try done; go_inv.
    + by eapply rpc_inv_call.
    + destruct (done (net w) && listening w); go_inv. rewrite app_nil_r. by destruct Hi.
    + destruct (admin_valid a w); go_inv. rewrite app_nil_r. by eapply rpc_inv_admin.
Qed.

Lemma rpc_inv_init : rpc_inv init_world [].
Proof. constructor; simpl; done. Qed.

Lemma rpc_inv_run ls w w' tr tr' :
  rpc_inv w tr -> run ls w = Some (Ok (w', tr')) -> rpc_inv w' (tr ++ tr').
Proof.
  revert w tr tr'. induction ls as [|l ls IH]; intros w tr tr' Hi HR; simpl in HR.
  { go_inv. by rewrite app_nil_r. }
  apply bind_Some in HR as (r & Hst & HR). destruct r as [[w1 evs]|]; [|done].
  apply bind_Some in HR as (r & HR1 & HR). go_inv. destruct r as [[w2 tr2]|]; [|done].
  simpl in HR. go_inv. rewrite app_assoc. by eapply IH; [eapply rpc_inv_step|].
Qed.
End invariant.

Section theorems.
Context {Name V : Type} `{Countable Name} `{Codec V}.
Implicit Types (w : World (Name := Name) (V := V)).

(** C14: what a call means.  In every execution of the network, whatever is
    lost, delayed, reordered, disconnected or deleted: each call is executed
    at most once, by one server, with the value it was called with; [Call]
    returns at most once; and when it returns true, the handler has run and
    returned before, and the caller has what the handler replied.  A call
    that returned false may or may not have been executed.  A server's RPC
    count is the number of calls it has executed. *)
Theorem rpc_at_most_once ls w tr k :
  run ls init_world = Some (Ok (w, tr)) -> (k < length (calls w))%nat ->
  (exists e v s v', work (history k tr) `prefix_of`
     [Called k e v; Invoked k s v; HandlerReturned k v']) /\
  (length (returns (history k tr)) <= 1)%nat /\
  (forall x, CallReturned k (Some x) ∈ tr -> exists e v s v',
     history k tr = [Called k e v; Invoked k s v; HandlerReturned k v'; CallReturned k (Some x)] /\
     (forall b, encode v' = Some b -> x = v')) /\
  (forall s rs, heap w !! s = Some rs -> srv_count rs = len (handled s tr)).
Proof.
  intros HR Hk. pose proof (rpc_inv_run _ _ _ _ _ rpc_inv_init HR) as Hi.
  destruct (lookup_lt_is_Some_2 _ _ Hk) as [c Hc]. pose proof (ri_calls _ _ Hi _ _ Hc) as Hci. rewrite app_nil_l in Hi, Hci.
  split; [|split; [|split; [|apply Hi]]].
  - destruct (work_prefix _ _ _ _ _ (ca_work _ _ _ Hci)) as (v & s & v' & Hp). by eexists _, v, s, v'.
  - rewrite (ca_returns _ _ _ Hci). case_match; simpl; lia.
  - intros x Hx. destruct (ca_true _ _ _ Hci x) as (e & v & s & v' & Hh & Hd).
    + assert (Some x ∈ returns (history k tr)) as Hin.
      { apply list_elem_of_omap. exists (CallReturned k (Some x)). split; [|done]. by apply list_elem_of_filter. }
      rewrite (ca_returns _ _ _ Hci) in Hin. destruct (c_caller c) as [| |r]; try set_solver.
    + exists e, v, s, v'. split; [done|]. intros b Hb. simpl in Hd. rewrite Hb in Hd. simpl in Hd.
      rewrite (codec_roundtrip _ _ Hb) in Hd. by injection Hd.
Qed.
End theorems.

(** ** A concrete network: values that are already bytes, numbered names *)

Module Demo.
#[export] Instance bytes_codec : Codec bytes :=
  {| encode v := Some v; decode b := Some b; zero_value := []; codec_roundtrip v b H := eq_sym H |}.

Definition echo : Service :=
  MakeService "Raft" [mkMethod "AppendEntries" "" [true; true; true] 0; mkMethod "Kill" "" [true] 0].

(** Server 0 is added under the name 1, and end 7 is connected to it. *)
Definition setup : list (label (Name := nat) (V := bytes)) :=
  map LAdmin [AMakeServer; AAddService 0 echo; AAddServer 1%nat 0; AMakeEnd 7%nat;
              AConnect 7%nat 1%nat; AEnable 7%nat true].

(** A call up to the start of its handler. *)
Definition request : list (label (Name := nat) (V := bytes)) :=
  [LCall 7%nat "Raft.AppendEntries" [x01; x02]; LAccept 0; LRead 0; LDecide 0 false; LDispatch 0].

Definition answer : list (label (Name := nat) (V := bytes)) :=
  [LHandler 0 [x03]; LReceive 0; LFinal 0 false false; LDeliver 0].

Definition world_after (ls : list (label (Name := nat) (V := bytes))) :
    World (Name := nat) (V := bytes) * list (event (Name := nat) (V := bytes)) :=
  match run ls init_world with Some (Ok x) => x | _ => (init_world, []) end.

Lemma rpc_at_most_once_witness :
  run (setup ++ request ++ answer) init_world = Some (Ok (world_after (setup ++ request ++ answer))) /\
  snd (world_after (setup ++ request ++ answer)) =
    [Called 0 7%nat [x01; x02]; Invoked 0 0 [x01; x02]; HandlerReturned 0 [x03];
     CallReturned 0 (Some [x03])] /\
  (length (returns (history 0 (snd (world_after (setup ++ request ++ answer))))) <= 1)%nat.
Proof.
  assert (run (setup ++ request ++ answer) init_world =
          Some (Ok (world_after (setup ++ request ++ answer)))) as HR by (vm_compute; reflexivity).
  split; [exact HR|]. split; [vm_compute; reflexivity|].
  destruct (world_after (setup ++ request ++ answer)) as [w tr] eqn:E.
  refine (proj1 (proj2 (rpc_at_most_once _ w tr 0 HR _))).
  replace w with (fst (world_after (setup ++ request ++ answer))) by (rewrite E; reflexivity).
  vm_compute. lia.
Defined.
End Demo.
