(* ===== verification/LabrpcCalls.v ===== *)
(** * labrpc/labrpc.go: cut links and termination

    A call over a link that has been cut (its end disabled, or its server
    deleted) is never answered by that server; and every call returns once
    its handler does. *)

From Stdlib Require Import ZArith Lia Strings.Byte.
From stdpp Require Import base numbers strings gmap list.
From S2P Require Import Prelude Labrpc LabrpcTheorems.
Local Open Scope Z_scope.

Section cut.
Context {Name V : Type} `{Countable Name} `{Codec V}.
Implicit Types (w : World (Name := Name) (V := V)) (c : call (Name := Name) (V := V)).

(** The server a call is bound to while its fate is open. *)
Definition open_info (p : proc (Name := Name)) : option info :=
  match p with Deciding i | Polling i | Finishing i _ => Some i | _ => None end.

(** The call failed, or its end is decided to be that. *)
Definition failed c : Prop :=
  (c_proc c = Replying failure /\ c_caller c = Waiting) \/
  (c_proc c = Ended /\ c_caller c = Returned None).

(** A call keeps its place when the others move. *)
Lemma call_step_other l k c w w' evs k' :
  call_step l k c w = Some (Ok (w', evs)) -> calls w !! k = Some c -> k' <> k ->
  calls w' !! k' = calls w !! k'.
Proof. intros Hst Hk Hne. exact (cm_others _ _ _ _ _ (call_step_moved _ _ _ _ _ _ Hk Hst) k' Hne). Qed.

(** The goroutines of a call do not touch the tables. *)
Definition same_tables (rn rn' : Network (Name := Name)) : Prop :=
  enabled rn' = enabled rn /\ servers rn' = servers rn /\ connections rn' = connections rn.

Lemma call_step_tables l k c w w' evs :
  call_step l k c w = Some (Ok (w', evs)) -> same_tables (net w) (net w').
Proof.
  intros Hst. destruct c as [req cl p hd]. unfold call_step in Hst. simpl in Hst.
  repeat case_match; simplify_eq; go_inv; try done.
  all: try by (apply bind_Some in Hst as (rs & Hs & Hst); go_inv; destruct a; go_inv).
  unfold proc_final in *. repeat case_match; simplify_eq; done.
Qed.

(** The labels that could bring a cut link back: enabling its end when the
    end is disabled, adding its server again when the server is deleted. *)
Definition cut (e n : Name) (s : nat) w (ls : list (label (Name := Name) (V := V))) : Prop :=
  (is_enabled (net w) e = false /\ Forall (fun l => l <> LAdmin (AEnable e true)) ls) \/
  (server_of (net w) n <> Some s /\ Forall (fun l => l <> LAdmin (AAddServer n s)) ls).

Lemma cut_dead e n s w ls : cut e n s w ls -> isServerDead (net w) e n s = true.
Proof.
  unfold isServerDead. intros [[-> _]|[Hs _]]; [done|].
  rewrite bool_decide_false by done. apply orb_true_r.
Qed.

Lemma admin_tables a w w' e n s :
  admin_step a w = Ok w' ->
  (is_enabled (net w) e = false -> a <> AEnable e true -> is_enabled (net w') e = false) /\
  (server_of (net w) n <> Some s -> a <> AAddServer n s -> server_of (net w') n <> Some s) /\
  calls w' = calls w.
Proof.
  intros Ha. destruct a; simpl in Ha; go_inv; try done.
  - unfold Cleanup in *. by destruct (done (net w)); go_inv.
  - unfold MakeEnd in *. destruct (bool_decide _); go_inv. split_and!; [|done|done].
    intros Hen _. unfold is_enabled. simpl.
    destruct (decide (e0 = e)) as [->|Hne]; [by rewrite lookup_insert_eq|by rewrite lookup_insert_ne].
  - split_and!; [|done|done]. intros Hen Hne. unfold is_enabled. simpl.
    destruct (decide (e0 = e)) as [->|Hne']; [|by rewrite lookup_insert_ne].
    rewrite lookup_insert_eq. simpl. destruct b; [by destruct Hne|done].
  - by case_match; go_inv.
  - split_and!; [done| |done]. intros Hs Hne. unfold server_of. simpl.
    destruct (decide (s0 = n)) as [->|Hne']; [|by rewrite lookup_insert_ne].
    rewrite lookup_insert_eq. simpl. intros [= ->]. by apply Hne.
  - split_and!; [done| |done]. intros Hs _. unfold server_of. simpl.
    destruct (decide (s0 = n)) as [->|Hne']; [by rewrite lookup_insert_eq|by rewrite lookup_insert_ne].
Qed.

Lemma cut_step l e n s w w' evs ls :
  step l w = Some (Ok (w', evs)) -> cut e n s w (l :: ls) -> cut e n s w' ls.
Proof.
  intros Hst Hcut.
  assert ((is_enabled (net w) e = false -> l <> LAdmin (AEnable e true) -> is_enabled (net w') e = false) /\
    (server_of (net w) n <> Some s -> l <> LAdmin (AAddServer n s) -> server_of (net w') n <> Some s))
    as [He Hs].
  { destruct (label_call l) as [k|] eqn:El.
    - assert (exists c, call_step l k c w = Some (Ok (w', evs))) as (c & Hcs).
      { destruct l; simpl in El, Hst; try done; injection El as ->;
          apply bind_Some in Hst as (c & ? & ?); by exists c. }
      apply call_step_tables in Hcs as (E1 & E2 & _). unfold is_enabled, server_of.
      by rewrite E1, E2.
    - destruct l; simpl in El, Hst; try done; go_inv; [done| |].
      + destruct (done (net w) && listening w); by go_inv.
      + destruct (admin_valid a w); go_inv. destruct (admin_tables _ _ _ e n s Ha) as (? & ? & _).
        split; intros ? ?; [|]; naive_solver. }
  destruct Hcut as [[Hen [? ?]%Forall_cons]|[Hsv [? ?]%Forall_cons]]; [left|right]; split; auto.
Qed.

(** The k-th call uses the link and has not been answered. *)
Definition unanswered (k : nat) (e n : Name) (s : nat) w : Prop :=
  exists c, calls w !! k = Some c /\ endname (c_req c) = e /\
    ((exists i, open_info (c_proc c) = Some i /\ i_servername i = n /\ i_server i = s /\
        c_caller c = Waiting) \/ failed c).

Lemma unanswered_own k e n s w w' l c evs :
  call_step l k c w = Some (Ok (w', evs)) -> calls w !! k = Some c ->
  isServerDead (net w) e n s = true -> unanswered k e n s w ->
  unanswered k e n s w' /\ forall x, CallReturned k (Some x) ∉ evs.
Proof.
  intros Hst Hk Hdead (c' & Hk' & He & Hcase). rewrite Hk in Hk'. injection Hk' as <-.
  assert (forall c2, <[k := c2]> (calls w) !! k = Some c2)
    as Hnew by (intros; apply list_lookup_insert_eq; by eapply lookup_lt_Some).
  destruct c as [req cl p hd]. simpl in *.
  unfold failed in Hcase. simpl in Hcase.
  destruct Hcase as [(i & Hi & Hn & Hs & ->)|[[-> ->]|[-> ->]]].
  - destruct p as [| |i'|i'|i' r| | |]; simpl in Hi; simplify_eq;
      destruct l; simpl in Hst; try done.
    all: try (destruct hd; try done).
    all: try (apply bind_Some in Hst as (rs & Hrs & Hst)).
    all: unfold proc_decide, proc_final in Hst; rewrite ?Hdead in Hst; repeat case_match;
      simplify_eq; go_inv; try (destruct a as [? ?]; go_inv).
    all: split; [eexists; split; [simpl; apply Hnew|]; split; [done|]; simpl|set_solver].
    all: first [by left; eexists; split_and!|by right; left].
  - destruct l; simpl in Hst; try done.
    all: try (destruct hd; try done).
    all: try (apply bind_Some in Hst as (rs & Hrs & Hst)).
    all: go_inv; try (destruct a as [? ?]; go_inv).
    all: split; [eexists; split; [simpl; apply Hnew|]; split; [done|]; simpl|set_solver].
    all: right; first [by left|by right].
  - destruct l; simpl in Hst; try done.
    all: try (destruct hd; try done).
    all: try (apply bind_Some in Hst as (rs & Hrs & Hst)).
    all: go_inv; try (destruct a as [? ?]; go_inv).
    all: split; [eexists; split; [simpl; apply Hnew|]; split; [done|]; simpl|set_solver].
    all: right; by right.
Qed.

Lemma unanswered_step k e n s w w' l evs :
  step l w = Some (Ok (w', evs)) -> isServerDead (net w) e n s = true -> unanswered k e n s w ->
  unanswered k e n s w' /\ forall x, CallReturned k (Some x) ∉ evs.
Proof.
  intros Hst Hdead Hu. destruct (label_call l) as [k'|] eqn:El.
  - assert (exists c, calls w !! k' = Some c /\ call_step l k' c w = Some (Ok (w', evs)))
      as (c & Hk & Hcs).
    { destruct l; simpl in El, Hst; try done; injection El as ->;
        apply bind_Some in Hst as (c & ? & ?); by exists c. }
    destruct (decide (k' = k)) as [->|Hne]; [by eapply unanswered_own|]. split.
    + destruct Hu as (c' & Hk' & Hc'). exists c'. split; [|done].
      by rewrite (call_step_other _ _ _ _ _ _ k Hcs Hk) by done.
    + intros x Hx. pose proof (cm_events _ _ _ _ _ (call_step_moved _ _ _ _ _ _ Hk Hcs)) as Hev.
      rewrite Forall_forall in Hev. by specialize (Hev _ Hx).
  - destruct l; simpl in El, Hst; try done; go_inv.
    + split; [|set_solver]. destruct Hu as (c' & Hk' & Hc'). exists c'. split; [|done].
      simpl. by apply lookup_app_l_Some.
    + destruct (done (net w) && listening w); go_inv. by split; [|set_solver].
    + destruct (admin_valid a w); go_inv. destruct (admin_tables _ _ _ e n s Ha) as (_ & _ & E).
      split; [|set_solver]. destruct Hu as (c' & Hk' & Hc'). exists c'. by rewrite E.
Qed.

(** C30: cut links.  A call that is bound to a server over an end, and whose
    reply is not yet on its way, is never answered with true once the end is
    disabled, for as long as it is not enabled again, or once the server is
    deleted, for as long as this server (not a new one of the same name) is
    not added again: a crashed server's replies do not reach anyone. *)
Theorem cut_link_silent ls w w' tr k c i :
  calls w !! k = Some c -> open_info (c_proc c) = Some i -> c_caller c = Waiting ->
  cut (endname (c_req c)) (i_servername i) (i_server i) w ls ->
  run ls w = Some (Ok (w', tr)) -> forall x, CallReturned k (Some x) ∉ tr.
Proof.
  intros Hk Hi Hc Hcut HR x.
  assert (unanswered k (endname (c_req c)) (i_servername i) (i_server i) w) as Hu.
  { exists c. split_and!; [done|done|]. left. by exists i. }
  generalize dependent (endname (c_req c)). intros e Hcut Hu. clear c Hk Hi Hc.
  revert w tr HR Hcut Hu. induction ls as [|l ls IH]; intros w tr HR Hcut Hu; simpl in HR.
  { go_inv. set_solver. }
  apply bind_Some in HR as (r & Hst & HR). destruct r as [[w1 evs]|]; [|done].
  apply bind_Some in HR as (r & HR1 & HR). go_inv. destruct r as [[w2 tr2]|]; [|done].
  simpl in HR. go_inv.
  destruct (unanswered_step _ _ _ _ _ _ _ _ Hst (cut_dead _ _ _ _ _ Hcut) Hu) as [Hu' Hev].
  rewrite elem_of_app. intros [?|Hin]; [by eapply Hev|].
  exact (IH _ _ HR1 (cut_step _ _ _ _ _ _ _ _ Hst Hcut) Hu' Hin).
Qed.
End cut.

(** ** Every call returns *)

Section returns.
Context {Name V : Type} `{Countable Name} `{Codec V}.
Implicit Types (w : World (Name := Name) (V := V)) (c : call (Name := Name) (V := V)).

Definition proc_rank (p : proc (Name := Name)) : nat :=
  match p with
  | Absent => 10 | Reading => 9 | Deciding _ => 8 | Polling _ => 4
  | Finishing _ _ => 3 | Delayed _ => 2 | Replying _ => 1 | Ended => 0
  end.

Definition handler_rank (h : handler) : nat :=
  match h with NoHandler | Drained => 0 | Holding _ => 1 | Running _ => 2 | Dispatching _ => 3 end.

Definition caller_rank c : nat := match c_caller c with Sending => 1 | _ => 0 end.

(** The steps a call still has to make. *)
Definition rank c : nat := proc_rank (c_proc c) + handler_rank (c_handler c) + caller_rank c.

(** The step is one of the call's, and not the time-out of its loop. *)
Definition moves (k : nat) (l : label (Name := Name) (V := V)) : Prop :=
  label_call l = Some k /\ l <> LPoll k.

(** The three goroutines of a call fit together, and the servers they refer
    to exist. *)
Definition call_ok (servers : nat) c : Prop :=
  match c_caller c, c_proc c with
  | Sending, Absent => c_handler c = NoHandler
  | Sending, _ => False
  | Waiting, Absent | Waiting, Ended => False
  | Returned _, p => True
  | Waiting, Polling _ =>
    match c_handler c with NoHandler | Drained => False | _ => True end
  | Waiting, _ => True
  end /\
  (forall s, c_handler c = Dispatching s -> (s < servers)%nat) /\
  (forall i, c_proc c = Deciding i -> (i_server i < servers)%nat).

Record world_ok w : Prop := {
  wo_calls : Forall (call_ok (length (heap w))) (calls w);
  wo_servers n s : server_of (net w) n = Some s -> (s < length (heap w))%nat;
  wo_listening : listening w = false -> done (net w) = true;
}.

Lemma call_ok_mono m m' c : (m <= m')%nat -> call_ok m c -> call_ok m' c.
Proof.
  intros Hm (? & Hs & Hi). split_and!; [done| |].
  - intros s ?. pose proof (Hs s). naive_solver lia.
  - intros i ?. pose proof (Hi i). naive_solver lia.
Qed.

(** Where [processReq] goes from reading the tables and from its end. *)
Lemma proc_read_shape w req :
  world_ok w ->
  proc_read (net w) req = Replying failure \/
  exists i, proc_read (net w) req = Deciding i /\ (i_server i < length (heap w))%nat.
Proof.
  intros [_ Hs _]. unfold proc_read, readEndnameInfo.
  destruct (connection (net w) (endname req)) as [n|]; simpl; [|by left].
  destruct (server_of (net w) n) as [s|] eqn:E; simpl; [|by left].
  destruct (is_enabled _ _); [|by left]. right. eexists. split; [done|]. by apply (Hs n).
Qed.

Lemma proc_final_shape (rn : Network (Name := Name)) req i r drop reorder :
  let '(rn', p) := proc_final rn req i r drop reorder in
  done rn' = done rn /\ ((exists r', p = Replying r') \/ (exists r', p = Delayed r')).
Proof.
  unfold proc_final. destruct r as [r|]; [|split; [done|left; by eexists]].
  repeat case_match; simplify_eq; (split; [done|]); first [left; by eexists|right; by eexists].
Qed.

Ltac by_rank := unfold rank, caller_rank; simpl; intros; first [lia|by simplify_eq/=].

Ltac by_caller cl :=
  destruct cl; simpl in *; try done; split_and!; try done; by intros ? [= <-].

Lemma call_step_shape l k c w w' evs :
  world_ok w -> call_ok (length (heap w)) c -> call_step l k c w = Some (Ok (w', evs)) ->
  done (net w') = done (net w) /\ listening w' = listening w /\
  exists c', calls w' = <[k := c']> (calls w) /\ call_ok (length (heap w)) c' /\
    (rank c' <= rank c)%nat /\ (l <> LPoll k -> label_call l = Some k -> (rank c' < rank c)%nat).
Proof.
  intros Hw (Hok & Hd & Hi) Hst. destruct c as [req cl p hd]. simpl in Hok, Hd, Hi.
  assert (forall w1 evs1 c', Some (Ok (w1, evs1)) = Some (Ok (w', evs)) ->
    done (net w1) = done (net w) -> listening w1 = listening w -> calls w1 = <[k := c']> (calls w) ->
    call_ok (length (heap w)) c' -> (rank c' <= rank (mkCall req cl p hd))%nat ->
    (l <> LPoll k -> label_call l = Some k -> (rank c' < rank (mkCall req cl p hd))%nat) ->
    done (net w') = done (net w) /\ listening w' = listening w /\
    exists c', calls w' = <[k := c']> (calls w) /\ call_ok (length (heap w)) c' /\
      (rank c' <= rank (mkCall req cl p hd))%nat /\
      (l <> LPoll k -> label_call l = Some k -> (rank c' < rank (mkCall req cl p hd))%nat)) as Hput.
  { intros w1 evs1 c' E Ed El Ec ? ? Hlt. simplify_eq. split_and!; [done|done|].
    by exists c'. }
  destruct l; simpl in Hst; try done.
  - destruct cl, p; try done. destruct (listening w) eqn:El; [|done].
    eapply Hput; [exact Hst|done|done|done| |by_rank..]. by split_and!.
  - destruct cl, p; try done. destruct (done (net w)) eqn:Ed; [|done].
    eapply Hput; [exact Hst|done|done|done| |by_rank..]. by split_and!.
  - destruct p; try done.
    destruct (proc_read_shape w req Hw) as [E|(i & E & Hlt)]; rewrite E in Hst;
      (eapply Hput; [exact Hst|done|done|done| |by_rank..]).
    + by_caller cl.
    + by_caller cl.
  - destruct p; try done. unfold proc_decide in Hst. pose proof (Hi _ eq_refl) as Hlt.
    destruct (negb (i_reliable i) && drop);
      (eapply Hput; [exact Hst|done|done|done| |by_rank..]).
    + by_caller cl.
    + by_caller cl.
  - destruct hd; try done. apply bind_Some in Hst as (rs & Hrs & Hst). go_inv. destruct a. go_inv.
    eapply Hput; [reflexivity|done|done|done| |by_rank..].
    destruct p; by_caller cl.
  - destruct hd; try done. eapply Hput; [exact Hst|done|done|done| |by_rank..].
    destruct p; by_caller cl.
  - destruct p, hd; try done. eapply Hput; [exact Hst|done|done|done| |by_rank..].
    by_caller cl.
  - destruct p; try done. destruct (isServerDead _ _ _ _);
      (eapply Hput; [exact Hst|done|done|done| |by_rank..]);
      by_caller cl.
  - destruct p as [| | | |? [?|]| | |], hd; try done;
      (eapply Hput; [exact Hst|done|done|done| |by_rank..]);
      by_caller cl.
  - destruct p as [| | | |i r| | |]; try done.
    pose proof (proc_final_shape (net w) req i r drop reorder) as Hf.
    destruct (proc_final (net w) req i r drop reorder) as [rn p'].
    destruct Hf as [Ed [[r' ->]|[r' ->]]];
      (eapply Hput; [exact Hst|done|done|done| |by_rank..]);
      by_caller cl.
  - destruct p; try done. eapply Hput; [exact Hst|done|done|done| |by_rank..].
    by_caller cl.
  - destruct cl, p; try done. go_inv. eapply Hput; [reflexivity|done|done|done| |by_rank..].
    by split_and!.
Qed.

Lemma call_step_req l k c w w' evs c' :
  calls w !! k = Some c -> call_step l k c w = Some (Ok (w', evs)) -> calls w' !! k = Some c' ->
  c_req c' = c_req c.
Proof.
  intros Hk Hst Hk'. destruct c as [req cl p hd]. unfold call_step in Hst. simpl in Hst.
  repeat case_match; simplify_eq; go_inv;
    try (apply bind_Some in Hst as (rs & Hrs & Hst); go_inv; destruct a; go_inv);
    simpl in Hk'; rewrite list_lookup_insert_eq in Hk' by (by eapply lookup_lt_Some);
    by injection Hk' as <-.
Qed.

Lemma call_step_ok l k c w w' evs :
  world_ok w -> calls w !! k = Some c -> call_step l k c w = Some (Ok (w', evs)) ->
  world_ok w' /\ exists c', calls w' !! k = Some c' /\ (rank c' <= rank c)%nat /\
    (l <> LPoll k -> label_call l = Some k -> (rank c' < rank c)%nat).
Proof.
  intros Hw Hk Hst. pose proof Hw as [Hc Hs Hl].
  pose proof (Forall_lookup_1 _ _ _ _ Hc Hk) as Hok.
  pose proof (call_step_tables _ _ _ _ _ _ Hst) as (_ & Et & _).
  pose proof (cm_heap _ _ _ _ _ (call_step_moved _ _ _ _ _ _ Hk Hst)) as Eh.
  destruct (call_step_shape _ _ _ _ _ _ Hw Hok Hst) as (Ed & Eli & c' & Ec & Hok' & Hr & Hr').
  split.
  - constructor; rewrite ?Ed, ?Eli, ?Eh; [|unfold server_of; by rewrite Et|done].
    rewrite Ec. by apply Forall_insert.
  - exists c'. rewrite Ec. split_and!; [|done|done].
    apply list_lookup_insert_eq. by eapply lookup_lt_Some.
Qed.

Lemma step_call l k w r :
  label_call l = Some k -> step l w = Some r <-> exists c, calls w !! k = Some c /\ call_step l k c w = Some r.
Proof.
  intros El. destruct l; simpl in El; try done; injection El as ->; simpl; by rewrite bind_Some.
Qed.

Lemma world_ok_admin a w w' : world_ok w -> admin_valid a w = true -> admin_step a w = Ok w' -> world_ok w'.
Proof.
  intros [Hc Hs Hl] Hv Ha. destruct a; simpl in Ha, Hv; go_inv; try by constructor.
  - unfold Cleanup in *. by destruct (done (net w)); go_inv; constructor.
  - unfold MakeEnd in *. by destruct (bool_decide _); go_inv; constructor.
  - constructor; simpl; [| |done].
    + eapply Forall_impl; [done|]. intros c. apply call_ok_mono. rewrite length_app. lia.
    + intros n s Hn. specialize (Hs n s Hn). rewrite length_app. simpl. lia.
  - destruct (heap w !! server) as [rs|]; go_inv. constructor; simpl; rewrite ?length_insert; done.
  - apply bool_decide_eq_true in Hv. constructor; simpl; [done| |done].
    intros n s'. unfold server_of. simpl. destruct (decide (s = n)) as [->|Hne].
    + rewrite lookup_insert_eq. simpl. by intros [= <-].
    + rewrite lookup_insert_ne by done. apply Hs.
  - constructor; simpl; [done| |done]. intros n s'. unfold server_of. simpl.
    destruct (decide (s = n)) as [->|Hne]; [by rewrite lookup_insert_eq|].
    rewrite lookup_insert_ne by done. apply Hs.
Qed.

Lemma world_ok_step l w w' evs : world_ok w -> step l w = Some (Ok (w', evs)) -> world_ok w'.
Proof.
  intros Hw Hst. destruct (label_call l) as [k|] eqn:El.
  - destruct (proj1 (step_call l k w _ El) Hst) as (c & Hk & Hst2). by eapply call_step_ok.
  - destruct l; simpl in El, Hst; try done; go_inv.
    + unfold startCall in Ha. destruct (encode v) as [b|]; go_inv. destruct Hw as [Hc Hs Hl].
      constructor; simpl; [|done|done]. apply Forall_app. split; [done|].
      apply Forall_singleton. by split_and!.
    + destruct (done (net w)) eqn:Ed, (listening w); simpl in Hst; go_inv. by destruct Hw.
    + destruct (admin_valid a w) eqn:Ev; go_inv. by eapply world_ok_admin.
Qed.

Lemma world_ok_run ls w w' tr : world_ok w -> run ls w = Some (Ok (w', tr)) -> world_ok w'.
Proof.
  revert w tr. induction ls as [|l ls IH]; intros w tr Hw HR; simpl in HR; [by go_inv|].
  apply bind_Some in HR as (r & Hst & HR). destruct r as [[w1 evs]|]; [|done].
  apply bind_Some in HR as (r & HR1 & HR). go_inv. destruct r as [[w2 tr2]|]; [|done].
  simpl in HR. go_inv. eapply IH; [by eapply world_ok_step|done].
Qed.

Lemma world_ok_init : world_ok init_world.
Proof. constructor; simpl; [constructor|done|done]. Qed.

(** Every server has the method. *)
Definition serves (m : string) w : Prop :=
  Forall (fun rs => is_ok (server_dispatch rs m) = true) (heap w).

Lemma serves_count rs m m' rs' me :
  is_ok (server_dispatch rs m) = true -> server_dispatch rs m' = Ok (rs', me) ->
  is_ok (server_dispatch rs' m) = true.
Proof.
  unfold server_dispatch. intros Hm Hd. destruct (lastDot m') as [[sv' me']|]; [|done].
  destruct (services _ !! sv'); [|done]. go_inv. destruct (lastDot m) as [[sv me2]|]; [|done].
  simpl in *. destruct (services rs !! sv) as [svc|]; [|done]. by destruct (service_dispatch svc me2).
Qed.

Lemma serves_step l k c w w' evs m :
  calls w !! k = Some c -> call_step l k c w = Some (Ok (w', evs)) -> serves m w -> serves m w'.
Proof.
  intros Hk Hst Hs. destruct c as [req cl p hd]. unfold call_step in Hst. simpl in Hst.
  repeat case_match; simplify_eq; go_inv; try done.
  all: apply bind_Some in Hst as (rs & Hrs & Hst); go_inv; destruct a as [rs' me]; go_inv.
  all: unfold serves in *; simpl; apply Forall_insert; [done|].
  all: eapply serves_count; [|exact Ha]; exact (Forall_lookup_1 _ _ _ _ Hs Hrs).
Qed.

(** A call that has not returned has a step. *)
Lemma call_enabled k c w tr :
  world_ok w -> rpc_inv w tr -> (forall v : V, is_Some (encode v)) -> serves (svcMeth (c_req c)) w ->
  calls w !! k = Some c -> (forall r, c_caller c <> Returned r) ->
  exists l w' evs, moves k l /\ call_step l k c w = Some (Ok (w', evs)).
Proof.
  intros Hw Hi Henc Hs Hk Hret. destruct (Forall_lookup_1 _ _ _ _ (wo_calls _ Hw) Hk) as (Hok & Hd & Hinf).
  pose proof (ri_calls _ _ Hi _ _ Hk) as Hc. destruct c as [req cl p hd]. simpl in *.
  destruct cl as [| |r]; [| |by destruct (Hret r)].
  - destruct p; try done. destruct (listening w) eqn:El.
    + exists (LAccept k). simpl. rewrite El. by do 2 eexists.
    + exists (LAbort k). simpl. rewrite (wo_listening _ Hw El). by do 2 eexists.
  - destruct p as [| |i|i|i r|r|r|]; try done.
    + exists (LRead k). by do 2 eexists.
    + exists (LDecide k false). simpl. unfold proc_decide. rewrite andb_false_r. by do 2 eexists.
    + destruct hd as [|s|s|r|]; try done.
      * destruct (lookup_lt_is_Some_2 (heap w) s) as [rs Hrs]; [by apply Hd|].
        pose proof (Forall_lookup_1 _ _ _ _ Hs Hrs) as Hdis. simpl in Hdis.
        exists (LDispatch k). simpl. rewrite Hrs. simpl.
        destruct (server_dispatch rs (svcMeth req)) as [[rs' me]|]; [|done]. by do 2 eexists.
      * exists (LHandler k zero_value). by do 2 eexists.
      * exists (LReceive k). by do 2 eexists.
    + exists (LFinal k false false). simpl. destruct (proc_final _ _ _ _ _ _). by do 2 eexists.
    + exists (LTimer k). by do 2 eexists.
    + exists (LDeliver k). simpl. unfold finishCall. destruct (ok r) eqn:Ho; [|by do 2 eexists].
      destruct (ca_holds _ _ _ Hc r) as (v & -> & _); [by right|].
      simpl. destruct (Henc v) as [b Hb]. rewrite Hb. simpl. rewrite (codec_roundtrip _ _ Hb).
      by do 2 eexists.
Qed.

Lemma call_completes n k c w tr :
  (rank c <= n)%nat ->
  world_ok w -> rpc_inv w tr -> (forall v : V, is_Some (encode v)) -> serves (svcMeth (c_req c)) w ->
  calls w !! k = Some c ->
  exists ls w' tr' c' r, run ls w = Some (Ok (w', tr')) /\ Forall (moves k) ls /\
    (length ls <= n)%nat /\ calls w' !! k = Some c' /\ c_caller c' = Returned r.
Proof.
  revert c w tr. induction n as [|n IH]; intros c w tr Hr Hw Hi Henc Hs Hk.
  all: destruct (c_caller c) as [| |r] eqn:Ec;
    [| |by exists [], w, [], c, r; split_and!; [|constructor|simpl; lia| |]].
  all: destruct (call_enabled k c w tr Hw Hi Henc Hs Hk) as (l & w1 & evs & Hm & Hst);
    [intros r; congruence|].
  all: destruct (call_step_ok _ _ _ _ _ _ Hw Hk Hst) as (Hw1 & c1 & Hk1 & _ & Hlt);
    destruct Hm as [El Hne]; specialize (Hlt Hne El); try lia.
  all: assert (c_req c1 = c_req c) as Ereq by (by eapply call_step_req).
  all: pose proof (proj2 (step_call l k w _ El) (ex_intro _ c (conj Hk Hst))) as Hst'.
  all: destruct (IH c1 w1 (tr ++ evs)) as (ls & w2 & tr2 & c2 & r & HR & Hall & Hlen & ? & ?);
    [lia|done|exact (rpc_inv_step _ _ _ _ _ Hi Hst')|done|rewrite Ereq; exact (serves_step _ _ _ _ _ _ _ Hk Hst Hs)|done|].
  all: exists (l :: ls), w2, (evs ++ tr2), c2, r; split_and!; [|by constructor|simpl; lia|done|done].
  all: cbn [run]; rewrite Hst'; simpl; by rewrite HR.
Qed.

Lemma admin_calls a w w' : admin_step a w = Ok w' -> calls w' = calls w.
Proof.
  intros Ha. destruct a; simpl in Ha; go_inv; try done. by case_match; go_inv.
Qed.

(** The steps of the other calls and of the tester leave a call where it is. *)
Lemma step_others l w w' evs k c :
  step l w = Some (Ok (w', evs)) -> calls w !! k = Some c -> label_call l <> Some k ->
  calls w' !! k = Some c.
Proof.
  intros Hst Hk Hne. destruct (label_call l) as [k'|] eqn:El.
  - destruct (proj1 (step_call l k' w _ El) Hst) as (c' & Hk' & Hcs).
    rewrite (call_step_other _ _ _ _ _ _ k Hcs Hk') by congruence. done.
  - destruct l; simpl in El, Hst; try done; go_inv.
    + simpl. by apply lookup_app_l_Some.
    + by destruct (done (net w) && listening w); go_inv.
    + destruct (admin_valid a w); go_inv.
      by rewrite (admin_calls _ _ _ Ha).
Qed.

(** C29: [Call] terminates.  Whatever the network did before, a call in
    flight has a schedule of at most eleven steps of its own three goroutines
    after which it returns, whether its link is up, cut or lossy (one of them
    is the return of its handler); and no
    other schedule of the network, of the other calls and of the tester can
    take it further from its end: the number of steps it still has to make
    never grows, and each of its own steps but the time-out of its polling
    loop lowers it. *)
Theorem call_returns ls w tr k c :
  run ls init_world = Some (Ok (w, tr)) -> calls w !! k = Some c ->
  (forall v : V, is_Some (encode v)) -> serves (svcMeth (c_req c)) w ->
  (rank c <= 11)%nat /\
  (exists ls' w' tr' c' r, run ls' w = Some (Ok (w', tr')) /\ Forall (moves k) ls' /\
    (length ls' <= rank c)%nat /\ calls w' !! k = Some c' /\ c_caller c' = Returned r) /\
  (forall l w' evs, step l w = Some (Ok (w', evs)) ->
    exists c', calls w' !! k = Some c' /\ (rank c' <= rank c)%nat /\
      (moves k l -> (rank c' < rank c)%nat)).
Proof.
  intros HR Hk Henc Hs. pose proof (world_ok_run _ _ _ _ world_ok_init HR) as Hw.
  pose proof (rpc_inv_run _ _ _ _ _ rpc_inv_init HR) as Hi. split_and!.
  - destruct (Forall_lookup_1 _ _ _ _ (wo_calls _ Hw) Hk) as (Hok & _ & _).
    pose proof (ca_early _ _ _ (ri_calls _ _ Hi _ _ Hk)) as He.
    unfold rank, caller_rank. destruct c as [req cl p hd]; simpl in *.
    destruct cl, p; try done; try rewrite He; try rewrite Hok; simpl; try lia; destruct hd; simpl; lia.
  - by eapply call_completes.
  - intros l w' evs Hst. destruct (decide (label_call l = Some k)) as [El|Hne].
    + destruct (proj1 (step_call l k w _ El) Hst) as (c0 & Hk0 & Hcs). simplify_eq.
      destruct (call_step_ok _ _ _ _ _ _ Hw Hk Hcs) as (_ & c' & Hk' & Hle & Hlt).
      exists c'. split_and!; [done|done|]. intros [_ Hp]. by apply Hlt.
    + exists c. split_and!; [by eapply step_others|done|]. by intros [? _].
Qed.
End returns.

(** ** Concrete runs *)

Module CallsDemo.
Import Demo.

(** The end is disabled while the handler runs; the handler then returns and
    its reply is received, but the call fails. *)
Lemma cut_link_silent_witness :
  let w := fst (world_after (setup ++ request ++ [LAdmin (AEnable 7%nat false)])) in
  exists w' tr, run answer w = Some (Ok (w', tr)) /\ tr = [HandlerReturned 0 [x03]; CallReturned 0 None] /\
    forall x, CallReturned 0 (Some x) ∉ tr.
Proof.
  intros w.
  assert (exists w' tr, run answer w = Some (Ok (w', tr)) /\
    tr = [HandlerReturned 0 [x03]; CallReturned 0 None]) as (w' & tr & HR & E)
    by (vm_compute; do 2 eexists; split; reflexivity).
  exists w', tr. split; [exact HR|]. split; [exact E|].
  refine (cut_link_silent answer w w' tr 0 _ (mkInfo 1%nat 0 true false) _ _ _ _ HR);
    [vm_compute; reflexivity..|].
  left. split; [vm_compute; reflexivity|]. repeat constructor; discriminate.
Defined.

(** From the start of the handler, the call returns within seven steps. *)
Lemma call_returns_witness :
  let w := fst (world_after (setup ++ request)) in
  exists ls' w' tr' c' r, run ls' w = Some (Ok (w', tr')) /\
    (length ls' <= 7)%nat /\ calls w' !! 0%nat = Some c' /\ c_caller c' = Returned r.
Proof.
  intros w.
  assert (run (setup ++ request) init_world = Some (Ok (w, snd (world_after (setup ++ request)))))
    as HR by (vm_compute; reflexivity).
  assert (exists c, calls w !! 0%nat = Some c) as [c Hc] by (vm_compute; eexists; reflexivity).
  destruct (call_returns _ _ _ _ _ HR Hc) as (_ & (ls' & w' & tr' & c' & r & ? & _ & Hl & ? & ?) & _).
  - intros v. exists v. reflexivity.
  - vm_compute in Hc. injection Hc as <-. repeat constructor.
  - exists ls', w', tr', c', r. split; [assumption|]. split; [|split; assumption].
    vm_compute in Hc. injection Hc as <-. etransitivity; [exact Hl|]. apply Nat.leb_le. reflexivity.
Defined.
End CallsDemo.
