(* ===== verification/Persister.v ===== *)
(** * raft/persister.go: the stable storage of a Raft peer

    The tester gives every peer a [Persister] that survives a crash of the
    peer.  The model keeps the two byte slices of the Go struct; the mutex is
    not a field because every method holds it from its first to its last
    statement, so each method is one atomic operation on the record. *)

From Stdlib Require Import Strings.Byte ZArith Lia.
From stdpp Require Import base list.
From S2P Require Import Prelude.


Record Persister := mkPersister {
  raftstate : bytes;
  snapshot : bytes;
}.

(** A nil and an empty byte slice have the same length and the code only
    tests lengths, so both are []. *)
Definition MakePersister : Persister := mkPersister [] [].

(** Go's built-in [copy(dst, src)]: overwrites the first
    [min(len(dst), len(src))] elements of [dst]. *)
Definition go_copy (dst src : bytes) : bytes :=
  take (length dst) src ++ drop (length src) dst.

Definition clone (orig : bytes) : bytes :=
  go_copy (replicate (length orig) x00) orig.

Definition Copy (ps : Persister) : Persister :=
  let np := MakePersister in
  let np := mkPersister (raftstate ps) (snapshot np) in
  mkPersister (raftstate np) (snapshot ps).

Definition SaveRaftState (ps : Persister) (state : bytes) : Persister :=
  mkPersister (clone state) (snapshot ps).

Definition ReadRaftState (ps : Persister) : bytes := clone (raftstate ps).

Definition RaftStateSize (ps : Persister) : Z := len (raftstate ps).

Definition SaveStateAndSnapshot (ps : Persister) (state snap : bytes) : Persister :=
  mkPersister (clone state) (clone snap).

Definition ReadSnapshot (ps : Persister) : bytes := clone (snapshot ps).

Definition SnapshotSize (ps : Persister) : Z := len (snapshot ps).

Lemma clone_id b : clone b = b.
Proof.
  unfold clone, go_copy. rewrite length_replicate, firstn_all.
  rewrite drop_ge by (rewrite length_replicate; lia). apply app_nil_r.
Qed.

Lemma ReadRaftState_Save ps b : ReadRaftState (SaveRaftState ps b) = b.
Proof. unfold ReadRaftState, SaveRaftState; simpl. by rewrite !clone_id. Qed.

Lemma ReadRaftState_Copy ps : ReadRaftState (Copy ps) = ReadRaftState ps.
Proof. reflexivity. Qed.

(** What a crashed instance saved is what the next instance reads, through
    the [Copy] the tester makes between the two; the snapshot is untouched. *)
Lemma persister_survives_crash ps b :
  ReadRaftState (Copy (SaveRaftState ps b)) = b /\
  ReadSnapshot (Copy (SaveRaftState ps b)) = ReadSnapshot ps /\
  RaftStateSize (Copy (SaveRaftState ps b)) = len b.
Proof.
  rewrite ReadRaftState_Copy, ReadRaftState_Save. split_and!; [done|done|].
  unfold RaftStateSize, Copy, SaveRaftState. simpl. by rewrite clone_id.
Qed.

#[export] Hint Rewrite clone_id ReadRaftState_Save ReadRaftState_Copy : go.
