(* ===== verification/RaftNode.v ===== *)
(** * raft/raft.go: one Raft peer

    The state of the Go struct [Raft] as a record, and one definition per
    method.  Every method of the source holds [rf.mu] while it reads or
    writes the struct, so each definition is one critical section.  A
    [go rf.sendX(peer, args, ...)] statement is an element of the list of
    calls the definition returns; a send on [applyCh] is an element of the
    list of messages it returns.  The part of [sendRequestVote] and
    [sendAppendEntries] that follows the RPC takes the outcome of
    [Call()] as an argument: [None] when it returned false. *)

From Stdlib Require Import ZArith Lia.
From stdpp Require Import base numbers strings gmap list.
From S2P Require Import Prelude Persister.
Local Open Scope Z_scope.

Inductive State := Leader | Follower | Candidate.

#[export] Instance State_eq_dec : EqDecision State.
Proof. solve_decision. Defined.

Section node.
(** The commands the service stores in the log: the dynamic values of the
    source's [interface{}]; the nil interface is [None]. *)
Context {Cmd : Type}.

Record LogEntry := mkLogEntry {
  le_Term : Z;
  le_Command : option Cmd;
}.

Record ApplyMsg := mkApplyMsg {
  CommandValid : bool;
  am_Command : option Cmd;
  CommandIndex : Z;
}.

(** [peers] is the length of the source's slice of RPC end points: the
    code uses the slice only for its length and to address a peer. *)
Record Raft := mkRaft {
  peers : nat;
  me : nat;
  dead : bool;
  state : State;
  votes : Z;
  currentTerm : Z;
  votedFor : Z;
  log : list LogEntry;
  commitIndex : Z;
  lastApplied : Z;
  nextIndex : list Z;
  matchIndex : list Z;
}.

Record RequestVoteArgs := mkRequestVoteArgs {
  rva_Term : Z;
  rva_CandidateId : Z;
  rva_LastLogIndex : Z;
  rva_LastLogTerm : Z;
}.

Record RequestVoteReply := mkRequestVoteReply {
  rvr_Term : Z;
  rvr_VoteGranted : bool;
}.

Record AppendEntriesArgs := mkAppendEntriesArgs {
  aea_Term : Z;
  aea_LeaderId : Z;
  aea_PrevLogIndex : Z;
  aea_PrevLogTerm : Z;
  aea_Entries : list LogEntry;
  aea_LeaderCommit : Z;
}.

Record AppendEntriesReply := mkAppendEntriesReply {
  aer_Term : Z;
  aer_Success : bool;
}.

(** Field assignments. *)
Definition set_dead (x : bool) (r : Raft) : Raft :=
  mkRaft (peers r) (me r) x (state r) (votes r) (currentTerm r) (votedFor r)
    (log r) (commitIndex r) (lastApplied r) (nextIndex r) (matchIndex r).
Definition set_state (x : State) (r : Raft) : Raft :=
  mkRaft (peers r) (me r) (dead r) x (votes r) (currentTerm r) (votedFor r)
    (log r) (commitIndex r) (lastApplied r) (nextIndex r) (matchIndex r).
Definition set_votes (x : Z) (r : Raft) : Raft :=
  mkRaft (peers r) (me r) (dead r) (state r) x (currentTerm r) (votedFor r)
    (log r) (commitIndex r) (lastApplied r) (nextIndex r) (matchIndex r).
Definition set_currentTerm (x : Z) (r : Raft) : Raft :=
  mkRaft (peers r) (me r) (dead r) (state r) (votes r) x (votedFor r)
    (log r) (commitIndex r) (lastApplied r) (nextIndex r) (matchIndex r).
Definition set_votedFor (x : Z) (r : Raft) : Raft :=
  mkRaft (peers r) (me r) (dead r) (state r) (votes r) (currentTerm r) x
    (log r) (commitIndex r) (lastApplied r) (nextIndex r) (matchIndex r).
Definition set_log (x : list LogEntry) (r : Raft) : Raft :=
  mkRaft (peers r) (me r) (dead r) (state r) (votes r) (currentTerm r)
    (votedFor r) x (commitIndex r) (lastApplied r) (nextIndex r) (matchIndex r).
Definition set_commitIndex (x : Z) (r : Raft) : Raft :=
  mkRaft (peers r) (me r) (dead r) (state r) (votes r) (currentTerm r)
    (votedFor r) (log r) x (lastApplied r) (nextIndex r) (matchIndex r).
Definition set_lastApplied (x : Z) (r : Raft) : Raft :=
  mkRaft (peers r) (me r) (dead r) (state r) (votes r) (currentTerm r)
    (votedFor r) (log r) (commitIndex r) x (nextIndex r) (matchIndex r).
Definition set_nextIndex (x : list Z) (r : Raft) : Raft :=
  mkRaft (peers r) (me r) (dead r) (state r) (votes r) (currentTerm r)
    (votedFor r) (log r) (commitIndex r) (lastApplied r) x (matchIndex r).
Definition set_matchIndex (x : list Z) (r : Raft) : Raft :=
  mkRaft (peers r) (me r) (dead r) (state r) (votes r) (currentTerm r)
    (votedFor r) (log r) (commitIndex r) (lastApplied r) (nextIndex r) x.

(** [for peer := range rf.peers { if peer != rf.me { ... } }] *)
Definition other_peers (rf : Raft) : list nat :=
  filter (fun p => p <> me rf) (seq 0 (peers rf)).

(** [count > len(rf.peers)/2], on Go's truncating division *)
Definition majority (rf : Raft) (count : Z) : bool :=
  Z.quot (Z.of_nat (peers rf)) 2 <? count.

(** ** State queries *)

Definition GetState (rf : Raft) : Z * bool :=
  (currentTerm rf, bool_decide (state rf = Leader)).

Definition Kill (rf : Raft) : Raft := set_dead true rf.

Definition killed (rf : Raft) : bool := dead rf.

(** ** Start *)

Definition Start (rf : Raft) (command : option Cmd) : result (Raft * (Z * Z * bool)) :=
  let term := currentTerm rf in
  if decide (state rf <> Leader) then Ok (rf, (-1, term, false))
  else
    let rf := set_log (log rf ++ [mkLogEntry term command]) rf in
    let index := len (log rf) - 1 in
    mi ← assign (matchIndex rf) (Z.of_nat (me rf)) index;
    let rf := set_matchIndex mi rf in
    ni ← assign (nextIndex rf) (Z.of_nat (me rf)) (index + 1);
    let rf := set_nextIndex ni rf in
    Ok (rf, (index, term, true)).

(** ** Elections *)

Definition becomeCandidate (rf : Raft) : result (Raft * list (nat * RequestVoteArgs)) :=
  let rf := set_state Candidate rf in
  let rf := set_currentTerm (currentTerm rf + 1) rf in
  let rf := set_votedFor (Z.of_nat (me rf)) rf in
  let rf := set_votes 1 rf in
  last ← index (log rf) (len (log rf) - 1);
  let args := {| rva_Term := currentTerm rf;
                 rva_CandidateId := Z.of_nat (me rf);
                 rva_LastLogIndex := len (log rf) - 1;
                 rva_LastLogTerm := le_Term last |} in
  Ok (rf, (fun peer => (peer, args)) <$> other_peers rf).

Definition candidateUpToDate (args : RequestVoteArgs) (lastIndex lastTerm : Z) : bool :=
  if rva_LastLogTerm args =? lastTerm then lastIndex <=? rva_LastLogIndex args
  else lastTerm <? rva_LastLogTerm args.

(** The reply starts as the zero value the RPC layer allocates. *)
Definition RequestVote (rf : Raft) (args : RequestVoteArgs)
    : result (Raft * RequestVoteReply) :=
  let reply := mkRequestVoteReply 0 false in
  if rva_Term args <? currentTerm rf then
    Ok (rf, mkRequestVoteReply (currentTerm rf) false)
  else
    let rf := if currentTerm rf <? rva_Term args then
                set_votedFor (-1) (set_currentTerm (rva_Term args) (set_state Follower rf))
              else rf in
    let lastIndex := len (log rf) - 1 in
    last ← index (log rf) lastIndex;
    if ((votedFor rf =? -1) || (votedFor rf =? rva_CandidateId args))
       && candidateUpToDate args lastIndex (le_Term last) then
      Ok (set_votedFor (rva_CandidateId args) rf,
          mkRequestVoteReply (rvr_Term reply) true)
    else Ok (rf, reply).

Definition becomeFollower (term : Z) (rf : Raft) : Raft :=
  set_votedFor (-1) (set_state Follower (set_currentTerm term rf)).

Definition emptyAppendEntriesArgs : AppendEntriesArgs :=
  mkAppendEntriesArgs 0 0 0 0 [] 0.

(** [sendRequestVote] after [Call()] returned. *)
Definition sendRequestVote (rf : Raft) (call : option RequestVoteReply)
    : Raft * list (nat * AppendEntriesArgs) :=
  match call with
  | None => (rf, [])
  | Some reply =>
    if currentTerm rf <? rvr_Term reply then (becomeFollower (rvr_Term reply) rf, [])
    else if rvr_VoteGranted reply then
      let rf := set_votes (votes rf + 1) rf in
      if majority rf (votes rf) then
        if decide (state rf = Candidate) then
          let rf := set_state Leader rf in
          let initialIndex := len (log rf) in
          let rf := set_nextIndex (replicate (peers rf) initialIndex) rf in
          let rf := set_matchIndex (replicate (peers rf) 0) rf in
          (rf, (fun peer => (peer, emptyAppendEntriesArgs)) <$> other_peers rf)
        else (rf, [])
      else (rf, [])
    else (rf, [])
  end.

(** ** Log replication *)

(** [for startIndex := i; startIndex <= rf.commitIndex; startIndex++ {
      rf.applyCh <- ApplyMsg{...}; rf.lastApplied = startIndex }] *)
Fixpoint applyLoop (fuel : nat) (startIndex : Z) (rf : Raft)
    : result (Raft * list ApplyMsg) :=
  if startIndex <=? commitIndex rf then
    match fuel with
    | O => Panic OutOfFuel
    | S fuel =>
      e ← index (log rf) startIndex;
      '(rf, msgs) ← applyLoop fuel (startIndex + 1) (set_lastApplied startIndex rf);
      Ok (rf, mkApplyMsg true (le_Command e) startIndex :: msgs)
    end
  else Ok (rf, []).

(** The apply loop started at [lastApplied + 1]; it runs at most
    [commitIndex - lastApplied] times. *)
Definition applyCommitted (rf : Raft) : result (Raft * list ApplyMsg) :=
  applyLoop (Z.to_nat (commitIndex rf - lastApplied rf)) (lastApplied rf + 1) rf.

Definition AppendEntries (rf : Raft) (args : AppendEntriesArgs)
    : result (Raft * AppendEntriesReply * list ApplyMsg) :=
  if aea_Term args <? currentTerm rf then
    Ok (rf, mkAppendEntriesReply (currentTerm rf) false, [])
  else
    let rf := if currentTerm rf <? aea_Term args
              then becomeFollower (aea_Term args) rf else rf in
    let refuse := mkAppendEntriesReply (currentTerm rf) false in
    if len (log rf) <=? aea_PrevLogIndex args then Ok (rf, refuse, [])
    else
      e ← index (log rf) (aea_PrevLogIndex args);
      if negb (aea_PrevLogTerm args =? le_Term e) then
        l ← slice_to (log rf) (aea_PrevLogIndex args);
        Ok (set_log l rf, refuse, [])
      else
        l ← slice_to (log rf) (aea_PrevLogIndex args + 1);
        let rf := set_log (l ++ aea_Entries args) rf in
        let reply := mkAppendEntriesReply (currentTerm rf) true in
        if commitIndex rf <? aea_LeaderCommit args then
          let rf := if len (log rf) - 1 <? aea_LeaderCommit args
                    then set_commitIndex (len (log rf) - 1) rf
                    else set_commitIndex (aea_LeaderCommit args) rf in
          '(rf, msgs) ← applyCommitted rf;
          Ok (rf, reply, msgs)
        else Ok (rf, reply, []).

(** [for _, idx := range rf.matchIndex { if idx >= N { count++ } }] *)
Fixpoint countReplicated (mi : list Z) (N count : Z) : Z :=
  match mi with
  | [] => count
  | idx :: mi => countReplicated mi N (if N <=? idx then count + 1 else count)
  end.

(** [for N := len(rf.log) - 1; N >= rf.commitIndex; N-- { ... break }] *)
Fixpoint commitLoop (fuel : nat) (N : Z) (rf : Raft) : result (Raft * list ApplyMsg) :=
  if commitIndex rf <=? N then
    match fuel with
    | O => Panic OutOfFuel
    | S fuel =>
      e ← index (log rf) N;
      let count := if le_Term e =? currentTerm rf
                   then countReplicated (matchIndex rf) N 0 else 0 in
      if majority rf count && bool_decide (state rf = Leader) then
        applyCommitted (set_commitIndex N rf)
      else commitLoop fuel (N - 1) rf
    end
  else Ok (rf, []).

Definition advanceCommit (rf : Raft) : result (Raft * list ApplyMsg) :=
  commitLoop (Z.to_nat (len (log rf) - commitIndex rf)) (len (log rf) - 1) rf.

(** [sendAppendEntries] after [Call()] returned. *)
Definition sendAppendEntries (rf : Raft) (server : nat) (args : AppendEntriesArgs)
    (call : option AppendEntriesReply) : result (Raft * list ApplyMsg) :=
  match call with
  | None => Ok (rf, [])
  | Some reply =>
    if decide (state rf <> Leader) then Ok (rf, [])
    else if currentTerm rf <? aer_Term reply then
      Ok (becomeFollower (aer_Term reply) rf, [])
    else
      back ← (if aer_Success reply then Ok None
              else ni ← index (nextIndex rf) (Z.of_nat server);
                   if 1 <? ni then
                     l ← assign (nextIndex rf) (Z.of_nat server) (Z.quot ni 2);
                     Ok (Some l)
                   else Ok None);
      match back with
      | Some l => Ok (set_nextIndex l rf, [])
      | None =>
        rf ← (if aer_Success reply then
                let m := len (aea_Entries args) + aea_PrevLogIndex args in
                mi ← assign (matchIndex rf) (Z.of_nat server) m;
                ni ← assign (nextIndex rf) (Z.of_nat server) (m + 1);
                Ok (set_nextIndex ni (set_matchIndex mi rf))
              else Ok rf);
        advanceCommit rf
      end
  end.

Definition heartBeatArgs (rf : Raft) (peer : nat) : result AppendEntriesArgs :=
  ni ← index (nextIndex rf) (Z.of_nat peer);
  if ni <? len (log rf) then
    prev ← index (log rf) (ni - 1);
    entries ← slice_from (log rf) ni;
    Ok (mkAppendEntriesArgs (currentTerm rf) (Z.of_nat (me rf)) (ni - 1)
          (le_Term prev) entries (commitIndex rf))
  else
    last ← index (log rf) (len (log rf) - 1);
    Ok (mkAppendEntriesArgs (currentTerm rf) (Z.of_nat (me rf)) (ni - 1)
          (le_Term last) [] (commitIndex rf)).

Definition sendHeartBeats (rf : Raft) : result (list (nat * AppendEntriesArgs)) :=
  if decide (state rf <> Leader) then Ok []
  else collect (fun peer => args ← heartBeatArgs rf peer; Ok (peer, args)) (other_peers rf).
End node.

Arguments LogEntry : clear implicits.
Arguments ApplyMsg : clear implicits.
Arguments Raft : clear implicits.
Arguments AppendEntriesArgs : clear implicits.

(** ** Persistence

    [labgob] wraps Go's [encoding/gob].  The code uses two facts of it: a
    fresh encoder turns a sequence of values into bytes, and a fresh decoder
    on those bytes returns the same values in the same order. *)

Inductive gobval (Cmd : Type) :=
| GLog (l : list (LogEntry Cmd))
| GInt (z : Z).
Arguments GLog {Cmd} l.
Arguments GInt {Cmd} z.

Class Gob (Cmd : Type) := {
  gob_encode : list (gobval Cmd) -> bytes;
  gob_decode : bytes -> option (list (gobval Cmd));
  gob_roundtrip : forall vs, gob_decode (gob_encode vs) = Some vs;
  gob_nonempty : forall v vs, gob_encode (v :: vs) <> [];
}.

Section persistence.
Context {Cmd : Type} `{Gob Cmd}.

Definition persist (rf : Raft Cmd) (ps : Persister) : Persister :=
  let data := gob_encode [GLog (log rf); GInt (currentTerm rf); GInt (votedFor rf)] in
  SaveRaftState ps data.

Definition readPersist (rf : Raft Cmd) (data : bytes) : result (Raft Cmd) :=
  if len data <? 1 then Ok rf
  else
    match gob_decode data with
    | Some (GLog l :: GInt t :: GInt v :: _) =>
      Ok (set_votedFor v (set_currentTerm t (set_log l rf)))
    | _ => Panic (PanicMsg "error reading persisted state")
    end.

Definition Make (peers me : nat) (persister : Persister) : result (Raft Cmd) :=
  let rf := {| peers := peers; me := me; dead := false; state := Follower;
               votes := 0; currentTerm := 0; votedFor := -1;
               log := [mkLogEntry 0 None]; commitIndex := 0; lastApplied := 0;
               nextIndex := []; matchIndex := [] |} in
  readPersist rf (ReadRaftState persister).
End persistence.
