(* ===== verification/RaftCluster.v ===== *)
(** * raft/raft.go: the peers, their tickers and the RPCs between them

    A cluster is a list of servers (the Raft struct of [RaftNode], the
    program counter of its [ticker] goroutine, its persister, and what it has
    sent on [applyCh] so far) and the list of RPCs in progress.  [step] is
    executable: a label names which goroutine runs next.  An RPC goes through
    three phases, because a handler of the source first updates the struct
    under [rf.mu] and then blocks on an unbuffered channel until the ticker
    of its peer receives: only then does the reply travel back.  The network
    may delay, reorder and drop requests and replies, and never duplicates
    one, which is what labrpc does. *)

From Stdlib Require Import ZArith Lia.
From stdpp Require Import base numbers strings gmap list.
From S2P Require Import Prelude Persister RaftNode.
Local Open Scope Z_scope.

(** The ticker is either between iterations or in the [select] statement it
    chose from the state it read at the start of the iteration. *)
Inductive TickerPc := Sleeping | Selecting (read : State).

#[export] Instance TickerPc_eq_dec : EqDecision TickerPc.
Proof. solve_decision. Defined.

(** Where an RPC is: on its way to the handler; its handler ran and is
    blocked on [receivedVoteChan] or [heartBeatChan]; its reply is on the
    way back. *)
Inductive phase (R : Type) := Requested | Blocked (reply : R) | Replied (reply : R).
Arguments Requested {R}.
Arguments Blocked {R} reply.
Arguments Replied {R} reply.

Section cluster.
Context {Cmd : Type} `{Gob Cmd}.

Inductive rpc :=
| RV (src dst : nat) (args : RequestVoteArgs) (ph : phase RequestVoteReply)
| AE (src dst : nat) (args : AppendEntriesArgs Cmd) (ph : phase AppendEntriesReply).

Record Server := mkServer {
  rf : Raft Cmd;
  pc : TickerPc;
  disk : Persister;
  applied : list (ApplyMsg Cmd);
}.

Record Cluster := mkCluster {
  servers : list Server;
  net : list rpc;
}.

Inductive label :=
| TickRead (i : nat)          (* ticker: sleep, read the state, persist *)
| TickTimeout (i : nat)       (* ticker: the time-out case of the select *)
| TickWake (i k : nat)        (* ticker: receive from the handler of RPC k *)
| HandleRequest (k : nat)     (* the handler of RPC k runs at its target *)
| HandleReply (k : nat)       (* Call() returns true at the caller of RPC k *)
| Drop (k : nat)              (* the network loses RPC k: Call() returns false *)
| ClientStart (i : nat) (cmd : Cmd)
| Restart (i : nat).          (* crash, and Make() from the saved state *)

Definition rv_calls (i : nat) (calls : list (nat * RequestVoteArgs)) : list rpc :=
  (fun '(p, a) => RV i p a Requested) <$> calls.
Definition ae_calls (i : nat) (calls : list (nat * AppendEntriesArgs Cmd)) : list rpc :=
  (fun '(p, a) => AE i p a Requested) <$> calls.

Definition put (i : nat) (s : Server) (c : Cluster) (n : list rpc) : Cluster :=
  mkCluster (<[i := s]> (servers c)) n.

(** One iteration of [ticker] up to its [select]. *)
Definition ticker_read (s : Server) : Server :=
  mkServer (rf s) (Selecting (state (rf s))) (persist (rf s) (disk s)) (applied s).

(** The time-out branch: a follower or candidate starts an election, a
    leader sends heartbeats; the choice is by the state read earlier. *)
Definition ticker_timeout (i : nat) (s : Server) (read : State)
    : result (Server * list rpc) :=
  match read with
  | Leader =>
    calls ← sendHeartBeats (rf s);
    Ok (mkServer (rf s) Sleeping (disk s) (applied s), ae_calls i calls)
  | Follower | Candidate =>
    '(rf', calls) ← becomeCandidate (rf s);
    Ok (mkServer rf' Sleeping (disk s) (applied s), rv_calls i calls)
  end.

(** The receive branches: a leader's select has no [receivedVoteChan]. *)
Definition ticker_wake (i : nat) (read : State) (m : rpc) : option rpc :=
  match m with
  | RV src dst a (Blocked r) =>
    if decide (dst = i /\ read <> Leader) then Some (RV src dst a (Replied r)) else None
  | AE src dst a (Blocked r) =>
    if decide (dst = i) then Some (AE src dst a (Replied r)) else None
  | _ => None
  end.

Definition handle_request (s : Server) (m : rpc) : option (result (Server * rpc)) :=
  match m with
  | RV src dst a Requested => Some (
    '(rf', r) ← RequestVote (rf s) a;
    Ok (mkServer rf' (pc s) (disk s) (applied s), RV src dst a (Blocked r)))
  | AE src dst a Requested => Some (
    '(rf', r, msgs) ← AppendEntries (rf s) a;
    Ok (mkServer rf' (pc s) (disk s) (applied s ++ msgs), AE src dst a (Blocked r)))
  | _ => None
  end.

Definition handle_reply (i : nat) (s : Server) (m : rpc) : option (result (Server * list rpc)) :=
  match m with
  | RV src dst a (Replied r) => Some (
    let '(rf', calls) := sendRequestVote (rf s) (Some r) in
    Ok (mkServer rf' (pc s) (disk s) (applied s), ae_calls i calls))
  | AE src dst a (Replied r) => Some (
    '(rf', msgs) ← sendAppendEntries (rf s) dst a (Some r);
    Ok (mkServer rf' (pc s) (disk s) (applied s ++ msgs), []))
  | _ => None
  end.

Definition rpc_src (m : rpc) : nat :=
  match m with RV src _ _ _ => src | AE src _ _ _ => src end.
Definition rpc_dst (m : rpc) : nat :=
  match m with RV _ dst _ _ => dst | AE _ dst _ _ => dst end.
Definition droppable (m : rpc) : bool :=
  match m with RV _ _ _ (Blocked _) | AE _ _ _ (Blocked _) => false | _ => true end.

(** The RPCs that die with the crashed instance [i]: those whose caller it
    is, and those whose handler is blocked inside it. *)
Definition dies_with (i : nat) (m : rpc) : bool :=
  bool_decide (rpc_src m = i) || (bool_decide (rpc_dst m = i) && negb (droppable m)).

(** [None]: the label is not enabled.  [Some (Panic _)]: the step aborts
    the program. *)
Definition step (l : label) (c : Cluster) : option (result Cluster) :=
  match l with
  | TickRead i =>
    s ← servers c !! i;
    if decide (pc s = Sleeping /\ killed (rf s) = false) then
      Some (Ok (put i (ticker_read s) c (net c)))
    else None
  | TickTimeout i =>
    s ← servers c !! i;
    match pc s with
    | Selecting read => Some (
      '(s', calls) ← ticker_timeout i s read;
      Ok (put i s' c (net c ++ calls)))
    | Sleeping => None
    end
  | TickWake i k =>
    s ← servers c !! i;
    m ← net c !! k;
    match pc s with
    | Selecting read =>
      m' ← ticker_wake i read m;
      Some (Ok (put i (mkServer (rf s) Sleeping (disk s) (applied s)) c
                    (<[k := m']> (net c))))
    | Sleeping => None
    end
  | HandleRequest k =>
    m ← net c !! k;
    s ← servers c !! rpc_dst m;
    r ← handle_request s m;
    Some ('(s', m') ← r; Ok (put (rpc_dst m) s' c (<[k := m']> (net c))))
  | HandleReply k =>
    m ← net c !! k;
    s ← servers c !! rpc_src m;
    r ← handle_reply (rpc_src m) s m;
    Some ('(s', calls) ← r; Ok (put (rpc_src m) s' c (delete k (net c) ++ calls)))
  | Drop k =>
    m ← net c !! k;
    if droppable m then Some (Ok (mkCluster (servers c) (delete k (net c)))) else None
  | ClientStart i cmd =>
    s ← servers c !! i;
    Some ('(rf', _) ← Start (rf s) (Some cmd);
          Ok (put i (mkServer rf' (pc s) (disk s) (applied s)) c (net c)))
  | Restart i =>
    s ← servers c !! i;
    Some (let d := Copy (disk s) in
          rf' ← Make (length (servers c)) i d;
          Ok (put i (mkServer rf' Sleeping d []) c
                  (filter (fun m => dies_with i m = false) (net c))))
  end.

(** [n] peers created by [Make] with empty persisters. *)
Definition boot (n i : nat) : Raft Cmd :=
  {| peers := n; me := i; dead := false; state := Follower; votes := 0;
     currentTerm := 0; votedFor := -1; log := [mkLogEntry 0 None];
     commitIndex := 0; lastApplied := 0; nextIndex := []; matchIndex := [] |}.

Definition init (n : nat) : Cluster :=
  mkCluster ((fun i => mkServer (boot n i) Sleeping MakePersister []) <$> seq 0 n) [].

(** A restriction on the schedules a theorem speaks about. *)
Definition restriction := Cluster -> label -> bool.

Definition any_label : restriction := fun _ _ => true.

(** No peer crashes. *)
Definition crash_free : restriction := fun _ l =>
  match l with Restart _ => false | _ => true end.

(** No peer crashes, and a granted vote is counted only while its candidate
    is still in the term it asked for. *)
Definition fresh_votes : restriction := fun c l =>
  match l with
  | Restart _ => false
  | HandleReply k =>
    match net c !! k with
    | Some (RV src _ a (Replied r)) =>
      match servers c !! src with
      | Some s => negb (rvr_VoteGranted r) || (rva_Term a =? currentTerm (rf s))
      | None => true
      end
    | _ => true
    end
  | _ => true
  end.

(** A request of the peer's own term does not end before an entry that the
    peer already has from that term. *)
Definition not_behind (r : Raft Cmd) (a : AppendEntriesArgs Cmd) : bool :=
  match last (log r) with
  | Some x => negb ((aea_Term a =? currentTerm r) && (le_Term x =? aea_Term a)) ||
      (len (log r) - 1 <=? aea_PrevLogIndex a + len (aea_Entries a))
  | None => true
  end.

(** A positive reply answers the initial broadcast or a request of the
    leader's current term. *)
Definition current_reply (r : Raft Cmd) (a : AppendEntriesArgs Cmd) (reply : AppendEntriesReply) : bool :=
  negb (aer_Success reply) || (aea_Term a =? 0) || (aea_Term a =? currentTerm r).

(** A request is not overtaken by a longer one of its term. *)
Definition ordered_requests : restriction := fun c l =>
  match l with
  | HandleRequest k =>
    match net c !! k with
    | Some (AE _ dst a Requested) =>
      match servers c !! dst with Some s => not_behind (rf s) a | None => true end
    | _ => true
    end
  | _ => true
  end.

(** A positive reply to AppendEntries reaches its leader in the term of the
    request. *)
Definition current_replies : restriction := fun c l =>
  match l with
  | HandleReply k =>
    match net c !! k with
    | Some (AE src _ a (Replied r)) =>
      match servers c !! src with Some s => current_reply (rf s) a r | None => true end
    | _ => true
    end
  | _ => true
  end.

(** No peer crashes, a granted vote is counted while its candidate is still
    in the term it asked for, and both of the above. *)
Definition orderly : restriction := fun c l =>
  fresh_votes c l && ordered_requests c l && current_replies c l.

Lemma orderly_parts c l :
  orderly c l = true ->
  fresh_votes c l = true /\ ordered_requests c l = true /\ current_replies c l = true.
Proof. unfold orderly. rewrite !andb_true_iff. tauto. Qed.

(** The clusters reachable from [n] booted peers through labels that [ok]
    admits. *)
Inductive reach (n : nat) (ok : restriction) : Cluster -> Prop :=
| reach_init : reach n ok (init n)
| reach_step c l c' :
    reach n ok c -> ok c l = true -> step l c = Some (Ok c') -> reach n ok c'.

(** Run a schedule, provided [ok] admits each of its labels. *)
Fixpoint run (ok : restriction) (ls : list label) (c : Cluster) : option (result Cluster) :=
  match ls with
  | [] => Some (Ok c)
  | l :: ls =>
    if ok c l then
      r ← step l c;
      match r with Ok c => run ok ls c | Panic p => Some (Panic p) end
    else None
  end.

Lemma run_reach n ok ls c c' :
  reach n ok c -> run ok ls c = Some (Ok c') -> reach n ok c'.
Proof.
  revert c. induction ls as [|l ls IH]; intros c Hc; simpl; [by intros [= <-]|].
  destruct (ok c l) eqn:Hok; [|done].
  destruct (step l c) as [[c1|p]|] eqn:Hst; simpl; [|done|done].
  apply IH. by eapply reach_step.
Qed.

Lemma reach_weaken n (ok ok' : restriction) c :
  (forall c l, ok c l = true -> ok' c l = true) -> reach n ok c -> reach n ok' c.
Proof. intros Himp. induction 1; [constructor|]. eapply reach_step; eauto. Qed.

Lemma fresh_crash_free c l : fresh_votes c l = true -> crash_free c l = true.
Proof. by destruct l. Qed.
End cluster.

Arguments Server : clear implicits.
Arguments Cluster : clear implicits.
Arguments rpc : clear implicits.
Arguments label : clear implicits.

Lemma boot_Make {Cmd} `{Gob Cmd} n i : Make n i MakePersister = Ok (boot (Cmd := Cmd) n i).
Proof. reflexivity. Qed.

(** A schedule run from the booted cluster reaches what it computes. *)
Lemma run_init_reach {Cmd} `{Gob Cmd} n ok ls (c : Cluster Cmd) :
  run ok ls (init n) = Some (Ok c) -> reach n ok c.
Proof. apply run_reach. constructor. Qed.
