(* ===== verification/RaftNodeFacts.v ===== *)
(** * raft/raft.go: what each handler does to one peer

    The loops of the source against their closed forms: what the apply and
    commit loops deliver, what the counting loop counts, and the recipients
    of a broadcast. *)

From Stdlib Require Import ZArith Lia.
From stdpp Require Import base numbers strings gmap list.
From S2P Require Import Prelude Persister RaftNode.
Local Open Scope Z_scope.

Section facts.
Context {Cmd : Type}.
Implicit Types (rf : Raft Cmd) (l : list (LogEntry Cmd)).

(** ** The apply loop *)

(** The messages for the [n] log entries from index [from] on. *)
Definition entry_msgs l (from : Z) (n : nat) : list (ApplyMsg Cmd) :=
  imap (fun k e => mkApplyMsg true (le_Command e) (from + Z.of_nat k))
       (take n (drop (Z.to_nat from) l)).

Lemma entry_msgs_S l from n e :
  0 <= from -> l !! Z.to_nat from = Some e ->
  entry_msgs l from (S n) = mkApplyMsg true (le_Command e) from :: entry_msgs l (from + 1) n.
Proof.
  intros H0 He. unfold entry_msgs.
  rewrite (drop_S _ e) by done. simpl. f_equal; [f_equal; lia|].
  replace (Z.to_nat (from + 1)) with (S (Z.to_nat from)) by lia.
  apply imap_ext. intros k x _. simpl. f_equal. lia.
Qed.

Lemma entry_msgs_index l from n :
  0 <= from -> from + Z.of_nat n <= len l ->
  CommandIndex <$> entry_msgs l from n = seqZ from (Z.of_nat n).
Proof.
  intros H0 Hn. apply list_eq. intros k. unfold entry_msgs.
  rewrite list_lookup_fmap, list_lookup_imap.
  destruct (decide (k < n)%nat) as [Hk|Hk].
  - rewrite lookup_take_lt, lookup_drop by done.
    destruct (lookup_lt_is_Some_2 l (Z.to_nat from + k)%nat) as [e He];
      [unfold len in Hn; lia|].
    rewrite He. simpl. symmetry. apply lookup_seqZ. split; lia.
  - rewrite lookup_take_ge by lia. simpl. symmetry.
    apply lookup_seqZ_ge. lia.
Qed.

Lemma applyLoop_spec rf start fuel :
  0 <= start -> commitIndex rf < len (log rf) ->
  (Z.to_nat (commitIndex rf - start + 1) <= fuel)%nat ->
  applyLoop fuel start rf =
    Ok (if start <=? commitIndex rf then set_lastApplied (commitIndex rf) rf else rf,
        entry_msgs (log rf) start (Z.to_nat (commitIndex rf - start + 1))).
Proof.
  revert start rf. induction fuel as [|fuel IH]; intros start rf H0 Hc Hf;
    simpl; destruct (Z.leb_spec start (commitIndex rf)) as [Hle|Hgt]; try lia;
    try (replace (Z.to_nat _) with 0%nat by lia; done).
  destruct (index_in_range (log rf) start) as [e He]; [lia|].
  rewrite He, result_bind_ret.
  rewrite IH by (simpl; lia). simpl.
  apply index_Ok in He as [_ He].
  replace (Z.to_nat (commitIndex rf - start + 1))
    with (S (Z.to_nat (commitIndex rf - (start + 1) + 1))) by lia.
  rewrite (entry_msgs_S _ _ _ e) by done. f_equal. f_equal.
  destruct (Z.leb_spec (start + 1) (commitIndex rf)); [done|].
  by replace start with (commitIndex rf) by lia.
Qed.

Lemma set_lastApplied_id rf : set_lastApplied (lastApplied rf) rf = rf.
Proof. by destruct rf. Qed.

(** The apply loop sends the entries from [lastApplied + 1] to
    [commitIndex], in order, and moves [lastApplied] there. *)
Lemma applyCommitted_spec rf :
  0 <= lastApplied rf -> commitIndex rf < len (log rf) ->
  applyCommitted rf =
    Ok (set_lastApplied (Z.max (lastApplied rf) (commitIndex rf)) rf,
        entry_msgs (log rf) (lastApplied rf + 1)
                   (Z.to_nat (commitIndex rf - lastApplied rf))).
Proof.
  intros H0 Hc. unfold applyCommitted. rewrite applyLoop_spec by lia.
  replace (commitIndex rf - (lastApplied rf + 1) + 1)
    with (commitIndex rf - lastApplied rf) by lia.
  do 2 f_equal. destruct (Z.leb_spec (lastApplied rf + 1) (commitIndex rf)).
  - by rewrite Z.max_r by lia.
  - by rewrite Z.max_l, set_lastApplied_id by lia.
Qed.

(** ** The commit loop *)

Lemma countReplicated_spec mi N c :
  countReplicated mi N c = c + Z.of_nat (length (filter (fun idx => N <= idx) mi)).
Proof.
  revert c. induction mi as [|x mi IH]; intros c; simpl; [lia|].
  rewrite IH, filter_cons. destruct (Z.leb_spec N x).
  - rewrite decide_True by done. simpl. lia.
  - rewrite decide_False by lia. done.
Qed.

(** Entry [N] is of the current term and on a majority, as far as
    [matchIndex] tells. *)
Definition committable rf (N : Z) : Prop :=
  exists e, log rf !! Z.to_nat N = Some e /\ le_Term e = currentTerm rf /\
    Z.quot (Z.of_nat (peers rf)) 2 <
      Z.of_nat (length (filter (fun idx => N <= idx) (matchIndex rf))).

Lemma majority_committable rf N e :
  log rf !! Z.to_nat N = Some e ->
  majority rf (if le_Term e =? currentTerm rf
               then countReplicated (matchIndex rf) N 0 else 0) = true <->
  committable rf N.
Proof.
  intros He. unfold majority, committable. rewrite countReplicated_spec.
  destruct (Z.eqb_spec (le_Term e) (currentTerm rf)) as [Ht|Ht].
  - rewrite Z.ltb_lt. split.
    + intros. exists e. split_and!; [done|done|lia].
    + intros (e' & ? & ? & ?). lia.
  - split.
    + rewrite Z.ltb_lt. intros Hq.
      pose proof (Z.quot_pos (Z.of_nat (peers rf)) 2). lia.
    + intros (e' & ? & ? & ?). simplify_eq.
Qed.

(** The loop commits the greatest committable index at or above
    [commitIndex], and applies up to it. *)
Lemma commitLoop_spec rf fuel N :
  state rf = Leader -> 0 <= commitIndex rf -> N < len (log rf) ->
  (Z.to_nat (N - commitIndex rf + 1) <= fuel)%nat ->
  ((forall M, commitIndex rf <= M <= N -> ~ committable rf M) /\
     commitLoop fuel N rf = Ok (rf, [])) \/
  (exists M, commitIndex rf <= M <= N /\ committable rf M /\
     (forall M', M < M' <= N -> ~ committable rf M') /\
     commitLoop fuel N rf = applyCommitted (set_commitIndex M rf)).
Proof.
  intros Hl H0. revert N. induction fuel as [|fuel IH]; intros N HN Hf; simpl;
    destruct (Z.leb_spec (commitIndex rf) N) as [Hle|Hgt]; try lia;
    try (left; split; [intros; lia|done]).
  destruct (index_in_range (log rf) N) as [e He]; [lia|].
  rewrite He, result_bind_ret. apply index_Ok in He as [_ He].
  rewrite bool_decide_true by done. rewrite andb_true_r.
  destruct (majority rf _) eqn:Hm.
  - right. exists N. apply majority_committable in Hm; [|done].
    split_and!; [lia|lia|done|intros; lia|done].
  - assert (Hnc : ~ committable rf N).
    { intros Hc. apply (majority_committable _ _ _ He) in Hc. congruence. }
    destruct (IH (N - 1)) as [[Hno HR]|(M & HM & Hc & Hmax & HR)]; [lia|lia| |].
    + left. split; [|done]. intros M ? ?. destruct (decide (M = N)); [by subst|].
      eapply Hno; [|done]. lia.
    + right. exists M. split_and!; [lia|lia|done| |done].
      intros M' ? ?. destruct (decide (M' = N)); [by subst|].
      eapply Hmax; [|done]. lia.
Qed.

Lemma advanceCommit_spec rf :
  state rf = Leader -> 0 <= commitIndex rf ->
  ((forall M, commitIndex rf <= M < len (log rf) -> ~ committable rf M) /\
     advanceCommit rf = Ok (rf, [])) \/
  (exists M, commitIndex rf <= M < len (log rf) /\ committable rf M /\
     (forall M', M < M' < len (log rf) -> ~ committable rf M') /\
     advanceCommit rf = applyCommitted (set_commitIndex M rf)).
Proof.
  intros Hl H0. unfold advanceCommit.
  destruct (commitLoop_spec rf (Z.to_nat (len (log rf) - commitIndex rf))
              (len (log rf) - 1)) as [[Hno HR]|(M & HM & Hc & Hmax & HR)];
    [done|done|lia|lia| |].
  - left. split; [|done]. intros M ?. apply Hno. lia.
  - right. exists M. split_and!; [lia|lia|done| |done]. intros M' ?. apply Hmax. lia.
Qed.

(** ** Votes *)

(** The last entry of the candidate's log is not before the voter's, in
    the order of terms and then indices. *)
Definition last_le (term index term' index' : Z) : Prop :=
  term < term' \/ (term = term' /\ index <= index').

Lemma candidateUpToDate_spec a idx term :
  candidateUpToDate a idx term = true <->
  last_le term idx (rva_LastLogTerm a) (rva_LastLogIndex a).
Proof.
  unfold candidateUpToDate, last_le.
  destruct (Z.eqb_spec (rva_LastLogTerm a) term);
    [rewrite Z.leb_le|rewrite Z.ltb_lt]; lia.
Qed.

(** ** Peers *)

Lemma elem_of_other_peers rf p :
  p ∈ other_peers rf <-> (p < peers rf)%nat /\ p <> me rf.
Proof.
  unfold other_peers. rewrite list_elem_of_filter, elem_of_seq. lia.
Qed.

Lemma NoDup_other_peers rf : NoDup (other_peers rf).
Proof. apply NoDup_filter, NoDup_seq. Qed.
(** Every message of the apply loop is valid. *)
Lemma applyLoop_valid fuel startIndex (r r' : Raft Cmd) msgs :
  applyLoop fuel startIndex r = Ok (r', msgs) -> Forall (fun m => CommandValid m = true) msgs.
Proof.
  revert startIndex r msgs. induction fuel as [|fuel IH]; intros si r msgs; simpl;
    (destruct (si <=? commitIndex r); [|intros HR; go_inv; constructor]); [done|].
  intros HR. go_inv. destruct a0 as [r1 ms]. go_inv. constructor; [done|by eapply IH].
Qed.

Lemma AppendEntries_valid (r r' : Raft Cmd) a reply msgs :
  AppendEntries r a = Ok (r', reply, msgs) -> Forall (fun m => CommandValid m = true) msgs.
Proof.
  unfold AppendEntries. intros HR.
  destruct (aea_Term a <? currentTerm r); [go_inv; constructor|].
  destruct (len _ <=? aea_PrevLogIndex a); [go_inv; constructor|].
  apply result_bind_Ok in HR as (e & _ & HR).
  destruct (negb _); apply result_bind_Ok in HR as (l & _ & HR); [go_inv; constructor|].
  destruct (_ <? aea_LeaderCommit a); [|go_inv; constructor].
  apply result_bind_Ok in HR as ([r1 ms] & HR & E). go_inv. by eapply applyLoop_valid.
Qed.
End facts.
