(* ===== verification/RaftWf.v ===== *)
(** * raft/raft.go: no peer ever panics

    The source indexes [log], [nextIndex] and [matchIndex] in many places.
    The well-formedness invariant below is kept by every handler and makes
    every one of those accesses in range, in every reachable cluster, with
    crashes, restarts, lost and reordered messages. *)

From Stdlib Require Import ZArith Lia.
From stdpp Require Import base numbers strings gmap list.
From S2P Require Import Prelude Persister RaftNode RaftNodeFacts RaftCluster.
Local Open Scope Z_scope.

Section wf.
Context {Cmd : Type} `{Gob Cmd}.
Implicit Types (r : Raft Cmd) (l : list (LogEntry Cmd)).

(** Index 0 of a log is the dummy entry [Make] put there. *)
Definition wf_log l : Prop :=
  exists e, l !! 0%nat = Some e /\ le_Term e = 0 /\ le_Command e = None.

Record wf_raft (n i : nat) (r : Raft Cmd) : Prop := {
  wf_peers : peers r = n;
  wf_me : me r = i;
  wf_id : (i < n)%nat;
  wf_log0 : wf_log (log r);
  wf_term : 0 <= currentTerm r;
  wf_commit : 0 <= commitIndex r;
  wf_applied : 0 <= lastApplied r;
  wf_leader : state r = Leader ->
    length (nextIndex r) = n /\ length (matchIndex r) = n /\
    Forall (fun x => 1 <= x) (nextIndex r);
}.

(** What the handlers rely on in an AppendEntries request. *)
Definition wf_append (a : AppendEntriesArgs Cmd) : Prop :=
  0 <= aea_PrevLogIndex a /\ (aea_PrevLogIndex a = 0 -> aea_PrevLogTerm a = 0).

Definition wf_rpc (n : nat) (m : rpc Cmd) : Prop :=
  (rpc_src m < n)%nat /\ (rpc_dst m < n)%nat /\
  match m with AE _ _ a _ => wf_append a | RV _ _ _ _ => True end.

Definition wf_disk (d : Persister) : Prop :=
  ReadRaftState d = [] \/
  exists l t v, ReadRaftState d = gob_encode [GLog l; GInt t; GInt v] /\
    wf_log l /\ 0 <= t.

Record wf_server (n i : nat) (s : Server Cmd) : Prop := {
  wf_server_rf : wf_raft n i (rf s);
  wf_server_disk : wf_disk (disk s);
}.

Record wf_cluster (n : nat) (c : Cluster Cmd) : Prop := {
  wf_size : length (servers c) = n;
  wf_servers : forall i s, servers c !! i = Some s -> wf_server n i s;
  wf_net : Forall (wf_rpc n) (net c);
}.

(** ** Logs *)

Lemma wf_log_len l : wf_log l -> 1 <= len l.
Proof. intros (e & He & _). apply lookup_lt_Some in He. unfold len. lia. Qed.

Lemma wf_log_last l : wf_log l -> exists e, index l (len l - 1) = Ok e.
Proof. intros Hl%wf_log_len. apply index_in_range. lia. Qed.

Lemma wf_log_app l k : wf_log l -> wf_log (l ++ k).
Proof.
  intros (e & He & ?). exists e. split; [|done].
  by apply lookup_app_l_Some.
Qed.

Lemma wf_log_take l n : wf_log l -> 1 <= n -> wf_log (take (Z.to_nat n) l).
Proof.
  intros (e & He & ?) Hn. exists e. split; [|done].
  rewrite lookup_take_lt by lia. done.
Qed.

Lemma wf_log_index0 l e : wf_log l -> index l 0 = Ok e -> le_Term e = 0.
Proof.
  intros (e' & He' & ? & _) [_ He]%index_Ok. change (Z.to_nat 0) with 0%nat in He.
  congruence.
Qed.

#[local] Hint Resolve wf_log_app wf_log_take wf_peers wf_me wf_id wf_log0
  wf_term wf_commit wf_applied wf_leader : core.

(** ** Handlers *)

Lemma wf_becomeFollower n i r t :
  wf_raft n i r -> 0 <= t -> wf_raft n i (becomeFollower t r).
Proof. intros [] ?. by constructor. Qed.

Lemma wf_applyCommitted n i r :
  wf_raft n i r -> commitIndex r < len (log r) ->
  exists r' msgs, applyCommitted r = Ok (r', msgs) /\ wf_raft n i r'.
Proof.
  intros [] Hc. rewrite applyCommitted_spec by done. do 2 eexists. split; [done|].
  constructor; simpl; auto. lia.
Qed.

Lemma wf_Start n i r cmd :
  wf_raft n i r -> exists r' x, Start r cmd = Ok (r', x) /\ wf_raft n i r'.
Proof.
  intros Hw. destruct (Hw) as [Hp Hm Hid Hl Ht Hc Ha Hld]. unfold Start.
  destruct (decide (state r <> Leader)) as [|Hs]; [by eauto|].
  assert (state r = Leader) as Hs' by (by apply dec_stable).
  destruct (Hld Hs') as (Hni & Hmi & Hge).
  rewrite assign_in_range by (simpl; unfold len; lia). rewrite result_bind_ret.
  rewrite assign_in_range by (simpl; unfold len; lia). rewrite result_bind_ret.
  do 2 eexists. split; [done|]. constructor; simpl; auto.
  intros _. rewrite !length_insert. split_and!; [done|done|].
  apply Forall_insert; [done|]. pose proof (wf_log_len _ Hl). autorewrite with go. lia.
Qed.

Lemma wf_becomeCandidate n i r :
  wf_raft n i r ->
  exists r' calls, becomeCandidate r = Ok (r', calls) /\ wf_raft n i r' /\
    Forall (fun ca => (ca.1 < n)%nat) calls.
Proof.
  intros [Hp Hm Hid Hl Ht Hc Ha Hld]. unfold becomeCandidate. cbn [log set_votes set_votedFor
    set_currentTerm set_state].
  destruct (wf_log_last _ Hl) as [e ->]. rewrite result_bind_ret.
  do 2 eexists. split; [done|]. split.
  - constructor; simpl; auto; [lia|done].
  - apply Forall_fmap, Forall_forall. intros p Hpeer%elem_of_other_peers.
    simpl in *. lia.
Qed.

Lemma wf_RequestVote n i r a :
  wf_raft n i r ->
  exists r' reply, RequestVote r a = Ok (r', reply) /\ wf_raft n i r'.
Proof.
  intros Hw. unfold RequestVote.
  destruct (Z.ltb_spec (rva_Term a) (currentTerm r)); [by eauto|].
  match goal with |- context [index (log ?x)] => set (r1 := x) end.
  assert (wf_raft n i r1) as Hw1.
  { subst r1. destruct (Z.ltb_spec (currentTerm r) (rva_Term a)); [|done].
    destruct Hw. constructor; simpl; auto; [lia|done]. }
  destruct (wf_log_last _ (wf_log0 _ _ _ Hw1)) as [e ->]. rewrite result_bind_ret.
  split_ifs; do 2 eexists; (split; [done|]); [|done].
  destruct Hw1. by constructor.
Qed.

Lemma wf_sendRequestVote n i r reply :
  wf_raft n i r ->
  wf_raft n i (sendRequestVote r (Some reply)).1 /\
  Forall (fun ca => (ca.1 < n)%nat /\ wf_append ca.2) (sendRequestVote r (Some reply)).2.
Proof.
  intros Hw. destruct (Hw) as [Hp Hm Hid Hl Ht Hc Ha Hld]. unfold sendRequestVote.
  destruct (Z.ltb_spec (currentTerm r) (rvr_Term reply)).
  { split; [|constructor]. apply wf_becomeFollower; [done|lia]. }
  destruct (rvr_VoteGranted reply); [|by split].
  destruct (majority _ _); [|split; [by constructor|constructor]].
  case_decide; [|split; [by constructor|constructor]].
  split.
  - constructor; simpl; auto. intros _. rewrite !length_replicate, Hp.
    split_and!; [done|done|]. apply Forall_replicate. apply (wf_log_len _ Hl).
  - apply Forall_fmap, Forall_forall. intros p Hpeer%elem_of_other_peers.
    simpl in *. split; [lia|]. split; simpl; [lia|done].
Qed.

Lemma wf_AppendEntries n i r a :
  wf_raft n i r -> wf_append a ->
  exists r' reply msgs, AppendEntries r a = Ok (r', reply, msgs) /\ wf_raft n i r'.
Proof.
  intros Hw [Hprev Hzero]. unfold AppendEntries.
  destruct (Z.ltb_spec (aea_Term a) (currentTerm r)); [by eauto|].
  match goal with |- context [index (log ?x)] => set (r1 := x) end.
  assert (wf_raft n i r1) as Hw1.
  { subst r1. destruct (Z.ltb_spec (currentTerm r) (aea_Term a)); [|done].
    apply wf_becomeFollower; [done|]. destruct Hw. lia. }
  clearbody r1. destruct (Hw1) as [Hp Hm Hid Hl Ht Hc Ha Hld].
  destruct (Z.leb_spec (len (log r1)) (aea_PrevLogIndex a)); [by eauto|].
  destruct (index_in_range (log r1) (aea_PrevLogIndex a)) as [e He]; [lia|].
  rewrite He, result_bind_ret.
  destruct (Z.eqb_spec (aea_PrevLogTerm a) (le_Term e)) as [Heq|Hne]; simpl.
  - rewrite slice_to_in_range, result_bind_ret by lia.
    match goal with |- context [set_log ?x r1] => set (r2 := set_log x r1) end.
    assert (wf_raft n i r2) as Hw2.
    { constructor; simpl; auto. apply wf_log_app, wf_log_take; [done|lia]. }
    pose proof (wf_log_len _ (wf_log0 _ _ _ Hw2)) as Hlen. simpl in Hlen.
    destruct (Z.ltb_spec (commitIndex r1) (aea_LeaderCommit a)); [|by eauto].
    match goal with |- context [applyCommitted ?x] => set (r3 := x) end.
    destruct (wf_applyCommitted n i r3) as (r' & msgs & -> & Hw').
    + subst r3. split_ifs; destruct Hw2; constructor; simpl in *; auto; lia.
    + subst r3. simpl. split_ifs; simpl; zbool; lia.
    + rewrite result_bind_ret. by eauto.
  - rewrite slice_to_in_range, result_bind_ret by lia. do 3 eexists. split; [done|].
    constructor; simpl; auto. apply wf_log_take; [done|].
    destruct (decide (aea_PrevLogIndex a = 0)) as [E|]; [|lia].
    rewrite E in He. apply wf_log_index0 in He; [|done]. rewrite Hzero in Hne; congruence.
Qed.

Lemma wf_advanceCommit n i r :
  wf_raft n i r -> state r = Leader ->
  exists r' msgs, advanceCommit r = Ok (r', msgs) /\ wf_raft n i r'.
Proof.
  intros Hw Hs. destruct (advanceCommit_spec r) as [[_ ->]|(M & HM & _ & _ & ->)];
    [done|by destruct Hw|by eauto|].
  apply wf_applyCommitted; [|simpl; lia].
  destruct Hw. constructor; simpl; auto. lia.
Qed.

(** A leader's indices for one peer change. *)
Lemma wf_indices n i r p x m :
  wf_raft n i r -> 1 <= x ->
  wf_raft n i (set_nextIndex (<[p := x]> (nextIndex r)) (set_matchIndex (<[p := m]> (matchIndex r)) r)).
Proof.
  intros [] Hx. constructor; simpl; auto. intros Hl.
  destruct (wf_leader0 Hl) as (? & ? & ?). rewrite !length_insert. split_and!; [done..|].
  by apply Forall_insert.
Qed.

Lemma wf_sendAppendEntries n i r server a reply :
  wf_raft n i r -> wf_append a -> (server < n)%nat ->
  exists r' msgs, sendAppendEntries r server a (Some reply) = Ok (r', msgs) /\ wf_raft n i r'.
Proof.
  intros Hw [Hprev _] Hsrv. destruct (Hw) as [Hp Hm Hid Hl Ht Hc Ha Hld].
  unfold sendAppendEntries.
  destruct (decide (state r <> Leader)) as [|Hs]; [by eauto|].
  assert (state r = Leader) as Hs' by (by apply dec_stable).
  destruct (Hld Hs') as (Hni & Hmi & Hge).
  destruct (Z.ltb_spec (currentTerm r) (aer_Term reply)).
  { do 2 eexists. split; [done|]. apply wf_becomeFollower; [done|lia]. }
  destruct (aer_Success reply).
  - rewrite result_bind_ret.
    rewrite !assign_in_range by (unfold len; lia). go_run. apply wf_advanceCommit; [|done].
    constructor; simpl; auto. intros _. rewrite !length_insert.
    split_and!; [done|done|]. apply Forall_insert; [done|].
    pose proof (len_nonneg (aea_Entries a)). lia.
  - destruct (index_in_range (nextIndex r) (Z.of_nat server)) as [x Hx]; [unfold len; lia|].
    rewrite Hx. go_run. destruct (Z.ltb_spec 1 x).
    + rewrite assign_in_range by (unfold len; lia). go_run. do 2 eexists. split; [done|]. constructor; simpl; auto.
      intros _. rewrite length_insert. split_and!; [done|done|].
      apply Forall_insert; [done|].
      apply (Z.quot_le_lower_bound x 2 1); lia.
    + go_run. by apply wf_advanceCommit.
Qed.

Lemma wf_heartBeatArgs n i r p :
  wf_raft n i r -> state r = Leader -> (p < n)%nat ->
  exists a, heartBeatArgs r p = Ok a /\ wf_append a.
Proof.
  intros [Hp Hm Hid Hl Ht Hc Ha Hld] Hs Hpn. destruct (Hld Hs) as (Hni & Hmi & Hge).
  unfold heartBeatArgs.
  destruct (index_in_range (nextIndex r) (Z.of_nat p)) as [x Hx]; [unfold len; lia|].
  assert (1 <= x) as Hx1.
  { apply index_Ok in Hx as [_ Hx]. eapply Forall_lookup_1 in Hge; done. }
  rewrite Hx, result_bind_ret. destruct (Z.ltb_spec x (len (log r))).
  - destruct (index_in_range (log r) (x - 1)) as [e He]; [lia|].
    rewrite He, result_bind_ret, slice_from_in_range, result_bind_ret by lia.
    eexists. split; [done|]. split; simpl; [lia|]. intros E. rewrite E in He.
    by eapply wf_log_index0.
  - destruct (wf_log_last _ Hl) as [e He]. rewrite He, result_bind_ret.
    eexists. split; [done|]. split; simpl; [lia|]. intros E.
    pose proof (wf_log_len _ Hl). replace (len (log r) - 1) with 0 in He by lia.
    by eapply wf_log_index0.
Qed.

Lemma wf_sendHeartBeats n i r :
  wf_raft n i r ->
  exists calls, sendHeartBeats r = Ok calls /\
    Forall (fun ca => (ca.1 < n)%nat /\ wf_append ca.2) calls.
Proof.
  intros Hw. unfold sendHeartBeats. destruct (decide (state r <> Leader)) as [|Hs]; [exists []; by auto|].
  assert (state r = Leader) as Hs' by (by apply dec_stable).
  assert (forall p, p ∈ other_peers r ->
    exists ca, (args ← heartBeatArgs r p; Ok (p, args)) = Ok ca /\
               (ca.1 < n)%nat /\ wf_append ca.2) as Hall.
  { intros p [Hpn _]%elem_of_other_peers. rewrite (wf_peers _ _ _ Hw) in Hpn.
    destruct (wf_heartBeatArgs n i r p) as (a & -> & Ha); [done..|].
    rewrite result_bind_ret. eauto. }
  destruct (collect_total (fun p => args ← heartBeatArgs r p; Ok (p, args)) (other_peers r))
    as [calls Hc].
  { apply Forall_forall. intros p Hp%Hall. naive_solver. }
  exists calls. split; [done|]. apply collect_Ok in Hc.
  apply Forall_forall. intros ca [k Hk]%list_elem_of_lookup.
  destruct (Forall2_lookup_r _ _ _ _ _ Hc Hk) as (p & Hp & Heq).
  destruct (Hall p) as (ca' & Heq' & ?); [by eapply list_elem_of_lookup_2|].
  rewrite Heq in Heq'. by injection Heq' as <-.
Qed.

(** ** Persistence *)

Lemma wf_readPersist n i r d :
  wf_raft n i r -> wf_disk d ->
  exists r', readPersist r (ReadRaftState d) = Ok r' /\ wf_raft n i r'.
Proof.
  intros [] [Hd|(l & t & v & Hd & Hl & Ht)]; unfold readPersist; rewrite Hd.
  - eexists. split; [done|]. by constructor.
  - destruct (gob_encode [GLog l; GInt t; GInt v]) as [|b bs] eqn:E.
    { by apply gob_nonempty in E. }
    rewrite <- E, gob_roundtrip.
    destruct (Z.ltb_spec (len (gob_encode [GLog l; GInt t; GInt v])) 1) as [Hlt|_].
    { rewrite E in Hlt. rewrite len_cons in Hlt. pose proof (len_nonneg bs). lia. }
    eexists. split; [done|]. by constructor.
Qed.

Lemma wf_boot n i : (i < n)%nat -> wf_raft n i (boot n i).
Proof. intros. constructor; simpl; try done. eexists. by split_and!. Qed.

Lemma wf_Make n i d :
  (i < n)%nat -> wf_disk d -> exists r, Make n i d = Ok r /\ wf_raft n i r.
Proof. intros Hi Hd. unfold Make. apply wf_readPersist; [by apply wf_boot|done]. Qed.

Lemma wf_persist n i r d : wf_raft n i r -> wf_disk (persist r d).
Proof.
  intros []. right. unfold persist. rewrite ReadRaftState_Save. eauto 10.
Qed.

(** ** The cluster *)

Lemma wf_put n c i s net' :
  wf_cluster n c -> wf_server n i s -> Forall (wf_rpc n) net' ->
  wf_cluster n (put i s c net').
Proof.
  intros [Hsz Hsrv _] Hs Hn. constructor; simpl.
  - by rewrite length_insert.
  - intros j s'. rewrite list_lookup_insert_Some. naive_solver.
  - done.
Qed.

Lemma wf_rv_calls n i calls :
  (i < n)%nat -> Forall (fun ca => (ca.1 < n)%nat) calls -> Forall (wf_rpc n) (rv_calls i calls).
Proof.
  intros Hi Hc. apply Forall_fmap, (Forall_impl _ _ _ Hc). intros [p a] ?.
  by split_and!.
Qed.

Lemma wf_ae_calls n i calls :
  (i < n)%nat -> Forall (fun ca => (ca.1 < n)%nat /\ wf_append ca.2) calls ->
  Forall (wf_rpc n) (ae_calls i calls).
Proof.
  intros Hi Hc. apply Forall_fmap, (Forall_impl _ _ _ Hc). intros [p a] [? ?].
  by split_and!.
Qed.

Lemma wf_ticker_timeout n i s read :
  wf_server n i s ->
  exists s' calls, ticker_timeout i s read = Ok (s', calls) /\ wf_server n i s' /\
    Forall (wf_rpc n) calls.
Proof.
  intros [Hr Hd]. pose proof (wf_id _ _ _ Hr).
  destruct read; simpl.
  - destruct (wf_sendHeartBeats n i (rf s)) as (calls & -> & Hc); [done|]. go_run.
    do 2 eexists. split_and!; [done|by constructor|by apply wf_ae_calls].
  - destruct (wf_becomeCandidate n i (rf s)) as (r' & calls & -> & ? & Hc); [done|]. go_run.
    do 2 eexists. split_and!; [done|by constructor|by apply wf_rv_calls].
  - destruct (wf_becomeCandidate n i (rf s)) as (r' & calls & -> & ? & Hc); [done|]. go_run.
    do 2 eexists. split_and!; [done|by constructor|by apply wf_rv_calls].
Qed.

Lemma wf_handle_request n i s m x :
  wf_server n i s -> wf_rpc n m -> handle_request s m = Some x ->
  exists s' m', x = Ok (s', m') /\ wf_server n i s' /\ wf_rpc n m'.
Proof.
  intros [Hr Hd] (? & ? & Hm) Hx.
  destruct m as [src dst a [| |]|src dst a [| |]]; simpl in Hx; simplify_eq.
  - destruct (wf_RequestVote n i (rf s) a) as (r' & reply & -> & ?); [done|].
    go_run. do 2 eexists. split_and!; [done|by constructor|by split_and!].
  - destruct (wf_AppendEntries n i (rf s) a) as (r' & reply & msgs & -> & ?); [done..|].
    go_run. do 2 eexists. split_and!; [done|by constructor|by split_and!].
Qed.

Lemma wf_handle_reply n i s m x :
  wf_server n i s -> wf_rpc n m -> handle_reply i s m = Some x ->
  exists s' calls, x = Ok (s', calls) /\ wf_server n i s' /\ Forall (wf_rpc n) calls.
Proof.
  intros [Hr Hd] (? & Hdst & Hm) Hx. pose proof (wf_id _ _ _ Hr).
  destruct m as [src dst a [| |reply]|src dst a [| |reply]];
    cbn [handle_reply] in Hx; simplify_eq.
  - destruct (wf_sendRequestVote n i (rf s) reply Hr) as [Hr' Hc].
    destruct (sendRequestVote (rf s) (Some reply)) as [r' calls].
    do 2 eexists. split_and!; [done|by constructor|by apply wf_ae_calls].
  - destruct (wf_sendAppendEntries n i (rf s) dst a reply) as (r' & msgs & -> & ?); [done..|].
    go_run. do 2 eexists. split_and!; [done|by constructor|done].
Qed.

Lemma wf_rpc_phase n i read m m' : ticker_wake i read m = Some m' -> wf_rpc n m -> wf_rpc n m'.
Proof.
  destruct m as [src dst a [| |]|src dst a [| |]]; simpl; try done;
    case_decide; intros [= <-]; done.
Qed.

(** A step from a well-formed cluster does not panic and stays
    well-formed. *)
Lemma wf_step n c (lb : label Cmd) x :
  wf_cluster n c -> step lb c = Some x -> exists c', x = Ok c' /\ wf_cluster n c'.
Proof.
  intros Hw Hst. destruct (Hw) as [Hsz Hsrv Hnet].
  destruct lb as [i|i|i k|k|k|k|i cmd|i]; cbn [step] in Hst.
  - apply bind_Some in Hst as (s & Hs & Hst). case_decide; simplify_eq.
    eexists. split; [done|]. pose proof (Hsrv _ _ Hs) as [? ?].
    apply wf_put; [done| |done]. constructor; [done|]. by eapply wf_persist.
  - apply bind_Some in Hst as (s & Hs & Hst). destruct (pc s) as [|read]; simplify_eq.
    destruct (wf_ticker_timeout _ _ _ read (Hsrv _ _ Hs)) as (s' & calls & -> & ? & ?).
    eexists. split; [done|]. apply wf_put; [done|done|]. by apply Forall_app.
  - apply bind_Some in Hst as (s & Hs & Hst). apply bind_Some in Hst as (m & Hm & Hst).
    destruct (pc s) as [|read]; [done|]. apply bind_Some in Hst as (m' & Hm' & Hst).
    simplify_eq. eexists. split; [done|]. pose proof (Hsrv _ _ Hs) as [? ?].
    apply wf_put; [done|by constructor|]. apply Forall_insert; [done|].
    eapply wf_rpc_phase; [done|]. by eapply Forall_lookup_1 in Hnet.
  - apply bind_Some in Hst as (m & Hm & Hst). apply bind_Some in Hst as (s & Hs & Hst).
    apply bind_Some in Hst as (r & Hr & Hst). simplify_eq.
    destruct (wf_handle_request _ _ _ _ _ (Hsrv _ _ Hs) (Forall_lookup_1 _ _ _ _ Hnet Hm) Hr)
      as (s' & m' & -> & ? & ?).
    eexists. split; [done|]. apply wf_put; [done|done|]. by apply Forall_insert.
  - apply bind_Some in Hst as (m & Hm & Hst). apply bind_Some in Hst as (s & Hs & Hst).
    apply bind_Some in Hst as (r & Hr & Hst). simplify_eq.
    destruct (wf_handle_reply _ _ _ _ _ (Hsrv _ _ Hs) (Forall_lookup_1 _ _ _ _ Hnet Hm) Hr)
      as (s' & calls & -> & ? & ?).
    eexists. split; [done|]. apply wf_put; [done|done|].
    apply Forall_app. split; [by apply Forall_delete|done].
  - apply bind_Some in Hst as (m & Hm & Hst). destruct (droppable m); simplify_eq.
    eexists. split; [done|]. constructor; simpl; [done|done|by apply Forall_delete].
  - apply bind_Some in Hst as (s & Hs & Hst). simplify_eq.
    pose proof (Hsrv _ _ Hs) as [Hr ?].
    destruct (wf_Start _ _ _ (Some cmd) Hr) as (r' & y & -> & ?). go_run.
    eexists. split; [done|]. apply wf_put; [done|by constructor|done].
  - apply bind_Some in Hst as (s & Hs & Hst). simplify_eq.
    pose proof (Hsrv _ _ Hs) as [Hr Hd].
    destruct (wf_Make (length (servers c)) i (Copy (disk s))) as (r' & -> & ?);
      [by eapply lookup_lt_Some|done|]. go_run.
    eexists. split; [done|]. apply wf_put; [done|by constructor|].
    apply Forall_forall. intros m [_ Hm]%list_elem_of_filter. by eapply Forall_forall in Hnet.
Qed.

Lemma wf_init n : wf_cluster n (init n).
Proof.
  constructor; simpl; [by rewrite length_fmap, length_seq| |done].
  intros i s (j & -> & [-> Hj]%lookup_seq)%list_lookup_fmap_Some.
  constructor; [by apply wf_boot|]. by left.
Qed.

Lemma wf_reach n ok c : reach n ok c -> wf_cluster n c.
Proof.
  induction 1 as [|c l c' _ IH _ Hst]; [apply wf_init|].
  by destruct (wf_step _ _ _ _ IH Hst) as (c'' & [= <-] & ?).
Qed.
End wf.
