(* ===== verification/RaftHandlers.v ===== *)
(** * raft/raft.go: the outcome of every handler, branch by branch

    One inductive relation per handler lists the branches of the source with
    their guards; the lemma beside it says the handler takes one of them.
    [evolves] collects what all handlers have in common and is the interface
    the cluster theorems use. *)

From Stdlib Require Import ZArith Lia.
From stdpp Require Import base numbers strings gmap list.
From S2P Require Import Prelude Persister RaftNode RaftNodeFacts RaftCluster RaftWf.
Local Open Scope Z_scope.

Section handlers.
Context {Cmd : Type} `{Gob Cmd}.
Implicit Types (r : Raft Cmd) (l : list (LogEntry Cmd)).

(** The struct after the term check at the head of a handler. *)
Definition observe_term (t : Z) r : Raft Cmd :=
  if currentTerm r <? t then becomeFollower t r else r.

Inductive vote_outcome r (a : RequestVoteArgs) : Raft Cmd -> RequestVoteReply -> Prop :=
| vote_stale :
    rva_Term a < currentTerm r ->
    vote_outcome r a r (mkRequestVoteReply (currentTerm r) false)
| vote_denied :
    currentTerm r <= rva_Term a ->
    vote_outcome r a (observe_term (rva_Term a) r) (mkRequestVoteReply 0 false)
| vote_granted e :
    currentTerm r <= rva_Term a ->
    log r !! (length (log r) - 1)%nat = Some e ->
    votedFor (observe_term (rva_Term a) r) = -1 \/
    votedFor (observe_term (rva_Term a) r) = rva_CandidateId a ->
    candidateUpToDate a (len (log r) - 1) (le_Term e) = true ->
    vote_outcome r a
      (set_votedFor (rva_CandidateId a) (observe_term (rva_Term a) r))
      (mkRequestVoteReply 0 true).

Lemma observe_term_log t r : log (observe_term t r) = log r.
Proof. unfold observe_term. by destruct (_ <? _). Qed.

Lemma observe_term_static t r :
  peers (observe_term t r) = peers r /\ me (observe_term t r) = me r /\
  commitIndex (observe_term t r) = commitIndex r /\
  lastApplied (observe_term t r) = lastApplied r /\
  nextIndex (observe_term t r) = nextIndex r /\
  matchIndex (observe_term t r) = matchIndex r.
Proof. unfold observe_term. by destruct (_ <? _). Qed.

Lemma observe_term_same t r : t <= currentTerm r -> observe_term t r = r.
Proof. intros. unfold observe_term. destruct (Z.ltb_spec (currentTerm r) t); [lia|done]. Qed.

Lemma observe_term_newer t r :
  currentTerm r < t -> observe_term t r = becomeFollower t r.
Proof. intros. unfold observe_term. destruct (Z.ltb_spec (currentTerm r) t); [done|lia]. Qed.

Lemma observe_term_currentTerm t r :
  currentTerm r <= t -> currentTerm (observe_term t r) = t.
Proof. unfold observe_term. destruct (Z.ltb_spec (currentTerm r) t); simpl; lia. Qed.

Lemma RequestVote_outcome r a r' reply :
  RequestVote r a = Ok (r', reply) -> vote_outcome r a r' reply.
Proof.
  unfold RequestVote. destruct (Z.ltb_spec (rva_Term a) (currentTerm r)) as [Hlt|Hge].
  { intros. go_inv. by constructor. }
  intros Hr.
  assert (Hobs : (if currentTerm r <? rva_Term a
    then set_votedFor (-1) (set_currentTerm (rva_Term a) (set_state Follower r)) else r)
    = observe_term (rva_Term a) r).
  { unfold observe_term. by destruct (_ <? _). }
  rewrite Hobs, observe_term_log in Hr. go_inv.
  destruct (_ && _) eqn:Hg in Hr; go_inv; [|by constructor].
  apply andb_true_iff in Hg as [Hv Hu].
  apply index_Ok in Ha as [_ Hlast].
  replace (Z.to_nat (len (log r) - 1)) with (length (log r) - 1)%nat in Hlast
    by (unfold len; lia).
  eapply vote_granted; [done|done| |done].
  apply orb_true_iff in Hv. rewrite !Z.eqb_eq in Hv. done.
Qed.

Inductive append_outcome r (a : AppendEntriesArgs Cmd)
    : Raft Cmd -> AppendEntriesReply -> list (ApplyMsg Cmd) -> Prop :=
| append_stale :
    aea_Term a < currentTerm r ->
    append_outcome r a r (mkAppendEntriesReply (currentTerm r) false) []
| append_short :
    currentTerm r <= aea_Term a -> len (log r) <= aea_PrevLogIndex a ->
    append_outcome r a (observe_term (aea_Term a) r)
      (mkAppendEntriesReply (aea_Term a) false) []
| append_conflict e :
    currentTerm r <= aea_Term a -> 0 <= aea_PrevLogIndex a ->
    log r !! Z.to_nat (aea_PrevLogIndex a) = Some e -> le_Term e <> aea_PrevLogTerm a ->
    append_outcome r a
      (set_log (take (Z.to_nat (aea_PrevLogIndex a)) (log r)) (observe_term (aea_Term a) r))
      (mkAppendEntriesReply (aea_Term a) false) []
| append_accept e r' msgs :
    currentTerm r <= aea_Term a -> 0 <= aea_PrevLogIndex a ->
    log r !! Z.to_nat (aea_PrevLogIndex a) = Some e -> le_Term e = aea_PrevLogTerm a ->
    let l := take (S (Z.to_nat (aea_PrevLogIndex a))) (log r) ++ aea_Entries a in
    let r1 := set_log l (observe_term (aea_Term a) r) in
    (aea_LeaderCommit a <= commitIndex r /\ r' = r1 /\ msgs = []) \/
    (commitIndex r < aea_LeaderCommit a /\
     applyCommitted (set_commitIndex (Z.min (aea_LeaderCommit a) (len l - 1)) r1)
       = Ok (r', msgs)) ->
    append_outcome r a r' (mkAppendEntriesReply (aea_Term a) true) msgs.

Lemma AppendEntries_outcome r a r' reply msgs :
  AppendEntries r a = Ok (r', reply, msgs) -> append_outcome r a r' reply msgs.
Proof.
  unfold AppendEntries. destruct (Z.ltb_spec (aea_Term a) (currentTerm r)) as [Hlt|Hge].
  { intros. go_inv. by constructor. }
  fold (observe_term (aea_Term a) r). intros Hr.
  pose proof (observe_term_currentTerm _ _ Hge) as Hterm.
  rewrite Hterm, observe_term_log in Hr.
  destruct (Z.leb_spec (len (log r)) (aea_PrevLogIndex a)).
  { go_inv. by constructor. }
  go_inv. apply index_Ok in Ha as [Hp0 He].
  destruct (Z.eqb_spec (aea_PrevLogTerm a) (le_Term a0)) as [Heq|Hne]; simpl in Hr.
  - go_inv. rewrite slice_to_in_range in Ha by lia. go_inv.
    replace (Z.to_nat (aea_PrevLogIndex a + 1)) with (S (Z.to_nat (aea_PrevLogIndex a)))
      in Hr by lia.
    destruct (observe_term_static (aea_Term a) r) as (_ & _ & Hci & _).
    simpl in Hr. rewrite Hterm, Hci in Hr.
    destruct (Z.ltb_spec (commitIndex r) (aea_LeaderCommit a)); go_inv.
    + destruct a1 as [r2 ms]. go_inv. eapply append_accept; [done..|]. right.
      split; [done|]. rewrite <- Ha. f_equal.
      destruct (Z.ltb_spec (len (take (S (Z.to_nat (aea_PrevLogIndex a))) (log r)
        ++ aea_Entries a) - 1) (aea_LeaderCommit a)); f_equal; lia.
    + eapply append_accept; [done..|]. by left.
  - go_inv. rewrite slice_to_in_range in Ha by lia. go_inv.
    eapply append_conflict; [done..|congruence].
Qed.

(** A candidate with a majority becomes leader. *)
Definition takeOffice r : Raft Cmd :=
  set_matchIndex (replicate (peers r) 0)
    (set_nextIndex (replicate (peers r) (len (log r))) (set_state Leader r)).

Inductive vote_reply_outcome r (reply : RequestVoteReply)
    : Raft Cmd -> list (nat * AppendEntriesArgs Cmd) -> Prop :=
| reply_newer :
    currentTerm r < rvr_Term reply ->
    vote_reply_outcome r reply (becomeFollower (rvr_Term reply) r) []
| reply_refused :
    rvr_Term reply <= currentTerm r -> rvr_VoteGranted reply = false ->
    vote_reply_outcome r reply r []
| reply_counted :
    rvr_Term reply <= currentTerm r -> rvr_VoteGranted reply = true ->
    majority r (votes r + 1) = false \/ state r <> Candidate ->
    vote_reply_outcome r reply (set_votes (votes r + 1) r) []
| reply_elected :
    rvr_Term reply <= currentTerm r -> rvr_VoteGranted reply = true ->
    majority r (votes r + 1) = true -> state r = Candidate ->
    vote_reply_outcome r reply (takeOffice (set_votes (votes r + 1) r))
      ((fun p => (p, emptyAppendEntriesArgs)) <$> other_peers r).

Lemma sendRequestVote_outcome r reply r' calls :
  sendRequestVote r (Some reply) = (r', calls) -> vote_reply_outcome r reply r' calls.
Proof.
  unfold sendRequestVote.
  destruct (Z.ltb_spec (currentTerm r) (rvr_Term reply)); [intros [= <- <-]; by constructor|].
  destruct (rvr_VoteGranted reply) eqn:Hg; [|intros [= <- <-]; by constructor].
  change (majority (set_votes (votes r + 1) r)) with (majority r).
  cbn [votes set_votes state].
  destruct (majority r (votes r + 1)) eqn:Hm;
    [|intros [= <- <-]; apply reply_counted; by auto].
  destruct (decide (state r = Candidate)); intros [= <- <-].
  - exact (reply_elected r reply ltac:(done) Hg Hm ltac:(done)).
  - apply reply_counted; by auto.
Qed.

(** The messages a handler sent on [applyCh]: the indices that follow
    [lastApplied], in order, without gap or repetition. *)
Definition delivers (from to : Z) (msgs : list (ApplyMsg Cmd)) : Prop :=
  from <= to /\ CommandIndex <$> msgs = seqZ (from + 1) (to - from) /\
  Forall (fun m => CommandValid m = true) msgs.

Lemma delivers_nil x : delivers x x [].
Proof. split_and!; [lia| |constructor]. by rewrite Z.sub_diag. Qed.

Lemma delivers_app x y z ms ms' :
  delivers x y ms -> delivers y z ms' -> delivers x z (ms ++ ms').
Proof.
  intros (? & E1 & ?) (? & E2 & ?). split_and!; [lia| |by apply Forall_app].
  rewrite fmap_app, E1, E2.
  replace (z - x) with ((y - x) + (z - y)) by lia.
  rewrite seqZ_app by lia. by replace (x + 1 + (y - x)) with (y + 1) by lia.
Qed.

Lemma applyCommitted_delivers r r' msgs :
  0 <= lastApplied r -> commitIndex r < len (log r) ->
  applyCommitted r = Ok (r', msgs) ->
  (exists x, r' = set_lastApplied x r) /\ delivers (lastApplied r) (lastApplied r') msgs.
Proof.
  intros H0 Hc. rewrite applyCommitted_spec by done. intros [= <- <-].
  split; [by eauto|]. split_and!; simpl; [lia| |].
  - destruct (decide (lastApplied r <= commitIndex r)).
    + rewrite entry_msgs_index by lia. f_equal. lia.
    + rewrite Z.max_l, Z.sub_diag by lia. by replace (Z.to_nat _) with 0%nat by lia.
  - unfold entry_msgs. apply Forall_lookup_2. intros k m Hm.
    rewrite list_lookup_imap in Hm.
    apply fmap_Some in Hm as (e & _ & ->). done.
Qed.

(** What every handler does to a peer. *)
Record evolves r r' (msgs : list (ApplyMsg Cmd)) : Prop := {
  ev_peers : peers r' = peers r;
  ev_me : me r' = me r;
  ev_term : currentTerm r <= currentTerm r';
  ev_vote : currentTerm r' = currentTerm r -> votedFor r <> -1 -> votedFor r' = votedFor r;
  ev_leader : currentTerm r' = currentTerm r -> state r = Leader -> state r' = Leader;
  ev_delivers : delivers (lastApplied r) (lastApplied r') msgs;
}.

Lemma evolves_refl r : evolves r r [].
Proof. constructor; auto using delivers_nil. lia. Qed.

Lemma evolves_becomeFollower t r : currentTerm r < t -> evolves r (becomeFollower t r) [].
Proof. constructor; simpl; auto using delivers_nil; lia. Qed.

Lemma evolves_observe t r : currentTerm r <= t -> evolves r (observe_term t r) [].
Proof.
  intros Ht. destruct (decide (currentTerm r < t)).
  - rewrite observe_term_newer by done. by apply evolves_becomeFollower.
  - rewrite observe_term_same by lia. apply evolves_refl.
Qed.

#[local] Hint Resolve evolves_refl evolves_becomeFollower evolves_observe delivers_nil : core.

Lemma evolves_Start r cmd r' x : Start r cmd = Ok (r', x) -> evolves r r' [].
Proof.
  unfold Start. destruct (decide _); intros; go_inv; [done|].
  constructor; simpl; auto. lia.
Qed.

Lemma evolves_becomeCandidate r r' calls :
  becomeCandidate r = Ok (r', calls) -> evolves r r' [].
Proof. unfold becomeCandidate. intros. go_inv. constructor; simpl; auto; lia. Qed.

Lemma evolves_RequestVote r a r' reply :
  RequestVote r a = Ok (r', reply) -> evolves r r' [].
Proof.
  intros [|Hge|e Hge _ Hv _]%RequestVote_outcome; [done|by apply evolves_observe|].
  destruct (decide (currentTerm r < rva_Term a)).
  - rewrite observe_term_newer by done. constructor; simpl; auto; lia.
  - rewrite observe_term_same in * by lia. constructor; simpl; auto; [lia|].
    intros _ ?. destruct Hv; congruence.
Qed.

Lemma evolves_sendRequestVote r reply r' calls :
  sendRequestVote r (Some reply) = (r', calls) -> evolves r r' [].
Proof.
  intros []%sendRequestVote_outcome; auto; constructor; simpl; auto; lia.
Qed.

Lemma evolves_AppendEntries n i r a r' reply msgs :
  wf_raft n i r -> AppendEntries r a = Ok (r', reply, msgs) -> evolves r r' msgs.
Proof.
  intros Hw Hr%AppendEntries_outcome.
  destruct Hr as [|Hge ?|e Hge ? ? ?|e r' msgs Hge Hp He ? l r1 Hr]; [done|by auto| |].
  - destruct (evolves_observe (aea_Term a) r) as []; [done|]. by constructor.
  - assert (evolves r r1 []) as Hev.
    { destruct (evolves_observe (aea_Term a) r) as []; [done|]. by constructor. }
    destruct Hr as [(_ & -> & ->)|[_ Hr]]; [done|].
    destruct (observe_term_static (aea_Term a) r) as (_ & _ & _ & Hla & _).
    apply applyCommitted_delivers in Hr as [[x ->] Hd].
    + destruct Hev. simpl in Hd. rewrite Hla in Hd. by constructor.
    + simpl. rewrite Hla. by destruct Hw.
    + simpl. fold l. lia.
Qed.

Lemma evolves_advanceCommit n i r r' msgs :
  wf_raft n i r -> state r = Leader -> advanceCommit r = Ok (r', msgs) ->
  evolves r r' msgs /\ log r' = log r /\ currentTerm r' = currentTerm r /\
  state r' = Leader /\ votedFor r' = votedFor r /\ votes r' = votes r.
Proof.
  intros Hw Hs Hr. destruct (Hw).
  destruct (advanceCommit_spec r) as [[_ E]|(M & HM & _ & _ & E)]; [done..| |];
    rewrite E in Hr; go_inv; [by auto 10|].
  apply applyCommitted_delivers in Hr as [[x ->] Hd]; simpl; [|done|lia].
  split_and!; [|done..]. by constructor.
Qed.

Inductive append_reply_outcome r (server : nat) (a : AppendEntriesArgs Cmd)
    (reply : AppendEntriesReply) : Raft Cmd -> list (ApplyMsg Cmd) -> Prop :=
| areply_ignored :
    state r <> Leader -> append_reply_outcome r server a reply r []
| areply_newer :
    state r = Leader -> currentTerm r < aer_Term reply ->
    append_reply_outcome r server a reply (becomeFollower (aer_Term reply) r) []
| areply_backoff ni :
    state r = Leader -> aer_Term reply <= currentTerm r -> aer_Success reply = false ->
    nextIndex r !! server = Some ni -> 1 < ni ->
    append_reply_outcome r server a reply
      (set_nextIndex (<[server := Z.quot ni 2]> (nextIndex r)) r) []
| areply_commit r1 r' msgs :
    state r = Leader -> aer_Term reply <= currentTerm r ->
    aer_Success reply = true \/ (exists ni, nextIndex r !! server = Some ni /\ ni <= 1) ->
    r1 = (if aer_Success reply then
            let m := len (aea_Entries a) + aea_PrevLogIndex a in
            set_nextIndex (<[server := m + 1]> (nextIndex r))
              (set_matchIndex (<[server := m]> (matchIndex r)) r)
          else r) ->
    advanceCommit r1 = Ok (r', msgs) ->
    append_reply_outcome r server a reply r' msgs.

Lemma assign_inv {A} (k : list A) (s : nat) x k' :
  assign k (Z.of_nat s) x = Ok k' -> k' = <[s := x]> k.
Proof. unfold assign. case_decide; intros; go_inv. by rewrite Nat2Z.id. Qed.

Lemma sendAppendEntries_outcome r server a reply r' msgs :
  sendAppendEntries r server a (Some reply) = Ok (r', msgs) ->
  append_reply_outcome r server a reply r' msgs.
Proof.
  unfold sendAppendEntries.
  destruct (decide (state r <> Leader)) as [|Hs]; [intros; go_inv; by constructor|].
  assert (state r = Leader) as Hs' by (by apply dec_stable).
  destruct (Z.ltb_spec (currentTerm r) (aer_Term reply)); [intros; go_inv; by constructor|].
  destruct (aer_Success reply) eqn:Hsuc; go_run; intros Hr.
  - go_inv. repeat match goal with H : assign _ _ _ = Ok _ |- _ => apply assign_inv in H as -> end.
    eapply areply_commit; [done|done|by left| |done]. by rewrite Hsuc.
  - destruct (index (nextIndex r) (Z.of_nat server)) as [ni|] eqn:Hni; [|done].
    cbn in Hr. destruct (Z.ltb_spec 1 ni).
    + destruct (assign _ _ _) as [k|] eqn:Hk in Hr; [|done]. apply assign_inv in Hk as ->.
      cbn in Hr. go_inv. apply index_Ok in Hni as [_ Hni].
      rewrite Nat2Z.id in Hni. by eapply areply_backoff.
    + apply index_Ok in Hni as [_ Hni]. rewrite Nat2Z.id in Hni.
      eapply areply_commit; [done|done|by eauto| |done]. by rewrite Hsuc.
Qed.
End handlers.

Section server_steps.
Context {Cmd : Type} `{Gob Cmd}.
Implicit Types (r : Raft Cmd).

(** After a reply to AppendEntries a leader has either stepped down or
    kept its term, vote, role and log. *)
Lemma sendAppendEntries_keeps n i r server a reply r' msgs :
  wf_raft n i r -> (server < n)%nat -> wf_append a ->
  sendAppendEntries r server a (Some reply) = Ok (r', msgs) ->
  evolves r r' msgs /\
  ((currentTerm r < currentTerm r' /\ state r' = Follower /\ log r' = log r /\
      votedFor r' = -1) \/
   (currentTerm r' = currentTerm r /\ state r' = state r /\ log r' = log r /\
      votedFor r' = votedFor r /\ votes r' = votes r)).
Proof.
  intros Hw Hsrv [Hp _] Hr%sendAppendEntries_outcome.
  destruct Hr as [| |ni|r1 r' msgs Hs Ht _ Hr1 Hadv].
  - auto 10 using evolves_refl.
  - split; [by apply evolves_becomeFollower|]. left. simpl. auto.
  - split; [|right; by auto]. constructor; simpl; auto using delivers_nil. lia.
  - assert (wf_raft n i r1) as Hw1.
    { subst r1. destruct (aer_Success reply); [|done]. apply wf_indices; [done|].
      pose proof (len_nonneg (aea_Entries a)). lia. }
    assert (state r1 = Leader /\ log r1 = log r /\ currentTerm r1 = currentTerm r /\
      votedFor r1 = votedFor r /\ votes r1 = votes r /\ peers r1 = peers r /\
      me r1 = me r /\ lastApplied r1 = lastApplied r)
      as (Es & El & Et & Ev & Evs & Ep & Em & Ea).
    { subst r1. by destruct (aer_Success reply). }
    destruct (evolves_advanceCommit n i r1 r' msgs) as ([] & ? & ? & ? & ? & ?); [done..|].
    split; [|right; split_and!; congruence]. destruct Hw.
    constructor; [congruence..|lia| | |by rewrite <- Ea]; intros; congruence.
Qed.
End server_steps.
