(* ===== verification/RaftHistory.v ===== *)
(** * raft/raft.go: one peer over time

    What a peer does along an execution of the cluster: its term grows, its
    vote in a term is final, a leader stays leader of its term, and the
    entries it applies are consecutive. *)

From Stdlib Require Import ZArith Lia.
From stdpp Require Import base numbers strings gmap list.
From S2P Require Import Prelude Persister RaftNode RaftNodeFacts RaftCluster RaftWf.
From S2P Require Import RaftHandlers.
Local Open Scope Z_scope.

Section history.
Context {Cmd : Type} `{Gob Cmd}.
Implicit Types (c : Cluster Cmd) (s : Server Cmd).

Lemma evolves_trans (r1 r2 r3 : Raft Cmd) ms ms' :
  evolves r1 r2 ms -> evolves r2 r3 ms' -> evolves r1 r3 (ms ++ ms').
Proof.
  intros [? ? ? Hv Hl Hd] [? ? ? Hv' Hl' Hd'].
  constructor; [congruence|congruence|lia| | |by eapply delivers_app].
  - intros E Hne. assert (currentTerm r2 = currentTerm r1) as E2 by lia.
    rewrite <- (Hv E2 Hne). apply Hv'; [lia|]. by rewrite (Hv E2 Hne).
  - intros E Hs. apply Hl'; [lia|]. apply Hl; [lia|done].
Qed.

(** [s'] is what [s] has become: its peer evolved, and what it sent on
    [applyCh] was appended. *)
Definition server_evolves s s' : Prop :=
  exists msgs, evolves (rf s) (rf s') msgs /\ applied s' = applied s ++ msgs.

Lemma server_evolves_refl s : server_evolves s s.
Proof. exists []. split; [apply evolves_refl|]. by rewrite app_nil_r. Qed.

Lemma server_evolves_quiet s s' :
  evolves (rf s) (rf s') [] -> applied s' = applied s -> server_evolves s s'.
Proof. intros. exists []. split; [done|]. by rewrite app_nil_r. Qed.

#[export] Instance server_evolves_po : PreOrder server_evolves.
Proof.
  split; [exact server_evolves_refl|].
  intros s1 s2 s3 (ms & E1 & A1) (ms' & E2 & A2). exists (ms ++ ms').
  split; [by eapply evolves_trans|]. by rewrite A2, A1, app_assoc.
Qed.

Lemma timeout_evolves i s read s' calls :
  ticker_timeout i s read = Ok (s', calls) -> server_evolves s s'.
Proof.
  destruct read; simpl; intros Ht; go_inv; [|destruct a as [r' cs]; go_inv..];
    (apply server_evolves_quiet; [|done]); [apply evolves_refl|..];
    by eapply evolves_becomeCandidate.
Qed.

Lemma request_evolves n i s m s' m' :
  wf_server n i s -> handle_request s m = Some (Ok (s', m')) -> server_evolves s s'.
Proof.
  intros [Hw _]. destruct m as [src dst a [| |]|src dst a [| |]];
    cbn [handle_request]; intros E; go_inv.
  - destruct a0 as [r' reply]. go_inv. apply server_evolves_quiet; [|done].
    by eapply evolves_RequestVote.
  - destruct a0 as [[r' reply] ms]. go_inv. exists ms. split; [|done].
    by eapply evolves_AppendEntries.
Qed.

Lemma reply_evolves n i s m s' calls :
  wf_server n i s -> wf_rpc n m -> handle_reply i s m = Some (Ok (s', calls)) ->
  server_evolves s s'.
Proof.
  intros [Hw _] (_ & Hdst & Hm). destruct m as [src dst a [| |reply]|src dst a [| |reply]];
    cbn [handle_reply]; intros E; go_inv.
  - destruct (sendRequestVote (rf s) (Some reply)) as [r' cs] eqn:Er. go_inv.
    apply server_evolves_quiet; [|done]. by eapply evolves_sendRequestVote.
  - destruct a0 as [r' ms]. go_inv. exists ms. split; [|done].
    by destruct (sendAppendEntries_keeps n i (rf s) dst a reply r' ms) as [? _].
Qed.

Lemma put_evolves c i s s' nt j t :
  servers c !! i = Some s -> server_evolves s s' -> servers c !! j = Some t ->
  exists t', servers (put i s' c nt) !! j = Some t' /\ server_evolves t t'.
Proof.
  intros Hi Hev Hj. simpl. destruct (decide (i = j)) as [->|].
  - exists s'. simplify_eq. split; [|done].
    apply list_lookup_insert_eq. by eapply lookup_lt_Some.
  - exists t. rewrite list_lookup_insert_ne by done. split; [done|reflexivity].
Qed.

(** Every step but a restart takes every server to what it evolves to. *)
Lemma step_evolves n c lb c' i s :
  wf_cluster n c -> crash_free c lb = true -> step lb c = Some (Ok c') ->
  servers c !! i = Some s ->
  exists s', servers c' !! i = Some s' /\ server_evolves s s'.
Proof.
  intros [Hsz Hsrv Hnet] Hok Hst Hi.
  destruct lb as [j|j|j k|k|k|k|j cmd|j]; cbn [step] in Hst; [..|done].
  - apply bind_Some in Hst as (t & Ht & Hst). case_decide; go_inv.
    eapply put_evolves; [done| |done]. by apply server_evolves_quiet; [apply evolves_refl|].
  - apply bind_Some in Hst as (t & Ht & Hst). destruct (pc t) as [|read]; go_inv.
    destruct a as [t' calls]. go_inv. eapply put_evolves; [done| |done].
    by eapply timeout_evolves.
  - apply bind_Some in Hst as (t & Ht & Hst). apply bind_Some in Hst as (m & Hm & Hst).
    destruct (pc t) as [|read]; [done|]. apply bind_Some in Hst as (m' & Hm' & Hst). go_inv.
    eapply put_evolves; [done| |done]. by apply server_evolves_quiet; [apply evolves_refl|].
  - apply bind_Some in Hst as (m & Hm & Hst). apply bind_Some in Hst as (t & Ht & Hst).
    apply bind_Some in Hst as (r & Hr & Hst). go_inv. destruct a as [t' m']. go_inv.
    eapply put_evolves; [done| |done]. by eapply request_evolves; [apply Hsrv|].
  - apply bind_Some in Hst as (m & Hm & Hst). apply bind_Some in Hst as (t & Ht & Hst).
    apply bind_Some in Hst as (r & Hr & Hst). go_inv. destruct a as [t' calls]. go_inv.
    eapply put_evolves; [done| |done]. eapply reply_evolves; [by apply Hsrv| |done].
    by eapply Forall_lookup_1 in Hnet.
  - apply bind_Some in Hst as (m & Hm & Hst). destruct (droppable m); go_inv.
    exists s. split; [done|reflexivity].
  - apply bind_Some in Hst as (t & Ht & Hst). go_inv. destruct a as [r' x]. go_inv.
    eapply put_evolves; [done| |done]. apply server_evolves_quiet; [|done].
    by eapply evolves_Start.
Qed.

Lemma run_evolves n ls c c' i s :
  wf_cluster n c -> run crash_free ls c = Some (Ok c') -> servers c !! i = Some s ->
  exists s', servers c' !! i = Some s' /\ server_evolves s s'.
Proof.
  revert c s. induction ls as [|lb ls IH]; intros c s Hw; simpl.
  { intros [= <-] ?. exists s. split; [done|reflexivity]. }
  destruct (crash_free c lb) eqn:Hok; [|done].
  destruct (step lb c) as [[c1|p]|] eqn:Hst; simpl; [|done|done]. intros Hrun Hi.
  destruct (step_evolves n c lb c1 i s) as (s1 & Hi1 & E1); [done..|].
  destruct (wf_step n c lb _ Hw Hst) as (? & [= <-] & Hw1).
  destruct (IH c1 s1) as (s2 & Hi2 & E2); [done..|].
  exists s2. split; [done|]. by transitivity s1.
Qed.

(** ** Delivery *)

(** What a server has sent on [applyCh] since it started. *)
Definition delivered_ok s : Prop := delivers 0 (lastApplied (rf s)) (applied s).

Lemma delivered_evolves s s' : delivered_ok s -> server_evolves s s' -> delivered_ok s'.
Proof.
  intros Hd (ms & [] & E). unfold delivered_ok. rewrite E. by eapply delivers_app.
Qed.

Lemma Make_lastApplied n i d (r : Raft Cmd) : Make n i d = Ok r -> lastApplied r = 0.
Proof.
  unfold Make, readPersist. destruct (_ <? _); [by intros [= <-]|].
  repeat case_match; try done; by intros [= <-].
Qed.

Lemma step_size c lb c' : step lb c = Some (Ok c') -> length (servers c') = length (servers c).
Proof.
  destruct lb; cbn [step]; intros Hst;
    repeat match goal with
    | H : (_ ≫= _) = Some _ |- _ => apply bind_Some in H as (? & ? & H)
    | H : context [decide ?P] |- _ => destruct (decide P)
    | H : match ?x with _ => _ end = Some _ |- _ => destruct x
    | H : (if ?x then _ else _) = Some _ |- _ => destruct x
    | H : let '(_, _) := ?x in _ |- _ => destruct x
    | p : (_ * _)%type |- _ => destruct p
    | _ => progress go_inv
    end; simpl; by rewrite ?length_insert.
Qed.

Lemma step_delivered n c lb c' :
  wf_cluster n c -> (forall i s, servers c !! i = Some s -> delivered_ok s) ->
  step lb c = Some (Ok c') -> forall i s, servers c' !! i = Some s -> delivered_ok s.
Proof.
  intros Hw Hall Hst i s' Hi'.
  assert (exists s, servers c !! i = Some s) as [s Hi].
  { apply lookup_lt_is_Some. rewrite <- (step_size _ _ _ Hst). by eapply lookup_lt_Some. }
  destruct (crash_free c lb) eqn:Hok.
  { destruct (step_evolves n c lb c' i s) as (s2 & ? & ?); [done..|]. simplify_eq.
    eapply delivered_evolves; [|done]. by eapply Hall. }
  destruct lb as [| | | | | | |j]; try done. cbn [step] in Hst.
  apply bind_Some in Hst as (t & Ht & Hst). go_inv. simpl in Hi'.
  apply list_lookup_insert_Some in Hi' as [(<- & <- & _)|[? ?]].
  - unfold delivered_ok. simpl. rewrite (Make_lastApplied _ _ _ _ Ha). apply delivers_nil.
  - by eapply Hall.
Qed.

Lemma reach_delivered n ok c i s :
  reach n ok c -> servers c !! i = Some s -> delivered_ok s.
Proof.
  intros Hr. revert i s. induction Hr as [|c lb c' Hr IH _ Hst].
  - intros i s (j & -> & _)%list_lookup_fmap_Some. apply delivers_nil.
  - eapply step_delivered; [by eapply wf_reach|done|done].
Qed.

(** The [k]-th message a peer sent has index [k + 1]. *)
Lemma reach_index n ok c i s k m :
  reach n ok c -> servers c !! i = Some s -> applied s !! k = Some m ->
  CommandIndex m = Z.of_nat k + 1.
Proof.
  intros Hr Hi Hm. destruct (reach_delivered _ _ _ _ _ Hr Hi) as (_ & E & _).
  apply (f_equal (fun l : list Z => l !! k)) in E. rewrite list_lookup_fmap, Hm in E. simpl in E.
  symmetry in E. apply lookup_seqZ in E. lia.
Qed.
End history.
