(* ===== verification/RaftSafety.v ===== *)
(** * raft/raft.go: election safety and log matching

    For executions in which no peer crashes and every granted vote is counted
    in the term it was asked for ([fresh_votes]).  The invariant carries a
    ghost history: who voted for whom in each term, whose votes a candidate
    has counted, who won each term, and the log of each term's winner. *)

From Stdlib Require Import ZArith Lia.
From stdpp Require Import base numbers strings gmap list fin_sets.
From S2P Require Import Prelude Persister RaftNode RaftNodeFacts RaftCluster RaftWf.
From S2P Require Import RaftHandlers RaftHistory.
Local Open Scope Z_scope.

Section safety.
Context {Cmd : Type} `{Gob Cmd}.
Abbreviation Log := (list (LogEntry Cmd)).
Implicit Types (r : Raft Cmd) (l : Log) (rs : list (Raft Cmd)) (nt : list (rpc Cmd)).

(** ** Ghost history *)

Record ghost := mkGhost {
  voted : gmap (nat * Z) nat;             (* (voter, term) -> candidate *)
  counted : gmap (nat * Z) (gset nat);    (* (candidate, term) -> voters *)
  won : gmap Z nat;                       (* term -> leader *)
  canon : gmap Z Log;                     (* term -> the leader's log *)
}.

(** ** Agreement of logs with the canonical ones *)

(** Up to any entry of term [t], the log is the log of the winner of [t]. *)
Definition agrees (cn : gmap Z Log) l : Prop :=
  forall k e, l !! k = Some e ->
    exists G, cn !! le_Term e = Some G /\ take (S k) l = take (S k) G.

Definition canon_le (cn cn' : gmap Z Log) : Prop :=
  forall t G, cn !! t = Some G -> exists G', cn' !! t = Some G' /\ G `prefix_of` G'.

#[local] Instance canon_le_refl : Reflexive canon_le.
Proof. intros cn t G HG. by exists G. Qed.

Lemma take_prefix_eq l G G' k :
  (k < length l)%nat -> take (S k) l = take (S k) G -> G `prefix_of` G' ->
  take (S k) l = take (S k) G'.
Proof.
  intros Hk E [x ->]. rewrite E. apply (f_equal length) in E.
  rewrite !length_take in E. rewrite take_app_le by lia. done.
Qed.

Lemma agrees_mono cn cn' l : canon_le cn cn' -> agrees cn l -> agrees cn' l.
Proof.
  intros Hle Hl k e Hk. destruct (Hl k e Hk) as (G & HG & E).
  destruct (Hle _ _ HG) as (G' & HG' & Hp). exists G'. split; [done|].
  eapply take_prefix_eq; [by eapply lookup_lt_Some|done|done].
Qed.

Lemma agrees_take cn l n : agrees cn l -> agrees cn (take n l).
Proof.
  intros Hl k e [Hk Hlt]%lookup_take_Some. destruct (Hl k e Hk) as (G & HG & E).
  exists G. split; [done|]. rewrite take_take. by replace (S k `min` n)%nat with (S k) by lia.
Qed.

(** Two agreeing logs with an entry of the same term at the same index have
    the same prefix up to it: the Log Matching property. *)
Lemma agrees_match cn l l' k e e' :
  agrees cn l -> agrees cn l' -> l !! k = Some e -> l' !! k = Some e' ->
  le_Term e = le_Term e' -> take (S k) l = take (S k) l'.
Proof.
  intros Hl Hl' Hk Hk' Et. destruct (Hl k e Hk) as (G & HG & E).
  destruct (Hl' k e' Hk') as (G' & HG' & E'). rewrite Et in HG. simplify_eq. congruence.
Qed.

(** The leader of [t] appends an entry. *)
Lemma agrees_append cn l t cmd :
  agrees cn l -> cn !! t = Some l ->
  let l' := l ++ [mkLogEntry t cmd] in
  canon_le cn (<[t := l']> cn) /\ agrees (<[t := l']> cn) l'.
Proof.
  intros Hl Ht l'.
  assert (canon_le cn (<[t := l']> cn)) as Hle.
  { intros t' G HG. destruct (decide (t' = t)) as [->|].
    - exists l'. rewrite lookup_insert_eq. simplify_eq. split; [done|]. by eexists.
    - exists G. by rewrite lookup_insert_ne. }
  split; [done|]. intros k e [Hk|[Hk He]]%lookup_app_Some.
  - destruct (agrees_mono _ _ _ Hle Hl k e Hk) as (G & HG & E). exists G. split; [done|].
    rewrite <- E. unfold l'. rewrite take_app_le; [done|]. apply lookup_lt_Some in Hk. lia.
  - apply list_lookup_singleton_Some in He as [? <-]. exists l'. simpl.
    by rewrite lookup_insert_eq.
Qed.

(** A new winner's log becomes canonical. *)
Lemma canon_le_new cn t l : cn !! t = None -> canon_le cn (<[t := l]> cn).
Proof.
  intros Ht t' G HG. exists G. rewrite lookup_insert_ne by congruence. done.
Qed.

(** What a follower's log becomes when it accepts entries from an agreeing
    log [M]. *)
Lemma agrees_accept cn l M p e e' entries :
  agrees cn l -> agrees cn M -> l !! p = Some e -> M !! p = Some e' ->
  le_Term e = le_Term e' -> drop (S p) M = entries ->
  take (S p) l ++ entries = M.
Proof.
  intros Hl HM He He' Et <-. rewrite (agrees_match cn l M p e e') by done. apply take_drop.
Qed.

(** ** The invariant *)

Definition rv_key (m : rpc Cmd) : option (nat * Z * nat) :=
  match m with RV src dst a _ => Some (src, rva_Term a, dst) | AE _ _ _ _ => None end.

Definition granted (ph : phase RequestVoteReply) : bool :=
  match ph with
  | Requested => false
  | Blocked r | Replied r => rvr_VoteGranted r
  end.

Definition voters (n : nat) (vt : gmap (nat * Z) nat) (t : Z) (w : nat) : gset nat :=
  filter (fun v => vt !! (v, t) = Some w) (list_to_set (seq 0 n)).

Definition quorum (n : nat) (vt : gmap (nat * Z) nat) (t : Z) (w : nat) : Prop :=
  (n < 2 * size (voters n vt t w))%nat.

Definition msg_ok (g : ghost) rs (m : rpc Cmd) : Prop :=
  match m with
  | RV src dst a ph =>
    src <> dst /\ rva_CandidateId a = Z.of_nat src /\
    (exists r, rs !! src = Some r /\ rva_Term a <= currentTerm r) /\
    (granted ph = true -> voted g !! (dst, rva_Term a) = Some src)
  | AE src dst a ph =>
    src <> dst /\
    ((aea_Term a = 0 /\ aea_Entries a = []) \/ won g !! aea_Term a = Some src) /\
    (aea_Entries a <> [] -> exists M e, agrees (canon g) M /\
       M !! Z.to_nat (aea_PrevLogIndex a) = Some e /\ le_Term e = aea_PrevLogTerm a /\
       drop (S (Z.to_nat (aea_PrevLogIndex a))) M = aea_Entries a)
  end.

Record inv (n : nat) (g : ghost) rs nt : Prop := {
  inv_wf : forall i r, rs !! i = Some r -> wf_raft n i r;
  inv_size : length rs = n;
  inv_role : forall i r, rs !! i = Some r -> state r <> Follower -> 1 <= currentTerm r;
  inv_voted : forall v r, rs !! v = Some r -> votedFor r <> -1 ->
    exists c, votedFor r = Z.of_nat c /\ voted g !! (v, currentTerm r) = Some c;
  inv_voted_past : forall v t c, voted g !! (v, t) = Some c ->
    exists r, rs !! v = Some r /\
      (t < currentTerm r \/ (t = currentTerm r /\ votedFor r = Z.of_nat c));
  inv_votes : forall i r, rs !! i = Some r -> state r = Candidate ->
    votes r = Z.of_nat (size (counted g !!! (i, currentTerm r)));
  inv_counted : forall i t v, v ∈ counted g !!! (i, t) ->
    voted g !! (v, t) = Some i /\ (i, t, v) ∉ omap rv_key nt;
  inv_keys : NoDup (omap rv_key nt);
  inv_msgs : Forall (msg_ok g rs) nt;
  inv_won : forall t w, won g !! t = Some w ->
    quorum n (voted g) t w /\ exists r, rs !! w = Some r /\
      (t < currentTerm r \/ (t = currentTerm r /\ state r = Leader));
  inv_leader : forall i r, rs !! i = Some r -> state r = Leader ->
    won g !! currentTerm r = Some i /\ canon g !! currentTerm r = Some (log r);
  inv_canon : forall t G, canon g !! t = Some G ->
    agrees (canon g) G /\ (t = 0 \/ is_Some (won g !! t));
  inv_logs : forall i r, rs !! i = Some r -> agrees (canon g) (log r);
}.

Lemma inv_msg n g rs nt m : inv n g rs nt -> m ∈ nt -> msg_ok g rs m.
Proof. intros [] Hm. by eapply Forall_forall in Hm. Qed.

Lemma inv_msg_lookup n g rs nt k m : inv n g rs nt -> nt !! k = Some m -> msg_ok g rs m.
Proof. intros Hi Hm%list_elem_of_lookup_2. by eapply inv_msg. Qed.

(** Two quorums of one term are for the same candidate. *)
Lemma quorum_unique n vt t w w' : quorum n vt t w -> quorum n vt t w' -> w = w'.
Proof.
  unfold quorum. intros H1 H2. destruct (decide (w = w')) as [|Hne]; [done|]. exfalso.
  assert (voters n vt t w ## voters n vt t w') as Hd.
  { intros v [? _]%elem_of_filter [? _]%elem_of_filter. congruence. }
  assert (size (voters n vt t w ∪ voters n vt t w') <= n)%nat as Hle.
  { transitivity (size (list_to_set (seq 0 n) : gset nat)).
    - apply subseteq_size. intros v. rewrite elem_of_union. unfold voters.
      rewrite !elem_of_filter. naive_solver.
    - rewrite size_list_to_set by apply NoDup_seq. by rewrite length_seq. }
  rewrite size_union in Hle by done. lia.
Qed.

Lemma voters_mono n vt vt' t w : vt ⊆ vt' -> voters n vt t w ⊆ voters n vt' t w.
Proof.
  intros Hsub v. unfold voters. rewrite !elem_of_filter. intros [? ?]. split; [|done].
  by eapply lookup_weaken.
Qed.

Lemma quorum_mono n vt vt' t w : vt ⊆ vt' -> quorum n vt t w -> quorum n vt' t w.
Proof.
  unfold quorum. intros Hsub%(voters_mono n _ _ t w)%subseteq_size. lia.
Qed.

(** ** Monotonicity *)

Record ghost_le (g g' : ghost) : Prop := {
  gle_voted : voted g ⊆ voted g';
  gle_won : won g ⊆ won g';
  gle_canon : canon_le (canon g) (canon g');
}.

Lemma ghost_le_refl g : ghost_le g g.
Proof. by constructor. Qed.

(** Terms do not decrease. *)
Definition terms_le rs rs' : Prop :=
  forall i r, rs !! i = Some r -> exists r', rs' !! i = Some r' /\ currentTerm r <= currentTerm r'.

Lemma terms_le_refl rs : terms_le rs rs.
Proof. intros i r Hr. by exists r. Qed.

Lemma terms_le_insert rs i r r' :
  rs !! i = Some r -> currentTerm r <= currentTerm r' -> terms_le rs (<[i := r']> rs).
Proof.
  intros Hi Ht j x Hj. destruct (decide (i = j)) as [->|].
  - exists r'. simplify_eq. split; [|done]. apply list_lookup_insert_eq.
    by eapply lookup_lt_Some.
  - exists x. by rewrite list_lookup_insert_ne.
Qed.

Lemma msg_ok_mono g g' rs rs' m :
  ghost_le g g' -> terms_le rs rs' -> msg_ok g rs m -> msg_ok g' rs' m.
Proof.
  intros [Hv Hw Hc] Hrs. destruct m as [src dst a ph|src dst a ph]; simpl.
  - intros (? & ? & (r & Hr & ?) & Hg). destruct (Hrs _ _ Hr) as (r' & ? & ?).
    split_and!; [done|done|exists r'; split; [done|lia]|].
    intros ?. eapply lookup_weaken; [by apply Hg|done].
  - intros (? & Ht & HM). split_and!; [done| |].
    + destruct Ht as [|Ht]; [by left|right]. by eapply lookup_weaken.
    + intros Hne. destruct (HM Hne) as (M & e & HMa & ? & ? & ?). exists M, e.
      split_and!; try done. by eapply agrees_mono.
Qed.

Lemma msgs_ok_mono g g' rs rs' nt :
  ghost_le g g' -> terms_le rs rs' -> Forall (msg_ok g rs) nt -> Forall (msg_ok g' rs') nt.
Proof. intros Hg Hrs Hn. apply (Forall_impl _ _ _ Hn). intros m. by apply msg_ok_mono. Qed.

(** ** Steps of the network alone *)

Lemma inv_net n g rs nt nt' :
  inv n g rs nt -> NoDup (omap rv_key nt') ->
  (forall x, x ∈ omap rv_key nt' -> x ∈ omap rv_key nt) ->
  Forall (msg_ok g rs) nt' -> inv n g rs nt'.
Proof.
  intros [] Hnd Hsub Hm. constructor; try done.
  intros i t v Hv. destruct (inv_counted0 _ _ _ Hv) as [? Hni]. split; [done|].
  intros Hin. by apply Hni, Hsub.
Qed.

Lemma omap_delete_sublist {A B} (f : A -> option B) (l : list A) k :
  omap f (delete k l) `sublist_of` omap f l.
Proof.
  revert k. induction l as [|x l IH]; intros [|k]; simpl; [done|done| |].
  - destruct (f x); [by constructor|done].
  - destruct (f x); [by constructor|]; apply IH.
Qed.

Lemma inv_net_delete n g rs nt k : inv n g rs nt -> inv n g rs (delete k nt).
Proof.
  intros Hi. pose proof (omap_delete_sublist rv_key nt k) as Hsub.
  apply (inv_net _ _ _ _ _ Hi).
  - eapply sublist_NoDup; [|done]. by destruct Hi.
  - intros x Hx. apply sublist_subseteq in Hsub. by apply Hsub.
  - apply Forall_delete. by destruct Hi.
Qed.

Lemma omap_insert_same {A B} (f : A -> option B) (l : list A) k x y :
  l !! k = Some x -> f y = f x -> omap f (<[k := y]> l) = omap f l.
Proof.
  intros Hk Hf. rewrite insert_take_drop by (by eapply lookup_lt_Some).
  rewrite <- (take_drop_middle l k x Hk) at 3. rewrite !omap_app. simpl. by rewrite Hf.
Qed.

(** An RPC changes phase. *)
Lemma inv_net_phase n g rs nt k m m' :
  inv n g rs nt -> nt !! k = Some m -> rv_key m' = rv_key m -> msg_ok g rs m' ->
  inv n g rs (<[k := m']> nt).
Proof.
  intros Hi Hk Hkey Hm. pose proof (omap_insert_same rv_key nt k m m' Hk Hkey) as E.
  apply (inv_net _ _ _ _ _ Hi); rewrite ?E; [by destruct Hi|done|].
  apply Forall_insert; [by destruct Hi|done].
Qed.

Lemma rv_key_ae_calls i calls : omap rv_key (ae_calls (Cmd := Cmd) i calls) = [].
Proof. unfold ae_calls. induction calls as [|[p a] calls IH]; [done|]. simpl. apply IH. Qed.

Lemma inv_net_appends n g rs nt i calls :
  inv n g rs nt -> Forall (msg_ok g rs) (ae_calls i calls) -> inv n g rs (nt ++ ae_calls i calls).
Proof.
  intros Hi Hm. apply (inv_net _ _ _ _ _ Hi); rewrite ?omap_app, ?rv_key_ae_calls, ?app_nil_r.
  - by destruct Hi.
  - done.
  - apply Forall_app. split; [by destruct Hi|done].
Qed.

(** ** A peer steps down, or keeps its term, role and vote *)

Definition keeps r r' : Prop :=
  (currentTerm r < currentTerm r' /\ state r' = Follower /\ votedFor r' = -1) \/
  (currentTerm r' = currentTerm r /\ state r' = state r /\ votedFor r' = votedFor r /\
   (state r = Candidate -> votes r' = votes r)).

Lemma inv_keep n g rs nt i r r' :
  inv n g rs nt -> rs !! i = Some r -> wf_raft n i r' -> keeps r r' ->
  agrees (canon g) (log r') -> (state r' = Leader -> log r' = log r) ->
  inv n g (<[i := r']> rs) nt.
Proof.
  intros Hi Hr Hw Hk Hlog Hlead. pose proof Hi as [].
  assert (currentTerm r <= currentTerm r') as Hle by (destruct Hk as [[? _]|[? _]]; lia).
  assert (terms_le rs (<[i := r']> rs)) as Hterms by (by eapply terms_le_insert).
  assert (<[i := r']> rs !! i = Some r') as Hri
    by (apply list_lookup_insert_eq; by eapply lookup_lt_Some).
  constructor; try done.
  - intros j x Hj. destruct (lookup_update _ _ _ _ _ _ Hr Hj) as [[-> ->]|[? ?]]; eauto.
  - by rewrite length_insert.
  - intros j x Hj Hs. destruct (lookup_update _ _ _ _ _ _ Hr Hj) as [[-> ->]|[? ?]]; [|by eauto].
    destruct Hk as [(? & ? & ?)|(-> & E & _)]; [congruence|]. rewrite E in Hs. by eauto.
  - intros j x Hj Hv. destruct (lookup_update _ _ _ _ _ _ Hr Hj) as [[-> ->]|[? ?]]; [|by eauto].
    destruct Hk as [(? & ? & ?)|(-> & _ & E & _)]; [congruence|]. rewrite E in *. by eauto.
  - intros v t c Hv. destruct (inv_voted_past0 _ _ _ Hv) as (x & Hx & Hcase).
    destruct (decide (v = i)) as [->|].
    + exists r'. split; [done|]. simplify_eq.
      destruct Hk as [(? & ? & ?)|(-> & _ & E & _)]; [left; lia|]. by rewrite E.
    + exists x. by rewrite list_lookup_insert_ne.
  - intros j x Hj Hs. destruct (lookup_update _ _ _ _ _ _ Hr Hj) as [[-> ->]|[? ?]]; [|by eauto].
    destruct Hk as [(? & ? & ?)|(-> & E & _ & Ev)]; [congruence|].
    rewrite E in Hs. rewrite Ev by done. by eauto.
  - eapply msgs_ok_mono; [apply ghost_le_refl|done|done].
  - intros t w Hw'. destruct (inv_won0 _ _ Hw') as (? & x & Hx & Hcase). split; [done|].
    destruct (decide (w = i)) as [->|].
    + exists r'. split; [done|]. simplify_eq.
      destruct Hk as [(? & ? & ?)|(-> & E & _)]; [left; lia|]. by rewrite E.
    + exists x. by rewrite list_lookup_insert_ne.
  - intros j x Hj Hs. destruct (lookup_update _ _ _ _ _ _ Hr Hj) as [[-> ->]|[? ?]]; [|by eauto].
    rewrite (Hlead Hs). destruct Hk as [(? & ? & ?)|(-> & E & _)]; [congruence|].
    rewrite E in Hs. by eauto.
  - intros j x Hj. destruct (lookup_update _ _ _ _ _ _ Hr Hj) as [[-> ->]|[? ?]]; eauto.
Qed.

(** ** A peer records a vote in its current term *)

Definition g_vote (v : nat) (t : Z) (c : nat) (g : ghost) : ghost :=
  mkGhost (<[(v, t) := c]> (voted g)) (counted g) (won g) (canon g).

Lemma g_vote_le n g rs nt v r c :
  inv n g rs nt -> rs !! v = Some r -> votedFor r = -1 \/ votedFor r = Z.of_nat c ->
  ghost_le g (g_vote v (currentTerm r) c g).
Proof.
  intros [] Hr Hv. constructor; simpl; [|done|done].
  destruct (voted g !! (v, currentTerm r)) as [c'|] eqn:E.
  - destruct (inv_voted_past0 _ _ _ E) as (x & Hx & Hc). simplify_eq.
    assert (c' = c) as -> by (destruct Hc as [|[_ ?]]; [lia|]; destruct Hv; lia).
    by rewrite insert_id.
  - by apply insert_subseteq.
Qed.

Lemma inv_vote n g rs nt v r c :
  inv n g rs nt -> rs !! v = Some r -> votedFor r = -1 \/ votedFor r = Z.of_nat c ->
  inv n (g_vote v (currentTerm r) c g) (<[v := set_votedFor (Z.of_nat c) r]> rs) nt.
Proof.
  intros Hi Hr Hv. pose proof (g_vote_le _ _ _ _ _ _ _ Hi Hr Hv) as Hle.
  pose proof Hi as []. set (r' := set_votedFor (Z.of_nat c) r).
  assert (<[v := r']> rs !! v = Some r') as Hri
    by (apply list_lookup_insert_eq; by eapply lookup_lt_Some).
  assert (forall j x, <[v := r']> rs !! j = Some x -> exists y, rs !! j = Some y /\
    currentTerm y = currentTerm x /\ state y = state x /\ log y = log x /\ votes y = votes x)
    as Hback.
  { intros j x Hj. destruct (lookup_update _ _ _ _ _ _ Hr Hj) as [[-> ->]|[? ?]]; eauto 10. }
  assert (forall j y, rs !! j = Some y -> exists x, <[v := r']> rs !! j = Some x /\
    currentTerm x = currentTerm y /\ state x = state y) as Hfwd.
  { intros j y Hj. destruct (decide (j = v)) as [->|];
      [exists r'; by simplify_eq|exists y; by rewrite list_lookup_insert_ne]. }
  constructor; simpl.
  - intros j x Hj. destruct (lookup_update _ _ _ _ _ _ Hr Hj) as [[-> ->]|[? ?]]; [|by eauto].
    destruct (inv_wf0 _ _ Hr). by constructor.
  - by rewrite length_insert.
  - intros j x (y & Hy & Et & Es & _)%Hback. rewrite <- Et, <- Es. by eauto.
  - intros j x Hj Hne. destruct (lookup_update _ _ _ _ _ _ Hr Hj) as [[-> ->]|[Hjv Hj']].
    + exists c. by rewrite lookup_insert_eq.
    + destruct (inv_voted0 _ _ Hj' Hne) as (c' & ? & ?). exists c'. split; [done|].
      rewrite lookup_insert_ne; [done|congruence].
  - intros j t c' [[[= <- <-] <-]|[Hne Hv']]%lookup_insert_Some; [by eauto|].
    destruct (inv_voted_past0 _ _ _ Hv') as (x & Hx & Hcase).
    destruct (decide (j = v)) as [->|]; [|exists x; by rewrite list_lookup_insert_ne].
    exists r'. simplify_eq. split; [done|]. destruct Hcase as [|[-> _]]; [by left|congruence].
  - intros j x (y & Hy & Et & Es & _ & Evs)%Hback. rewrite <- Et, <- Es, <- Evs. by eauto.
  - intros i t w Hw. destruct (inv_counted0 _ _ _ Hw) as [? ?]. split; [|done].
    eapply lookup_weaken; [done|]. by apply (gle_voted _ _ Hle).
  - done.
  - eapply msgs_ok_mono; [done| |done]. by eapply terms_le_insert.
  - intros t w Hw. destruct (inv_won0 _ _ Hw) as (? & x & Hx & Hcase).
    destruct (Hfwd _ _ Hx) as (x' & Hx' & Et & Es). split; [|exists x'; by rewrite Et, Es].
    eapply quorum_mono; [by apply (gle_voted _ _ Hle)|done].
  - intros j x (y & Hy & Et & Es & El & _)%Hback. rewrite <- Et, <- Es, <- El. by eauto.
  - done.
  - intros j x (y & Hy & _ & _ & El & _)%Hback. rewrite <- El. by eauto.
Qed.

(** ** Ghost counting of a returned vote *)

Definition g_count (i : nat) (t : Z) (v : nat) (g : ghost) : ghost :=
  mkGhost (voted g) (<[(i, t) := {[v]} ∪ counted g !!! (i, t)]> (counted g)) (won g) (canon g).

(** A granted vote returns to the candidate in the term it asked for, and
    is counted once: its RPC leaves the network. *)
Lemma inv_count n g rs nt k i v a ph r :
  inv n g rs nt -> nt !! k = Some (RV i v a ph) -> granted ph = true ->
  rs !! i = Some r -> rva_Term a = currentTerm r ->
  inv n (g_count i (currentTerm r) v g) (<[i := set_votes (votes r + 1) r]> rs) (delete k nt).
Proof.
  intros Hi Hk Hg Hr Ht. pose proof Hi as [].
  assert (msg_ok g rs (RV i v a ph)) as (Hne & _ & _ & Hvt)
    by (by eapply inv_msg_lookup).
  specialize (Hvt Hg). rewrite Ht in Hvt.
  assert ((i, currentTerm r, v) ∈ omap rv_key nt) as Hin.
  { apply list_elem_of_omap. eexists. split; [by eapply list_elem_of_lookup_2|].
    simpl. by rewrite Ht. }
  assert ((i, currentTerm r, v) ∉ omap rv_key (delete k nt)) as Hnin.
  { rewrite <- (take_drop_middle nt k _ Hk) in inv_keys0.
    rewrite omap_app in inv_keys0. simpl in inv_keys0. rewrite Ht in inv_keys0.
    apply NoDup_app in inv_keys0 as (? & Hdis & [? ?]%NoDup_cons).
    rewrite delete_take_drop, omap_app. intros [Hx|Hx]%elem_of_app; [|done].
    eapply Hdis; [done|]. by left. }
  assert (v ∉ counted g !!! (i, currentTerm r)) as Hnc.
  { intros Hc. by destruct (inv_counted0 _ _ _ Hc) as [_ ?]. }
  destruct (inv_net_delete _ _ _ _ k Hi) as [].
  constructor; simpl; try done.
  - intros j x Hj. destruct (lookup_update _ _ _ _ _ _ Hr Hj) as [[-> ->]|[? ?]]; [|by eauto].
    destruct (inv_wf0 _ _ Hr). by constructor.
  - by rewrite length_insert.
  - intros j x Hj. destruct (lookup_update _ _ _ _ _ _ Hr Hj) as [[-> ->]|[? ?]]; simpl; eauto.
  - intros j x Hj. destruct (lookup_update _ _ _ _ _ _ Hr Hj) as [[-> ->]|[? ?]]; simpl; eauto.
  - intros w t c Hw. destruct (inv_voted_past0 _ _ _ Hw) as (x & Hx & Hcase).
    destruct (decide (w = i)) as [->|]; [|exists x; by rewrite list_lookup_insert_ne].
    eexists. split; [apply list_lookup_insert_eq; by eapply lookup_lt_Some|].
    simpl. by simplify_eq.
  - intros j x Hj Hs. destruct (lookup_update _ _ _ _ _ _ Hr Hj) as [[-> ->]|[? Hj']]; simpl in *.
    + rewrite lookup_total_insert_eq. rewrite size_union by set_solver.
      rewrite size_singleton. rewrite (inv_votes0 _ _ Hr Hs). lia.
    + rewrite lookup_total_insert_ne by congruence. by eauto.
  - intros j t w Hw. destruct (decide ((i, currentTerm r) = (j, t))) as [[= <- <-]|Hd].
    + rewrite lookup_total_insert_eq in Hw.
      apply elem_of_union in Hw as [->%elem_of_singleton|Hw]; [done|]. by eauto.
    + rewrite lookup_total_insert_ne in Hw by done. by eauto.
  - eapply msgs_ok_mono; [by constructor| |done]. by eapply terms_le_insert.
  - intros t w Hw. destruct (inv_won0 _ _ Hw) as (? & x & Hx & Hcase). split; [done|].
    destruct (decide (w = i)) as [->|]; [|exists x; by rewrite list_lookup_insert_ne].
    eexists. split; [apply list_lookup_insert_eq; by eapply lookup_lt_Some|].
    simpl. by simplify_eq.
  - intros j x Hj. destruct (lookup_update _ _ _ _ _ _ Hr Hj) as [[-> ->]|[? ?]]; simpl; eauto.
  - intros j x Hj. destruct (lookup_update _ _ _ _ _ _ Hr Hj) as [[-> ->]|[? ?]]; simpl; eauto.
Qed.

(** ** A candidate starts an election *)

Definition g_campaign (i : nat) (t : Z) (g : ghost) : ghost :=
  mkGhost (voted g) (<[(i, t) := {[i]}]> (counted g)) (won g) (canon g).

Lemma rv_key_rv_calls i a ps :
  omap rv_key (rv_calls (Cmd := Cmd) i ((fun p => (p, a)) <$> ps))
  = (fun p => (i, rva_Term a, p)) <$> ps.
Proof. unfold rv_calls. induction ps as [|p ps IH]; [done|]. simpl. by f_equal. Qed.

Lemma inv_campaign n g rs nt i r a :
  inv n g rs nt -> rs !! i = Some r -> state r = Follower -> votedFor r = Z.of_nat i ->
  1 <= currentTerm r -> rva_Term a = currentTerm r -> rva_CandidateId a = Z.of_nat i ->
  (forall v, (i, currentTerm r, v) ∉ omap rv_key nt) ->
  inv n (g_campaign i (currentTerm r) g)
    (<[i := set_votes 1 (set_state Candidate r)]> rs)
    (nt ++ rv_calls i ((fun p => (p, a)) <$> other_peers r)).
Proof.
  intros Hi Hr Hs Hv Ht Ha Hid Hfresh. pose proof Hi as []. set (r' := set_votes _ _).
  assert (<[i := r']> rs !! i = Some r') as Hri
    by (apply list_lookup_insert_eq; by eapply lookup_lt_Some).
  assert (voted g !! (i, currentTerm r) = Some i) as Hself.
  { destruct (inv_voted0 _ _ Hr) as (c & E & ?); [lia|]. by replace i with c at 2 by lia. }
  assert (forall i' t' v', (i', t', v') ∈ (fun p => (i, rva_Term a, p)) <$> other_peers r ->
    i' = i /\ t' = currentTerm r /\ v' <> i) as Hnew.
  { intros i' t' v' (p & [= -> -> ->] & [_ Hp]%elem_of_other_peers)%list_elem_of_fmap.
    split_and!; [done|done|]. by rewrite (wf_me _ _ _ (inv_wf0 _ _ Hr)) in Hp. }
  constructor; simpl; try done.
  - intros j x Hj. destruct (lookup_update _ _ _ _ _ _ Hr Hj) as [[-> ->]|[? ?]]; [|by eauto].
    destruct (inv_wf0 _ _ Hr). by constructor.
  - by rewrite length_insert.
  - intros j x Hj. destruct (lookup_update _ _ _ _ _ _ Hr Hj) as [[-> ->]|[? ?]]; simpl; eauto.
  - intros j x Hj. destruct (lookup_update _ _ _ _ _ _ Hr Hj) as [[-> ->]|[? ?]]; simpl; eauto.
  - intros w t c Hw. destruct (inv_voted_past0 _ _ _ Hw) as (x & Hx & Hcase).
    destruct (decide (w = i)) as [->|]; [|exists x; by rewrite list_lookup_insert_ne].
    exists r'. split; [done|]. by simplify_eq.
  - intros j x Hj Hc. destruct (lookup_update _ _ _ _ _ _ Hr Hj) as [[-> ->]|[? Hj']]; simpl in *.
    + rewrite lookup_total_insert_eq, size_singleton. done.
    + rewrite lookup_total_insert_ne by congruence. by eauto.
  - rewrite omap_app, rv_key_rv_calls. intros j t w Hw.
    destruct (decide ((i, currentTerm r) = (j, t))) as [[= <- <-]|Hd].
    + rewrite lookup_total_insert_eq in Hw. apply elem_of_singleton in Hw as ->.
      split; [done|]. intros [?|?%Hnew]%elem_of_app; [by eapply Hfresh|naive_solver].
    + rewrite lookup_total_insert_ne in Hw by done.
      destruct (inv_counted0 _ _ _ Hw) as [? ?]. split; [done|].
      intros [?|?%Hnew]%elem_of_app; [done|naive_solver].
  - rewrite omap_app, rv_key_rv_calls. apply NoDup_app. split_and!; [done| |].
    + intros [[i' t'] v'] Hx (-> & -> & _)%Hnew. by eapply Hfresh.
    + apply NoDup_fmap_2; [|apply NoDup_other_peers]. intros p q. by intros [=].
  - apply Forall_app. split.
    + eapply msgs_ok_mono; [by constructor| |done]. by eapply terms_le_insert.
    + unfold rv_calls. rewrite Forall_fmap, Forall_fmap. apply Forall_forall.
      intros p [_ Hp]%elem_of_other_peers. simpl.
      rewrite (wf_me _ _ _ (inv_wf0 _ _ Hr)) in Hp.
      split_and!; [done|done| |done]. exists r'. split; [done|]. simpl. lia.
  - intros t w Hw. destruct (inv_won0 _ _ Hw) as (? & x & Hx & Hcase). split; [done|].
    destruct (decide (w = i)) as [->|]; [|exists x; by rewrite list_lookup_insert_ne].
    exists r'. split; [done|]. simplify_eq. destruct Hcase as [|[_ ?]]; [by left|congruence].
  - intros j x Hj. destruct (lookup_update _ _ _ _ _ _ Hr Hj) as [[-> ->]|[? ?]]; [done|by eauto].
  - intros j x Hj. destruct (lookup_update _ _ _ _ _ _ Hr Hj) as [[-> ->]|[? ?]]; simpl; eauto.
Qed.

(** ** A candidate wins *)

Definition g_win (i : nat) (t : Z) l (g : ghost) : ghost :=
  mkGhost (voted g) (counted g) (<[t := i]> (won g)) (<[t := l]> (canon g)).

Lemma counted_quorum n g rs nt i r :
  inv n g rs nt -> rs !! i = Some r -> state r = Candidate -> majority r (votes r) = true ->
  quorum n (voted g) (currentTerm r) i.
Proof.
  intros [] Hr Hs Hm. unfold majority in Hm. zbool.
  rewrite (inv_votes0 _ _ Hr Hs), (wf_peers _ _ _ (inv_wf0 _ _ Hr)) in Hm.
  assert (counted g !!! (i, currentTerm r) ⊆ voters n (voted g) (currentTerm r) i) as Hsub.
  { intros v Hv. destruct (inv_counted0 _ _ _ Hv) as [Hvt _].
    apply elem_of_filter. split; [done|]. apply elem_of_list_to_set, elem_of_seq.
    destruct (inv_voted_past0 _ _ _ Hvt) as (x & Hx & _). apply lookup_lt_Some in Hx. lia. }
  apply subseteq_size in Hsub. unfold quorum.
  rewrite Z.quot_div_nonneg in Hm by lia.
  pose proof (Z.div_mod (Z.of_nat n) 2). pose proof (Z.mod_pos_bound (Z.of_nat n) 2). lia.
Qed.

(** Nobody else has won the term. *)
Lemma first_to_win n g rs nt i r :
  inv n g rs nt -> rs !! i = Some r -> state r = Candidate -> majority r (votes r) = true ->
  won g !! currentTerm r = None /\ canon g !! currentTerm r = None /\ 1 <= currentTerm r.
Proof.
  intros Hi Hr Hs Hm. pose proof (counted_quorum _ _ _ _ _ _ Hi Hr Hs Hm) as Hq.
  pose proof Hi as [].
  assert (won g !! currentTerm r = None) as Hnone.
  { destruct (won g !! currentTerm r) as [w|] eqn:E; [|done].
    destruct (inv_won0 _ _ E) as (Hq' & x & Hx & Hcase).
    rewrite (quorum_unique _ _ _ _ _ Hq' Hq) in Hx. simplify_eq.
    destruct Hcase as [|[_ ?]]; [lia|congruence]. }
  assert (1 <= currentTerm r) as Hpos by (eapply inv_role0; [done|congruence]).
  split_and!; [done| |done]. destruct (canon g !! currentTerm r) as [G|] eqn:E; [|done].
  destruct (inv_canon0 _ _ E) as [_ [?|[? ?]]]; [lia|congruence].
Qed.

Lemma inv_win n g rs nt i r :
  inv n g rs nt -> rs !! i = Some r -> state r = Candidate -> majority r (votes r) = true ->
  inv n (g_win i (currentTerm r) (log r) g) (<[i := takeOffice r]> rs) nt.
Proof.
  intros Hi Hr Hs Hm. pose proof (counted_quorum _ _ _ _ _ _ Hi Hr Hs Hm) as Hq.
  destruct (first_to_win _ _ _ _ _ _ Hi Hr Hs Hm) as (Hnone & Hcn & Hpos).
  pose proof Hi as [].
  assert (ghost_le g (g_win i (currentTerm r) (log r) g)) as Hle.
  { constructor; simpl; [done|by apply insert_subseteq|by apply canon_le_new]. }
  set (r' := takeOffice r).
  assert (<[i := r']> rs !! i = Some r') as Hri
    by (apply list_lookup_insert_eq; by eapply lookup_lt_Some).
  constructor; simpl; try done.
  - intros j x Hj. destruct (lookup_update _ _ _ _ _ _ Hr Hj) as [[-> ->]|[? ?]]; [|by eauto].
    destruct (inv_wf0 _ _ Hr). constructor; simpl; try done. intros _.
    rewrite !length_replicate. split_and!; [done|done|].
    apply Forall_replicate. by apply wf_log_len.
  - by rewrite length_insert.
  - intros j x Hj. destruct (lookup_update _ _ _ _ _ _ Hr Hj) as [[-> ->]|[? ?]]; simpl; eauto.
  - intros j x Hj. destruct (lookup_update _ _ _ _ _ _ Hr Hj) as [[-> ->]|[? ?]]; simpl; eauto.
  - intros w t c Hw. destruct (inv_voted_past0 _ _ _ Hw) as (x & Hx & Hcase).
    destruct (decide (w = i)) as [->|]; [|exists x; by rewrite list_lookup_insert_ne].
    exists r'. split; [done|]. by simplify_eq.
  - intros j x Hj Hc. destruct (lookup_update _ _ _ _ _ _ Hr Hj) as [[-> ->]|[? Hj']]; [done|].
    by eauto.
  - eapply msgs_ok_mono; [done| |done]. by eapply terms_le_insert.
  - intros t w [[<- <-]|[Hne Hw]]%lookup_insert_Some.
    { split; [done|]. exists r'. split; [done|]. by right. }
    destruct (inv_won0 _ _ Hw) as (? & x & Hx & Hcase). split; [done|].
    destruct (decide (w = i)) as [->|]; [|exists x; by rewrite list_lookup_insert_ne].
    exists r'. split; [done|]. simplify_eq. destruct Hcase as [|[? ?]]; [by left|congruence].
  - intros j x Hj Hl. destruct (lookup_update _ _ _ _ _ _ Hr Hj) as [[-> ->]|[Hji Hj']].
    { by rewrite !lookup_insert_eq. }
    destruct (inv_leader0 _ _ Hj' Hl) as [Hwj Hcj].
    assert (currentTerm r <> currentTerm x) by congruence.
    by rewrite !lookup_insert_ne by done.
  - intros t G [[<- <-]|[Hne HG]]%lookup_insert_Some.
    + split; [|right; rewrite lookup_insert_eq; by eauto].
      eapply agrees_mono; [apply (gle_canon _ _ Hle)|]. by eauto.
    + destruct (inv_canon0 _ _ HG) as [? Hd].
      split; [by eapply agrees_mono; [apply (gle_canon _ _ Hle)|]|].
      destruct Hd as [|[w ?]]; [by left|right]. rewrite lookup_insert_ne by done. by eauto.
  - intros j x Hj. eapply agrees_mono; [apply (gle_canon _ _ Hle)|].
    destruct (lookup_update _ _ _ _ _ _ Hr Hj) as [[-> ->]|[? ?]]; simpl; eauto.
Qed.

(** ** A leader appends a command *)

Definition g_append (t : Z) l (g : ghost) : ghost :=
  mkGhost (voted g) (counted g) (won g) (<[t := l]> (canon g)).

Lemma inv_append n g rs nt i r r' cmd :
  inv n g rs nt -> rs !! i = Some r -> state r = Leader -> wf_raft n i r' ->
  log r' = log r ++ [mkLogEntry (currentTerm r) cmd] ->
  currentTerm r' = currentTerm r -> state r' = state r -> votedFor r' = votedFor r ->
  inv n (g_append (currentTerm r) (log r') g) (<[i := r']> rs) nt.
Proof.
  intros Hi Hr Hs Hw Hlog Et Es Ev. pose proof Hi as [].
  destruct (inv_leader0 _ _ Hr Hs) as [Hwon Hcn].
  destruct (agrees_append (canon g) (log r) (currentTerm r) cmd) as [Hle Hagr];
    [by eauto|done|]. rewrite <- Hlog in Hle, Hagr.
  assert (ghost_le g (g_append (currentTerm r) (log r') g)) as Hg by (by constructor).
  assert (<[i := r']> rs !! i = Some r') as Hri
    by (apply list_lookup_insert_eq; by eapply lookup_lt_Some).
  constructor; simpl; try done.
  - intros j x Hj. destruct (lookup_update _ _ _ _ _ _ Hr Hj) as [[-> ->]|[? ?]]; by eauto.
  - by rewrite length_insert.
  - intros j x Hj. destruct (lookup_update _ _ _ _ _ _ Hr Hj) as [[-> ->]|[? ?]];
      [rewrite Et, Es|]; by eauto.
  - intros j x Hj. destruct (lookup_update _ _ _ _ _ _ Hr Hj) as [[-> ->]|[? ?]];
      [rewrite Et, Ev|]; by eauto.
  - intros w t c Hw'. destruct (inv_voted_past0 _ _ _ Hw') as (x & Hx & Hcase).
    destruct (decide (w = i)) as [->|]; [|exists x; by rewrite list_lookup_insert_ne].
    exists r'. split; [done|]. simplify_eq. by rewrite Et, Ev.
  - intros j x Hj Hc. destruct (lookup_update _ _ _ _ _ _ Hr Hj) as [[-> ->]|[? Hj']]; [|by eauto].
    congruence.
  - eapply msgs_ok_mono; [done| |done]. eapply terms_le_insert; [done|lia].
  - intros t w Hw'. destruct (inv_won0 _ _ Hw') as (? & x & Hx & Hcase). split; [done|].
    destruct (decide (w = i)) as [->|]; [|exists x; by rewrite list_lookup_insert_ne].
    exists r'. split; [done|]. simplify_eq. by rewrite Et, Es.
  - intros j x Hj Hl. destruct (lookup_update _ _ _ _ _ _ Hr Hj) as [[-> ->]|[Hji Hj']].
    { by rewrite Et, lookup_insert_eq. }
    destruct (inv_leader0 _ _ Hj' Hl) as [Hwj Hcj].
    assert (currentTerm r <> currentTerm x) by congruence.
    by rewrite !lookup_insert_ne by done.
  - intros t G [[<- <-]|[Hne HG]]%lookup_insert_Some.
    + split; [done|]. right. by eauto.
    + destruct (inv_canon0 _ _ HG) as [? Hd]. split; [by eapply agrees_mono|done].
  - intros j x Hj. destruct (lookup_update _ _ _ _ _ _ Hr Hj) as [[-> ->]|[? ?]]; [done|].
    eapply agrees_mono; [done|]. by eauto.
Qed.

(** ** What the handlers of the log do *)

Lemma keeps_observe t r r' :
  currentTerm r <= t -> currentTerm r' = currentTerm (observe_term t r) ->
  state r' = state (observe_term t r) -> votedFor r' = votedFor (observe_term t r) ->
  votes r' = votes (observe_term t r) -> keeps r r'.
Proof.
  intros Ht. destruct (decide (currentTerm r < t)).
  - rewrite observe_term_newer by done. simpl. intros. left. split_and!; [lia|done|done].
  - rewrite observe_term_same by lia. intros. right. by auto.
Qed.

(** A leader never handles an AppendEntries of its own term: only it could
    have sent one, and it does not send to itself. *)
Lemma leader_no_peer_append n g rs nt src i a r ph :
  inv n g rs nt -> AE src i a ph ∈ nt -> rs !! i = Some r -> state r = Leader ->
  aea_Term a <> currentTerm r.
Proof.
  intros Hi Hin Hr Hs Et. pose proof Hi as [].
  assert (msg_ok g rs (AE src i a ph)) as (Hne & Hsrc & _)
    by (by eapply inv_msg).
  destruct (inv_leader0 _ _ Hr Hs) as [Hwon _].
  assert (1 <= currentTerm r) by (eapply inv_role0; [done|congruence]).
  destruct Hsrc as [[? _]|Hsrc]; [lia|]. rewrite Et in Hsrc. congruence.
Qed.

Lemma observed_not_leader n g rs nt src i a r ph :
  inv n g rs nt -> AE src i a ph ∈ nt -> rs !! i = Some r -> currentTerm r <= aea_Term a ->
  state (observe_term (aea_Term a) r) <> Leader.
Proof.
  intros Hi Hin Hr Hge Hl. destruct (decide (currentTerm r < aea_Term a)).
  - by rewrite observe_term_newer in Hl.
  - rewrite observe_term_same in Hl by lia.
    eapply leader_no_peer_append; [done|done|done|done|]. lia.
Qed.

Lemma inv_AppendEntries n g rs nt src i a r r' reply msgs :
  inv n g rs nt -> AE src i a Requested ∈ nt -> rs !! i = Some r ->
  wf_append a -> AppendEntries r a = Ok (r', reply, msgs) ->
  inv n g (<[i := r']> rs) nt.
Proof.
  intros Hi Hin Hr Hwa HR.
  assert (wf_raft n i r') as Hw'.
  { destruct (wf_AppendEntries n i r a) as (? & ? & ? & E & ?); [by eapply inv_wf|done|].
    rewrite HR in E. by simplify_eq. }
  pose proof (inv_logs _ _ _ _ Hi _ _ Hr) as Hagr.
  assert (msg_ok g rs (AE src i a Requested)) as (Hne & _ & HM).
  { by eapply inv_msg. }
  assert (forall x : Raft Cmd, state x = Leader -> state x = state (observe_term (aea_Term a) r) ->
    currentTerm r <= aea_Term a -> False) as Hnolead.
  { intros x Hl Hst Hge. eapply observed_not_leader; [done|done|done|done|congruence]. }
  apply AppendEntries_outcome in HR.
  destruct HR as [|Hge _|e Hge Hp0 He Hne'|e r' msgs Hge Hp0 He Heq l r1 HR].
  - by rewrite list_insert_id.
  - eapply inv_keep; [done|done|done| | |].
    + by eapply keeps_observe.
    + by rewrite observe_term_log.
    + intros. exfalso. by eapply Hnolead.
  - eapply inv_keep; [done|done|done| | |].
    + by eapply (keeps_observe (aea_Term a)).
    + simpl. by apply agrees_take.
    + intros. exfalso. by eapply Hnolead.
  - assert (agrees (canon g) l) as Hl.
    { destruct (decide (aea_Entries a = [])) as [E|E].
      - unfold l. rewrite E, app_nil_r. by apply agrees_take.
      - destruct (HM E) as (M & e' & HMa & Hp & Ht & Hd).
        unfold l. rewrite (agrees_accept (canon g) (log r) M
          (Z.to_nat (aea_PrevLogIndex a)) e e'); [done|done|done|done|done|congruence|done]. }
    assert (exists x y, r' = set_lastApplied x (set_commitIndex y r1)) as (x & y & ->).
    { destruct HR as [(_ & -> & _)|[_ HR]].
      - exists (lastApplied r1), (commitIndex r1). by destruct r1.
      - destruct (observe_term_static (aea_Term a) r) as (_ & _ & _ & Hla & _).
        apply applyCommitted_delivers in HR as [[x ->] _]; [by eauto| |simpl; fold l; lia].
        simpl. rewrite Hla. by destruct (inv_wf _ _ _ _ Hi _ _ Hr). }
    eapply inv_keep; [done|done|done| |done|].
    + by eapply (keeps_observe (aea_Term a)).
    + intros. exfalso. by eapply Hnolead.
Qed.

Lemma heartBeat_msg_ok n g rs nt i r p a :
  inv n g rs nt -> rs !! i = Some r -> state r = Leader -> p <> i ->
  heartBeatArgs r p = Ok a -> msg_ok g rs (AE i p a Requested).
Proof.
  intros Hi Hr Hs Hp Ha. pose proof (inv_wf _ _ _ _ Hi _ _ Hr) as Hw.
  destruct (inv_leader _ _ _ _ Hi _ _ Hr Hs) as [Hwon Hcn].
  pose proof (inv_logs _ _ _ _ Hi _ _ Hr) as Hagr.
  unfold heartBeatArgs in Ha. apply result_bind_Ok in Ha as (ni & _ & Ha).
  destruct (Z.ltb_spec ni (len (log r))).
  - apply result_bind_Ok in Ha as (e & [Hge He]%index_Ok & Ha).
    apply result_bind_Ok in Ha as (es & Hes & Ha). go_inv. simpl.
    split_and!; [done|by right|]. intros _. exists (log r), e. split_and!; [done|done|done|].
    rewrite slice_from_in_range in Hes by lia. go_inv. f_equal. lia.
  - apply result_bind_Ok in Ha as (e & _ & Ha). go_inv. simpl. by split_and!; [|right|].
Qed.

(** ** Steps of the cluster *)

Lemma inv_becomeCandidate n g rs nt i r r' calls :
  inv n g rs nt -> rs !! i = Some r -> becomeCandidate r = Ok (r', calls) ->
  inv n (g_campaign i (currentTerm r + 1) (g_vote i (currentTerm r + 1) i g))
    (<[i := r']> rs) (nt ++ rv_calls i calls).
Proof.
  intros Hi Hr HR. pose proof (inv_wf _ _ _ _ Hi _ _ Hr) as Hw.
  assert (forall v, (i, currentTerm r + 1, v) ∉ omap rv_key nt) as Hfresh.
  { intros v (m & Hm & Hkey)%list_elem_of_omap. destruct m as [src dst a ph|]; [|done].
    simpl in Hkey. simplify_eq.
    assert (msg_ok g rs (RV i v a ph)) as (_ & _ & (x & Hx & ?) & _)
      by (by eapply inv_msg).
    simplify_eq. lia. }
  set (r1 := becomeFollower (currentTerm r + 1) r).
  assert (inv n g (<[i := r1]> rs) nt) as Hi1.
  { eapply inv_keep; [done|done| | | |done].
    - apply wf_becomeFollower; [done|]. destruct Hw. lia.
    - left. simpl. split_and!; [lia|done|done].
    - exact (inv_logs _ _ _ _ Hi _ _ Hr). }
  assert (<[i := r1]> rs !! i = Some r1) as Hr1
    by (apply list_lookup_insert_eq; by eapply lookup_lt_Some).
  pose proof (inv_vote _ _ _ _ _ _ i Hi1 Hr1 ltac:(by left)) as Hi2.
  rewrite list_insert_insert_eq in Hi2. set (r2 := set_votedFor (Z.of_nat i) r1) in Hi2.
  assert (<[i := r2]> rs !! i = Some r2) as Hr2
    by (apply list_lookup_insert_eq; by eapply lookup_lt_Some).
  unfold becomeCandidate in HR. go_inv.
  eapply (inv_campaign _ _ _ _ _ r2) in Hi2.
  - rewrite list_insert_insert_eq in Hi2. simpl. rewrite (wf_me _ _ _ Hw).
    exact Hi2.
  - done.
  - done.
  - done.
  - simpl. destruct Hw. lia.
  - done.
  - done.
  - exact Hfresh.
Qed.

Lemma inv_RequestVote n g rs nt k src i a r r' reply :
  inv n g rs nt -> nt !! k = Some (RV src i a Requested) -> rs !! i = Some r ->
  RequestVote r a = Ok (r', reply) ->
  inv n (if rvr_VoteGranted reply then g_vote i (rva_Term a) src g else g)
    (<[i := r']> rs) (<[k := RV src i a (Blocked reply)]> nt).
Proof.
  intros Hi Hk Hr HR%RequestVote_outcome. pose proof (inv_wf _ _ _ _ Hi _ _ Hr) as Hw.
  assert (msg_ok g rs (RV src i a Requested)) as (Hne & Hid & Hterm & _)
    by (by eapply inv_msg_lookup).
  assert (currentTerm r <= rva_Term a -> inv n g (<[i := observe_term (rva_Term a) r]> rs) nt)
    as Hobs.
  { intros Hge. eapply inv_keep; [done|done| | | |].
    - unfold observe_term. destruct (_ <? _); [|done].
      apply wf_becomeFollower; [done|]. destruct Hw. lia.
    - by eapply keeps_observe.
    - rewrite observe_term_log. by eapply inv_logs.
    - by rewrite observe_term_log. }
  destruct HR as [|Hge|e Hge _ Hv _].
  - simpl. rewrite list_insert_id by done.
    eapply inv_net_phase; [done|done|done|]. by split_and!.
  - simpl. specialize (Hobs Hge). eapply inv_net_phase; [done|done|done|].
    assert (msg_ok g (<[i := observe_term (rva_Term a) r]> rs) (RV src i a Requested))
      as (? & ? & ? & ?) by (by eapply inv_msg_lookup).
    by split_and!.
  - specialize (Hobs Hge). set (r1 := observe_term (rva_Term a) r) in *.
    assert (<[i := r1]> rs !! i = Some r1) as Hr1
      by (apply list_lookup_insert_eq; by eapply lookup_lt_Some).
    assert (currentTerm r1 = rva_Term a) as Et by (by apply observe_term_currentTerm).
    rewrite Hid in Hv |- *.
    pose proof (inv_vote _ _ _ _ _ _ src Hobs Hr1 Hv) as Hi2.
    rewrite list_insert_insert_eq in Hi2.
    cbn [rvr_VoteGranted]. rewrite <- Et.
    eapply inv_net_phase; [exact Hi2|done|done|].
    assert (msg_ok (g_vote i (currentTerm r1) src g)
      (<[i := set_votedFor (Z.of_nat src) r1]> rs) (RV src i a Requested))
      as (? & ? & ? & ?) by (by eapply inv_msg_lookup).
    split_and!; [done|done|done|]. intros _. simpl. by rewrite Et, lookup_insert_eq.
Qed.

Lemma new_leader_msgs_ok g rs i ps :
  Forall (fun p => p <> i) ps ->
  Forall (msg_ok g rs) (ae_calls i ((fun p => (p, emptyAppendEntriesArgs)) <$> ps)).
Proof.
  intros Hps. unfold ae_calls. rewrite Forall_fmap, Forall_fmap.
  apply (Forall_impl _ _ _ Hps). intros p ?. simpl. split_and!; [done|by left|done].
Qed.

(** What the reply of voter [v] does to the history. *)
Definition reply_ghost (i v : nat) r (reply : RequestVoteReply) (g : ghost) : ghost :=
  if currentTerm r <? rvr_Term reply then g
  else if rvr_VoteGranted reply then
    let g := g_count i (currentTerm r) v g in
    if majority r (votes r + 1) && bool_decide (state r = Candidate)
    then g_win i (currentTerm r) (log r) g else g
  else g.

Lemma inv_sendRequestVote n g rs nt k i v a reply r r' calls :
  inv n g rs nt -> nt !! k = Some (RV i v a (Replied reply)) -> rs !! i = Some r ->
  (rvr_VoteGranted reply = true -> rva_Term a = currentTerm r) ->
  sendRequestVote r (Some reply) = (r', calls) ->
  won g ⊆ won (reply_ghost i v r reply g) /\
  inv n (reply_ghost i v r reply g) (<[i := r']> rs) (delete k nt ++ ae_calls i calls).
Proof.
  intros Hi Hk Hr Hfresh HR%sendRequestVote_outcome.
  pose proof (inv_wf _ _ _ _ Hi _ _ Hr) as Hw.
  destruct HR as [Hnew|? Hno|? Hg Hc|? Hg Hm Hc]; unfold reply_ghost;
    (destruct (Z.ltb_spec (currentTerm r) (rvr_Term reply)); [|try lia]); try lia;
    simpl; rewrite ?app_nil_r.
  - split; [done|]. apply inv_net_delete. eapply inv_keep; [done|done| | | |done].
    + apply wf_becomeFollower; [done|]. destruct Hw. lia.
    + left. by split_and!.
    + exact (inv_logs _ _ _ _ Hi _ _ Hr).
  - rewrite Hno, list_insert_id by done. split; [done|]. by apply inv_net_delete.
  - rewrite Hg. assert (majority r (votes r + 1) && bool_decide (state r = Candidate) = false)
      as ->. { destruct Hc as [->|Hc]; [done|]. by rewrite bool_decide_false, andb_false_r. }
    split; [done|]. eapply (inv_count _ _ _ _ k i v a (Replied reply)); try done. by apply Hfresh.
  - rewrite Hg, Hm, bool_decide_true by done. cbn [andb].
    assert (inv n (g_count i (currentTerm r) v g) (<[i := set_votes (votes r + 1) r]> rs)
      (delete k nt)) as Hi1 by (eapply inv_count; try done; by apply Hfresh).
    assert (<[i := set_votes (votes r + 1) r]> rs !! i = Some (set_votes (votes r + 1) r))
      as Hr1 by (apply list_lookup_insert_eq; by eapply lookup_lt_Some).
    split.
    { simpl. apply insert_subseteq. exact (proj1 (first_to_win _ _ _ _ _ _ Hi1 Hr1 Hc Hm)). }
    eapply inv_net_appends; [|apply new_leader_msgs_ok].
    + eapply inv_win in Hi1; [|done|done|done].
      rewrite list_insert_insert_eq in Hi1. exact Hi1.
    + apply Forall_forall. intros p [_ Hp]%elem_of_other_peers.
      by rewrite (wf_me _ _ _ Hw) in Hp.
Qed.

Lemma inv_sendAppendEntries n g rs nt i dst a reply r r' msgs :
  inv n g rs nt -> rs !! i = Some r -> (dst < n)%nat -> wf_append a ->
  sendAppendEntries r dst a (Some reply) = Ok (r', msgs) ->
  inv n g (<[i := r']> rs) nt.
Proof.
  intros Hi Hr Hd Ha HR. pose proof (inv_wf _ _ _ _ Hi _ _ Hr) as Hw.
  assert (wf_raft n i r') as Hw'.
  { destruct (wf_sendAppendEntries n i r dst a reply) as (? & ? & E & ?); [done..|].
    rewrite HR in E. by simplify_eq. }
  destruct (sendAppendEntries_keeps n i r dst a reply r' msgs) as [_ Hk]; [done..|].
  eapply inv_keep; [done|done|done| | |].
  - destruct Hk as [(? & ? & ? & ?)|(? & ? & ? & ? & ?)]; [left|right]; by auto.
  - assert (log r' = log r) as -> by naive_solver. by eapply inv_logs.
  - naive_solver.
Qed.

Lemma inv_sendHeartBeats n g rs nt i r calls :
  inv n g rs nt -> rs !! i = Some r -> sendHeartBeats r = Ok calls ->
  inv n g rs (nt ++ ae_calls i calls).
Proof.
  intros Hi Hr HR. apply inv_net_appends; [done|].
  unfold sendHeartBeats in HR. destruct (decide (state r <> Leader)) as [|Hs]; [by go_inv|].
  assert (state r = Leader) as Hs' by (by apply dec_stable).
  apply collect_Ok in HR. unfold ae_calls. rewrite Forall_fmap. apply Forall_forall.
  intros ca [q Hq]%list_elem_of_lookup.
  destruct (Forall2_lookup_r _ _ _ _ _ HR Hq) as (p & Hp & E).
  apply result_bind_Ok in E as (b & Hb & E). injection E as <-.
  eapply heartBeat_msg_ok; [done|done|done| |done].
  apply list_elem_of_lookup_2, elem_of_other_peers in Hp as [_ Hp].
  by rewrite (wf_me _ _ _ (inv_wf _ _ _ _ Hi _ _ Hr)) in Hp.
Qed.

Definition rafts (c : Cluster Cmd) : list (Raft Cmd) := rf <$> servers c.

Lemma rafts_put i s c nt : rafts (put i s c nt) = <[i := rf s]> (rafts c).
Proof. unfold rafts. simpl. by rewrite list_fmap_insert. Qed.

Lemma rafts_lookup c i s : servers c !! i = Some s -> rafts c !! i = Some (rf s).
Proof. unfold rafts. rewrite list_lookup_fmap. by intros ->. Qed.

(** One lemma per kind of step that runs a handler. *)
Lemma inv_request_step n c k c' g :
  wf_cluster n c -> inv n g (rafts c) (net c) -> step (HandleRequest k) c = Some (Ok c') ->
  exists g', won g ⊆ won g' /\ inv n g' (rafts c') (net c').
Proof.
  intros [_ _ Hnet] Hi Hst. cbn [step] in Hst.
  apply bind_Some in Hst as (m & Hm & Hst).
  apply bind_Some in Hst as (s & Hs%rafts_lookup & Hst).
  apply bind_Some in Hst as (x & Hx & Hst). go_inv. destruct a as [s' m']. go_inv.
  rewrite rafts_put. simpl.
  destruct m as [src dst a [| |]|src dst a [| |]]; cbn [handle_request rpc_dst] in *; go_inv.
  - destruct a0 as [r' reply]. go_inv. eexists.
    split; [|by eapply inv_RequestVote]. by destruct (rvr_VoteGranted reply).
  - destruct a0 as [[r' reply] msgs]. go_inv. exists g. split; [done|].
    assert (wf_rpc n (AE src dst a Requested)) as (_ & _ & Hwa)
      by (by eapply Forall_lookup_1 in Hnet).
    assert (inv n g (<[dst := r']> (rafts c)) (net c)) as Hi'.
    { eapply inv_AppendEntries; [done| |done|done|done]. by eapply list_elem_of_lookup_2. }
    eapply inv_net_phase; [done|done|done|].
    assert (msg_ok g (<[dst := r']> (rafts c)) (AE src dst a Requested))
      by (by eapply inv_msg_lookup).
    done.
Qed.

Lemma inv_reply_step n c k c' g :
  wf_cluster n c -> inv n g (rafts c) (net c) -> fresh_votes c (HandleReply k) = true ->
  step (HandleReply k) c = Some (Ok c') -> exists g', won g ⊆ won g' /\ inv n g' (rafts c') (net c').
Proof.
  intros [_ _ Hnet] Hi Hok Hst. cbn [step] in Hst. simpl in Hok.
  apply bind_Some in Hst as (m & Hm & Hst). rewrite Hm in Hok.
  apply bind_Some in Hst as (s & Hs & Hst). pose proof (rafts_lookup _ _ _ Hs) as Hr.
  apply bind_Some in Hst as (x & Hx & Hst). go_inv. destruct a as [s' calls]. go_inv.
  rewrite rafts_put. simpl.
  destruct m as [src dst a [| |reply]|src dst a [| |reply]];
    cbn [handle_reply rpc_src] in *; go_inv.
  - rewrite Hs in Hok.
    destruct (sendRequestVote (rf s) (Some reply)) as [r' cs] eqn:Er. go_inv.
    eexists. eapply inv_sendRequestVote; [done|done|done| |done].
    intros Hg. rewrite Hg in Hok. simpl in Hok. by zbool.
  - destruct a0 as [r' msgs]. go_inv. exists g. split; [done|]. rewrite app_nil_r. apply inv_net_delete.
    assert (wf_rpc n (AE src dst a (Replied reply))) as (_ & ? & Hwa)
      by (by eapply Forall_lookup_1 in Hnet).
    by eapply inv_sendAppendEntries.
Qed.

Lemma inv_start_step n c i cmd c' g :
  wf_cluster n c -> inv n g (rafts c) (net c) -> step (ClientStart i cmd) c = Some (Ok c') ->
  exists g', won g ⊆ won g' /\ inv n g' (rafts c') (net c').
Proof.
  intros [_ Hsrv _] Hi Hst. cbn [step] in Hst.
  apply bind_Some in Hst as (s & Hs & Hst). pose proof (rafts_lookup _ _ _ Hs) as Hr.
  go_inv. destruct a as [r' x]. go_inv. rewrite rafts_put. simpl.
  destruct (wf_Start n i (rf s) (Some cmd)) as (? & ? & E & Hw'); [by apply Hsrv|].
  rewrite Ha in E. injection E as <- <-.
  unfold Start in Ha. destruct (decide (state (rf s) <> Leader)) as [|Hl].
  { go_inv. exists g. split; [done|]. by rewrite list_insert_id. }
  assert (state (rf s) = Leader) as Hl' by (by apply dec_stable).
  go_inv. eexists. split; [|by eapply inv_append]. done.
Qed.

Lemma inv_step n c lb c' g :
  wf_cluster n c -> inv n g (rafts c) (net c) -> fresh_votes c lb = true ->
  step lb c = Some (Ok c') -> exists g', won g ⊆ won g' /\ inv n g' (rafts c') (net c').
Proof.
  intros Hw Hi Hok Hst.
  destruct lb as [i|i|i k|k|k|k|i cmd|i];
    [| | |by eapply inv_request_step|by eapply inv_reply_step| |by eapply inv_start_step|done];
    cbn [step] in Hst.
  - apply bind_Some in Hst as (s & Hs%rafts_lookup & Hst). case_decide; go_inv.
    exists g. split; [done|]. rewrite rafts_put. simpl. by rewrite list_insert_id.
  - apply bind_Some in Hst as (s & Hs%rafts_lookup & Hst).
    destruct (pc s) as [|read]; go_inv. destruct a as [s' calls]. go_inv. rewrite rafts_put.
    destruct read; simpl in Ha; go_inv; [|destruct a as [r' cs]; go_inv..]; simpl.
    + exists g. split; [done|]. rewrite list_insert_id by done. by eapply inv_sendHeartBeats.
    + eexists. split; [|by eapply inv_becomeCandidate]. done.
    + eexists. split; [|by eapply inv_becomeCandidate]. done.
  - apply bind_Some in Hst as (s & Hs%rafts_lookup & Hst).
    apply bind_Some in Hst as (m & Hm & Hst). destruct (pc s) as [|read]; [done|].
    apply bind_Some in Hst as (m' & Hm' & Hst). go_inv. exists g. split; [done|]. rewrite rafts_put. simpl.
    rewrite list_insert_id by done.
    assert (msg_ok g (rafts c) m) as Hmok by (by eapply inv_msg_lookup).
    eapply inv_net_phase; [done|done| |];
      destruct m as [src dst a [| |]|src dst a [| |]]; simpl in Hm'; try done;
      case_decide; by go_inv.
  - apply bind_Some in Hst as (m & Hm & Hst). destruct (droppable m); go_inv.
    exists g. split; [done|]. by apply inv_net_delete.
Qed.
End safety.
