(* ===== verification/RaftReplication.v ===== *)
(** * raft/raft.go: a leader brings a follower up to date

    [catchUp] composes the three pieces of code a heartbeat goes through,
    the arguments [sendHeartBeats] builds, the handler at the follower and
    the leader's treatment of the reply, and repeats until the follower
    accepts. *)

From Stdlib Require Import ZArith Lia.
From stdpp Require Import base numbers strings gmap list.
From S2P Require Import Prelude Persister RaftNode RaftNodeFacts RaftCluster RaftWf.
From S2P Require Import RaftHandlers.
Local Open Scope Z_scope.

Section replication.
Context {Cmd : Type}.
Implicit Types (L F : Raft Cmd).

Definition heartBeatRound (p : nat) L F : result (Raft Cmd * Raft Cmd * bool) :=
  args ← heartBeatArgs L p;
  '(F', reply, _) ← AppendEntries F args;
  '(L', _) ← sendAppendEntries L p args (Some reply);
  Ok (L', F', aer_Success reply).

(** At most [k] rounds. *)
Fixpoint catchUp (k : nat) (p : nat) L F : result (Raft Cmd * Raft Cmd) :=
  match k with
  | O => Panic OutOfFuel
  | S k =>
    '(L', F', ok) ← heartBeatRound p L F;
    if (ok : bool) then Ok (L', F') else catchUp k p L' F'
  end.

(** Entries of the same term at the same index end equal prefixes. *)
Definition logs_match (l l' : list (LogEntry Cmd)) : Prop :=
  forall k e e', l !! k = Some e -> l' !! k = Some e' -> le_Term e = le_Term e' ->
    take (S k) l = take (S k) l'.

Lemma logs_match_take l l' n : logs_match l l' -> logs_match l (take n l').
Proof.
  intros Hm k e e' He [He' Hlt]%lookup_take_Some Ht. rewrite (Hm k e e') by done.
  rewrite take_take. by replace (S k `min` n)%nat with (S k) by lia.
Qed.

(** The entry before [nextIndex], and the entries from it on. *)
Lemma heartBeatArgs_spec n i L p ni :
  wf_raft n i L -> nextIndex L !! p = Some ni -> 1 <= ni <= len (log L) ->
  exists e, log L !! Z.to_nat (ni - 1) = Some e /\
    heartBeatArgs L p = Ok (mkAppendEntriesArgs (currentTerm L) (Z.of_nat (me L)) (ni - 1)
      (le_Term e) (drop (Z.to_nat ni) (log L)) (commitIndex L)).
Proof.
  intros Hw Hni Hr. unfold heartBeatArgs.
  assert (index (nextIndex L) (Z.of_nat p) = Ok ni) as ->.
  { apply index_Ok. rewrite Nat2Z.id. split; [lia|done]. }
  go_run. destruct (index_in_range (log L) (ni - 1)) as [e He]; [lia|].
  exists e. split; [by apply index_Ok in He as [_ ?]|].
  destruct (Z.ltb_spec ni (len (log L))).
  - rewrite He. go_run. rewrite slice_from_in_range by lia. done.
  - assert (ni = len (log L)) as -> by lia. rewrite He. go_run.
    rewrite drop_ge; [done|]. unfold len. lia.
Qed.

Lemma sendAppendEntries_backoff L p a reply ni :
  state L = Leader -> aer_Term reply <= currentTerm L -> aer_Success reply = false ->
  nextIndex L !! p = Some ni -> 1 < ni ->
  sendAppendEntries L p a (Some reply)
    = Ok (set_nextIndex (<[p := Z.quot ni 2]> (nextIndex L)) L, []).
Proof.
  intros Hs Ht Hf Hni H1. unfold sendAppendEntries.
  rewrite decide_False by (by intros ?). destruct (Z.ltb_spec (currentTerm L) (aer_Term reply));
    [lia|]. rewrite Hf.
  assert (index (nextIndex L) (Z.of_nat p) = Ok ni) as ->.
  { apply index_Ok. rewrite Nat2Z.id. split; [lia|done]. }
  go_run. destruct (Z.ltb_spec 1 ni); [|lia].
  rewrite assign_in_range; [go_run; by rewrite Nat2Z.id|].
  apply lookup_lt_Some in Hni. unfold len. lia.
Qed.

(** What a leader and a follower have between two rounds: the leader's
    [nextIndex] for the follower is [ni]. *)
Record syncing (n i p : nat) (ni : Z) L F : Prop := {
  sy_leader : wf_raft n i L;
  sy_follower : wf_raft n p F;
  sy_role : state L = Leader;
  sy_term : currentTerm F <= currentTerm L;
  sy_next : nextIndex L !! p = Some ni;
  sy_range : 1 <= ni <= len (log L);
  sy_match : logs_match (log L) (log F);
}.

(** The follower refused: the leader halves [nextIndex]. *)
Lemma syncing_refused n i p ni L F F' a :
  syncing n i p ni L F -> 1 < ni -> wf_raft n p F' ->
  currentTerm F' = currentTerm L -> logs_match (log L) (log F') ->
  exists L', sendAppendEntries L p a (Some (mkAppendEntriesReply (currentTerm L) false))
               = Ok (L', []) /\
    log L' = log L /\ syncing n i p (Z.quot ni 2) L' F'.
Proof.
  intros [HwL _ Hs _ Hni Hr _] H1 HwF' Ht Hm.
  rewrite (sendAppendEntries_backoff _ _ _ _ ni) by done.
  eexists. split; [done|]. split; [done|].
  assert (1 <= Z.quot ni 2 <= ni).
  { split; [apply Z.quot_le_lower_bound; lia|].
    rewrite Z.quot_div_nonneg by lia. apply Z.div_le_upper_bound; lia. }
  constructor; simpl; try done; [|lia| |lia].
  - destruct HwL. constructor; simpl; try done. intros Hl.
    destruct (wf_leader Hl) as (? & ? & ?). rewrite length_insert. split_and!; try done.
    apply Forall_insert; [done|lia].
  - apply list_lookup_insert_eq. by eapply lookup_lt_Some.
Qed.

(** The follower's prefix before [ni] and the leader's entries from it on. *)
Lemma accepted_log (l l' : list (LogEntry Cmd)) ni e e' :
  logs_match l l' -> 1 <= ni -> l !! Z.to_nat (ni - 1) = Some e ->
  l' !! Z.to_nat (ni - 1) = Some e' -> le_Term e = le_Term e' ->
  take (S (Z.to_nat (ni - 1))) l' ++ drop (Z.to_nat ni) l = l.
Proof.
  intros Hm Hni He He' Et. rewrite <- (Hm _ e e' He He' Et).
  replace (S (Z.to_nat (ni - 1))) with (Z.to_nat ni) by lia. apply take_drop.
Qed.

(** One round: the follower accepts and has the leader's log, or it
    refuses. *)
Lemma heartBeatRound_spec n i p ni L F :
  syncing n i p ni L F ->
  (exists L' F', heartBeatRound p L F = Ok (L', F', true) /\
     log L' = log L /\ log F' = log L) \/
  (exists L' F', heartBeatRound p L F = Ok (L', F', false) /\
     log L' = log L /\ 1 < ni /\ syncing n i p (Z.quot ni 2) L' F').
Proof.
  intros Hsy. pose proof Hsy as [HwL HwF Hs Ht Hni Hr Hm]. unfold heartBeatRound.
  destruct (heartBeatArgs_spec n i L p ni HwL Hni Hr) as (e & He & ->). go_run.
  set (a := mkAppendEntriesArgs _ _ _ _ _ _).
  assert ((p < n)%nat) as Hp by (by destruct HwF).
  assert (wf_append a) as Hwa.
  { split; simpl; [lia|]. intros E. rewrite E in He. change (Z.to_nat 0) with 0%nat in He.
    destruct (wf_log0 _ _ _ HwL) as (e0 & ? & ? & _). congruence. }
  destruct (wf_AppendEntries n p F a) as (F' & reply & ms & HF & HwF'); [done..|].
  rewrite HF. go_run. apply AppendEntries_outcome in HF.
  destruct HF as [Hlt|Hge Hshort|e' Hge Hp0 He' Hne|e' F' ms Hge Hp0 He' Heq l r1 HR];
    [simpl in *; lia| | |].
  - right. change (aea_Term a) with (currentTerm L) in *.
    destruct (syncing_refused n i p ni L F (observe_term (currentTerm L) F) a)
      as (L' & -> & ? & ?); [done| |done| | |].
    + pose proof (wf_log_len _ (wf_log0 _ _ _ HwF)). simpl in Hshort. lia.
    + by apply observe_term_currentTerm.
    + by rewrite observe_term_log.
    + go_run. do 2 eexists. split; [done|]. split_and!; try done.
      pose proof (wf_log_len _ (wf_log0 _ _ _ HwF)). simpl in Hshort. lia.
  - assert (1 < ni) as Hni1.
    { destruct (decide (ni = 1)) as [E|]; [|lia]. simpl in He', Hne. rewrite E in He', He.
      change (Z.to_nat (1 - 1)) with 0%nat in He', He.
      destruct (wf_log0 _ _ _ HwL) as (x & ? & ? & _).
      destruct (wf_log0 _ _ _ HwF) as (y & ? & ? & _). simplify_eq. congruence. }
    right. change (aea_Term a) with (currentTerm L) in *.
    destruct (syncing_refused n i p ni L F
      (set_log (take (Z.to_nat (aea_PrevLogIndex a)) (log F)) (observe_term (currentTerm L) F)) a)
      as (L' & -> & ? & ?); [done|done|done| | |].
    + by apply observe_term_currentTerm.
    + by apply logs_match_take.
    + go_run. by do 2 eexists.
  - left. destruct (wf_sendAppendEntries n i L p a (mkAppendEntriesReply (aea_Term a) true))
      as (L' & ms' & HL & HwL'); [done..|].
    rewrite HL. go_run. do 2 eexists. split; [done|].
    destruct (sendAppendEntries_keeps n i L p a _ L' ms' HwL Hp Hwa HL) as [_ Hk].
    split; [naive_solver|].
    assert (log F' = l) as ->.
    { destruct HR as [(_ & -> & _)|[_ HR]]; [done|].
      destruct (observe_term_static (aea_Term a) F) as (_ & _ & _ & Hla & _).
      apply applyCommitted_delivers in HR as [[x ->] _]; [done| |simpl; fold l; lia].
      change (0 <= lastApplied (observe_term (aea_Term a) F)). rewrite Hla. by destruct HwF. }
    unfold l. simpl. simpl in He', Heq. apply (accepted_log _ _ ni e e'); [done|lia|done|done|done].
Qed.

(** [k] rounds are enough when [nextIndex] is below [2^k]. *)
Lemma catchUp_spec n i p k ni L F :
  syncing n i p ni L F -> ni < 2 ^ Z.of_nat k ->
  exists L' F', catchUp k p L F = Ok (L', F') /\ log L' = log L /\ log F' = log L.
Proof.
  revert ni L F. induction k as [|k IH]; intros ni L F Hsy Hk.
  { destruct Hsy. simpl in Hk. lia. }
  simpl. destruct (heartBeatRound_spec n i p ni L F Hsy)
    as [(L' & F' & -> & ? & ?)|(L' & F' & -> & E & ? & Hsy')]; go_run; [by eauto|].
  destruct (IH _ _ _ Hsy') as (L2 & F2 & -> & E2 & E3).
  - rewrite Z.quot_div_nonneg by lia. apply Z.div_lt_upper_bound; [lia|].
    rewrite Nat2Z.inj_succ, Z.pow_succ_r in Hk by lia. lia.
  - exists L2, F2. rewrite E2, E3. by rewrite E.
Qed.
End replication.
