(* ===== verification/RaftRuns.v ===== *)
(** * raft/raft.go: concrete executions

    A codec that makes the model of [RaftCluster] run, and schedules of a
    three-peer cluster; the witnesses and the executions of [RaftTheorems]
    are computed from them. *)

From Stdlib Require Import ZArith Lia Strings.Byte.
From stdpp Require Import base numbers strings countable gmap list.
From S2P Require Import Prelude Persister RaftNode RaftCluster.
Local Open Scope Z_scope.

(** ** A codec, to run the model

    [encoding/gob] is a parameter of the model; any injective encoding into
    bytes satisfies what the model asks of it. *)
Fixpoint pos_bytes (p : positive) : bytes :=
  match p with
  | xH => [x00]
  | xO p => x01 :: pos_bytes p
  | xI p => x02 :: pos_bytes p
  end.

Fixpoint bytes_pos (b : bytes) : option positive :=
  match b with
  | [x00] => Some xH
  | x01 :: b => xO <$> bytes_pos b
  | x02 :: b => xI <$> bytes_pos b
  | _ => None
  end.

Lemma bytes_pos_bytes p : bytes_pos (pos_bytes p) = Some p.
Proof.
  induction p as [p IH|p IH|]; simpl; [|by rewrite IH|done].
  rewrite IH. by destruct (pos_bytes p).
Qed.

Section countable_gob.
Context `{Countable Cmd}.

Definition gobval_to_sum (v : gobval Cmd) : list (Z * option Cmd) + Z :=
  match v with
  | GLog l => inl ((fun e => (le_Term e, le_Command e)) <$> l)
  | GInt z => inr z
  end.

Definition gobval_of_sum (v : list (Z * option Cmd) + Z) : gobval Cmd :=
  match v with
  | inl l => GLog ((fun e => mkLogEntry e.1 e.2) <$> l)
  | inr z => GInt z
  end.

Lemma gobval_of_to_sum v : gobval_of_sum (gobval_to_sum v) = v.
Proof.
  destruct v as [l|z]; simpl; [|done]. f_equal.
  rewrite <- list_fmap_compose. rewrite <- (list_fmap_id l) at 2.
  apply list_fmap_ext. by intros ? [] _.
Qed.

Program Definition countable_gob : Gob Cmd := {|
  gob_encode vs := pos_bytes (encode (map gobval_to_sum vs));
  gob_decode b := p ← bytes_pos b; vs ← decode p; Some (map gobval_of_sum vs);
|}.
Next Obligation.
  intros vs. simpl. rewrite bytes_pos_bytes. simpl. rewrite decode_encode. simpl.
  f_equal. rewrite map_map. rewrite <- (map_id vs) at 2.
  apply map_ext, gobval_of_to_sum.
Qed.
Next Obligation. intros v vs. simpl. by destruct (encode _). Qed.
End countable_gob.

#[export] Existing Instance countable_gob | 10.

Abbreviation Rlabel := (label Z).
Abbreviation Rcluster := (Cluster Z).

(** ** Schedules *)

(** A vote of term 1 reaches peer 0 after it has moved to term 2, where
    peer 2 was elected with the vote of peer 1. *)
Definition two_leaders_schedule : list Rlabel :=
  [ TickRead 0; TickTimeout 0; HandleRequest 0; TickRead 1; TickWake 1 0; Drop 1;
    TickRead 0; TickTimeout 0; Drop 2; Drop 1;
    TickRead 2; TickTimeout 2; Drop 2; Drop 1;
    TickRead 2; TickTimeout 2; HandleRequest 2; TickRead 1; TickWake 1 2; HandleReply 2;
    HandleReply 0 ].

(** Peer 0 is elected, replicates 100 and 200 on peer 1 and commits both;
    an AppendEntries with only 100 reaches peer 1 late and cuts 200 off;
    peer 1 is elected by peer 2 and commits 300 at the index of 200. *)
Definition stale_append_schedule : list Rlabel :=
  [ TickRead 0; TickTimeout 0; HandleRequest 0; TickRead 1; TickWake 1 0; HandleReply 0;
    Drop 0; Drop 0; Drop 0;
    ClientStart 0 100; TickRead 0; TickTimeout 0; Drop 1;
    ClientStart 0 200; TickRead 0; TickTimeout 0; Drop 2;
    HandleRequest 1; TickRead 1; TickWake 1 1; HandleReply 1;
    HandleRequest 0; TickRead 1; TickWake 1 0; Drop 0;
    TickRead 1; TickTimeout 1; HandleRequest 1; TickRead 2; TickWake 2 1; HandleReply 1;
    Drop 0; Drop 0; Drop 0;
    ClientStart 1 300; TickRead 1; TickTimeout 1; Drop 0; HandleRequest 0;
    TickRead 2; TickWake 2 0; HandleReply 0;
    TickRead 1; TickTimeout 1; Drop 0; HandleRequest 0; TickRead 2; TickWake 2 0; HandleReply 0 ].

(** Peer 1 grants its vote of term 1 to peer 0, crashes before its ticker
    persists the vote, and grants the same term to peer 2. *)
Definition double_vote_schedule : list Rlabel :=
  [ TickRead 0; TickTimeout 0; TickRead 1; HandleRequest 0; TickWake 1 0; HandleReply 0;
    Restart 1; TickRead 2; TickTimeout 2; HandleRequest 4; TickRead 1; TickWake 1 4;
    HandleReply 4 ].

(** Peer 0 is elected while its ticker waits as a candidate. *)
Definition elected_late_schedule : list Rlabel :=
  [ TickRead 0; TickTimeout 0; TickRead 0; HandleRequest 0; TickRead 1; TickWake 1 0;
    HandleReply 0 ].

(** An uneventful run: peer 0 is elected and replicates 7 on peer 1, which
    learns from the next heartbeat that it is committed. *)
Definition normal_schedule : list Rlabel :=
  [ TickRead 0; TickTimeout 0; HandleRequest 0; TickRead 1; TickWake 1 0; HandleReply 0;
    Drop 0; Drop 0; Drop 0;
    ClientStart 0 7; TickRead 0; TickTimeout 0; Drop 1;
    HandleRequest 0; TickRead 1; TickWake 1 0; HandleReply 0;
    TickRead 0; TickTimeout 0; Drop 1; HandleRequest 0; TickRead 1; TickWake 1 0;
    HandleReply 0 ].

Definition after (ok : restriction (Cmd := Z)) (ls : list Rlabel) : Rcluster :=
  match run ok ls (init 3) with Some (Ok c) => c | _ => init 3 end.

(** A schedule that runs to its end reaches the cluster it computes. *)
Lemma after_reach ok ls :
  is_Some (run ok ls (init 3)) -> reach 3 ok (after ok ls).
Proof.
  intros [[c|p] E]; unfold after; rewrite E; [by eapply run_init_reach|constructor].
Qed.

Definition normal : Rcluster := after fresh_votes normal_schedule.

Lemma normal_reach : reach 3 fresh_votes normal.
Proof. apply after_reach. eexists. vm_compute. reflexivity. Qed.
