(* ===== verification/RaftTheorems.v ===== *)
(** * raft/raft.go: the properties of the Raft component

    Each property is stated about the executable cluster of [RaftCluster] or
    the handlers of [RaftNode], with a concrete execution as its witness;
    the last group are executions that show where the code leaves the
    protocol it implements. *)

From Stdlib Require Import ZArith Lia.
From stdpp Require Import base numbers strings gmap list.
From S2P Require Import Prelude Persister RaftNode RaftNodeFacts RaftCluster RaftWf.
From S2P Require Import RaftHandlers RaftHistory RaftSafety RaftReplication RaftRuns.
Local Open Scope Z_scope.

Section theorems.
Context {Cmd : Type} `{Gob Cmd}.
Implicit Types (c : Cluster Cmd) (s : Server Cmd).

Definition ghost_init : ghost (Cmd := Cmd) :=
  mkGhost ∅ ∅ ∅ {[0 := [mkLogEntry 0 None]]}.

Lemma inv_init n : inv n ghost_init (rafts (init n)) [].
Proof.
  assert (forall i r, rafts (init (Cmd := Cmd) n) !! i = Some r -> (i < n)%nat /\ r = boot n i)
    as Hboot.
  { intros i r. unfold rafts. simpl. rewrite <- list_fmap_compose.
    intros (j & -> & [-> ?]%lookup_seq)%list_lookup_fmap_Some. by split; [lia|]. }
  assert (agrees (canon ghost_init) [mkLogEntry 0 None]) as Hag.
  { intros k e [-> <-]%list_lookup_singleton_Some. eexists. simpl.
    by rewrite lookup_singleton_eq. }
  constructor; simpl.
  - intros i r [? ->]%Hboot. by apply wf_boot.
  - unfold rafts. simpl. by rewrite !length_fmap, length_seq.
  - by intros i r [? ->]%Hboot.
  - by intros i r [? ->]%Hboot.
  - intros v t c. by rewrite lookup_empty.
  - by intros i r [? ->]%Hboot.
  - intros i t v. rewrite lookup_total_empty. set_solver.
  - constructor.
  - constructor.
  - intros t w. by rewrite lookup_empty.
  - by intros i r [? ->]%Hboot.
  - intros t G [<- <-]%lookup_singleton_Some. split; [done|by left].
  - by intros i r [? ->]%Hboot.
Qed.

Lemma reach_inv n c : reach n fresh_votes c -> exists g, inv n g (rafts c) (net c).
Proof.
  induction 1 as [|c lb c' Hr [g Hg] Hok Hst]; [eexists; apply inv_init|].
  destruct (inv_step n c lb c' g) as (g' & _ & ?); [by eapply wf_reach|done|done|done|by exists g'].
Qed.

(** C12: election safety.  In every execution without crashes in which each
    granted vote is counted in the term it was requested for, two peers
    that are leaders in the same term are the same peer. *)
Theorem election_safety n c i j s s' :
  reach n fresh_votes c ->
  servers c !! i = Some s -> servers c !! j = Some s' ->
  state (rf s) = Leader -> state (rf s') = Leader ->
  currentTerm (rf s) = currentTerm (rf s') -> i = j.
Proof.
  intros [g []]%reach_inv Hi%rafts_lookup Hj%rafts_lookup Hl Hl' Et.
  destruct (inv_leader _ _ Hi Hl) as [Hw _]. destruct (inv_leader _ _ Hj Hl') as [Hw' _].
  congruence.
Qed.

(** C15: log matching.  In executions without crashes in which each granted
    vote is counted in the term it was asked for, two logs that have an entry
    of the same term at the same index are equal up to that index. *)
Theorem log_matching n c i j s s' k e e' :
  reach n fresh_votes c ->
  servers c !! i = Some s -> servers c !! j = Some s' ->
  log (rf s) !! k = Some e -> log (rf s') !! k = Some e' -> le_Term e = le_Term e' ->
  take (S k) (log (rf s)) = take (S k) (log (rf s')).
Proof.
  intros [g []]%reach_inv Hi%rafts_lookup Hj%rafts_lookup He He' Et.
  by eapply agrees_match; eauto.
Qed.

(** C16: memory safety.  Whatever the scheduler, the network and crashes do,
    no handler, ticker iteration, restart or client call indexes a slice
    out of range, nor fails to decode its saved state, nor runs out of the
    fuel the model gives a loop. *)
Theorem no_panic n ok c lb p : reach n ok c -> step lb c <> Some (Panic p).
Proof.
  intros Hr%wf_reach Hst. by destruct (wf_step _ _ _ _ Hr Hst) as (? & ? & _).
Qed.

(** C22: a peer's history.  Along any crash-free execution from a reachable
    cluster, the term of a peer does not decrease, the vote it has cast in
    a term does not change, and the leader of a term stays its leader for
    as long as it is in that term. *)
Theorem peer_history n ok ls c c' i s :
  reach n ok c -> run crash_free ls c = Some (Ok c') -> servers c !! i = Some s ->
  exists s', servers c' !! i = Some s' /\
    currentTerm (rf s) <= currentTerm (rf s') /\
    (currentTerm (rf s') = currentTerm (rf s) ->
       (votedFor (rf s) <> -1 -> votedFor (rf s') = votedFor (rf s)) /\
       (state (rf s) = Leader -> state (rf s') = Leader)).
Proof.
  intros Hr%wf_reach Hrun Hi.
  destruct (run_evolves _ _ _ _ _ _ Hr Hrun Hi) as (s' & ? & ms & [] & _).
  exists s'. auto 10.
Qed.

(** C25: delivery.  What a peer has sent on [applyCh] since it started is
    the log indices 1, 2, ..., [lastApplied], each exactly once and in
    order, and every message is a valid command. *)
Theorem delivery_in_order n ok c i s :
  reach n ok c -> servers c !! i = Some s ->
  CommandIndex <$> applied s = seqZ 1 (lastApplied (rf s)) /\
  Forall (fun m => CommandValid m = true) (applied s).
Proof.
  intros Hr Hi. destruct (reach_delivered _ _ _ _ _ Hr Hi) as (? & E & ?). split; [|done].
  rewrite E. f_equal. lia.
Qed.

(** C28: replication converges.  A leader whose [nextIndex] for a follower
    is below 2^k brings the follower's log to equality with its own within
    k heartbeats, when the two logs satisfy log matching and the follower
    is not in a later term. *)
Theorem follower_catches_up n i p k ni (L F : Raft Cmd) :
  syncing n i p ni L F -> ni < 2 ^ Z.of_nat k ->
  exists L' F', catchUp k p L F = Ok (L', F') /\ log L' = log L /\ log F' = log L.
Proof. apply catchUp_spec. Qed.

(** The vote.  [RequestVote] grants exactly when the candidate's term
    is not behind, the voter has not voted for someone else in that term,
    and the candidate's last entry is not before the voter's; the vote is
    then recorded in the candidate's term. *)
Theorem request_vote_grants n i (r : Raft Cmd) a e :
  wf_raft n i r -> log r !! (length (log r) - 1)%nat = Some e ->
  exists r' reply, RequestVote r a = Ok (r', reply) /\ log r' = log r /\
    (rvr_VoteGranted reply = true <->
       currentTerm r <= rva_Term a /\
       (currentTerm r = rva_Term a ->
          votedFor r = -1 \/ votedFor r = rva_CandidateId a) /\
       last_le (le_Term e) (len (log r) - 1) (rva_LastLogTerm a) (rva_LastLogIndex a)) /\
    (rvr_VoteGranted reply = true ->
       votedFor r' = rva_CandidateId a /\ currentTerm r' = rva_Term a).
Proof.
  intros Hw He. destruct (wf_RequestVote n i r a Hw) as (r' & reply & HR & _).
  exists r', reply. split; [done|].
  assert (index (log r) (len (log r) - 1) = Ok e) as Hidx.
  { apply index_Ok. pose proof (wf_log_len _ (wf_log0 _ _ _ Hw)). split; [lia|].
    replace (Z.to_nat (len (log r) - 1)) with (length (log r) - 1)%nat; [done|].
    unfold len. lia. }
  unfold RequestVote in HR. rewrite <- candidateUpToDate_spec.
  destruct (Z.ltb_spec (rva_Term a) (currentTerm r)) as [Hlt|Hge].
  { go_inv. simpl. split_and!; [done| |done]. split; [done|]. lia. }
  destruct (Z.ltb_spec (currentTerm r) (rva_Term a)) as [Hnew|Hsame]; simpl in HR;
    rewrite Hidx in HR; simpl in HR.
  - destruct (candidateUpToDate a _ _) eqn:Hc; simpl in HR; go_inv; simpl;
      (split_and!; [done| |done]); split; [|done|done|naive_solver].
    intros _. split_and!; [lia|lia|done].
  - assert (currentTerm r = rva_Term a) as Et by lia.
    destruct ((votedFor r =? -1) || (votedFor r =? rva_CandidateId a)) eqn:Hv;
      [rewrite orb_true_iff, !Z.eqb_eq in Hv|rewrite orb_false_iff, !Z.eqb_neq in Hv];
      destruct (candidateUpToDate a _ _) eqn:Hc; simpl in HR; go_inv; simpl;
      (split_and!; [done| |done]); split; try done.
    + intros (_ & _ & ?). done.
    + intros (_ & Hl & _). specialize (Hl Et). lia.
    + intros (_ & Hl & _). specialize (Hl Et). lia.
Qed.

(** AppendEntries.  A request is accepted exactly when its term is not
    behind and the follower has the entry before the new ones; the log is
    then its prefix up to that entry followed by the new entries, and
    otherwise a prefix of what it was. *)
Theorem append_entries_accepts n i (r : Raft Cmd) a :
  wf_raft n i r -> wf_append a ->
  exists r' reply msgs, AppendEntries r a = Ok (r', reply, msgs) /\
    aer_Term reply = Z.max (currentTerm r) (aea_Term a) /\
    currentTerm r' = Z.max (currentTerm r) (aea_Term a) /\
    (aer_Success reply = true <->
       currentTerm r <= aea_Term a /\
       exists e, log r !! Z.to_nat (aea_PrevLogIndex a) = Some e /\
                 le_Term e = aea_PrevLogTerm a) /\
    (if aer_Success reply
     then log r' = take (S (Z.to_nat (aea_PrevLogIndex a))) (log r) ++ aea_Entries a
     else log r' `prefix_of` log r).
Proof.
  intros Hw Ha. destruct (wf_AppendEntries n i r a Hw Ha) as (r' & reply & msgs & HR & _).
  exists r', reply, msgs. split; [done|]. apply AppendEntries_outcome in HR.
  destruct HR as [Hlt|Hge Hs|e Hge Hp He Hne|e r' msgs Hge Hp He Heq l r1 HR]; simpl.
  - split_and!; [lia|lia| |done]. split; [done|]. lia.
  - rewrite observe_term_currentTerm, observe_term_log by done.
    split_and!; [lia|lia| |done]. split; [done|]. intros (_ & e & He & _).
    apply lookup_lt_Some in He. destruct Ha. unfold len in Hs. lia.
  - rewrite observe_term_currentTerm by done. split_and!; [lia|lia| |apply prefix_take].
    split; [done|]. intros (_ & e' & He' & ?). congruence.
  - assert (log r' = l /\ currentTerm r' = aea_Term a) as [-> ->].
    { destruct HR as [(_ & -> & _)|[_ HR]].
      - split; [done|]. by apply observe_term_currentTerm.
      - destruct (observe_term_static (aea_Term a) r) as (_ & _ & _ & Hla & _).
        apply applyCommitted_delivers in HR as [[x ->] _]; [| |simpl; fold l; lia].
        + split; [done|]. by apply observe_term_currentTerm.
        + simpl. rewrite Hla. by destruct Hw. }
    split_and!; [lia|lia| |done]. split; [|done]. intros _. split; [lia|]. by exists e.
Qed.

(** The commit rule.  When a leader learns that a follower stored its
    entries, it records so in [matchIndex] and [nextIndex], commits the
    greatest index at or above [commitIndex] whose entry is of its term
    and on a majority, and sends the newly committed entries to the
    service; without such an index only the bookkeeping changes. *)
Theorem leader_commits_majority n i (r : Raft Cmd) p a reply :
  wf_raft n i r -> wf_append a -> (p < n)%nat -> state r = Leader ->
  aer_Success reply = true -> aer_Term reply <= currentTerm r ->
  let m := len (aea_Entries a) + aea_PrevLogIndex a in
  let r1 := set_nextIndex (<[p := m + 1]> (nextIndex r))
              (set_matchIndex (<[p := m]> (matchIndex r)) r) in
  ((forall N, commitIndex r <= N < len (log r) -> ~ committable r1 N) /\
     sendAppendEntries r p a (Some reply) = Ok (r1, [])) \/
  (exists N, commitIndex r <= N < len (log r) /\ committable r1 N /\
     (forall N', N < N' < len (log r) -> ~ committable r1 N') /\
     sendAppendEntries r p a (Some reply) =
       Ok (set_lastApplied (Z.max (lastApplied r) N) (set_commitIndex N r1),
           entry_msgs (log r) (lastApplied r + 1) (Z.to_nat (N - lastApplied r)))).
Proof.
  intros Hw Ha Hp Hs Hok Ht m r1.
  assert (exists r' msgs, sendAppendEntries r p a (Some reply) = Ok (r', msgs))
    as (r' & msgs & HR) by (destruct (wf_sendAppendEntries n i r p a reply) as (?&?&?&?); eauto).
  assert (sendAppendEntries r p a (Some reply) = advanceCommit r1) as E.
  { pose proof (sendAppendEntries_outcome _ _ _ _ _ _ HR) as Ho.
    destruct Ho as [| | |r2 r' msgs _ _ _ -> Hadv]; [done|lia|congruence|].
    rewrite HR, <- Hadv, Hok. done. }
  rewrite E. destruct Hw.
  destruct (advanceCommit_spec r1) as [[Hno ->]|(N & HN & Hc & Hmax & ->)]; [done|done|by left|].
  right. exists N. split_and!; [apply HN|apply HN|done|done|].
  rewrite applyCommitted_spec; [done|done|]. simpl. apply HN.
Qed.

(** Recovery.  A peer restarted from what it last persisted has the
    log, term and vote it persisted, as a follower that has applied
    nothing. *)
Theorem restart_restores n i (r : Raft Cmd) ps :
  exists r', Make n i (Copy (persist r ps)) = Ok r' /\
    log r' = log r /\ currentTerm r' = currentTerm r /\ votedFor r' = votedFor r /\
    state r' = Follower /\ commitIndex r' = 0 /\ lastApplied r' = 0 /\ votes r' = 0.
Proof.
  unfold Make, persist, readPersist. rewrite ReadRaftState_Copy, ReadRaftState_Save.
  rewrite gob_roundtrip.
  destruct (gob_encode [GLog (log r); GInt (currentTerm r); GInt (votedFor r)]) as [|b bs] eqn:E.
  { by apply gob_nonempty in E. }
  destruct (Z.ltb_spec (len (b :: bs)) 1) as [Hlt|_].
  { rewrite len_cons in Hlt. pose proof (len_nonneg bs). lia. }
  eexists. split; [done|]. by split_and!.
Qed.
End theorems.


(** ** Witnesses

    Computed from the runs of [RaftRuns]. *)

Definition normal_server (i : nat) : Server Z :=
  default (mkServer (boot 3 i) Sleeping MakePersister []) (servers normal !! i).

Lemma election_safety_witness :
  exists s, servers normal !! 0%nat = Some s /\ state (rf s) = Leader /\ 0%nat = 0%nat.
Proof.
  exists (normal_server 0). split; [vm_compute; reflexivity|]. split; [vm_compute; reflexivity|].
  eapply (election_safety 3 normal 0 0 (normal_server 0) (normal_server 0));
    [apply normal_reach|vm_compute; reflexivity..].
Defined.

Lemma log_matching_witness :
  take 2 (log (rf (normal_server 0))) = take 2 (log (rf (normal_server 1))).
Proof.
  eapply (log_matching 3 normal 0 1); [apply normal_reach|vm_compute; reflexivity..].
Defined.

Lemma no_panic_witness : step (TickTimeout 0) normal <> Some (Panic OutOfFuel).
Proof. exact (no_panic 3 fresh_votes normal (TickTimeout 0) OutOfFuel normal_reach). Defined.

Lemma peer_history_witness :
  exists c' s', run crash_free normal_schedule (init 3) = Some (Ok c') /\
    servers c' !! 0%nat = Some s' /\ 0 <= currentTerm (rf s').
Proof.
  destruct (run crash_free normal_schedule (init 3)) as [[c'|]|] eqn:E;
    [|vm_compute in E; discriminate..].
  destruct (peer_history 3 crash_free normal_schedule (init 3) c' 0
    (mkServer (boot 3 0) Sleeping MakePersister [])) as (s' & Hs & Ht & _);
    [constructor|exact E|reflexivity|].
  exists c', s'. split; [reflexivity|]. split; [exact Hs|exact Ht].
Defined.

Lemma delivery_in_order_witness :
  exists s, servers normal !! 1%nat = Some s /\ lastApplied (rf s) = 1 /\
    CommandIndex <$> applied s = seqZ 1 1.
Proof.
  exists (normal_server 1). split; [vm_compute; reflexivity|]. split; [vm_compute; reflexivity|].
  destruct (delivery_in_order 3 fresh_votes normal 1 (normal_server 1)) as [E _];
    [apply normal_reach|vm_compute; reflexivity|].
  exact E.
Defined.

(** A leader of term 2 and a follower that missed its first entry and has one
    of a deposed leader. *)
Definition sync_leader : Raft Z :=
  mkRaft 3 0 false Leader 2 2 0 [mkLogEntry 0 None; mkLogEntry 1 (Some 5); mkLogEntry 2 (Some 6)]
    0 0 [3; 3; 3] [2; 0; 0].
Definition sync_follower : Raft Z :=
  mkRaft 3 1 false Follower 0 1 (-1) [mkLogEntry 0 None; mkLogEntry 1 (Some 5);
    mkLogEntry 1 (Some 9)] 0 0 [] [].

Lemma sync_example : syncing 3 0 1 3 sync_leader sync_follower.
Proof.
  constructor; [constructor|constructor|..]; simpl; try done; try lia.
  - by eexists.
  - intros _. split_and!; [done|done|]. repeat constructor; lia.
  - by eexists.
  - intros [|[|[|k]]] e e' ? ?; simplify_eq/=; try done.
Qed.

Lemma follower_catches_up_witness :
  exists L' F', catchUp 2 1 sync_leader sync_follower = Ok (L', F') /\
    log L' = log sync_leader /\ log F' = log sync_leader.
Proof.
  apply (follower_catches_up 3 0 1 2 3); [exact sync_example|reflexivity].
Defined.

Lemma request_vote_grants_witness :
  exists r' reply,
    RequestVote sync_follower (mkRequestVoteArgs 2 0 2 2) = Ok (r', reply) /\
    rvr_VoteGranted reply = true.
Proof.
  destruct (request_vote_grants 3 1 sync_follower (mkRequestVoteArgs 2 0 2 2)
    (mkLogEntry 1 (Some 9))) as (r' & reply & E & _ & Hg & _);
    [apply sync_example|reflexivity|].
  exists r', reply. split; [exact E|]. apply Hg. simpl. unfold last_le. simpl. lia.
Defined.

Lemma append_entries_accepts_witness :
  exists r' reply msgs, AppendEntries sync_follower
      (mkAppendEntriesArgs 2 0 1 1 [mkLogEntry 2 (Some 6)] 0) = Ok (r', reply, msgs) /\
    aer_Success reply = true.
Proof.
  destruct (append_entries_accepts 3 1 sync_follower
    (mkAppendEntriesArgs 2 0 1 1 [mkLogEntry 2 (Some 6)] 0))
    as (r' & reply & msgs & E & _ & _ & Hs & _);
    [apply sync_example|split; [simpl; lia|discriminate]|].
  exists r', reply, msgs. split; [exact E|]. apply Hs. simpl. split; [lia|]. eexists.
  by split.
Defined.

Lemma leader_commits_majority_witness :
  exists r' msgs, sendAppendEntries sync_leader 1
    (mkAppendEntriesArgs 2 0 1 1 [mkLogEntry 2 (Some 6)] 0)
    (Some (mkAppendEntriesReply 2 true)) = Ok (r', msgs).
Proof.
  destruct (leader_commits_majority 3 0 sync_leader 1
    (mkAppendEntriesArgs 2 0 1 1 [mkLogEntry 2 (Some 6)] 0) (mkAppendEntriesReply 2 true))
    as [[_ E]|(N & _ & _ & _ & E)];
    [apply sync_example|split; [simpl; lia|discriminate]|lia|reflexivity|reflexivity
    |simpl; lia| |]; eexists _, _; exact E.
Defined.

(** ** Where the code leaves the protocol *)

(** [sendRequestVote] counts a granted vote without comparing the term
    it was granted in with the current one: without any crash, two peers
    are leaders of the same term. *)
Theorem stale_vote_two_leaders :
  exists (c : Rcluster) s s', reach 3 crash_free c /\
    servers c !! 0%nat = Some s /\ servers c !! 2%nat = Some s' /\
    state (rf s) = Leader /\ state (rf s') = Leader /\
    currentTerm (rf s) = currentTerm (rf s').
Proof.
  exists (after crash_free two_leaders_schedule). eexists _, _.
  split; [apply after_reach; eexists; vm_compute; reflexivity|].
  split_and!; vm_compute; reflexivity.
Qed.

(** [AppendEntries] cuts the log after [PrevLogIndex] even when the
    entries there match: a delayed request removes a committed entry, and
    without crashes and with every vote counted in its term two peers apply
    different commands at the same index. *)
Theorem stale_append_diverges :
  exists (c : Rcluster) s s' m m', reach 3 fresh_votes c /\
    servers c !! 0%nat = Some s /\ servers c !! 1%nat = Some s' /\
    m ∈ applied s /\ m' ∈ applied s' /\
    CommandIndex m = CommandIndex m' /\ am_Command m <> am_Command m'.
Proof.
  exists (after fresh_votes stale_append_schedule). eexists _, _.
  exists (mkApplyMsg true (Some 200) 2), (mkApplyMsg true (Some 300) 2).
  split; [apply after_reach; eexists; vm_compute; reflexivity|].
  split; [vm_compute; reflexivity|]. split; [vm_compute; reflexivity|].
  split_and!; [|..|done|done];
    apply list_elem_of_lookup; exists 1%nat; vm_compute; reflexivity.
Qed.

(** The vote a peer casts is persisted only by the next iteration of its
    ticker: a peer that crashes in between votes again in the same term, and
    two peers are leaders of term 1. *)
Theorem unsaved_vote_two_leaders :
  exists (c : Rcluster) s s', reach 3 any_label c /\
    servers c !! 0%nat = Some s /\ servers c !! 2%nat = Some s' /\
    state (rf s) = Leader /\ state (rf s') = Leader /\
    currentTerm (rf s) = 1 /\ currentTerm (rf s') = 1.
Proof.
  exists (after any_label double_vote_schedule). eexists _, _.
  split; [apply after_reach; eexists; vm_compute; reflexivity|].
  split_and!; vm_compute; reflexivity.
Qed.

(** The ticker acts on the role it read before it waited: a peer elected
    while its ticker waits as a candidate deposes itself and starts the
    next election although no other peer is ahead of it. *)
Theorem elected_leader_deposes_itself :
  exists (c c' : Rcluster) s s', reach 3 fresh_votes c /\ servers c !! 0%nat = Some s /\
    state (rf s) = Leader /\ currentTerm (rf s) = 1 /\
    step (TickTimeout 0) c = Some (Ok c') /\ servers c' !! 0%nat = Some s' /\
    state (rf s') = Candidate /\ currentTerm (rf s') = 2.
Proof.
  exists (after fresh_votes elected_late_schedule). eexists _, _, _.
  split; [apply after_reach; eexists; vm_compute; reflexivity|].
  split_and!; vm_compute; reflexivity.
Qed.
