(* ===== verification/RaftCommit.v ===== *)
(** * raft/raft.go: what it means that an entry is committed

    The ghost history behind state machine safety: the log each peer last
    acknowledged in each term, the log each candidate campaigned with and
    the log each leader was elected with.  A prefix of a leader's log whose
    last entry is of its term is committed once a majority has acknowledged
    it; the facts of this file make every later leader's log contain it. *)

From Stdlib Require Import ZArith Lia.
From stdpp Require Import base numbers strings gmap list fin_sets.
From S2P Require Import Prelude Persister RaftNode RaftNodeFacts RaftCluster RaftWf.
From S2P Require Import RaftHandlers RaftHistory RaftSafety.
Local Open Scope Z_scope.

Section commit.
Context {Cmd : Type} `{Gob Cmd}.
Abbreviation Log := (list (LogEntry Cmd)).
Implicit Types (r : Raft Cmd) (l A P e G : Log) (vt : gmap (nat * Z) nat).

Record hist := mkHist {
  acks : gmap (nat * Z) Log;    (* (peer, term) -> its log when it last acknowledged *)
  clog : gmap (nat * Z) Log;    (* (candidate, term) -> its log when it campaigned *)
  elog : gmap Z Log;            (* term -> the log its leader was elected with *)
}.

Definition terms_below (t : Z) l : Prop := forall x, x ∈ l -> le_Term x <= t.

(** The comparison [RequestVote] makes, on whole logs. *)
Definition up_to_date l l' : Prop :=
  exists x y, last l = Some x /\ last l' = Some y /\
    last_le (le_Term y) (len l' - 1) (le_Term x) (len l - 1).

Definition peers_in (n : nat) (Q : gset nat) : Prop :=
  (forall v, v ∈ Q -> (v < n)%nat) /\ (n < 2 * size Q)%nat.

Definition acked h v T P : Prop :=
  exists A, acks h !! (v, T) = Some A /\ P `prefix_of` A.

Definition committed n h T P : Prop :=
  (exists x, last P = Some x /\ le_Term x = T) /\
  exists Q, peers_in n Q /\ forall v, v ∈ Q -> acked h v T P.

(** The leaders of the terms after [T] up to [U] were elected with [P]. *)
Definition kept_until h T U P : Prop :=
  forall U' e, elog h !! U' = Some e -> T < U' <= U -> P `prefix_of` e.

(** What voter [v] guarantees to the candidate with log [lc] of term [U]. *)
Definition vouches cn h v T U lc : Prop :=
  forall A P, acks h !! (v, T) = Some A -> P `prefix_of` A -> kept_until h T (U - 1) P ->
    exists l, P `prefix_of` l /\ up_to_date lc l /\ agrees cn l.

(** The same while the term may already have a leader. *)
Definition promises cn h v T U lc : Prop :=
  forall A P, acks h !! (v, T) = Some A -> P `prefix_of` A -> kept_until h T U P ->
    exists l, P `prefix_of` l /\ up_to_date lc l /\ agrees cn l.

Record hist_ok n vt cn h : Prop := {
  ho_acks : forall v T A, acks h !! (v, T) = Some A ->
    (v < n)%nat /\ exists G, cn !! T = Some G /\ A `prefix_of` G;
  ho_elog : forall U e, elog h !! U = Some e ->
    1 <= U /\ terms_below (U - 1) e /\ exists G, cn !! U = Some G /\ e `prefix_of` G /\
      (forall k x, G !! k = Some x -> (length e <= k)%nat -> le_Term x = U);
  ho_canon : forall t G, cn !! t = Some G ->
    agrees cn G /\ terms_below t G /\ (t = 0 \/ is_Some (elog h !! t));
  ho_zero : cn !! 0 = Some [mkLogEntry 0 None];
  ho_voted : forall v U c, vt !! (v, U) = Some c ->
    exists lc, clog h !! (c, U) = Some lc /\ forall T, T < U -> promises cn h v T U lc;
  ho_elect : forall U e, elog h !! U = Some e ->
    exists Q, peers_in n Q /\ forall v, v ∈ Q ->
      is_Some (vt !! (v, U)) /\ forall T, T < U -> vouches cn h v T U e;
}.

(** ** Majorities *)

Lemma peers_in_meet n Q Q' : peers_in n Q -> peers_in n Q' -> exists v, v ∈ Q /\ v ∈ Q'.
Proof.
  intros [H1 S1] [H2 S2]. destruct (decide (Q ∩ Q' = ∅)) as [E|Hne%set_choose_L].
  - exfalso. assert (size (Q ∪ Q') <= size (list_to_set (seq 0 n) : gset nat))%nat as Hle.
    { apply subseteq_size. intros v [Hv%H1|Hv%H2]%elem_of_union;
        apply elem_of_list_to_set, elem_of_seq; lia. }
    rewrite size_list_to_set, length_seq in Hle by apply NoDup_seq.
    rewrite size_union in Hle by set_solver. lia.
  - destruct Hne as [v Hv]. exists v. set_solver.
Qed.

(** The votes of a quorum come from a majority. *)
Lemma quorum_peers_in n vt t w : quorum n vt t w -> peers_in n (voters n vt t w).
Proof.
  intros Hq. split; [|done]. intros v [_ Hv]%elem_of_filter.
  apply elem_of_list_to_set, elem_of_seq in Hv. lia.
Qed.

(** ** Agreeing logs *)

Lemma last_lookup' l x : last l = Some x -> l !! (length l - 1)%nat = Some x.
Proof. rewrite last_lookup. by replace (pred (length l)) with (length l - 1)%nat by lia. Qed.

(** An agreeing log is a prefix of the log of its last entry's term. *)
Lemma agrees_last cn l x :
  agrees cn l -> last l = Some x -> exists G, cn !! le_Term x = Some G /\ l `prefix_of` G.
Proof.
  intros Ha Hl%last_lookup'. destruct (Ha _ _ Hl) as (G & HG & E). exists G. split; [done|].
  apply lookup_lt_Some in Hl as Hlt.
  replace (S (length l - 1)) with (length l) in E by lia.
  rewrite firstn_all in E. rewrite E. apply prefix_take.
Qed.

Lemma agrees_prefix cn l l' : agrees cn l' -> l `prefix_of` l' -> agrees cn l.
Proof.
  intros Ha [k ->]. apply (agrees_take _ _ (length l)) in Ha.
  by rewrite take_app_length in Ha.
Qed.

Lemma prefix_by_length l l' G :
  l `prefix_of` G -> l' `prefix_of` G -> (length l <= length l')%nat -> l `prefix_of` l'.
Proof.
  intros H1 H2 Hlen. destruct (prefix_weak_total _ _ _ H1 H2) as [|Hp]; [done|].
  by rewrite (prefix_length_eq _ _ Hp Hlen).
Qed.

Lemma prefix_elem l l' x : l `prefix_of` l' -> x ∈ l -> x ∈ l'.
Proof. intros [k ->] ?. apply elem_of_app. by left. Qed.

Lemma terms_below_prefix t l l' : l `prefix_of` l' -> terms_below t l' -> terms_below t l.
Proof. intros Hp Ht x Hx. apply Ht. by eapply prefix_elem. Qed.

Lemma last_elem l x : last l = Some x -> x ∈ l.
Proof. intros Hl%last_lookup'. by eapply list_elem_of_lookup_2. Qed.

(** ** Leader completeness *)

Section completeness.
Context (n : nat) (vt : gmap (nat * Z) nat) (cn : gmap Z Log) (h : hist).
Hypothesis Hok : hist_ok n vt cn h.

(** A log that is at least as up to date as one that contains a committed
    prefix contains it too, when the leaders of the terms in between do. *)
Lemma up_to_date_contains T U P l lc x :
  last P = Some x -> le_Term x = T -> P `prefix_of` l -> up_to_date lc l ->
  agrees cn l -> agrees cn lc -> terms_below (U - 1) lc -> kept_until h T (U - 1) P -> 0 <= T ->
  P `prefix_of` lc.
Proof.
  intros Hx Ht Hp (a & b & Ha & Hb & Hle) Hal Halc Hbelow Hkept H0.
  destruct (agrees_last _ _ _ Hal Hb) as (Gb & HGb & Hlb).
  destruct (agrees_last _ _ _ Halc Ha) as (Ga & HGa & Hla).
  assert (T <= le_Term b) as HTb.
  { destruct (ho_canon _ _ _ _ Hok _ _ HGb) as (_ & Hb' & _). rewrite <- Ht. apply Hb'.
    eapply prefix_elem; [exact Hlb|]. eapply prefix_elem; [exact Hp|]. by apply last_elem. }
  destruct Hle as [Hlt|[Heq Hlen]].
  - destruct (ho_canon _ _ _ _ Hok _ _ HGa) as (_ & _ & [?|[e He]]); [lia|].
    destruct (ho_elog _ _ _ _ Hok _ _ He) as (_ & Hbe & G & HG & HeG & _). simplify_eq.
    assert (le_Term a <= U - 1) by (apply Hbelow; by apply last_elem).
    transitivity e; [apply (Hkept _ _ He); lia|].
    eapply prefix_by_length; [done|done|].
    destruct (decide (length e <= length lc)%nat) as [|Hgt]; [done|]. exfalso.
    assert (lc `prefix_of` e) as Hlce by (eapply prefix_by_length; [done|done|lia]).
    assert (le_Term a <= le_Term a - 1); [|lia]. apply Hbe.
    eapply prefix_elem; [exact Hlce|]. by apply last_elem.
  - rewrite Heq in HGb. simplify_eq. transitivity l; [done|].
    eapply prefix_by_length; [done|done|]. unfold len in Hlen. lia.
Qed.

(** A prefix committed in term [T] is in the log every later leader was
    elected with. *)
Lemma leader_completeness_below (k : nat) T P :
  0 <= T -> committed n h T P -> forall U e, elog h !! U = Some e -> T < U ->
  U <= T + Z.of_nat k -> P `prefix_of` e.
Proof.
  intros H0 Hc. pose proof Hc as ((x & Hx & Ht) & Q & HQ & Hack).
  induction k as [|k IH]; intros U e He HTU Hk; [lia|].
  destruct (ho_elect _ _ _ _ Hok _ _ He) as (Q' & HQ' & Hv).
  destruct (peers_in_meet _ _ _ HQ HQ') as (v & Hv1 & Hv2).
  destruct (Hack _ Hv1) as (A & HA & HP). destruct (Hv _ Hv2) as [_ Hvouch].
  assert (kept_until h T (U - 1) P) as Hkept.
  { intros U' e' He' HU'. eapply IH; [done|lia|lia]. }
  destruct (Hvouch T HTU A P HA HP Hkept) as (l & Hpl & Hup & Hag).
  destruct (ho_elog _ _ _ _ Hok _ _ He) as (_ & Hbelow & G & HG & HeG & _).
  eapply (up_to_date_contains T U P l e); try done.
  eapply agrees_prefix; [|done]. by destruct (ho_canon _ _ _ _ Hok _ _ HG).
Qed.

Lemma leader_completeness T P U e :
  0 <= T -> committed n h T P -> elog h !! U = Some e -> T < U -> P `prefix_of` e.
Proof.
  intros H0 Hc He HTU. eapply (leader_completeness_below (Z.to_nat (U - T))); [done..|lia].
Qed.

Lemma committed_canon T P :
  committed n h T P -> exists G, cn !! T = Some G /\ P `prefix_of` G.
Proof.
  intros (_ & Q & HQ & Hack).
  destruct (peers_in_meet _ _ _ HQ HQ) as (v & Hv & _).
  destruct (Hack v Hv) as (A & HA & HP).
  destruct (ho_acks _ _ _ _ Hok _ _ _ HA) as (_ & G & HG & HAG).
  exists G. split; [done|]. by transitivity A.
Qed.

(** Committed prefixes form a chain. *)
Lemma committed_chain T T' P P' :
  0 <= T -> 0 <= T' -> committed n h T P -> committed n h T' P' ->
  P `prefix_of` P' \/ P' `prefix_of` P.
Proof.
  assert (forall T T' P P', 0 <= T -> T <= T' -> committed n h T P -> committed n h T' P' ->
    P `prefix_of` P' \/ P' `prefix_of` P) as Hwlog.
  { clear T T' P P'. intros T T' P P' H0 Hle Hc Hc'.
    destruct (committed_canon _ _ Hc) as (G & HG & HP).
    destruct (committed_canon _ _ Hc') as (G' & HG' & HP').
    destruct (decide (T = T')) as [->|].
    - simplify_eq. by eapply prefix_weak_total.
    - destruct (ho_canon _ _ _ _ Hok _ _ HG') as (_ & _ & [?|[e He]]); [lia|].
      destruct (ho_elog _ _ _ _ Hok _ _ He) as (_ & _ & G2 & HG2 & HeG & _). simplify_eq.
      eapply prefix_weak_total; [|exact HP']. transitivity e; [|done].
      eapply leader_completeness; [done|done|done|lia]. }
  intros. destruct (decide (T <= T')); [by apply (Hwlog T T')|].
  destruct (Hwlog T' T P' P); [done|lia|done|done|by right|by left].
Qed.
End completeness.
End commit.

Arguments hist : clear implicits.
