(* ===== verification/RaftCommitHist.v ===== *)
(** * raft/raft.go: how the history of acknowledgements grows

    One update of the ghost history of [RaftCommit] per kind of step, and
    that each preserves its invariant [hist_ok]. *)

From Stdlib Require Import ZArith Lia.
From stdpp Require Import base numbers strings gmap list fin_sets.
From S2P Require Import Prelude Persister RaftNode RaftNodeFacts RaftCluster RaftWf.
From S2P Require Import RaftHandlers RaftHistory RaftSafety RaftCommit.
Local Open Scope Z_scope.

Section updates.
Context {Cmd : Type} `{Gob Cmd}.
Abbreviation Log := (list (LogEntry Cmd)).
Implicit Types (l A P e G : Log) (vt : gmap (nat * Z) nat) (cn : gmap Z Log) (h : hist Cmd).

Definition h_ack (v : nat) (T : Z) A h : hist Cmd :=
  mkHist (<[(v, T) := A]> (acks h)) (clog h) (elog h).
Definition h_campaign (c : nat) (U : Z) l h : hist Cmd :=
  mkHist (acks h) (<[(c, U) := l]> (clog h)) (elog h).
Definition h_elect (U : Z) l h : hist Cmd :=
  mkHist (acks h) (clog h) (<[U := l]> (elog h)).

(** ** Monotonicity *)

Record hist_le h h' : Prop := {
  hle_acks : forall v T A, acks h !! (v, T) = Some A ->
    exists A', acks h' !! (v, T) = Some A' /\ A `prefix_of` A';
  hle_clog : clog h ⊆ clog h';
  hle_elog : elog h ⊆ elog h';
}.

#[export] Instance hist_le_po : PreOrder hist_le.
Proof.
  split.
  - intros h. constructor; [by eauto|done|done].
  - intros h1 h2 h3 [A1 B1 C1] [A2 B2 C2]. constructor; [|by etransitivity..].
    intros v T A (A' & HA' & ?)%A1. destruct (A2 _ _ _ HA') as (A'' & ? & ?).
    exists A''. split; [done|]. by etransitivity.
Qed.

Lemma acked_mono h h' v T P : hist_le h h' -> acked h v T P -> acked h' v T P.
Proof.
  intros Hle (A & HA & ?). destruct (hle_acks _ _ Hle _ _ _ HA) as (A' & ? & ?).
  exists A'. split; [done|]. by etransitivity.
Qed.

Lemma committed_mono n h h' T P : hist_le h h' -> committed n h T P -> committed n h' T P.
Proof.
  intros Hle (? & Q & ? & Hv). split; [done|]. exists Q. split; [done|].
  intros v ?. eapply acked_mono; [done|]. by apply Hv.
Qed.

Lemma kept_until_anti h h' T U P :
  elog h ⊆ elog h' -> kept_until h' T U P -> kept_until h T U P.
Proof. intros Hsub Hk U' e He. apply Hk. by eapply lookup_weaken. Qed.

Lemma kept_until_le h T U U' P : U <= U' -> kept_until h T U' P -> kept_until h T U P.
Proof. intros Hle Hk V e He ?. eapply Hk; [done|lia]. Qed.

Lemma hist_le_ack h v T A :
  (forall A', acks h !! (v, T) = Some A' -> A' `prefix_of` A) -> hist_le h (h_ack v T A h).
Proof.
  intros Hp. constructor; simpl; [|done|done]. intros w T' B HB.
  destruct (decide ((w, T') = (v, T))) as [[= -> ->]|Hne].
  - exists A. rewrite lookup_insert_eq. auto.
  - exists B. by rewrite lookup_insert_ne.
Qed.

Lemma hist_le_campaign h c U l : clog h !! (c, U) = None -> hist_le h (h_campaign c U l h).
Proof. intros. constructor; simpl; [by eauto|by apply insert_subseteq|done]. Qed.

Lemma hist_le_elect h U l : elog h !! U = None -> hist_le h (h_elect U l h).
Proof. intros. constructor; simpl; [by eauto|done|by apply insert_subseteq]. Qed.

(** ** Preservation *)

Lemma promises_mono cn cn' h h' v T U lc :
  canon_le cn cn' -> elog h ⊆ elog h' -> acks h' !! (v, T) = acks h !! (v, T) ->
  promises cn h v T U lc -> promises cn' h' v T U lc.
Proof.
  intros Hcn Hel Ha Hp A P HA HP Hk. rewrite Ha in HA.
  destruct (Hp A P HA HP) as (l & ? & ? & ?); [by eapply kept_until_anti|].
  exists l. split_and!; [done|done|]. by eapply agrees_mono.
Qed.

Lemma vouches_mono cn cn' h h' v T U lc :
  canon_le cn cn' -> elog h ⊆ elog h' -> acks h' !! (v, T) = acks h !! (v, T) ->
  vouches cn h v T U lc -> vouches cn' h' v T U lc.
Proof.
  intros Hcn Hel Ha Hp A P HA HP Hk. rewrite Ha in HA.
  destruct (Hp A P HA HP) as (l & ? & ? & ?); [by eapply kept_until_anti|].
  exists l. split_and!; [done|done|]. by eapply agrees_mono.
Qed.

Lemma canon_refl cn : canon_le cn cn.
Proof. intros t G HG. by exists G. Qed.

(** A peer acknowledges in a term it has not voted beyond. *)
Lemma hist_ok_ack n vt cn h v T A G :
  hist_ok n vt cn h -> (v < n)%nat -> cn !! T = Some G -> A `prefix_of` G ->
  (forall U c, vt !! (v, U) = Some c -> U <= T) -> hist_ok n vt cn (h_ack v T A h).
Proof.
  intros [Ha He Hc Hz Hv Hq] Hn HG HA Hvt.
  assert (forall w U T', is_Some (vt !! (w, U)) -> T' < U ->
    acks (h_ack v T A h) !! (w, T') = acks h !! (w, T')) as Hsame.
  { intros w U T' [c Hw] HU. simpl. rewrite lookup_insert_ne; [done|].
    intros [= <- <-]. apply Hvt in Hw. lia. }
  constructor; simpl; [|done|done|done| |].
  - intros w T' B [[[= <- <-] <-]|[_ ?]]%lookup_insert_Some; eauto.
  - intros w U c Hw. destruct (Hv _ _ _ Hw) as (lc & Hlc & Hp). exists lc. split; [done|].
    intros T' HT'. apply (promises_mono cn _ h); [apply canon_refl|done| |by apply Hp].
    eapply Hsame; [by eauto|done].
  - intros U e HU. destruct (Hq _ _ HU) as (Q & HQ & Hw). exists Q. split; [done|].
    intros w Hin. destruct (Hw _ Hin) as [Hs Hp]. split; [done|].
    intros T' HT'. apply (vouches_mono cn _ h); [apply canon_refl|done| |by apply Hp].
    eapply Hsame; [done|done].
Qed.

(** A peer votes. *)
Lemma hist_ok_vote n vt cn h v U c lc :
  hist_ok n vt cn h -> clog h !! (c, U) = Some lc ->
  (forall T, T < U -> promises cn h v T U lc) -> hist_ok n (<[(v, U) := c]> vt) cn h.
Proof.
  intros [Ha He Hc Hz Hv Hq] Hlc Hp. constructor; try done.
  - intros w U' c' [[[= <- <-] <-]|[_ ?]]%lookup_insert_Some; eauto.
  - intros U' e HU. destruct (Hq _ _ HU) as (Q & HQ & Hw). exists Q. split; [done|].
    intros w Hin. destruct (Hw _ Hin) as [Hs Hvo]. split; [|done].
    destruct (decide ((v, U) = (w, U'))) as [->|];
      [rewrite lookup_insert_eq; by eauto|by rewrite lookup_insert_ne].
Qed.

(** A candidate campaigns in a fresh term. *)
Lemma hist_ok_campaign n vt cn h c U l :
  hist_ok n vt cn h -> clog h !! (c, U) = None -> hist_ok n vt cn (h_campaign c U l h).
Proof.
  intros [Ha He Hc Hz Hv Hq] Hnew. constructor; simpl; try done.
  intros w U' c' Hw. destruct (Hv _ _ _ Hw) as (lc & Hlc & Hp). exists lc.
  split; [|done]. rewrite lookup_insert_ne; [done|congruence].
Qed.

(** A candidate is elected with the log it campaigned with. *)
Lemma hist_ok_elect n vt cn h i U l :
  hist_ok n vt cn h -> cn !! U = None -> 1 <= U -> quorum n vt U i ->
  clog h !! (i, U) = Some l -> agrees cn l -> terms_below (U - 1) l ->
  hist_ok n vt (<[U := l]> cn) (h_elect U l h).
Proof.
  intros Hok HU H1 Hquo Hlc Hag Hb. pose proof (canon_le_new cn U l HU) as Hle.
  pose proof Hok as [Ha He Hc Hz Hv Hq].
  assert (elog h !! U = None) as HeU.
  { destruct (elog h !! U) as [e|] eqn:E; [|done].
    destruct (He _ _ E) as (_ & _ & G & ? & _). congruence. }
  pose proof (hle_elog _ _ (hist_le_elect h U l HeU)) as Hsub.
  assert (forall t G, cn !! t = Some G -> <[U := l]> cn !! t = Some G) as Hkeep.
  { intros t G HG. rewrite lookup_insert_ne; [done|congruence]. }
  constructor; simpl.
  - intros v T A HA. destruct (Ha _ _ _ HA) as (? & G & ? & ?). split; [done|].
    exists G. auto.
  - intros U' e [[<- <-]|[_ HU']]%lookup_insert_Some.
    + split_and!; [done|done|]. exists l. rewrite lookup_insert_eq. split_and!; [done|done|].
      intros k x Hk%lookup_lt_Some ?. lia.
    + destruct (He _ _ HU') as (? & ? & G & ? & ?). split_and!; [done|done|]. exists G. auto.
  - intros t G [[<- <-]|[Hne HG]]%lookup_insert_Some.
    + split_and!; [by eapply agrees_mono|intros x Hx; apply Hb in Hx; lia|].
      right. rewrite lookup_insert_eq. by eauto.
    + destruct (Hc _ _ HG) as (? & ? & Hd). split_and!; [by eapply agrees_mono|done|].
      destruct Hd as [|[e ?]]; [by left|right]. rewrite lookup_insert_ne by done. by eauto.
  - by apply Hkeep.
  - intros v U' c Hw. destruct (Hv _ _ _ Hw) as (lc & ? & Hp). exists lc. split; [done|].
    intros T HT. apply (promises_mono cn _ h); [done|done|done|by apply Hp].
  - intros U' e [[<- <-]|[_ HU']]%lookup_insert_Some.
    + exists (voters n vt U i). split; [by apply quorum_peers_in|].
      intros v [Hvi _]%elem_of_filter. split; [by eauto|]. intros T HT A P HA HP Hk.
      destruct (Hv _ _ _ Hvi) as (lc & Hlc' & Hp). simplify_eq.
      destruct (Hp T HT A P HA HP) as (k & ? & ? & ?); [|exists k; split_and!; try done;
        by eapply agrees_mono].
      intros V e HV HTV. apply (Hk V); [|by destruct (decide (V = U)); [congruence|lia]].
      simpl. rewrite lookup_insert_ne; [done|congruence].
    + destruct (Hq _ _ HU') as (Q & HQ & Hw). exists Q. split; [done|].
      intros w Hin. destruct (Hw _ Hin) as [Hs Hvo]. split; [done|].
      intros T HT. apply (vouches_mono cn _ h); [done|done|done|by apply Hvo].
Qed.

(** A leader appends an entry of its term. *)
Lemma hist_ok_append n vt cn h t l cmd :
  hist_ok n vt cn h -> cn !! t = Some l -> 1 <= t ->
  hist_ok n vt (<[t := l ++ [mkLogEntry t cmd]]> cn) h.
Proof.
  intros Hok Ht H1. pose proof Hok as [Ha He Hc Hz Hv Hq].
  destruct (Hc _ _ Ht) as (Hal & Hbl & Hel).
  destruct (agrees_append cn l t cmd Hal Ht) as [Hle Hag]. set (l' := l ++ _) in *.
  assert (forall T A G, cn !! T = Some G -> A `prefix_of` G ->
    exists G', <[t := l']> cn !! T = Some G' /\ A `prefix_of` G') as Hgrow.
  { intros T A G HG HA. destruct (Hle _ _ HG) as (G' & ? & ?). exists G'.
    split; [done|]. by etransitivity. }
  constructor.
  - intros v T A HA. destruct (Ha _ _ _ HA) as (? & G & ? & ?). eauto.
  - intros U e HU. destruct (He _ _ HU) as (? & ? & G & HG & Hp & Hown). split_and!; [done|done|].
    destruct (decide (U = t)) as [->|]; [|exists G; by rewrite lookup_insert_ne].
    exists l'. rewrite lookup_insert_eq. simplify_eq. split_and!; [done|by apply prefix_app_r|].
    intros k x [Hk|[_ Hk]]%lookup_app_Some ?; [by eapply Hown|].
    by apply list_lookup_singleton_Some in Hk as [_ <-].
  - intros t' G [[<- <-]|[Hne HG]]%lookup_insert_Some.
    + split_and!; [done| |done]. intros x [Hx|Hx]%elem_of_app; [by apply Hbl|].
      apply list_elem_of_singleton in Hx as ->. simpl. lia.
    + destruct (Hc _ _ HG) as (? & ? & ?). split_and!; [by eapply agrees_mono|done|done].
  - rewrite lookup_insert_ne by lia. done.
  - intros v U c Hw. destruct (Hv _ _ _ Hw) as (lc & ? & Hp). exists lc. split; [done|].
    intros T HT. apply (promises_mono cn _ h); [done|done|done|by apply Hp].
  - intros U e HU. destruct (Hq _ _ HU) as (Q & HQ & Hw). exists Q. split; [done|].
    intros w Hin. destruct (Hw _ Hin) as [Hs Hvo]. split; [done|].
    intros T HT. apply (vouches_mono cn _ h); [done|done|done|by apply Hvo].
Qed.
End updates.
