(* ===== verification/RaftCommitPeer.v ===== *)
(** * raft/raft.go: what each handler does to acknowledged entries

    [peer_ok] relates one peer to the history of [RaftCommit]: it still has
    what it acknowledged unless a leader without it was elected, and what it
    committed is covered by a committed prefix.  One lemma per branch of the
    handlers that change the log, the indices or the role. *)

From Stdlib Require Import ZArith Lia.
From stdpp Require Import base numbers strings gmap list fin_sets.
From S2P Require Import Prelude Persister RaftNode RaftNodeFacts RaftCluster RaftWf.
From S2P Require Import RaftHandlers RaftHistory RaftSafety RaftCommit RaftCommitHist.
Local Open Scope Z_scope.

Section peer.
Context {Cmd : Type} `{Gob Cmd}.
Abbreviation Log := (list (LogEntry Cmd)).
Implicit Types (r : Raft Cmd) (l A P D M e G : Log) (wn : gmap Z nat) (h : hist Cmd).
Implicit Types (cn : gmap Z Log) (vt : gmap (nat * Z) nat).

(** The entries of [l] up to index [k] are those of a committed prefix. *)
Definition covered n h (ok : Z -> Prop) l (k : Z) : Prop :=
  k <= 0 \/ exists T P D, committed n h T P /\ 0 <= T /\ ok T /\
    D `prefix_of` P /\ D `prefix_of` l /\ k < len D.

(** The terms a peer commits in: earlier ones, or its own once it has
    acknowledged in it. *)
Definition heard h (i : nat) (t T : Z) : Prop :=
  T < t \/ (T = t /\ is_Some (acks h !! (i, t))).

Record leader_ok h i r : Prop := {
  lo_log : acks h !! (i, currentTerm r) = Some (log r);
  lo_next : Forall (fun x => x <= len (log r)) (nextIndex r);
  lo_match : forall p m, matchIndex r !! p = Some m ->
    m <= 0 \/ exists A, acks h !! (p, currentTerm r) = Some A /\ m < len A;
}.

Record peer_ok n wn h i r : Prop := {
  po_terms : terms_below (currentTerm r) (log r);
  po_clog : forall U l, clog h !! (i, U) = Some l ->
    U <= currentTerm r /\ terms_below (U - 1) l;
  po_acked : forall T A, acks h !! (i, T) = Some A -> T <= currentTerm r;
  po_current : forall A, acks h !! (i, currentTerm r) = Some A -> A = log r;
  po_kept : forall T A P, acks h !! (i, T) = Some A -> P `prefix_of` A ->
    kept_until h T (currentTerm r) P -> P `prefix_of` log r;
  po_cand : state r = Candidate -> wn !! currentTerm r = None ->
    clog h !! (i, currentTerm r) = Some (log r);
  po_leader : state r = Leader -> leader_ok h i r;
  po_commit : covered n h (heard h i (currentTerm r)) (log r) (commitIndex r);
}.

(** A message on [applyCh] whose entry is committed. *)
Definition stored n h (m : ApplyMsg Cmd) : Prop :=
  exists T P j x, committed n h T P /\ 0 <= T /\ CommandIndex m = Z.of_nat j /\
    P !! j = Some x /\ am_Command m = le_Command x /\ CommandValid m = true.

Lemma stored_mono n h h' m : hist_le h h' -> stored n h m -> stored n h' m.
Proof.
  intros Hle (T & P & j & x & Hc & ?). exists T, P, j, x. split; [|done].
  by eapply committed_mono.
Qed.

Lemma covered_mono n h h' (ok ok' : Z -> Prop) l l' k :
  hist_le h h' -> (forall T, 0 <= T -> ok T -> ok' T) ->
  (forall T P D, committed n h T P -> 0 <= T -> ok T -> D `prefix_of` P ->
     D `prefix_of` l -> D `prefix_of` l') ->
  covered n h ok l k -> covered n h' ok' l' k.
Proof.
  intros Hle Hok Hp [Hk|(T & P & D & Hc & H0 & HT & HP & Hl & Hlt)]; [by left|right].
  exists T, P, D. split_and!; [by eapply committed_mono|done|auto|done|by eapply Hp|done].
Qed.

Lemma heard_mono h h' i t T : hist_le h h' -> heard h i t T -> heard h' i t T.
Proof.
  intros Hle [|[-> [A HA]]]; [by left|right]. split; [done|].
  destruct (hle_acks _ _ Hle _ _ _ HA) as (A' & ? & _). by exists A'.
Qed.

Lemma leader_ok_mono h h' i r :
  hist_le h h' -> acks h' !! (i, currentTerm r) = acks h !! (i, currentTerm r) ->
  leader_ok h i r -> leader_ok h' i r.
Proof.
  intros Hle E [Hl Hn Hm]. constructor; [by rewrite E|done|].
  intros p m Hp. destruct (Hm p m Hp) as [|(A & HA & ?)]; [by left|right].
  destruct (hle_acks _ _ Hle _ _ _ HA) as (A' & ? & Hpre%prefix_length).
  exists A'. split; [done|]. unfold len in *. lia.
Qed.

(** A step of another peer. *)
Lemma peer_ok_mono n wn wn' h h' i r :
  wn ⊆ wn' -> hist_le h h' -> (forall T, acks h' !! (i, T) = acks h !! (i, T)) ->
  (forall U, clog h' !! (i, U) = clog h !! (i, U)) -> peer_ok n wn h i r ->
  peer_ok n wn' h' i r.
Proof.
  intros Hw Hle Ha Hc []. constructor; try done.
  - intros U l. rewrite Hc. by apply po_clog0.
  - intros T A. rewrite Ha. by apply po_acked0.
  - intros A. rewrite Ha. by apply po_current0.
  - intros T A P. rewrite Ha. intros HA HP Hk. eapply po_kept0; [done|done|].
    eapply kept_until_anti; [by apply hle_elog|done].
  - intros Hs Hwn. rewrite Hc. apply po_cand0; [done|]. by eapply lookup_weaken_None.
  - intros Hs. eapply leader_ok_mono; [done|by rewrite Ha|by apply po_leader0].
  - eapply covered_mono; [done| |done|done]. intros T _. by apply heard_mono.
Qed.

(** The peer's log and indices are untouched; its term may grow. *)
Lemma peer_ok_quiet n wn h i r r' :
  peer_ok n wn h i r -> currentTerm r <= currentTerm r' -> log r' = log r ->
  commitIndex r' = commitIndex r ->
  (state r' = Follower \/ (state r' = state r /\ currentTerm r' = currentTerm r /\
     nextIndex r' = nextIndex r /\ matchIndex r' = matchIndex r)) ->
  peer_ok n wn h i r'.
Proof.
  intros [] Ht Hl Hc Hs. constructor; rewrite ?Hl, ?Hc; try done.
  - intros x Hx. apply po_terms0 in Hx. lia.
  - intros U l HU. apply po_clog0 in HU as [? ?]. split; [lia|done].
  - intros T A HA. apply po_acked0 in HA. lia.
  - intros A HA. pose proof (po_acked0 _ _ HA).
    assert (currentTerm r' = currentTerm r) as E by lia. rewrite E in HA. by apply po_current0.
  - intros T A P HA HP Hk. eapply po_kept0; [done|done|]. by eapply kept_until_le.
  - destruct Hs as [->|(-> & -> & _)]; [done|]. done.
  - destruct Hs as [->|(-> & E & En & Em)]; [done|]. intros Hlead.
    destruct (po_leader0 Hlead). constructor; by rewrite ?E, ?Hl, ?En, ?Em.
  - eapply covered_mono; [reflexivity| |done|done].
    intros T _ [|[-> HA]]; [left; lia|].
    destruct (decide (currentTerm r = currentTerm r')) as [<-|]; [by right|left; lia].
Qed.

Lemma peer_observe n wn h i r t :
  peer_ok n wn h i r -> currentTerm r <= t -> peer_ok n wn h i (observe_term t r).
Proof.
  intros Hp Ht. destruct (decide (currentTerm r < t)).
  - rewrite observe_term_newer by done. eapply peer_ok_quiet; [done|simpl; lia|done|done|by left].
  - by rewrite observe_term_same by lia.
Qed.

(** What a peer that votes guarantees. *)
Lemma peer_promises n wn h i r cn U lc :
  peer_ok n wn h i r -> currentTerm r <= U -> agrees cn (log r) -> up_to_date lc (log r) ->
  forall T, T < U -> promises cn h i T U lc.
Proof.
  intros [] HU Hag Hup T HT A P HA HP Hk. exists (log r). split_and!; [|done|done].
  eapply po_kept0; [done|done|]. by eapply kept_until_le.
Qed.

(** ** The commit index advances *)

Lemma entry_msgs_stored n h ok l la k :
  covered n h ok l k -> 0 <= la -> k < len l ->
  Forall (stored n h) (entry_msgs l (la + 1) (Z.to_nat (k - la))).
Proof.
  intros [Hk|(T & P & D & Hc & H0 & HT & HP & Hl & Hlt)] Hla Hkl.
  { replace (Z.to_nat (k - la)) with 0%nat by lia. constructor. }
  apply Forall_lookup_2. intros j m Hm. unfold entry_msgs in Hm.
  rewrite list_lookup_imap in Hm. apply fmap_Some in Hm as (x & Hx & ->).
  apply lookup_take_Some in Hx as [Hx Hj]. rewrite lookup_drop in Hx.
  exists T, P, (Z.to_nat (la + 1) + j)%nat, x. split_and!; simpl; try done; [lia|].
  eapply prefix_lookup_Some; [|done].
  rewrite (prefix_lookup_lt D l); [done| |done]. unfold len in Hlt. lia.
Qed.

Lemma peer_commit n wn h i r k r' msgs :
  peer_ok n wn h i r -> 0 <= lastApplied r -> k < len (log r) ->
  covered n h (heard h i (currentTerm r)) (log r) k ->
  applyCommitted (set_commitIndex k r) = Ok (r', msgs) ->
  peer_ok n wn h i r' /\ Forall (stored n h) msgs.
Proof.
  intros [] Hla Hk Hc HR. rewrite applyCommitted_spec in HR by done. go_inv. simpl. split.
  - constructor; simpl; try done. intros Hl. by destruct (po_leader0 Hl).
  - by eapply entry_msgs_stored.
Qed.

(** ** A follower's log changes *)

Lemma peer_relog n wn h h' i r l' :
  peer_ok n wn h i r -> hist_le h h' -> clog h' = clog h -> elog h' = elog h ->
  (forall T A, acks h' !! (i, T) = Some A -> T <= currentTerm r) ->
  state r <> Leader -> is_Some (wn !! currentTerm r) -> terms_below (currentTerm r) l' ->
  (forall A, acks h' !! (i, currentTerm r) = Some A -> A = l') ->
  (forall T A P, acks h' !! (i, T) = Some A -> P `prefix_of` A ->
     kept_until h T (currentTerm r) P -> P `prefix_of` l') ->
  covered n h (heard h i (currentTerm r)) l' (commitIndex r) ->
  peer_ok n wn h' i (set_log l' r).
Proof.
  intros [] Hle Hcl Hel Hack Hs [w Hw] Ht Hcur Hkept Hcov. constructor; simpl; try done.
  - intros U l. rewrite Hcl. by apply po_clog0.
  - intros T A P HA HP Hk. eapply Hkept; [done|done|]. unfold kept_until. by rewrite <- Hel.
  - congruence.
  - eapply covered_mono; [done| |done|done]. intros T _. by apply heard_mono.
Qed.

(** The entries of a term's leader, as a request carries them: a prefix
    [M] of its log that contains the log [e] it was elected with. *)
Record from_leader cn h t e M : Prop := {
  fl_elog : elog h !! t = Some e;
  fl_elected : e `prefix_of` M;
  fl_canon : exists G, cn !! t = Some G /\ M `prefix_of` G;
}.

(** A committed prefix of an earlier term is in a leader's entries, and
    what the peer acknowledged in the leader's own term is its log. *)
Lemma from_leader_committed n vt cn h t e M T P :
  hist_ok n vt cn h -> from_leader cn h t e M -> committed n h T P -> 0 <= T < t ->
  P `prefix_of` M.
Proof.
  intros Hok [] Hc HT. transitivity e; [|done].
  eapply leader_completeness; [done| |done|done|]; lia.
Qed.

Lemma peer_accept n vt cn wn h i r t e M :
  hist_ok n vt cn h -> peer_ok n wn h i r -> currentTerm r = t -> state r <> Leader ->
  is_Some (wn !! t) -> from_leader cn h t e M ->
  (forall A, acks h !! (i, t) = Some A -> A `prefix_of` M) ->
  peer_ok n wn (h_ack i t M h) i (set_log M r).
Proof.
  intros Hok Hp <- Hs Hw Hfl Hmore. pose proof Hp as [].
  pose proof Hfl as [He HeM (G & HG & HMG)].
  eapply peer_relog; [done|by apply hist_le_ack|done|done| |done|done| | | |].
  - simpl. intros T A [[[= <-] <-]|[_ HA]]%lookup_insert_Some; [lia|eauto].
  - eapply terms_below_prefix; [done|].
    by destruct (ho_canon _ _ _ _ Hok _ _ HG) as (_ & ? & _).
  - simpl. intros A. rewrite lookup_insert_eq. congruence.
  - simpl. intros T A P [[[= <-] <-]|[Hne HA]]%lookup_insert_Some HP Hk; [done|].
    transitivity e; [|done]. apply (Hk _ _ He).
    pose proof (po_acked0 _ _ HA). assert (T <> currentTerm r) by congruence. lia.
  - eapply covered_mono; [reflexivity|by auto| |exact po_commit0].
    intros T P D Hc H0 [Hlt|[-> [A HA]]] HP Hl.
    + transitivity P; [done|]. by eapply from_leader_committed.
    + transitivity (log r); [done|]. rewrite <- (po_current0 _ HA). by apply Hmore.
Qed.

(** The entry at [prev] differs from the leader's: everything from it on
    goes, and nothing the peer must keep is there. *)
Lemma peer_conflict n vt cn wn h i r t e M (prev : nat) x y :
  hist_ok n vt cn h -> peer_ok n wn h i r -> currentTerm r = t -> state r <> Leader ->
  is_Some (wn !! t) -> from_leader cn h t e M ->
  log r !! prev = Some x -> M !! prev = Some y -> le_Term x <> le_Term y ->
  peer_ok n wn h i (set_log (take prev (log r)) r).
Proof.
  intros Hok Hp <- Hs Hw Hfl Hx Hy Hne. pose proof Hp as [].
  pose proof Hfl as [He HeM (G & HG & HMG)].
  assert (forall D, D `prefix_of` log r -> D `prefix_of` M -> D `prefix_of` take prev (log r))
    as Hcut.
  { intros D Hl HM. eapply prefix_by_length; [exact Hl|apply prefix_take|].
    rewrite length_take. apply lookup_lt_Some in Hx as Hlt.
    destruct (decide (length D <= prev)%nat); [lia|]. exfalso. apply Hne.
    rewrite <- (prefix_lookup_lt D (log r)) in Hx by (done || lia).
    eapply prefix_lookup_Some in Hx; [|exact HM]. congruence. }
  assert (acks h !! (i, currentTerm r) = None) as Hnone.
  { apply eq_None_not_Some. intros [A HA]. pose proof HA as HA'.
    rewrite (po_current0 _ HA') in HA.
    destruct (ho_acks _ _ _ _ Hok _ _ _ HA) as (_ & G' & ? & HlG). simplify_eq. apply Hne.
    eapply prefix_lookup_Some in Hx, Hy; [|exact HMG|exact HlG]. congruence. }
  eapply peer_relog; [done|reflexivity|done|done|done|done|done| | | |].
  - eapply terms_below_prefix; [apply prefix_take|done].
  - intros A. rewrite Hnone. done.
  - intros T A P HA HP Hk. apply Hcut; [by eapply po_kept0|].
    transitivity e; [|done]. apply (Hk _ _ He).
    pose proof (po_acked0 _ _ HA). assert (T <> currentTerm r) by congruence. lia.
  - eapply covered_mono; [reflexivity|by auto| |exact po_commit0].
    intros T P D Hc H0 [Hlt|[-> [A HA]]] HP Hl; [|congruence].
    apply Hcut; [done|]. transitivity P; [done|]. by eapply from_leader_committed.
Qed.
End peer.
