(* ===== verification/RaftCommitRoles.v ===== *)
(** * raft/raft.go: candidates, leaders and acknowledged entries

    The counterpart of [RaftCommitPeer] for the handlers that change a
    peer's role or a leader's indices: starting an election, taking office,
    appending a command and counting an acknowledgement. *)

From Stdlib Require Import ZArith Lia.
From stdpp Require Import base numbers strings gmap list fin_sets.
From S2P Require Import Prelude Persister RaftNode RaftNodeFacts RaftCluster RaftWf.
From S2P Require Import RaftHandlers RaftHistory RaftSafety RaftCommit RaftCommitHist.
From S2P Require Import RaftCommitPeer.
Local Open Scope Z_scope.

Section roles.
Context {Cmd : Type} `{Gob Cmd}.
Abbreviation Log := (list (LogEntry Cmd)).
Implicit Types (r : Raft Cmd) (l A P D M e G : Log) (wn : gmap Z nat) (h : hist Cmd).
Implicit Types (cn : gmap Z Log) (vt : gmap (nat * Z) nat).

(** ** Elections *)

Lemma peer_campaign n wn h i r r' calls :
  peer_ok n wn h i r -> becomeCandidate r = Ok (r', calls) ->
  peer_ok n wn (h_campaign i (currentTerm r + 1) (log r) h) i r'.
Proof.
  intros Hp HR. unfold becomeCandidate in HR. go_inv.
  assert (hist_le h (h_campaign i (currentTerm r + 1) (log r) h)) as Hle.
  { apply hist_le_campaign. apply eq_None_not_Some. intros [l Hl].
    apply (po_clog _ _ _ _ _ Hp) in Hl as [? _]. lia. }
  pose proof Hp as []. constructor; simpl; try done.
  - intros x Hx. apply po_terms in Hx. lia.
  - intros U l [[[= <-] <-]|[_ HU]]%lookup_insert_Some.
    + split; [lia|]. by replace (currentTerm r + 1 - 1) with (currentTerm r) by lia.
    + apply po_clog in HU as [? ?]. split; [lia|done].
  - intros T A HA. apply po_acked in HA. lia.
  - intros A HA. apply po_acked in HA. lia.
  - intros T A P HA HP Hk. eapply po_kept; [done|done|].
    intros U e He HU. apply (Hk U e); [done|lia].
  - intros _ _. by rewrite lookup_insert_eq.
  - eapply covered_mono; [done| |done|exact po_commit].
    intros T _ [|[-> _]]; left; lia.
Qed.

Lemma up_to_date_refl l : l <> [] -> up_to_date l l.
Proof.
  intros Hl. destruct (last l) as [x|] eqn:E; [|by apply last_None in E].
  exists x, x. split_and!; [done|done|]. right. lia.
Qed.

(** The winner acknowledges its own log. *)
Definition h_win (i : nat) (t : Z) l h : hist Cmd := h_ack i t l (h_elect t l h).

Lemma peer_win n wn h i r v :
  peer_ok n wn h i r -> acks h !! (i, currentTerm r) = None ->
  elog h !! currentTerm r = None -> state r = Candidate ->
  hist_le h (h_win i (currentTerm r) (log r) h) /\
  peer_ok n (<[currentTerm r := i]> wn) (h_win i (currentTerm r) (log r) h) i
    (takeOffice (set_votes v r)).
Proof.
  intros Hp Hack Hel Hs. set (h' := h_win _ _ _ _).
  assert (hist_le h h') as Hle.
  { transitivity (h_elect (currentTerm r) (log r) h); [by apply hist_le_elect|].
    apply hist_le_ack. simpl. congruence. }
  split; [done|]. pose proof Hp as []. constructor; simpl; try done.
  - intros T A [[[= <-] _]|[_ HA]]%lookup_insert_Some; [lia|eauto].
  - intros A. rewrite lookup_insert_eq. congruence.
  - intros T A P [[[= <-] <-]|[_ HA]]%lookup_insert_Some HP Hk; [done|].
    eapply po_kept; [done|done|]. eapply kept_until_anti; [apply (hle_elog _ _ Hle)|done].
  - intros _. constructor; simpl.
    + by rewrite lookup_insert_eq.
    + apply Forall_replicate. lia.
    + intros p m [-> _]%lookup_replicate. by left.
  - eapply covered_mono; [done| |done|exact po_commit]. intros T _. by apply heard_mono.
Qed.

(** ** A leader's log and indices *)

Lemma leader_next_prefix n wn h i r l' :
  peer_ok n wn h i r -> state r = Leader -> log r `prefix_of` l' ->
  hist_le h (h_ack i (currentTerm r) l' h).
Proof.
  intros [] Hs Hp. apply hist_le_ack. intros A' HA'. by rewrite (po_current _ HA').
Qed.

(** The leader appends: it acknowledges the new log. *)
Lemma peer_append n wn h i r r' x :
  peer_ok n wn h i r -> state r = Leader -> log r' = log r ++ [x] ->
  le_Term x = currentTerm r -> currentTerm r' = currentTerm r -> state r' = Leader ->
  commitIndex r' = commitIndex r ->
  nextIndex r' = <[i := len (log r')]> (nextIndex r) ->
  matchIndex r' = <[i := len (log r') - 1]> (matchIndex r) ->
  peer_ok n wn (h_ack i (currentTerm r) (log r') h) i r'.
Proof.
  intros Hp Hs Hl Hx Ht Hs' Hc Hn Hm. set (h' := h_ack _ _ _ _).
  assert (log r `prefix_of` log r') as Hpre by (rewrite Hl; by apply prefix_app_r).
  assert (hist_le h h') as Hle by (by eapply leader_next_prefix).
  pose proof (po_leader _ _ _ _ _ Hp Hs) as [HlL HlN HlM].
  pose proof Hp as []. constructor; rewrite ?Ht, ?Hc; simpl; try done.
  - rewrite Hl. intros y [Hy|Hy]%elem_of_app; [by apply po_terms|].
    apply list_elem_of_singleton in Hy as ->. lia.
  - intros T A [[[= <-] _]|[_ HA]]%lookup_insert_Some; [lia|eauto].
  - intros A. rewrite lookup_insert_eq. congruence.
  - intros T A P [[[= <-] <-]|[_ HA]]%lookup_insert_Some HP Hk; [done|].
    transitivity (log r); [|done]. by eapply po_kept.
  - congruence.
  - intros _. constructor; rewrite ?Ht; simpl.
    + by rewrite lookup_insert_eq.
    + rewrite Hn. apply Forall_insert; [|lia]. eapply Forall_impl; [done|].
      simpl. intros y ?. rewrite Hl, len_app, len_cons, len_nil. lia.
    + rewrite Hm. intros p m [(<- & <- & _)|[Hne Hp']]%list_lookup_insert_Some.
      * right. exists (log r'). rewrite lookup_insert_eq. split; [done|lia].
      * destruct (HlM p m Hp') as [|(A & HA & ?)]; [by left|right]. exists A.
        rewrite lookup_insert_ne; [done|congruence].
  - eapply covered_mono; [done| | |exact po_commit].
    + intros T _. by apply heard_mono.
    + intros T P D _ _ _ _ HD. by transitivity (log r).
Qed.

Lemma peer_indices n wn h i r ni mi :
  peer_ok n wn h i r ->
  (state r = Leader -> Forall (fun x => x <= len (log r)) ni /\
     forall p m, mi !! p = Some m ->
       m <= 0 \/ exists A, acks h !! (p, currentTerm r) = Some A /\ m < len A) ->
  peer_ok n wn h i (set_nextIndex ni (set_matchIndex mi r)).
Proof.
  intros [] Hl. constructor; simpl; try done. intros Hs. destruct (Hl Hs).
  destruct (po_leader Hs). by constructor.
Qed.

(** ** What a majority of matching indices means *)

Lemma count_peers (mi : list Z) N :
  exists Q : gset nat, size Q = length (filter (fun idx => N <= idx) mi) /\
    forall p, p ∈ Q -> exists m, mi !! p = Some m /\ N <= m.
Proof.
  induction mi as [|x mi (Q & HQ & Hin)] using rev_ind; [by exists ∅|].
  rewrite filter_app, length_app. destruct (decide (N <= x)) as [Hx|Hx].
  - exists ({[length mi]} ∪ Q). rewrite size_union, size_singleton, HQ.
    + rewrite filter_cons_True by done. simpl. split; [lia|].
      intros p [->%elem_of_singleton|Hp]%elem_of_union.
      * exists x. by rewrite lookup_app_r, Nat.sub_diag.
      * destruct (Hin p Hp) as (m & Hm & ?). exists m. split; [by apply lookup_app_l_Some|done].
    + intros p ->%elem_of_singleton (m & Hm%lookup_lt_Some & _)%Hin. lia.
  - exists Q. rewrite filter_cons_False by done. simpl. rewrite Nat.add_0_r. split; [done|].
    intros p Hp. destruct (Hin p Hp) as (m & Hm & ?). exists m. split; [by apply lookup_app_l_Some|done].
Qed.

(** What the commit loop commits is committed. *)
Lemma committable_committed n wn h i r cn vt N :
  hist_ok n vt cn h -> peer_ok n wn h i r -> wf_raft n i r -> state r = Leader ->
  cn !! currentTerm r = Some (log r) -> 1 <= currentTerm r -> 0 <= N ->
  committable r N -> covered n h (heard h i (currentTerm r)) (log r) N.
Proof.
  intros Hok Hp Hw Hs Hcn H1 H0 (e & He & Ht & Hcount). right.
  destruct (po_leader _ _ _ _ _ Hp Hs) as [Hlog _ Hmatch].
  assert (1 <= N) as HN.
  { destruct (decide (N = 0)) as [->|]; [|lia]. change (Z.to_nat 0) with 0%nat in He.
    destruct (wf_log0 _ _ _ Hw) as (x & ? & ? & _). simplify_eq. lia. }
  apply lookup_lt_Some in He as Hlt.
  assert (len (take (S (Z.to_nat N)) (log r)) = N + 1) as Hlen.
  { unfold len. rewrite length_take. lia. }
  exists (currentTerm r), (take (S (Z.to_nat N)) (log r)), (take (S (Z.to_nat N)) (log r)).
  split_and!; [|lia|right; by eauto|done|apply prefix_take|lia].
  split.
  { exists e. split; [|done]. rewrite last_lookup, length_take.
    replace (pred (S (Z.to_nat N) `min` length (log r))) with (Z.to_nat N) by lia.
    by rewrite lookup_take_lt by lia. }
  destruct (count_peers (matchIndex r) N) as (Q & HQ & Hin).
  assert (forall p, p ∈ Q -> exists A, acks h !! (p, currentTerm r) = Some A /\ N < len A)
    as Hack.
  { intros p (m & Hm & ?)%Hin. destruct (Hmatch p m Hm) as [|(A & HA & ?)]; [lia|].
    exists A. split; [done|lia]. }
  exists Q. split; [split|].
  - intros p (A & HA & _)%Hack. by destruct (ho_acks _ _ _ _ Hok _ _ _ HA).
  - rewrite HQ. rewrite (wf_peers _ _ _ Hw), Z.quot_div_nonneg in Hcount by lia.
    pose proof (Z.div_mod (Z.of_nat n) 2). pose proof (Z.mod_pos_bound (Z.of_nat n) 2). lia.
  - intros p Hp'. destruct (Hack p Hp') as (A & HA & HlenA). exists A. split; [done|].
    destruct (ho_acks _ _ _ _ Hok _ _ _ HA) as (_ & G & HG & HAG). simplify_eq.
    eapply prefix_by_length; [apply prefix_take|done|]. unfold len in *. lia.
Qed.

Lemma peer_advanceCommit n wn h i r cn vt r' msgs :
  hist_ok n vt cn h -> peer_ok n wn h i r -> wf_raft n i r -> state r = Leader ->
  cn !! currentTerm r = Some (log r) -> 1 <= currentTerm r ->
  advanceCommit r = Ok (r', msgs) -> peer_ok n wn h i r' /\ Forall (stored n h) msgs.
Proof.
  intros Hok Hp Hw Hs Hcn H1 HR. pose proof (wf_commit _ _ _ Hw).
  destruct (advanceCommit_spec r) as [[_ E]|(N & HN & Hc & _ & E)]; [done|done| |];
    rewrite E in HR.
  - go_inv. split; [done|constructor].
  - eapply peer_commit; [done|by destruct Hw|by apply HN| |done].
    eapply committable_committed; try done. lia.
Qed.
End roles.
