(* ===== verification/RaftCommitInv.v ===== *)
(** * raft/raft.go: the invariant behind state machine safety

    The invariant of [RaftSafety] together with the history of
    [RaftCommit], what it says of every peer and of every request and reply
    in flight, and one lemma per handler. *)

From Stdlib Require Import ZArith Lia.
From stdpp Require Import base numbers strings gmap list fin_sets.
From S2P Require Import Prelude Persister RaftNode RaftNodeFacts RaftCluster RaftWf.
From S2P Require Import RaftHandlers RaftHistory RaftSafety RaftReplication RaftCommit.
From S2P Require Import RaftCommitHist RaftCommitPeer RaftCommitRoles.
Local Open Scope Z_scope.

Section invariant.
Context {Cmd : Type} `{Gob Cmd}.
Abbreviation Log := (list (LogEntry Cmd)).
Implicit Types (r : Raft Cmd) (l A P D M e G : Log) (g : ghost (Cmd := Cmd)) (h : hist Cmd).
Implicit Types (rs : list (Raft Cmd)) (nt : list (rpc Cmd)) (cn : gmap Z Log).

Definition accepted (ph : phase AppendEntriesReply) : bool :=
  match ph with
  | Requested => false
  | Blocked reply | Replied reply => aer_Success reply
  end.

(** A heartbeat carries what follows [PrevLogIndex] in a prefix [M] of its
    leader's log; its reply, when positive, acknowledges [M]. *)
Record carries n cn h (dst : nat) (a : AppendEntriesArgs Cmd) (acc : bool) e M
    (x : LogEntry Cmd) : Prop := {
  ca_term : 1 <= aea_Term a;
  ca_leader : from_leader cn h (aea_Term a) e M;
  ca_prev : M !! Z.to_nat (aea_PrevLogIndex a) = Some x;
  ca_prev_term : le_Term x = aea_PrevLogTerm a;
  ca_entries : drop (S (Z.to_nat (aea_PrevLogIndex a))) M = aea_Entries a;
  ca_commit : covered n h (fun T => T <= aea_Term a) M (aea_LeaderCommit a);
  ca_acked : acc = true -> acked h dst (aea_Term a) M;
}.

Definition cmsg_ok n cn h (m : rpc Cmd) : Prop :=
  match m with
  | RV src dst a ph => exists lc x, clog h !! (src, rva_Term a) = Some lc /\
      last lc = Some x /\ rva_LastLogIndex a = len lc - 1 /\ rva_LastLogTerm a = le_Term x
  | AE src dst a ph => a = emptyAppendEntriesArgs \/
      exists e M x, carries n cn h dst a (accepted ph) e M x
  end.

Record cinv n g h rs nt : Prop := {
  ci_inv : inv n g rs nt;
  ci_hist : hist_ok n (voted g) (canon g) h;
  ci_peers : forall i r, rs !! i = Some r -> peer_ok n (won g) h i r;
  ci_msgs : Forall (cmsg_ok n (canon g) h) nt;
}.

Lemma from_leader_mono cn cn' h h' t e M :
  canon_le cn cn' -> hist_le h h' -> from_leader cn h t e M -> from_leader cn' h' t e M.
Proof.
  intros Hcn Hle [He Hp (G & HG & HM)]. constructor; [|done|].
  - eapply lookup_weaken; [done|]. by apply hle_elog.
  - destruct (Hcn _ _ HG) as (G' & ? & ?). exists G'. split; [done|]. by transitivity G.
Qed.

Lemma carries_mono n cn cn' h h' dst a acc e M x :
  canon_le cn cn' -> hist_le h h' -> carries n cn h dst a acc e M x ->
  carries n cn' h' dst a acc e M x.
Proof.
  intros Hcn Hle []. constructor; try done.
  - by eapply from_leader_mono.
  - eapply covered_mono; [done| | |done]; by auto.
  - intros ?. eapply acked_mono; [done|]. by auto.
Qed.

Lemma cmsg_ok_mono n cn cn' h h' m :
  canon_le cn cn' -> hist_le h h' -> cmsg_ok n cn h m -> cmsg_ok n cn' h' m.
Proof.
  intros Hcn Hle. destruct m as [src dst a ph|src dst a ph]; simpl.
  - intros (lc & x & Hlc & ?). exists lc, x. split; [|done].
    eapply lookup_weaken; [done|]. by apply hle_clog.
  - intros [|(e & M & x & ?)]; [by left|right]. exists e, M, x. by eapply carries_mono.
Qed.

Lemma cmsgs_ok_mono n cn cn' h h' nt :
  canon_le cn cn' -> hist_le h h' -> Forall (cmsg_ok n cn h) nt -> Forall (cmsg_ok n cn' h') nt.
Proof. intros ? ? Hn. apply (Forall_impl _ _ _ Hn). intros m. by apply cmsg_ok_mono. Qed.

Lemma canon_le_refl' cn : canon_le cn cn.
Proof. intros t G HG. by exists G. Qed.

(** What a step of peer [i] has to establish. *)
Lemma cinv_update n g g' h h' rs nt nt' i r' :
  cinv n g h rs nt -> inv n g' (<[i := r']> rs) nt' -> hist_ok n (voted g') (canon g') h' ->
  won g ⊆ won g' -> hist_le h h' ->
  (forall j T, j <> i -> acks h' !! (j, T) = acks h !! (j, T)) ->
  (forall j U, j <> i -> clog h' !! (j, U) = clog h !! (j, U)) ->
  peer_ok n (won g') h' i r' -> Forall (cmsg_ok n (canon g') h') nt' ->
  cinv n g' h' (<[i := r']> rs) nt'.
Proof.
  intros [Hi Hh Hp Hm] Hi' Hh' Hw Hle Ha Hc Hpi Hm'. constructor; try done.
  intros j x [(<- & <- & _)|[Hne Hj]]%list_lookup_insert_Some; [done|].
  eapply peer_ok_mono; [done|done| | |by apply Hp]; intros; [apply Ha|apply Hc]; done.
Qed.

(** A step that leaves the history alone. *)
Lemma cinv_same n g h rs nt nt' i r' :
  cinv n g h rs nt -> inv n g (<[i := r']> rs) nt' -> peer_ok n (won g) h i r' ->
  Forall (cmsg_ok n (canon g) h) nt' -> cinv n g h (<[i := r']> rs) nt'.
Proof. intros Hc Hi Hp Hm. by eapply cinv_update; [done|done|apply Hc| | | | | |]. Qed.

Lemma cinv_net n g h rs nt nt' :
  cinv n g h rs nt -> inv n g rs nt' -> Forall (cmsg_ok n (canon g) h) nt' ->
  cinv n g h rs nt'.
Proof. intros [] ? ?. by constructor. Qed.

Lemma cinv_msg n g h rs nt k m :
  cinv n g h rs nt -> nt !! k = Some m -> cmsg_ok n (canon g) h m.
Proof. intros [_ _ _ Hm] Hk. by eapply Forall_lookup_1 in Hm. Qed.

Lemma cinv_log n g h rs nt i r :
  cinv n g h rs nt -> rs !! i = Some r -> agrees (canon g) (log r) /\ wf_raft n i r.
Proof. intros [Hi _ _ _] Hr. split; [by eapply inv_logs|by eapply inv_wf]. Qed.

(** A peer has not voted beyond its term. *)
Lemma cinv_voted n g h rs nt i r U c :
  cinv n g h rs nt -> rs !! i = Some r -> voted g !! (i, U) = Some c -> U <= currentTerm r.
Proof.
  intros [Hi _ _ _] Hr Hv. destruct (inv_voted_past _ _ _ _ Hi _ _ _ Hv) as (x & Hx & Hc).
  simplify_eq. destruct Hc as [|[? _]]; lia.
Qed.

Lemma wf_last n i r : wf_raft n i r -> exists x, last (log r) = Some x.
Proof.
  intros Hw. destruct (last (log r)) as [x|] eqn:E; [by exists x|].
  apply last_None in E. destruct (wf_log0 _ _ _ Hw) as (? & Hx & _). by rewrite E in Hx.
Qed.

(** ** Elections *)

Lemma cinv_becomeCandidate n g h rs nt i r r' calls :
  cinv n g h rs nt -> rs !! i = Some r -> becomeCandidate r = Ok (r', calls) ->
  exists g' h', won g ⊆ won g' /\ hist_le h h' /\
    cinv n g' h' (<[i := r']> rs) (nt ++ rv_calls i calls).
Proof.
  intros Hc Hr HR. pose proof (ci_peers _ _ _ _ _ Hc _ _ Hr) as Hp.
  destruct (cinv_log _ _ _ _ _ _ _ Hc Hr) as [Hag Hw].
  destruct (wf_last _ _ _ Hw) as [x Hx].
  set (h' := h_campaign i (currentTerm r + 1) (log r) h).
  assert (clog h !! (i, currentTerm r + 1) = None) as Hnew.
  { apply eq_None_not_Some. intros [l Hl]. apply (po_clog _ _ _ _ _ Hp) in Hl as [? _]. lia. }
  assert (hist_le h h') as Hle by (by apply hist_le_campaign).
  pose proof (inv_becomeCandidate _ _ _ _ _ _ _ _ (ci_inv _ _ _ _ _ Hc) Hr HR) as Hi'.
  eexists _, h'. split_and!; [|done|eapply cinv_update; [exact Hc|exact Hi'| | |done| | | |]];
    simpl; try done.
  - eapply hist_ok_vote.
    + apply hist_ok_campaign; [by apply Hc|done].
    + simpl. by rewrite lookup_insert_eq.
    + intros T HT. apply (promises_mono (canon g) _ h); [apply canon_refl|done|done|].
      apply (peer_promises n (won g) h i r); [done|lia|done| |done].
      apply up_to_date_refl. intros E. by rewrite E in Hx.
  - intros j U Hne. rewrite lookup_insert_ne; [done|congruence].
  - by eapply peer_campaign.
  - apply Forall_app. split.
    + eapply cmsgs_ok_mono; [apply canon_refl|done|by apply Hc].
    + unfold becomeCandidate in HR. go_inv. unfold rv_calls. rewrite !Forall_fmap.
      apply Forall_forall. intros p _. simpl in *. exists (log r), x.
      rewrite lookup_insert_eq. split_and!; [done|done|done|].
      apply index_Ok in Ha as [_ Ha]. apply last_lookup' in Hx.
      replace (Z.to_nat (len (log r) - 1)) with (length (log r) - 1)%nat in Ha
        by (unfold len; lia). congruence.
Qed.

Lemma cinv_RequestVote n g h rs nt k src i a r r' reply :
  cinv n g h rs nt -> nt !! k = Some (RV src i a Requested) -> rs !! i = Some r ->
  RequestVote r a = Ok (r', reply) ->
  exists g', won g ⊆ won g' /\
    cinv n g' h (<[i := r']> rs) (<[k := RV src i a (Blocked reply)]> nt).
Proof.
  intros Hc Hk Hr HR. pose proof (ci_peers _ _ _ _ _ Hc _ _ Hr) as Hp.
  destruct (cinv_log _ _ _ _ _ _ _ Hc Hr) as [Hag Hw].
  pose proof (cinv_msg _ _ _ _ _ _ _ Hc Hk) as (lc & x & Hlc & Hx & Hidx & Hterm).
  pose proof (inv_RequestVote _ _ _ _ _ _ _ _ _ _ _ (ci_inv _ _ _ _ _ Hc) Hk Hr HR) as Hi'.
  assert (Forall (cmsg_ok n (canon g) h) (<[k := RV src i a (Blocked reply)]> nt)) as Hms.
  { apply Forall_insert; [by apply Hc|]. exists lc, x. done. }
  exists (if rvr_VoteGranted reply then g_vote i (rva_Term a) src g else g).
  split; [by destruct (rvr_VoteGranted reply)|].
  apply RequestVote_outcome in HR. destruct HR as [|Hge|e Hge He Hv Hup];
    cbn [rvr_VoteGranted] in *.
  - by eapply cinv_same.
  - eapply cinv_same; [done|done| |done]. by apply peer_observe.
  - eapply (cinv_update n g _ h h); [done|done| |done|done|done|done| |done]; simpl.
    + eapply hist_ok_vote; [by apply Hc|done|]. intros T HT.
      apply (peer_promises n (won g) h i r); [done|lia|done| |done].
      exists x, e. split_and!; [done| |].
      * rewrite last_lookup. by replace (pred (length (log r))) with (length (log r) - 1)%nat by lia.
      * apply candidateUpToDate_spec in Hup. by rewrite Hidx, Hterm in Hup.
    + apply (peer_ok_quiet n (won g) h i (observe_term (rva_Term a) r));
        [by apply peer_observe|done|done|done|by right].
Qed.

Lemma empty_cmsgs_ok n cn h i ps :
  Forall (cmsg_ok n cn h) (ae_calls i ((fun p => (p, emptyAppendEntriesArgs)) <$> ps)).
Proof.
  unfold ae_calls. rewrite !Forall_fmap. apply Forall_forall. intros p _. by left.
Qed.

Lemma cinv_elected n g h rs nt k i v a reply r :
  cinv n g h rs nt -> nt !! k = Some (RV i v a (Replied reply)) -> rs !! i = Some r ->
  rvr_VoteGranted reply = true -> rva_Term a = currentTerm r ->
  majority r (votes r + 1) = true -> state r = Candidate ->
  let calls := (fun p => (p, emptyAppendEntriesArgs)) <$> other_peers r in
  let g1 := g_count i (currentTerm r) v g in
  let r1 := takeOffice (set_votes (votes r + 1) r) in
  inv n (g_win i (currentTerm r) (log r) g1) (<[i := r1]> rs)
    (delete k nt ++ ae_calls i calls) ->
  exists g' h', won g ⊆ won g' /\ hist_le h h' /\
    cinv n g' h' (<[i := r1]> rs) (delete k nt ++ ae_calls i calls).
Proof.
  intros Hc Hk Hr Hg Ht Hm Hs calls g1 r1 Hi'.
  pose proof (ci_peers _ _ _ _ _ Hc _ _ Hr) as Hp.
  destruct (cinv_log _ _ _ _ _ _ _ Hc Hr) as [Hag Hw].
  assert (inv n g1 (<[i := set_votes (votes r + 1) r]> rs) (delete k nt)) as Hi1
    by (eapply inv_count; [by apply Hc|done|exact Hg|done|done]).
  pose proof (lookup_updated rs i r (set_votes (votes r + 1) r) Hr) as Hr1.
  destruct (first_to_win _ _ _ _ _ _ Hi1 Hr1 Hs Hm) as (Hwon & Hcn & Hpos). simpl in Hwon, Hcn, Hpos.
  pose proof (counted_quorum _ _ _ _ _ _ Hi1 Hr1 Hs Hm) as Hq. simpl in Hq.
  pose proof (ci_hist _ _ _ _ _ Hc) as Hh.
  assert (forall j, acks h !! (j, currentTerm r) = None) as Hack.
  { intros j. apply eq_None_not_Some. intros [A HA].
    destruct (ho_acks _ _ _ _ Hh _ _ _ HA) as (_ & G & ? & _). congruence. }
  assert (elog h !! currentTerm r = None) as Hel.
  { apply eq_None_not_Some. intros [e He].
    destruct (ho_elog _ _ _ _ Hh _ _ He) as (_ & _ & G & ? & _). congruence. }
  destruct (peer_win n (won g) h i r (votes r + 1) Hp (Hack i) Hel Hs) as [Hle Hp'].
  set (h' := h_win i (currentTerm r) (log r) h) in *.
  exists (g_win i (currentTerm r) (log r) g1), h'.
  assert (won g ⊆ won (g_win i (currentTerm r) (log r) g1)) as Hsub by (by apply insert_subseteq).
  split_and!; [done|done|]. eapply cinv_update; [done|done| |done|done| |done|done|]; simpl.
  - eapply hist_ok_ack; [apply (hist_ok_elect n _ _ _ i)|by apply (wf_id _ _ _ Hw)| |reflexivity|];
      try done.
    + by apply (po_cand _ _ _ _ _ Hp).
    + pose proof (po_cand _ _ _ _ _ Hp Hs Hwon) as Hl.
      by destruct (po_clog _ _ _ _ _ Hp _ _ Hl).
    + by rewrite lookup_insert_eq.
    + intros U c HU. by eapply cinv_voted.
  - intros j T Hne. rewrite lookup_insert_ne; [done|congruence].
  - apply Forall_app. split; [|apply empty_cmsgs_ok].
    eapply cmsgs_ok_mono; [by apply canon_le_new|done|]. apply Forall_delete. by apply Hc.
Qed.

Lemma cinv_sendRequestVote n g h rs nt k i v a reply r r' calls :
  cinv n g h rs nt -> nt !! k = Some (RV i v a (Replied reply)) -> rs !! i = Some r ->
  (rvr_VoteGranted reply = true -> rva_Term a = currentTerm r) ->
  sendRequestVote r (Some reply) = (r', calls) ->
  exists g' h', won g ⊆ won g' /\ hist_le h h' /\
    cinv n g' h' (<[i := r']> rs) (delete k nt ++ ae_calls i calls).
Proof.
  intros Hc Hk Hr Hfresh HR. pose proof (ci_peers _ _ _ _ _ Hc _ _ Hr) as Hp.
  destruct (inv_sendRequestVote _ _ _ _ _ _ _ _ _ _ _ _ (ci_inv _ _ _ _ _ Hc) Hk Hr Hfresh HR)
    as [Hsub Hi'].
  assert (Forall (cmsg_ok n (canon g) h) (delete k nt)) as Hms by (apply Forall_delete; apply Hc).
  apply sendRequestVote_outcome in HR. unfold reply_ghost in Hi'.
  destruct HR as [Hnew|Hle Hno|Hle Hg Hcnt|Hle Hg Hm Hs];
    (destruct (Z.ltb_spec (currentTerm r) (rvr_Term reply)); [|try lia]); try lia;
    [|rewrite Hno in Hi'|rewrite Hg in Hi'|rewrite Hg, Hm, bool_decide_true in Hi' by done].
  - exists g, h. split_and!; [done|done|]. simpl in *. rewrite app_nil_r in *.
    eapply cinv_same; [done|done| |done].
    eapply peer_ok_quiet; [done|simpl; lia|done|done|by left].
  - exists g, h. split_and!; [done|done|]. simpl in *. rewrite app_nil_r in *.
    by eapply cinv_same.
  - assert (majority r (votes r + 1) && bool_decide (state r = Candidate) = false) as E.
    { destruct Hcnt as [->|Hs]; [done|]. by rewrite bool_decide_false, andb_false_r. }
    rewrite E in Hi'. exists (g_count i (currentTerm r) v g), h. split_and!; [done|done|].
    simpl in *. rewrite app_nil_r in *.
    apply (cinv_update n g _ h h _ nt); try done; [by apply Hc|].
    eapply peer_ok_quiet; [done|done|done|done|by right].
  - eapply cinv_elected; try done. by apply Hfresh.
Qed.

(** ** Replication *)

Lemma cinv_Start n g h rs nt i r r' cmd y :
  cinv n g h rs nt -> rs !! i = Some r -> Start r cmd = Ok (r', y) ->
  exists g' h', won g ⊆ won g' /\ hist_le h h' /\ cinv n g' h' (<[i := r']> rs) nt.
Proof.
  intros Hc Hr HR. pose proof (ci_peers _ _ _ _ _ Hc _ _ Hr) as Hp.
  destruct (cinv_log _ _ _ _ _ _ _ Hc Hr) as [Hag Hw].
  destruct (wf_Start n i r cmd Hw) as (? & ? & E & Hw'). rewrite HR in E. injection E as <- <-.
  unfold Start in HR. destruct (decide (state r <> Leader)) as [|Hs].
  { go_inv. exists g, h. split_and!; [done|done|]. by rewrite list_insert_id. }
  assert (state r = Leader) as Hs' by (by apply dec_stable).
  destruct (inv_leader _ _ _ _ (ci_inv _ _ _ _ _ Hc) _ _ Hr Hs') as [Hwon Hcn].
  assert (1 <= currentTerm r) as H1
    by (eapply inv_role; [by apply Hc|done|congruence]).
  go_inv. cbn [log set_log set_matchIndex set_nextIndex matchIndex nextIndex me] in *.
  rewrite (wf_me _ _ _ Hw) in *. apply assign_inv in Ha, Ha0. subst.
  match goal with |- context [<[i := ?x]> rs] => set (r' := x) in * end.
  exists (g_append (currentTerm r) (log r') g), (h_ack i (currentTerm r) (log r') h).
  assert (hist_le h (h_ack i (currentTerm r) (log r') h)) as Hle
    by (eapply leader_next_prefix; [done|done|]; by apply prefix_app_r).
  split_and!; [done|done|]. apply (cinv_update n g _ h _ _ nt); try done; simpl.
  - apply (inv_append n g rs nt i r r' cmd); try done. apply Hc.
  - apply (hist_ok_ack _ _ _ _ _ _ _ (log r'));
      [by apply hist_ok_append; [apply Hc| |]|by apply (wf_id _ _ _ Hw)
      |by rewrite lookup_insert_eq|done|].
    intros U c HU. by eapply cinv_voted.
  - intros j T Hne. rewrite lookup_insert_ne; [done|congruence].
  - apply (peer_append n (won g) h i r r' (mkLogEntry (currentTerm r) cmd)); try done.
    simpl. f_equal. lia.
  - eapply cmsgs_ok_mono; [|done|apply Hc].
    by apply (agrees_append (canon g) (log r) (currentTerm r) cmd).
Qed.

Lemma cinv_heartBeat n g h rs nt i r p a :
  cinv n g h rs nt -> rs !! i = Some r -> state r = Leader -> heartBeatArgs r p = Ok a ->
  cmsg_ok n (canon g) h (AE i p a Requested).
Proof.
  intros Hc Hr Hs Ha. pose proof (ci_peers _ _ _ _ _ Hc _ _ Hr) as Hp.
  destruct (cinv_log _ _ _ _ _ _ _ Hc Hr) as [_ Hw].
  destruct (inv_leader _ _ _ _ (ci_inv _ _ _ _ _ Hc) _ _ Hr Hs) as [_ Hcn].
  assert (1 <= currentTerm r) as H1
    by (eapply inv_role; [by apply Hc|done|congruence]).
  destruct (ho_canon _ _ _ _ (ci_hist _ _ _ _ _ Hc) _ _ Hcn) as (_ & _ & [?|[e He]]); [lia|].
  destruct (ho_elog _ _ _ _ (ci_hist _ _ _ _ _ Hc) _ _ He) as (_ & _ & G & HG & HeG & _).
  simplify_eq.
  unfold heartBeatArgs in Ha. apply result_bind_Ok in Ha as (ni & Hni & Ha).
  assert (nextIndex r !! p = Some ni) as Hnp
    by (apply index_Ok in Hni as [_ Hni]; by rewrite Nat2Z.id in Hni).
  assert (1 <= ni <= len (log r)) as Hrange.
  { split.
    - destruct (wf_leader _ _ _ Hw Hs) as (_ & _ & Hge). by eapply Forall_lookup_1 in Hge.
    - destruct (po_leader _ _ _ _ _ Hp Hs) as [_ Hnx _]. by eapply Forall_lookup_1 in Hnx. }
  destruct (heartBeatArgs_spec n i r p ni Hw Hnp Hrange) as (x & Hx & E).
  unfold heartBeatArgs in E. rewrite Hni in E. cbn [mbind result_bind] in E.
  rewrite Ha in E. injection E as ->. right. exists e, (log r), x. constructor; simpl; try done.
  - constructor; [done|done|]. by exists (log r).
  - f_equal. lia.
  - eapply covered_mono; [reflexivity| |done|apply (po_commit _ _ _ _ _ Hp)].
    intros T _ [|[-> _]]; lia.
Qed.

Lemma cinv_sendHeartBeats n g h rs nt i r calls :
  cinv n g h rs nt -> rs !! i = Some r -> sendHeartBeats r = Ok calls ->
  cinv n g h rs (nt ++ ae_calls i calls).
Proof.
  intros Hc Hr HR. eapply cinv_net; [done|by eapply inv_sendHeartBeats; [apply Hc| |]|].
  apply Forall_app. split; [apply Hc|].
  unfold sendHeartBeats in HR. destruct (decide (state r <> Leader)) as [|Hs]; [by go_inv|].
  assert (state r = Leader) as Hs' by (by apply dec_stable).
  apply collect_Ok in HR. unfold ae_calls. rewrite Forall_fmap. apply Forall_forall.
  intros ca [q Hq]%list_elem_of_lookup.
  destruct (Forall2_lookup_r _ _ _ _ _ HR Hq) as (p & Hp & E).
  apply result_bind_Ok in E as (b & Hb & E). injection E as <-.
  by eapply cinv_heartBeat.
Qed.
End invariant.
