(* ===== verification/RaftCommitAppend.v ===== *)
(** * raft/raft.go: requests and replies of replication

    What [AppendEntries] and the treatment of its reply preserve of the
    invariant of [RaftCommitInv], for a request that is not behind the log
    it is applied to and a reply that answers a request of the leader's
    current term. *)

From Stdlib Require Import ZArith Lia.
From stdpp Require Import base numbers strings gmap list fin_sets.
From S2P Require Import Prelude Persister RaftNode RaftNodeFacts RaftCluster RaftWf.
From S2P Require Import RaftHandlers RaftHistory RaftSafety RaftReplication RaftCommit.
From S2P Require Import RaftCommitHist RaftCommitPeer RaftCommitRoles RaftCommitInv.
Local Open Scope Z_scope.

Section append.
Context {Cmd : Type} `{Gob Cmd}.
Abbreviation Log := (list (LogEntry Cmd)).
Implicit Types (r : Raft Cmd) (l A P D M e G : Log) (g : ghost (Cmd := Cmd)) (h : hist Cmd).
Implicit Types (rs : list (Raft Cmd)) (nt : list (rpc Cmd)) (cn : gmap Z Log).

(** In term 0 the log is the one every peer starts with. *)
Lemma term_zero_log n g h rs nt i r :
  cinv n g h rs nt -> rs !! i = Some r -> currentTerm r = 0 -> log r = [mkLogEntry 0 None].
Proof.
  intros Hc Hr Ht. pose proof (ci_peers _ _ _ _ _ Hc _ _ Hr) as Hp.
  destruct (cinv_log _ _ _ _ _ _ _ Hc Hr) as [Hag Hw].
  destruct (wf_last _ _ _ Hw) as [x Hx]. pose proof (ci_hist _ _ _ _ _ Hc) as Hh.
  destruct (agrees_last _ _ _ Hag Hx) as (G & HG & Hpre).
  assert (le_Term x <= 0) as Hle
    by (rewrite <- Ht; apply (po_terms _ _ _ _ _ Hp); by apply last_elem).
  assert (le_Term x = 0) as E.
  { destruct (ho_canon _ _ _ _ Hh _ _ HG) as (_ & _ & [?|[e He]]); [done|].
    destruct (ho_elog _ _ _ _ Hh _ _ He) as (? & _). lia. }
  rewrite E, (ho_zero _ _ _ _ Hh) in HG. injection HG as <-.
  apply prefix_length_eq; [done|]. pose proof (wf_log_len _ (wf_log0 _ _ _ Hw)) as Hlen.
  unfold len in Hlen. simpl. lia.
Qed.

Lemma set_log_id r : set_log (log r) r = r.
Proof. by destruct r. Qed.

(** The broadcast of a new leader carries term 0 and changes no log. *)
Lemma empty_append_noop n g h rs nt i r r' reply msgs :
  cinv n g h rs nt -> rs !! i = Some r ->
  AppendEntries r emptyAppendEntriesArgs = Ok (r', reply, msgs) -> r' = r /\ msgs = [].
Proof.
  intros Hc Hr HR. destruct (cinv_log _ _ _ _ _ _ _ Hc Hr) as [_ Hw].
  pose proof (wf_log0 _ _ _ Hw) as Hl0. pose proof (wf_term _ _ _ Hw).
  apply AppendEntries_outcome in HR.
  destruct HR as [|Hge Hs|x Hge _ Hx Hne|x r' msgs Hge _ Hx _ l r1 HR]; simpl in *;
    [done|by rewrite observe_term_same by lia| |].
  - destruct Hl0 as (y & Hy & Ey & _). change (Z.to_nat 0) with 0%nat in Hx. congruence.
  - assert (l = log r) as El.
    { unfold l. rewrite (term_zero_log _ _ _ _ _ _ _ Hc Hr) by lia. done. }
    assert (r1 = r) as E1.
    { unfold r1. rewrite El, observe_term_same by lia. apply set_log_id. }
    destruct HR as [(_ & -> & ->)|[Hci _]]; [done|].
    pose proof (wf_commit _ _ _ Hw). lia.
Qed.

(** What the peer acknowledged in the leader's term is a prefix of what a
    request that is not behind makes its log. *)
Lemma not_behind_extends n g h rs nt i r a e M x A acc :
  cinv n g h rs nt -> rs !! i = Some r -> currentTerm r <= aea_Term a ->
  0 <= aea_PrevLogIndex a -> not_behind r a = true ->
  carries n (canon g) h i a acc e M x -> acks h !! (i, aea_Term a) = Some A ->
  A `prefix_of` M.
Proof.
  intros Hc Hr Hge H0 Hnb [_ Hfl Hprev _ Hent _ _] HA.
  pose proof (ci_peers _ _ _ _ _ Hc _ _ Hr) as Hp. pose proof (ci_hist _ _ _ _ _ Hc) as Hh.
  destruct (cinv_log _ _ _ _ _ _ _ Hc Hr) as [_ Hw].
  assert (aea_Term a = currentTerm r) as Et.
  { pose proof (po_acked _ _ _ _ _ Hp _ _ HA). lia. }
  rewrite Et in *. assert (A = log r) as -> by (by apply (po_current _ _ _ _ _ Hp)).
  destruct Hfl as [He HeM (G & HG & HMG)].
  destruct (ho_acks _ _ _ _ Hh _ _ _ HA) as (_ & G1 & HG1 & HlG).
  destruct (ho_elog _ _ _ _ Hh _ _ He) as (_ & _ & G2 & HG2 & _ & Hown). simplify_eq.
  eapply prefix_by_length; [done|done|].
  destruct (wf_last _ _ _ Hw) as [y Hy]. unfold not_behind in Hnb. rewrite Hy, Et in Hnb.
  destruct (decide (length (log r) <= length e)%nat) as [|Hgt].
  { apply prefix_length in HeM. lia. }
  assert (le_Term y = currentTerm r) as Ey.
  { apply (Hown (length (log r) - 1)%nat); [|lia].
    eapply prefix_lookup_Some; [|done]. by apply last_lookup'. }
  rewrite Ey, Z.eqb_refl in Hnb. simpl in Hnb. apply Z.leb_le in Hnb.
  apply (f_equal length) in Hent. rewrite length_drop in Hent.
  apply lookup_lt_Some in Hprev. unfold len in Hnb. lia.
Qed.

(** The log [AppendEntries] builds is what the request carries. *)
Lemma accept_log n vt cn h i r a acc e M x y :
  agrees cn (log r) -> hist_ok n vt cn h -> carries n cn h i a acc e M x ->
  log r !! Z.to_nat (aea_PrevLogIndex a) = Some y -> le_Term y = aea_PrevLogTerm a ->
  take (S (Z.to_nat (aea_PrevLogIndex a))) (log r) ++ aea_Entries a = M.
Proof.
  intros Hag Hh [_ [_ _ (G & HG & HMG)] Hprev Hpt Hent _ _] Hy Et.
  eapply agrees_accept; [done| |done|done|congruence|done].
  eapply agrees_prefix; [|done]. by destruct (ho_canon _ _ _ _ Hh _ _ HG).
Qed.

Lemma carries_accepted n cn h v a acc e M x :
  carries n cn h v a acc e M x -> acked h v (aea_Term a) M ->
  carries n cn h v a true e M x.
Proof. intros [] ?. by constructor. Qed.

Lemma carries_refused n cn h v a acc e M x :
  carries n cn h v a acc e M x -> carries n cn h v a false e M x.
Proof. intros []. by constructor. Qed.

(** The commit index the request brings is covered. *)
Lemma carries_commit n cn h i a acc e M x t :
  carries n cn h i a acc e M x -> t = aea_Term a -> is_Some (acks h !! (i, t)) ->
  covered n h (heard h i t) M (Z.min (aea_LeaderCommit a) (len M - 1)).
Proof.
  intros [_ _ _ _ _ Hcov _] -> Hack.
  destruct Hcov as [|(T & P & D & Hc & H0 & HT & HP & HM & Hlt)]; [left; lia|right].
  exists T, P, D. split_and!; try done; [|lia].
  destruct (decide (T = aea_Term a)); [by right|left; lia].
Qed.

(** The branch that accepts. *)
Lemma accept_peer n g h rs nt k src i a r r' msgs e M x y :
  cinv n g h rs nt -> nt !! k = Some (AE src i a Requested) -> rs !! i = Some r ->
  not_behind r a = true -> carries n (canon g) h i a false e M x ->
  currentTerm r <= aea_Term a -> 0 <= aea_PrevLogIndex a ->
  log r !! Z.to_nat (aea_PrevLogIndex a) = Some y -> le_Term y = aea_PrevLogTerm a ->
  let r1 := set_log M (observe_term (aea_Term a) r) in
  (aea_LeaderCommit a <= commitIndex r /\ r' = r1 /\ msgs = [] \/
   commitIndex r < aea_LeaderCommit a /\
   applyCommitted (set_commitIndex (Z.min (aea_LeaderCommit a) (len M - 1)) r1)
     = Ok (r', msgs)) ->
  let h' := h_ack i (aea_Term a) M h in
  hist_le h h' /\ peer_ok n (won g) h' i r' /\ Forall (stored n h') msgs.
Proof.
  intros Hc Hk Hr Hnb Hca Hge H0 Hy Ey r1 HR h'.
  pose proof (ci_peers _ _ _ _ _ Hc _ _ Hr) as Hp. pose proof (ci_inv _ _ _ _ _ Hc) as Hi.
  destruct (cinv_log _ _ _ _ _ _ _ Hc Hr) as [Hag Hw].
  pose proof (list_elem_of_lookup_2 _ _ _ Hk) as Hin.
  pose proof (observed_not_leader _ _ _ _ _ _ _ _ _ Hi Hin Hr Hge) as Hnl.
  assert (is_Some (won g !! aea_Term a)) as Hwon.
  { destruct (inv_msg _ _ _ _ _ Hi Hin) as (_ & [[? _]|?] & _); [|by exists src].
    pose proof (ca_term _ _ _ _ _ _ _ _ _ Hca). lia. }
  assert (forall A, acks h !! (i, aea_Term a) = Some A -> A `prefix_of` M) as Hmore
    by (intros A; by eapply not_behind_extends).
  assert (hist_le h h') as Hle by (by apply hist_le_ack).
  pose proof (observe_term_currentTerm _ _ Hge) as Et.
  assert (peer_ok n (won g) h' i r1) as Hp1.
  { eapply peer_accept; [apply Hc|by apply peer_observe|done|done|done| |done].
    by destruct Hca. }
  split; [done|]. destruct HR as [(_ & -> & ->)|[_ HR]]; [split; [done|constructor]|].
  destruct (observe_term_static (aea_Term a) r) as (_ & _ & _ & Hla & _).
  eapply peer_commit; [done| | | |exact HR]; simpl; [rewrite Hla; by destruct Hw|lia|].
  eapply (carries_commit n (canon g)); [by eapply carries_mono; [apply canon_refl|done|]
    |done|]. rewrite Et. unfold h'. simpl. rewrite lookup_insert_eq. by eauto.
Qed.

Lemma cinv_AppendEntries n g h rs nt k src i a r r' reply msgs :
  cinv n g h rs nt -> nt !! k = Some (AE src i a Requested) -> rs !! i = Some r ->
  wf_append a -> not_behind r a = true -> AppendEntries r a = Ok (r', reply, msgs) ->
  exists h', hist_le h h' /\
    cinv n g h' (<[i := r']> rs) (<[k := AE src i a (Blocked reply)]> nt) /\
    Forall (stored n h') msgs.
Proof.
  intros Hc Hk Hr Hwa Hnb HR. pose proof (ci_inv _ _ _ _ _ Hc) as Hi.
  pose proof (ci_peers _ _ _ _ _ Hc _ _ Hr) as Hp.
  destruct (cinv_log _ _ _ _ _ _ _ Hc Hr) as [Hag Hw].
  pose proof (list_elem_of_lookup_2 _ _ _ Hk) as Hin.
  assert (inv n g (<[i := r']> rs) (<[k := AE src i a (Blocked reply)]> nt)) as Hi'.
  { assert (inv n g (<[i := r']> rs) nt) as Hi1 by (by eapply inv_AppendEntries).
    eapply inv_net_phase; [done|done|done|].
    exact (inv_msg_lookup _ _ _ _ _ _ Hi1 Hk). }
  assert (forall h' b, hist_le h h' -> cmsg_ok n (canon g) h' (AE src i a (Blocked b)) ->
    Forall (cmsg_ok n (canon g) h') (<[k := AE src i a (Blocked b)]> nt)) as Hms.
  { intros h' b Hle Hm. apply Forall_insert; [|done].
    eapply cmsgs_ok_mono; [apply canon_refl|done|apply Hc]. }
  destruct (cinv_msg _ _ _ _ _ _ _ Hc Hk) as [->|(e & M & x & Hca)].
  { destruct (empty_append_noop _ _ _ _ _ _ _ _ _ _ Hc Hr HR) as [-> ->].
    exists h. split_and!; [done| |constructor]. eapply cinv_same; [done|done|done|].
    apply Hms; [done|by left]. }
  simpl in Hca. apply AppendEntries_outcome in HR.
  assert (forall r', peer_ok n (won g) h i r' -> forall b, aer_Success b = false ->
    inv n g (<[i := r']> rs) (<[k := AE src i a (Blocked b)]> nt) ->
    exists h', hist_le h h' /\
      cinv n g h' (<[i := r']> rs) (<[k := AE src i a (Blocked b)]> nt) /\
      Forall (stored n h') []) as Hrefuse.
  { intros r2 Hp2 b Hb Hi2. exists h. split_and!; [done| |constructor].
    eapply cinv_same; [done|done|done|]. apply Hms; [done|]. right. exists e, M, x.
    simpl. by rewrite Hb. }
  destruct HR as [|Hge Hs|y Hge H0 Hy Hne|y r' msgs Hge H0 Hy Ey l r1 HR];
    [by apply Hrefuse|by apply Hrefuse; [apply peer_observe| |]| |].
  - apply Hrefuse; [|done|done].
    rewrite <- (observe_term_log (aea_Term a) r). rewrite <- (observe_term_log (aea_Term a)) in Hy.
    pose proof (ca_prev _ _ _ _ _ _ _ _ _ Hca). pose proof (ca_prev_term _ _ _ _ _ _ _ _ _ Hca).
    eapply peer_conflict; [apply Hc|by apply peer_observe|by apply observe_term_currentTerm
      |exact (observed_not_leader _ _ _ _ _ _ _ _ _ Hi Hin Hr Hge)| |by destruct Hca|done|done|congruence].
    destruct (inv_msg _ _ _ _ _ Hi Hin) as (_ & [[? _]|?] & _); [|by exists src].
    pose proof (ca_term _ _ _ _ _ _ _ _ _ Hca). lia.
  - assert (l = M) as El by (by eapply accept_log; [|apply Hc|..]).
    unfold r1 in HR. rewrite El in HR.
    destruct (accept_peer _ _ _ _ _ _ _ _ _ _ _ _ _ _ _ _ Hc Hk Hr Hnb Hca Hge H0 Hy Ey HR)
      as (Hle & Hp' & Hst).
    eexists. split_and!; [done| |done]. eapply cinv_update; [done|done| |done|done| | |done|].
    + destruct (ca_leader _ _ _ _ _ _ _ _ _ Hca) as [_ _ (G & HG & HMG)].
      eapply hist_ok_ack; [apply Hc|by apply (wf_id _ _ _ Hw)|done|done|].
      intros U c HU. pose proof (cinv_voted _ _ _ _ _ _ _ _ _ Hc Hr HU). lia.
    + intros j T Hne. simpl. rewrite lookup_insert_ne; [done|congruence].
    + done.
    + apply Hms; [done|]. right. exists e, M, x.
      eapply carries_accepted; [eapply carries_mono; [apply canon_refl|done|done]|].
      exists M. simpl. by rewrite lookup_insert_eq.
Qed.

(** ** The reply *)

Lemma reply_indices n g h rs nt k i v a reply r :
  cinv n g h rs nt -> nt !! k = Some (AE i v a (Replied reply)) -> rs !! i = Some r ->
  state r = Leader -> current_reply r a reply = true -> aer_Success reply = true ->
  let m := len (aea_Entries a) + aea_PrevLogIndex a in
  wf_append a ->
  m + 1 <= len (log r) /\
  (m <= 0 \/ exists A, acks h !! (v, currentTerm r) = Some A /\ m < len A).
Proof.
  intros Hc Hk Hr Hs Hcur Hok m [H0 _]. unfold current_reply in Hcur. rewrite Hok in Hcur.
  destruct (cinv_log _ _ _ _ _ _ _ Hc Hr) as [_ Hw].
  destruct (cinv_msg _ _ _ _ _ _ _ Hc Hk) as [->|(e & M & x & [H1 Hfl Hprev _ Hent _ Hack])].
  { assert (m = 0) as -> by done. pose proof (wf_log_len _ (wf_log0 _ _ _ Hw)). split; [lia|by left]. }
  simpl in Hcur. apply orb_true_iff in Hcur as [Hcur|Hcur]; apply Z.eqb_eq in Hcur; [lia|].
  destruct (inv_leader _ _ _ _ (ci_inv _ _ _ _ _ Hc) _ _ Hr Hs) as [_ Hcn].
  destruct (Hack Hok) as (A & HA & HMA). rewrite Hcur in *.
  destruct Hfl as [_ _ (G & HG & HMG)]. simplify_eq.
  apply (f_equal length) in Hent. rewrite length_drop in Hent.
  apply lookup_lt_Some in Hprev. apply prefix_length in HMA, HMG.
  assert (m + 1 = len M) by (unfold m, len; lia). unfold len in *.
  split; [lia|]. right. exists A. split; [done|lia].
Qed.

Lemma cinv_sendAppendEntries n g h rs nt k i v a reply r r' msgs :
  cinv n g h rs nt -> nt !! k = Some (AE i v a (Replied reply)) -> rs !! i = Some r ->
  (v < n)%nat -> wf_append a -> current_reply r a reply = true ->
  sendAppendEntries r v a (Some reply) = Ok (r', msgs) ->
  cinv n g h (<[i := r']> rs) nt /\ Forall (stored n h) msgs.
Proof.
  intros Hc Hk Hr Hv Hwa Hcur HR. pose proof (ci_inv _ _ _ _ _ Hc) as Hi.
  pose proof (ci_peers _ _ _ _ _ Hc _ _ Hr) as Hp.
  destruct (cinv_log _ _ _ _ _ _ _ Hc Hr) as [Hag Hw].
  assert (inv n g (<[i := r']> rs) nt) as Hi' by (by eapply inv_sendAppendEntries).
  assert (peer_ok n (won g) h i r' /\ Forall (stored n h) msgs) as [Hp' Hst];
    [|split; [|done]; eapply cinv_same; [done|done|done|apply Hc]].
  apply sendAppendEntries_outcome in HR.
  destruct HR as [|Hs Hnew|ni Hs Hle Hno Hni H1|r1 r' msgs Hs Hle Hsuc E HR].
  - split; [done|constructor].
  - split; [|constructor]. eapply peer_ok_quiet; [done|simpl; lia|done|done|by left].
  - split; [|constructor]. destruct (po_leader _ _ _ _ _ Hp Hs) as [Hl Hn Hm].
    pose proof (peer_indices n (won g) h i r (<[v := Z.quot ni 2]> (nextIndex r))
      (matchIndex r) Hp) as Hq.
    replace (set_matchIndex (matchIndex r) r) with r in Hq by (by destruct r).
    apply Hq. intros _. split; [|done]. apply Forall_insert; [done|].
    eapply Forall_lookup_1 in Hn; [|exact Hni]. simpl in Hn.
    rewrite Z.quot_div_nonneg by lia. apply Z.div_le_upper_bound; lia.
  - destruct (inv_leader _ _ _ _ Hi _ _ Hr Hs) as [_ Hcn].
    assert (1 <= currentTerm r) as H1 by (eapply inv_role; [exact Hi|exact Hr|congruence]).
    assert (peer_ok n (won g) h i r1 /\ wf_raft n i r1 /\ state r1 = Leader /\
      currentTerm r1 = currentTerm r /\ log r1 = log r) as (Hp1 & Hw1 & Es & Et & El).
    { destruct (aer_Success reply) eqn:Hok; subst r1; [|by split_and!].
      destruct (reply_indices _ _ _ _ _ _ _ _ _ _ _ Hc Hk Hr Hs Hcur Hok Hwa) as [Hlen Hack].
      destruct (po_leader _ _ _ _ _ Hp Hs) as [Hl Hn Hm]. split_and!; [| |done..].
      - apply peer_indices; [done|]. intros _. split; [by apply Forall_insert|].
        intros p m [(<- & <- & _)|[_ ?]]%list_lookup_insert_Some; [done|by eauto].
      - apply wf_indices; [done|]. destruct Hwa.
        pose proof (len_nonneg (aea_Entries a)). lia. }
    eapply peer_advanceCommit; [apply Hc|done|done|done| |lia|exact HR].
    by rewrite Et, El.
Qed.
End append.
