(* ===== verification/RaftStateMachine.v ===== *)
(** * raft/raft.go: state machine safety

    In the executions [orderly] admits no two peers apply different commands
    at the same index, and the leader of the newest term has everything any
    peer has applied.  [stale_vote_two_leaders] of [RaftTheorems] and the two
    executions at the end show that the code needs the conditions of
    [orderly]. *)

From Stdlib Require Import ZArith Lia.
From stdpp Require Import base numbers strings gmap list fin_sets.
From S2P Require Import Prelude Persister RaftNode RaftNodeFacts RaftCluster RaftWf.
From S2P Require Import RaftHandlers RaftHistory RaftSafety RaftReplication RaftRuns.
From S2P Require Import RaftTheorems RaftCommit RaftCommitHist RaftCommitPeer RaftCommitRoles.
From S2P Require Import RaftCommitInv RaftCommitAppend.
Local Open Scope Z_scope.

Section machine.
Context {Cmd : Type} `{Gob Cmd}.
Implicit Types (c : Cluster Cmd) (s : Server Cmd) (g : ghost (Cmd := Cmd)) (h : hist Cmd).

(** Everything any peer has sent on [applyCh] is committed. *)
Definition applied_ok n h c : Prop :=
  forall i s, servers c !! i = Some s -> Forall (stored n h) (applied s).

Lemma applied_put n h h' c i s s' msgs nt :
  applied_ok n h c -> hist_le h h' -> servers c !! i = Some s ->
  applied s' = applied s ++ msgs -> Forall (stored n h') msgs -> applied_ok n h' (put i s' c nt).
Proof.
  intros Hall Hle Hs E Hm.
  assert (forall j t, servers c !! j = Some t -> Forall (stored n h') (applied t)) as Hold.
  { intros j t Ht. eapply Forall_impl; [by eapply Hall|]. intros x. by apply stored_mono. }
  intros j t [(<- & <- & _)|[_ Hj]]%list_lookup_insert_Some; [|by eapply Hold].
  rewrite E. apply Forall_app. split; [by eapply Hold|done].
Qed.

Lemma applied_quiet n h h' c i s s' nt :
  applied_ok n h c -> hist_le h h' -> servers c !! i = Some s -> applied s' = applied s ->
  applied_ok n h' (put i s' c nt).
Proof. intros. eapply (applied_put _ _ _ _ _ _ _ []); [done..| |done]. by rewrite app_nil_r. Qed.

(** ** Steps of the cluster *)

Definition steps_to n g h (c' : Cluster Cmd) : Prop :=
  exists g' h', cinv n g' h' (rafts c') (net c') /\ applied_ok n h' c'.

Lemma cinv_request_step n c k c' g h :
  wf_cluster n c -> cinv n g h (rafts c) (net c) -> applied_ok n h c ->
  orderly c (HandleRequest k) = true -> step (HandleRequest k) c = Some (Ok c') ->
  steps_to n g h c'.
Proof.
  intros [_ _ Hnet] Hc Hap Hok Hst. cbn [step] in Hst.
  apply bind_Some in Hst as (m & Hm & Hst). apply bind_Some in Hst as (s & Hs & Hst).
  pose proof (rafts_lookup _ _ _ Hs) as Hr.
  apply bind_Some in Hst as (x & Hx & Hst). go_inv. destruct a as [s' m']. go_inv.
  unfold steps_to. rewrite rafts_put. simpl.
  destruct m as [src dst a [| |]|src dst a [| |]]; cbn [handle_request rpc_dst] in *; go_inv.
  - destruct a0 as [r' reply]. go_inv.
    destruct (cinv_RequestVote _ _ _ _ _ _ _ _ _ _ _ _ Hc Hm Hr Ha) as (g' & _ & Hc').
    exists g', h. split; [done|]. by eapply applied_quiet.
  - destruct a0 as [[r' reply] msgs]. go_inv.
    assert (wf_rpc n (AE src dst a Requested)) as (_ & _ & Hwa)
      by (by eapply Forall_lookup_1 in Hnet).
    assert (not_behind (rf s) a = true) as Hnb.
    { apply orderly_parts in Hok as (_ & Hok & _). simpl in Hok. by rewrite Hm, Hs in Hok. }
    destruct (cinv_AppendEntries _ _ _ _ _ _ _ _ _ _ _ _ _ Hc Hm Hr Hwa Hnb Ha)
      as (h' & Hle & Hc' & Hst).
    exists g, h'. split; [done|]. by eapply applied_put.
Qed.

Lemma cinv_reply_step n c k c' g h :
  wf_cluster n c -> cinv n g h (rafts c) (net c) -> applied_ok n h c ->
  orderly c (HandleReply k) = true -> step (HandleReply k) c = Some (Ok c') ->
  steps_to n g h c'.
Proof.
  intros [_ _ Hnet] Hc Hap Hok Hst. cbn [step] in Hst.
  apply bind_Some in Hst as (m & Hm & Hst). apply bind_Some in Hst as (s & Hs & Hst).
  pose proof (rafts_lookup _ _ _ Hs) as Hr.
  apply bind_Some in Hst as (x & Hx & Hst). go_inv. destruct a as [s' calls]. go_inv.
  unfold steps_to. rewrite rafts_put. simpl.
  apply orderly_parts in Hok as (Hfresh & _ & Hcur). simpl in Hfresh, Hcur. rewrite Hm in Hfresh, Hcur.
  destruct m as [src dst a [| |reply]|src dst a [| |reply]];
    cbn [handle_reply rpc_src] in *; go_inv.
  - rewrite Hs in Hfresh. destruct (sendRequestVote (rf s) (Some reply)) as [r' cs] eqn:Er. go_inv.
    destruct (cinv_sendRequestVote n g h (rafts c) (net c) k src dst a reply (rf s) r' cs)
      as (g' & h' & _ & Hle & Hc'); [done|done|done| |done|].
    { intros Hg. rewrite Hg in Hfresh. simpl in Hfresh. by zbool. }
    exists g', h'. split; [done|]. by eapply applied_quiet.
  - destruct a0 as [r' msgs]. go_inv. rewrite app_nil_r. rewrite Hs in Hcur.
    assert (wf_rpc n (AE src dst a (Replied reply))) as (_ & Hd & Hwa)
      by (by eapply Forall_lookup_1 in Hnet).
    destruct (cinv_sendAppendEntries _ _ _ _ _ _ _ _ _ _ _ _ _ Hc Hm Hr Hd Hwa Hcur Ha)
      as [Hc' Hst].
    exists g, h. split; [|by eapply applied_put].
    eapply cinv_net; [exact Hc'|apply inv_net_delete, Hc'|apply Forall_delete, Hc'].
Qed.

Lemma cinv_timeout_step n c i c' g h :
  cinv n g h (rafts c) (net c) -> applied_ok n h c ->
  step (TickTimeout i) c = Some (Ok c') -> steps_to n g h c'.
Proof.
  intros Hc Hap Hst. cbn [step] in Hst. apply bind_Some in Hst as (s & Hs & Hst).
  pose proof (rafts_lookup _ _ _ Hs) as Hr.
  destruct (pc s) as [|read]; go_inv. destruct a as [s' calls]. go_inv.
  unfold steps_to. rewrite rafts_put.
  assert (forall r' cs, becomeCandidate (rf s) = Ok (r', cs) -> forall t, applied t = applied s ->
    rf t = r' -> exists g' h', cinv n g' h' (<[i := r']> (rafts c)) (net c ++ rv_calls i cs) /\
      applied_ok n h' (put i t c (net c ++ rv_calls i cs))) as Hcand.
  { intros r' cs HR t Ht _.
    destruct (cinv_becomeCandidate _ _ _ _ _ _ _ _ _ Hc Hr HR) as (g' & h' & _ & Hle & Hc').
    exists g', h'. split; [done|]. by eapply applied_quiet. }
  destruct read; simpl in Ha; go_inv; [|destruct a as [r' cs]; go_inv..]; simpl;
    [|by eapply Hcand..].
  exists g, h. rewrite list_insert_id by done.
  split; [by eapply cinv_sendHeartBeats|]. by eapply applied_quiet.
Qed.

Lemma cinv_step n c lb c' g h :
  wf_cluster n c -> cinv n g h (rafts c) (net c) -> applied_ok n h c ->
  orderly c lb = true -> step lb c = Some (Ok c') -> steps_to n g h c'.
Proof.
  intros Hw Hc Hap Hok Hst.
  destruct lb as [i|i|i k|k|k|k|i cmd|i];
    [|by eapply cinv_timeout_step| |by eapply cinv_request_step|by eapply cinv_reply_step| | |done];
    cbn [step] in Hst; unfold steps_to.
  - apply bind_Some in Hst as (s & Hs & Hst). case_decide; go_inv.
    exists g, h. rewrite rafts_put. simpl. rewrite list_insert_id by (by apply rafts_lookup).
    split; [done|]. by eapply applied_quiet.
  - apply bind_Some in Hst as (s & Hs & Hst). apply bind_Some in Hst as (m & Hm & Hst).
    destruct (pc s) as [|read]; [done|]. apply bind_Some in Hst as (m' & Hm' & Hst). go_inv.
    exists g, h. rewrite rafts_put. simpl. rewrite list_insert_id by (by apply rafts_lookup).
    split; [|by eapply applied_quiet].
    pose proof (cinv_msg _ _ _ _ _ _ _ Hc Hm) as Hcm.
    assert (msg_ok g (rafts c) m) as Hmok by (by eapply inv_msg_lookup; [apply Hc|]).
    eapply cinv_net; [done|eapply inv_net_phase; [apply Hc|done| |]|
      apply Forall_insert; [apply Hc|]];
      destruct m as [src dst a [| |]|src dst a [| |]]; simpl in Hm'; try done;
      case_decide; by go_inv.
  - apply bind_Some in Hst as (m & Hm & Hst). destruct (droppable m); go_inv.
    exists g, h. split; [|done].
    eapply cinv_net; [done|apply inv_net_delete, Hc|apply Forall_delete, Hc].
  - apply bind_Some in Hst as (s & Hs & Hst). go_inv. destruct a as [r' x]. go_inv.
    destruct (cinv_Start _ _ _ _ _ _ _ _ _ _ Hc (rafts_lookup _ _ _ Hs) Ha)
      as (g' & h' & _ & Hle & Hc').
    exists g', h'. rewrite rafts_put. split; [done|]. by eapply applied_quiet.
Qed.

(** ** Reachable clusters *)

Definition hist_init : hist Cmd := mkHist ∅ ∅ ∅.

Lemma cinv_init n : cinv n ghost_init hist_init (rafts (init n)) [].
Proof.
  constructor; [apply inv_init| | |constructor].
  - constructor; simpl; try (intros *; by rewrite lookup_empty); [|by rewrite lookup_singleton_eq].
    intros t G HG. destruct (inv_canon _ _ _ _ (inv_init n) _ _ HG) as [Hag _].
    apply lookup_singleton_Some in HG as [<- <-]. split_and!; [done| |by left].
    intros x ->%list_elem_of_singleton. done.
  - intros i r. unfold rafts. simpl. rewrite <- list_fmap_compose.
    intros (j & -> & [-> ?]%lookup_seq)%list_lookup_fmap_Some.
    constructor; simpl; try done; try (intros *; by rewrite lookup_empty).
    + intros x ->%list_elem_of_singleton. done.
    + by left.
Qed.

Lemma reach_cinv n c :
  reach n orderly c -> exists g h, cinv n g h (rafts c) (net c) /\ applied_ok n h c.
Proof.
  induction 1 as [|c lb c' Hr (g & h & Hc & Hap) Hok Hst].
  - exists ghost_init, hist_init. split; [apply cinv_init|].
    intros i s (j & -> & _)%list_lookup_fmap_Some. constructor.
  - by eapply cinv_step; [eapply wf_reach| | | |].
Qed.

Lemma rafts_lookup_inv c i r : rafts c !! i = Some r -> exists s, servers c !! i = Some s /\ r = rf s.
Proof. intros (s & -> & Hs)%list_lookup_fmap_Some. by exists s. Qed.

(** Some peer has reached the term of a committed prefix. *)
Lemma committed_reached n g h rs nt :
  cinv n g h rs nt -> forall T P, committed n h T P ->
  exists v r, rs !! v = Some r /\ T <= currentTerm r.
Proof.
  intros Hc T P (_ & Q & HQ & Hack). destruct (peers_in_meet _ _ _ HQ HQ) as (v & Hv & _).
  destruct (Hack v Hv) as (A & HA & _). destruct HQ as [Hn _].
  destruct (lookup_lt_is_Some_2 rs v) as [r Hr].
  { rewrite (inv_size _ _ _ _ (ci_inv _ _ _ _ _ Hc)). by apply Hn. }
  exists v, r. split; [done|]. by apply (po_acked _ _ _ _ _ (ci_peers _ _ _ _ _ Hc _ _ Hr) _ _ HA).
Qed.

(** Committed prefixes agree where both have an entry. *)
Lemma stored_agree n g h rs nt m m' :
  cinv n g h rs nt -> stored n h m -> stored n h m' -> CommandIndex m = CommandIndex m' ->
  m = m'.
Proof.
  intros [_ Hh _ _] (T & P & j & x & Hc & H0 & Ej & Hx & Em & Ev)
    (T' & P' & j' & x' & Hc' & H0' & Ej' & Hx' & Em' & Ev') E.
  assert (j' = j) as -> by lia. assert (x' = x) as ->.
  { destruct (committed_chain _ _ _ _ Hh _ _ _ _ H0 H0' Hc Hc') as [Hp|Hp];
      [eapply prefix_lookup_Some in Hx; [|exact Hp]|eapply prefix_lookup_Some in Hx'; [|exact Hp]];
      congruence. }
  destruct m, m'; simpl in *; congruence.
Qed.

(** Two peers of an orderly cluster have sent the same first messages. *)
Lemma orderly_history n c i j s s' l l' :
  reach n orderly c ->
  servers c !! i = Some s -> servers c !! j = Some s' ->
  l `prefix_of` applied s -> l' `prefix_of` applied s' -> (length l <= length l')%nat ->
  l `prefix_of` l'.
Proof.
  intros Hr Hi Hj Hl Hl' Hlen. destruct (reach_cinv _ _ Hr) as (g & h & Hc & Hap).
  exists (drop (length l) l'). rewrite <- (take_drop (length l) l') at 1. f_equal.
  apply list_eq. intros k. destruct (decide (k < length l)%nat) as [Hk|Hk].
  - rewrite lookup_take_lt by done. destruct (lookup_lt_is_Some_2 l k Hk) as [m Hm].
    destruct (lookup_lt_is_Some_2 l' k) as [m' Hm']; [lia|]. rewrite Hm, Hm'. f_equal.
    pose proof (prefix_lookup_Some _ _ _ _ Hm Hl) as Ha.
    pose proof (prefix_lookup_Some _ _ _ _ Hm' Hl') as Ha'.
    eapply stored_agree; [exact Hc|by eapply Forall_lookup_1; [apply (Hap j)|]
      |by eapply Forall_lookup_1; [apply (Hap i)|]|].
    rewrite (reach_index _ _ _ _ _ _ _ Hr Hi Ha). by rewrite (reach_index _ _ _ _ _ _ _ Hr Hj Ha').
  - rewrite lookup_take_ge by lia. symmetry. apply lookup_ge_None. lia.
Qed.

(** C2: state machine safety.  In the orderly executions, two messages that
    any two peers have ever sent on [applyCh] for the same index are equal:
    the replicas execute the same commands in the same order. *)
Theorem state_machine_safety n c i j s s' m m' :
  reach n orderly c -> servers c !! i = Some s -> servers c !! j = Some s' ->
  m ∈ applied s -> m' ∈ applied s' -> CommandIndex m = CommandIndex m' -> m = m'.
Proof.
  intros (g & h & Hc & Hap)%reach_cinv Hi Hj Hm Hm'. eapply stored_agree; [done| |].
  - by apply (proj1 (Forall_forall _ _) (Hap _ _ Hi)).
  - by apply (proj1 (Forall_forall _ _) (Hap _ _ Hj)).
Qed.

(** C9: leader completeness.  In the orderly executions, a leader whose
    term no peer has passed has in its log, at its index, every command any
    peer has applied. *)
Theorem leader_has_applied n c i j s s' m :
  reach n orderly c -> servers c !! i = Some s -> servers c !! j = Some s' ->
  state (rf s') = Leader ->
  (forall k t, servers c !! k = Some t -> currentTerm (rf t) <= currentTerm (rf s')) ->
  m ∈ applied s ->
  exists e, log (rf s') !! Z.to_nat (CommandIndex m) = Some e /\ le_Command e = am_Command m.
Proof.
  intros (g & h & Hc & Hap)%reach_cinv Hi Hj%rafts_lookup Hs Hmax Hm.
  pose proof (proj1 (Forall_forall _ _) (Hap _ _ Hi) _ Hm)
    as (T & P & k & x & Hcom & H0 & Ek & Hx & Em & _).
  pose proof (ci_hist _ _ _ _ _ Hc) as Hh.
  destruct (inv_leader _ _ _ _ (ci_inv _ _ _ _ _ Hc) _ _ Hj Hs) as [_ Hcn].
  assert (1 <= currentTerm (rf s')) as H1
    by (eapply inv_role; [by apply Hc|done|congruence]).
  destruct (ho_canon _ _ _ _ Hh _ _ Hcn) as (_ & _ & [?|[e He]]); [lia|].
  destruct (ho_elog _ _ _ _ Hh _ _ He) as (_ & _ & G & HG & HeG & _). simplify_eq.
  assert (P `prefix_of` log (rf s')) as HP.
  { destruct (committed_reached _ _ _ _ _ Hc _ _ Hcom) as (v & r & Hr & HT).
    apply rafts_lookup_inv in Hr as (t & Ht & ->). pose proof (Hmax _ _ Ht).
    destruct (decide (T = currentTerm (rf s'))) as [->|].
    - destruct (committed_canon _ _ _ _ Hh _ _ Hcom) as (G & HG' & ?). by simplify_eq.
    - transitivity e; [|done]. eapply leader_completeness; [done|done|done|done|lia]. }
  exists x. rewrite Ek, Nat2Z.id. split; [by eapply prefix_lookup_Some|done].
Qed.
End machine.

(** ** Witnesses *)

Definition orderly_run : Rcluster := after orderly normal_schedule.

Lemma orderly_run_reach : reach 3 orderly orderly_run.
Proof. apply after_reach. eexists. vm_compute. reflexivity. Qed.

Definition orderly_server (i : nat) : Server Z :=
  default (mkServer (boot 3 i) Sleeping MakePersister []) (servers orderly_run !! i).

(** The leader and a follower have applied the command. *)
Lemma both_applied :
  mkApplyMsg true (Some 7) 1 ∈ applied (orderly_server 0) /\
  mkApplyMsg true (Some 7) 1 ∈ applied (orderly_server 1).
Proof. split; apply list_elem_of_lookup; exists 0%nat; vm_compute; reflexivity. Qed.

Lemma state_machine_safety_witness :
  exists m m', m ∈ applied (orderly_server 0) /\ m' ∈ applied (orderly_server 1) /\ m = m'.
Proof.
  destruct both_applied as [H0 H1]. eexists _, _. split; [exact H0|]. split; [exact H1|].
  apply (state_machine_safety 3 orderly_run 0 1 (orderly_server 0) (orderly_server 1));
    [apply orderly_run_reach|vm_compute; reflexivity|vm_compute; reflexivity
    |exact H0|exact H1|reflexivity].
Defined.

Lemma leader_has_applied_witness :
  exists e, log (rf (orderly_server 0)) !! 1%nat = Some e /\ le_Command e = Some 7.
Proof.
  destruct both_applied as [_ H1].
  apply (leader_has_applied 3 orderly_run 1 0 (orderly_server 1) (orderly_server 0)
    (mkApplyMsg true (Some 7) 1));
    [apply orderly_run_reach|vm_compute; reflexivity|vm_compute; reflexivity
    |vm_compute; reflexivity| |exact H1].
  intros [|[|[|k]]] t Ht; [vm_compute in Ht; injection Ht as <-; vm_compute; discriminate..|].
  apply lookup_lt_Some in Ht. vm_compute in Ht. lia.
Defined.

(** ** The conditions are needed *)

(** Five peers.  Leader 0 of term 1 has peer 1 store 100 and 101, and the
    reply is delayed.  Leader 2 of term 2 replaces them on peer 0 by 200;
    peer 0, leader again in term 3, appends 300 and receives the reply of
    term 1, which raises its [matchIndex] for peer 1 over an entry peer 1
    does not have: 300 is committed on two peers of five, and peer 1 is
    elected in term 4 with 100 and 101. *)
Definition stale_reply_schedule : list Rlabel :=
  [ TickRead 0; TickTimeout 0; HandleRequest 0; TickRead 1; TickWake 1 0; HandleReply 0;
    HandleRequest 0; TickRead 2; TickWake 2 0; HandleReply 0; Drop 5; Drop 4; Drop 3;
    Drop 2; Drop 1; Drop 0; ClientStart 0 100; ClientStart 0 101; TickRead 0;
    TickTimeout 0; HandleRequest 0; TickRead 1; TickWake 1 0; Drop 3; Drop 2; Drop 1;
    TickRead 2; TickTimeout 2; HandleRequest 3; TickRead 3; TickWake 3 3; HandleReply 3;
    HandleRequest 3; TickRead 4; TickWake 4 3; HandleReply 3; Drop 6; Drop 5; Drop 4;
    Drop 3; Drop 2; Drop 1; ClientStart 2 200; TickRead 2; TickTimeout 2; HandleRequest 1;
    TickRead 0; TickWake 0 1; HandleReply 1; Drop 3; Drop 2; Drop 1; TickRead 0;
    TickTimeout 0; HandleRequest 3; TickRead 3; TickWake 3 3; HandleReply 3;
    HandleRequest 3; TickRead 4; TickWake 4 3; HandleReply 3; Drop 6; Drop 5; Drop 4;
    Drop 3; Drop 2; Drop 1; ClientStart 0 300; TickRead 0; TickTimeout 0; HandleRequest 2;
    TickRead 2; TickWake 2 2; HandleReply 2; Drop 3; Drop 2; Drop 1; HandleReply 0;
    TickRead 1; TickTimeout 1; Drop 3; Drop 2; Drop 1; Drop 0; TickRead 1; TickTimeout 1;
    Drop 3; Drop 2; Drop 1; Drop 0; TickRead 1; TickTimeout 1; HandleRequest 2;
    TickRead 3; TickWake 3 2; HandleReply 2; HandleRequest 2; TickRead 4; TickWake 4 2;
    HandleReply 2; Drop 5; Drop 4; Drop 3; Drop 2; Drop 1; Drop 0; ClientStart 1 400;
    TickRead 1; TickTimeout 1; HandleRequest 2; TickRead 3; TickWake 3 2; HandleReply 2;
    HandleRequest 2; TickRead 4; TickWake 4 2; HandleReply 2; Drop 1; Drop 0; TickRead 1;
    TickTimeout 1; HandleRequest 2; TickRead 3; TickWake 3 2; HandleReply 2;
    HandleRequest 2; TickRead 4; TickWake 4 2; HandleReply 2 ].

(** [sendAppendEntries] sets [matchIndex] from the arguments of the request
    it answers without comparing the term of the request with the current
    one: two peers apply different commands at the same index although every
    vote is counted in its term and no request is overtaken. *)
Theorem stale_reply_diverges :
  exists (c : Rcluster) s s' m m',
    reach 5 (fun c l => fresh_votes c l && ordered_requests c l) c /\
    servers c !! 0%nat = Some s /\ servers c !! 1%nat = Some s' /\
    m ∈ applied s /\ m' ∈ applied s' /\
    CommandIndex m = CommandIndex m' /\ am_Command m <> am_Command m'.
Proof.
  destruct (run (fun c l => fresh_votes c l && ordered_requests c l) stale_reply_schedule
    (init 5)) as [[c|]|] eqn:E; [|vm_compute in E; discriminate..].
  exists c. apply run_init_reach in E as Hr. vm_compute in E. injection E as <-.
  eexists _, _, (mkApplyMsg true (Some 200) 1), (mkApplyMsg true (Some 100) 1).
  split; [exact Hr|]. split; [reflexivity|]. split; [reflexivity|].
  split_and!; [by left|by left|done|done].
Qed.

(** The schedule of [stale_append_diverges] uses only current replies: the
    condition on requests is needed beside the other two. *)
Theorem overtaken_request_diverges :
  exists (c : Rcluster) s s' m m',
    reach 3 (fun c l => fresh_votes c l && current_replies c l) c /\
    servers c !! 0%nat = Some s /\ servers c !! 1%nat = Some s' /\
    m ∈ applied s /\ m' ∈ applied s' /\
    CommandIndex m = CommandIndex m' /\ am_Command m <> am_Command m'.
Proof.
  destruct (run (fun c l => fresh_votes c l && current_replies c l) stale_append_schedule
    (init 3)) as [[c|]|] eqn:E; [|vm_compute in E; discriminate..].
  exists c. apply run_init_reach in E as Hr. vm_compute in E. injection E as <-.
  eexists _, _, (mkApplyMsg true (Some 200) 2), (mkApplyMsg true (Some 300) 2).
  split; [exact Hr|]. split; [reflexivity|]. split; [reflexivity|].
  split_and!; [by right; left|by right; left|done|done].
Qed.
