(* ===== verification/RaftOrigin.v ===== *)
(** * raft/raft.go: where commands come from

    The commands in the logs, in the requests on their way and among what
    peers deliver were all given to [Start], and behind the dummy entry of a
    log there is no other without a command. *)

From Stdlib Require Import ZArith Lia.
From stdpp Require Import base numbers strings gmap list.
From S2P Require Import Prelude Persister RaftNode RaftNodeFacts RaftCluster RaftWf RaftHandlers RaftHistory.
Local Open Scope Z_scope.

Section origin.
Context {Cmd : Type} `{Gob Cmd} (P : Cmd -> Prop).
Implicit Types (r : Raft Cmd) (c : Cluster Cmd) (s : Server Cmd).

Definition command_ok (o : option Cmd) : Prop := exists x, o = Some x /\ P x.
Definition entry_ok (e : LogEntry Cmd) : Prop := command_ok (le_Command e).
Definition log_ok r : Prop := Forall entry_ok (drop 1 (log r)).
Definition delivered_from (ms : list (ApplyMsg Cmd)) : Prop := Forall (fun m => command_ok (am_Command m)) ms.

Definition request_ok (m : rpc Cmd) : Prop :=
  match m with RV _ _ _ _ => True | AE _ _ a _ => Forall entry_ok (aea_Entries a) end.

Definition server_ok s : Prop := log_ok (rf s) /\ delivered_from (applied s).

Record origin c : Prop := {
  or_servers : Forall server_ok (servers c);
  or_net : Forall request_ok (net c);
}.

(** The steps after which commands still come from [P]. *)
Definition given (l : label Cmd) : Prop :=
  match l with ClientStart _ x => P x | Restart _ => False | _ => True end.

Lemma log_ok_same r r' : log r' = log r -> log_ok r -> log_ok r'.
Proof. unfold log_ok. by intros ->. Qed.

Lemma delivered_nil : delivered_from [].
Proof. constructor. Qed.
#[local] Hint Resolve delivered_nil Forall_nil_2 : core.

Lemma applyLoop_origin fuel i r r' ms :
  1 <= i -> applyLoop fuel i r = Ok (r', ms) -> log_ok r -> log_ok r' /\ delivered_from ms.
Proof.
  revert i r ms. induction fuel as [|fuel IH]; intros i r ms Hi; simpl;
    (destruct (i <=? commitIndex r); [|intros HR Hl; go_inv; split; [done|constructor]]); [done|].
  intros HR Hl. go_inv. destruct a0 as [r1 ms1]. go_inv.
  assert (1 <= i + 1) as Hi1 by lia. destruct (IH _ _ _ Hi1 Ha0 Hl) as [Hl' Hms]. split; [done|]. constructor; [|done].
  apply index_Ok in Ha as [_ Ha].
  apply (Forall_lookup_1 _ _ (Z.to_nat i - 1) a Hl). rewrite lookup_drop.
  by replace (1 + (Z.to_nat i - 1))%nat with (Z.to_nat i) by lia.
Qed.

Lemma log_ok_app r r' l (k : nat) :
  log r <> [] -> log_ok r -> Forall entry_ok l -> log r' = take (S k) (log r) ++ l -> log_ok r'.
Proof.
  unfold log_ok. intros Hne Hl Hk ->. destruct (log r) as [|e0 rest]; [done|].
  change (Forall entry_ok (drop 0 rest)) in Hl. change (Forall entry_ok (drop 0 (take k rest ++ l))).
  rewrite drop_0 in Hl |- *. apply Forall_app. split; [by apply Forall_take|done].
Qed.

Lemma AppendEntries_origin r a r' reply ms :
  log r <> [] -> 0 <= lastApplied r ->
  AppendEntries r a = Ok (r', reply, ms) -> log_ok r -> Forall entry_ok (aea_Entries a) ->
  log_ok r' /\ delivered_from ms.
Proof.
  intros Hne Hla HR Hl Ha. apply AppendEntries_outcome in HR.
  pose proof (log_ok_same _ _ (observe_term_log (aea_Term a) r) Hl) as Ho.
  destruct HR as [?|? ?|e ? ? ? ?|e r' ms ? ? ? ? l r1 Hd].
  - done.
  - done.
  - split; [|done]. unfold log_ok in *. simpl.
    rewrite skipn_firstn_comm. by apply Forall_take.
  - assert (log_ok r1) as Hr1 by (eapply (log_ok_app r _ (aea_Entries a)); [exact Hne|exact Hl|exact Ha|reflexivity]).
    destruct Hd as [(_ & -> & ->)|[_ Hc]]; [done|].
    eapply applyLoop_origin; [|exact Hc|done].
    destruct (observe_term_static (aea_Term a) r) as (_ & _ & _ & E & _). simpl. lia.
Qed.

Lemma commitLoop_origin fuel N r r' ms :
  0 <= lastApplied r -> commitLoop fuel N r = Ok (r', ms) -> log_ok r -> log_ok r' /\ delivered_from ms.
Proof.
  intros Hla. revert N. induction fuel as [|fuel IH]; intros N; simpl;
    (destruct (commitIndex r <=? N); [|intros HR Hl; go_inv; split; [done|constructor]]); [done|].
  intros HR Hl. go_inv. destruct (_ && _) in HR; [|by eapply IH].
  eapply applyLoop_origin; [|exact HR|done]. simpl. lia.
Qed.

Lemma sendAppendEntries_origin r server a reply r' ms :
  0 <= lastApplied r -> sendAppendEntries r server a (Some reply) = Ok (r', ms) -> log_ok r -> log_ok r' /\ delivered_from ms.
Proof.
  intros Hla HR Hl. apply sendAppendEntries_outcome in HR.
  destruct HR as [| | |r1 r' ms ? ? ? E Hc]; try done.
  eapply commitLoop_origin; [|exact Hc|]; subst r1.
  { by destruct (aer_Success reply). }
  by destruct (aer_Success reply).
Qed.

Lemma heartBeat_origin r p a :
  Forall (fun x => 1 <= x) (nextIndex r) -> heartBeatArgs r p = Ok a -> log_ok r -> Forall entry_ok (aea_Entries a).
Proof.
  unfold heartBeatArgs. intros Hni HR Hl. go_inv. destruct (_ <? _); go_inv; [|constructor].
  apply index_Ok in Ha as [_ Ha]. apply (Forall_lookup_1 _ _ _ _ Hni) in Ha. simpl in Ha.
  unfold slice_from in Ha1. case_decide; go_inv. simpl.
  replace (Z.to_nat a0) with (1 + (Z.to_nat a0 - 1))%nat by lia. rewrite <- drop_drop. by apply Forall_drop.
Qed.

Lemma collect_Forall {A B} (f : A -> result B) (Q : B -> Prop) l ys :
  (forall x y, f x = Ok y -> Q y) -> collect f l = Ok ys -> Forall Q ys.
Proof.
  intros Hf. revert ys. induction l as [|x l IH]; intros ys; simpl; intros HR; go_inv; [constructor|].
  constructor; [by eapply Hf|by apply IH].
Qed.

Lemma ae_calls_ok i calls :
  Forall (fun pa => Forall entry_ok (aea_Entries (snd pa))) calls -> Forall request_ok (ae_calls i calls).
Proof. intros Hc. apply Forall_fmap. eapply Forall_impl; [exact Hc|]. by intros [p a]. Qed.

Lemma rv_calls_ok i calls : Forall request_ok (rv_calls (Cmd := Cmd) i calls).
Proof. apply Forall_fmap, Forall_true. by intros [p a]. Qed.

Lemma timeout_origin n i s read s' calls :
  wf_server n i s -> ticker_timeout i s read = Ok (s', calls) -> server_ok s -> server_ok s' /\ Forall request_ok calls.
Proof.
  intros [Hw _] HR [Hl Hd]. destruct read; simpl in HR; go_inv; [|destruct a as [r' cs]; go_inv..].
  - split; [done|]. apply ae_calls_ok. unfold sendHeartBeats in Ha.
    destruct (decide _) as [|Hs]; go_inv; [constructor|]. apply dec_stable in Hs.
    eapply collect_Forall; [|exact Ha]. intros p [p' x] E. simpl. go_inv.
    eapply heartBeat_origin; [by apply (wf_leader _ _ _ Hw Hs)|done..].
  - split; [split; [|done]|apply rv_calls_ok]. unfold becomeCandidate in Ha. by go_inv.
  - split; [split; [|done]|apply rv_calls_ok]. unfold becomeCandidate in Ha. by go_inv.
Qed.

Lemma wf_log_nonempty n i r : wf_raft n i r -> log r <> [].
Proof. intros Hw E. destruct (wf_log0 _ _ _ Hw) as (e & He & _). by rewrite E in He. Qed.

Lemma request_origin n i s m s' m' :
  wf_server n i s -> handle_request s m = Some (Ok (s', m')) -> server_ok s -> request_ok m -> server_ok s' /\ request_ok m'.
Proof.
  intros [Hw _] HR [Hl Hd] Hm. destruct m as [src dst a [| |]|src dst a [| |]]; simpl in HR; go_inv.
  - destruct a0 as [r' reply]. go_inv. split; [|done]. split; [|done].
    apply RequestVote_outcome in Ha. eapply log_ok_same, Hl. simpl.
    destruct Ha; simpl; (done || by rewrite ?observe_term_log).
  - destruct a0 as [[r' reply] ms]. go_inv. destruct (AppendEntries_origin _ _ _ _ _ (wf_log_nonempty _ _ _ Hw) (wf_applied _ _ _ Hw) Ha Hl Hm) as [Hl' Hms].
    split; [|done]. split; [done|]. by apply Forall_app.
Qed.

Lemma reply_origin n i s m s' calls :
  wf_server n i s -> handle_reply i s m = Some (Ok (s', calls)) -> server_ok s -> server_ok s' /\ Forall request_ok calls.
Proof.
  intros [Hw _] HR [Hl Hd]. destruct m as [src dst a [| |reply]|src dst a [| |reply]]; cbn [handle_reply] in HR; go_inv.
  - destruct (sendRequestVote (rf s) (Some reply)) as [r' cs] eqn:Er. go_inv.
    apply sendRequestVote_outcome in Er. split.
    + split; [|done]. eapply log_ok_same, Hl. by destruct Er.
    + apply ae_calls_ok. destruct Er; try constructor.
      apply Forall_fmap, Forall_true. intros p. constructor.
  - destruct a0 as [r' ms]. go_inv. destruct (sendAppendEntries_origin _ _ _ _ _ _ (wf_applied _ _ _ Hw) Ha Hl) as [Hl' Hms].
    split; [|constructor]. split; [done|]. by apply Forall_app.
Qed.

Lemma origin_put c i s nt :
  origin c -> server_ok s -> Forall request_ok nt -> origin (put i s c nt).
Proof. intros [Hs _] Ho Hn. split; [|done]. simpl. by apply Forall_insert. Qed.

Lemma origin_step n l c c' : wf_cluster n c -> origin c -> given l -> step l c = Some (Ok c') -> origin c'.
Proof.
  intros [_ Hwf _] Ho Hg Hst. destruct Ho as [Hs Hn] eqn:Eo. clear Eo.
  assert (forall i s, servers c !! i = Some s -> server_ok s) as Hsi
    by (intros i s; by apply Forall_lookup_1).
  assert (forall k m, net c !! k = Some m -> request_ok m) as Hni
    by (intros k m; by apply Forall_lookup_1).
  destruct l as [j|j|j k|k|k|k|j cmd|j]; cbn [step] in Hst; [..|done].
  - apply bind_Some in Hst as (t & Ht & Hst). case_decide; go_inv. apply origin_put; [done| |done].
    exact (Hsi _ _ Ht).
  - apply bind_Some in Hst as (t & Ht & Hst). destruct (pc t) as [|read]; go_inv.
    destruct a as [t' calls]. go_inv. destruct (timeout_origin _ _ _ _ _ _ (Hwf _ _ Ht) Ha (Hsi _ _ Ht)) as [H1 H2].
    apply origin_put; [done|done|]. by apply Forall_app.
  - apply bind_Some in Hst as (t & Ht & Hst). apply bind_Some in Hst as (m & Hm & Hst).
    destruct (pc t) as [|read]; [done|]. apply bind_Some in Hst as (m' & Hm' & Hst). go_inv.
    apply origin_put; [done|exact (Hsi _ _ Ht)|]. apply Forall_insert; [done|].
    specialize (Hni _ _ Hm). destruct m as [? ? ? []|? ? ? []]; simpl in Hm'; try done;
      case_decide; go_inv; exact Hni.
  - apply bind_Some in Hst as (m & Hm & Hst). apply bind_Some in Hst as (t & Ht & Hst).
    apply bind_Some in Hst as (r & Hr & Hst). go_inv. destruct a as [t' m']. go_inv.
    destruct (request_origin _ _ _ _ _ _ (Hwf _ _ Ht) Hr (Hsi _ _ Ht) (Hni _ _ Hm)) as [H1 H2].
    apply origin_put; [done|done|]. by apply Forall_insert.
  - apply bind_Some in Hst as (m & Hm & Hst). apply bind_Some in Hst as (t & Ht & Hst).
    apply bind_Some in Hst as (r & Hr & Hst). go_inv. destruct a as [t' calls]. go_inv.
    destruct (reply_origin _ _ _ _ _ _ (Hwf _ _ Ht) Hr (Hsi _ _ Ht)) as [H1 H2].
    apply origin_put; [done|done|]. apply Forall_app. split; [by apply Forall_delete|done].
  - apply bind_Some in Hst as (m & Hm & Hst). destruct (droppable m); go_inv.
    split; [done|]. by apply Forall_delete.
  - apply bind_Some in Hst as (t & Ht & Hst). go_inv. destruct a as [r' x]. go_inv.
    apply origin_put; [done| |done]. destruct (Hsi _ _ Ht) as [Hl Hd]. split; [|done]. simpl.
    unfold Start in Ha. destruct (decide _); go_inv; [done|]. simpl.
    pose proof (wf_log_nonempty _ _ _ (wf_server_rf _ _ _ (Hwf _ _ Ht))) as Hne.
    eapply (log_ok_app (rf t) _ [mkLogEntry (currentTerm (rf t)) (Some cmd)] (length (log (rf t)))); [done|done| |].
    + constructor; [|constructor]. by exists cmd.
    + simpl. by rewrite take_ge by lia.
Qed.

Lemma origin_init n : origin (init n).
Proof.
  split; [|constructor]. apply Forall_fmap, Forall_true. intros i. split; constructor.
Qed.

End origin.

(** A weaker condition on commands. *)
Lemma origin_impl {Cmd} `{Gob Cmd} (P Q : Cmd -> Prop) c :
  (forall x, P x -> Q x) -> origin P c -> origin Q c.
Proof.
  intros HPQ [Hs Hn].
  assert (forall l, Forall (entry_ok P) l -> Forall (entry_ok Q) l) as Hl.
  { intros l Hl. eapply Forall_impl; [exact Hl|]. intros e (x & Hx & Hp). exists x. auto. }
  split; (eapply Forall_impl; [eassumption|]).
  - intros s [H1 H2]. split; [by apply Hl|]. eapply Forall_impl; [exact H2|].
    intros m (x & Hx & Hp). exists x. auto.
  - intros [|src dst a ph]; [done|]. apply Hl.
Qed.
