(* ===== verification/Harness.v ===== *)
(** * raft/config.go and raft-lock/config.go: what the two testers share

    Both testers give every server a set of client ends with random names,
    one per peer, and attach and detach servers by enabling and disabling
    ends of the simulated network.  The state they keep about it is a table
    of end names; the model of the network is [Labrpc]. *)

From Stdlib Require Import ZArith Lia Strings.Byte Ascii.
From stdpp Require Import base numbers strings gmap list.
From S2P Require Import Prelude Labrpc.
Local Open Scope Z_scope.

(** The names in the network's tables are Go interface values: the strings
    of [randstring] for ends, the server's number, or a client's identifier,
    three different dynamic types. *)
Inductive netName := End (s : string) | Peer (i : nat) | Client (id : Z).

#[export] Instance netName_eq_dec : EqDecision netName.
Proof. solve_decision. Defined.

#[export] Instance netName_countable : Countable netName.
Proof.
  refine (inj_countable'
    (fun x => match x with End s => inl s | Peer i => inr (inl i) | Client z => inr (inr z) end)
    (fun x => match x with inl s => End s | inr (inl i) => Peer i | inr (inr z) => Client z end) _).
  by intros [].
Defined.

Abbreviation Net := (Network (Name := netName)).

(** ** randstring *)

(** [base64.URLEncoding]: the alphabet, the groups of three bytes, padding. *)
Definition urlDigit (x : N) : ascii :=
  ascii_of_N
    (if (x <? 26)%N then 65 + x
     else if (x <? 52)%N then 71 + x
     else if (x <? 62)%N then x - 4
     else if (x =? 62)%N then 45 else 95)%N.

Fixpoint base64URL (b : bytes) : string :=
  match b with
  | [] => ""
  | [x] =>
    let v := (65536 * to_N x)%N in
    String (urlDigit (v / 262144)) (String (urlDigit ((v / 4096) mod 64)) "==")
  | [x; y] =>
    let v := (65536 * to_N x + 256 * to_N y)%N in
    String (urlDigit (v / 262144)) (String (urlDigit ((v / 4096) mod 64))
      (String (urlDigit ((v / 64) mod 64)) "="))
  | x :: y :: z :: b =>
    let v := (65536 * to_N x + 256 * to_N y + to_N z)%N in
    String (urlDigit (v / 262144)) (String (urlDigit ((v / 4096) mod 64))
      (String (urlDigit ((v / 64) mod 64)) (String (urlDigit (v mod 64)) (base64URL b))))
  end.

(** [b]: the 2n bytes that [crand.Read] fills in. *)
Definition randstring (n : nat) (b : bytes) : result string :=
  let s := base64URL b in
  if (n <=? String.length s)%nat then Ok (String.substring 0 n s) else Panic SliceOutOfRange.

(** The characters of the URL-safe alphabet, without the padding. *)
Definition urlChar (c : ascii) : bool :=
  let x := N_of_ascii c in
  ((65 <=? x) && (x <=? 90) || (97 <=? x) && (x <=? 122) || (48 <=? x) && (x <=? 57) ||
   (x =? 45) || (x =? 95))%N.

Lemma urlDigit_char x : (x < 64)%N -> urlChar (urlDigit x) = true.
Proof.
  intros Hx.
  assert (Forall (fun i => urlChar (urlDigit (N.of_nat i)) = true) (seq 0 64)) as Hall
    by (vm_compute; repeat constructor).
  rewrite Forall_forall in Hall. specialize (Hall (N.to_nat x)). rewrite N2Nat.id in Hall.
  apply Hall, elem_of_seq. lia.
Qed.

Lemma digit_char x y : (y <> 0)%N -> (x < 64 * y)%N -> urlChar (urlDigit (x / y)) = true.
Proof. intros. apply urlDigit_char. apply N.Div0.div_lt_upper_bound. lia. Qed.

Lemma mod_char x : urlChar (urlDigit (x mod 64)) = true.
Proof. apply urlDigit_char. apply N.mod_lt. lia. Qed.

(** The first [n] characters exist and are all of the alphabet. *)
Definition url_prefix (n : nat) (s : string) : Prop :=
  (n <= String.length s)%nat /\ String.length (String.substring 0 n s) = n /\
  Forall (fun c => urlChar c = true) (String.list_ascii_of_string (String.substring 0 n s)).

Lemma url_prefix_0 s : url_prefix 0 s.
Proof. destruct s; split_and!; simpl; try constructor; lia. Qed.

Lemma url_prefix_S n c s : urlChar c = true -> url_prefix n s -> url_prefix (S n) (String c s).
Proof. intros Hc (Hl & E & Hall). split_and!; simpl; [lia|by rewrite E|by constructor]. Qed.

(** The encoding has at least a digit per byte, and the digits come first. *)
Lemma base64URL_prefix n b : (n <= length b)%nat -> url_prefix n (base64URL b).
Proof.
  assert (forall m n b, (length b <= m)%nat -> (n <= length b)%nat -> url_prefix n (base64URL b))
    as Hgen; [|by apply (Hgen (length b))].
  clear n b. induction m as [|m IH]; intros n b Hm Hn.
  { replace n with 0%nat by lia. apply url_prefix_0. }
  destruct b as [|x [|y [|z b]]]; cbn [base64URL]; simpl in Hm, Hn.
  all: try pose proof (to_N_bounded x); try pose proof (to_N_bounded y); try pose proof (to_N_bounded z).
  all: repeat (destruct n as [|n]; [apply url_prefix_0|];
    apply url_prefix_S; [first [apply mod_char|apply digit_char; lia]|]); try lia.
  - replace n with 0%nat by lia. apply url_prefix_0.
  - apply IH; lia.
Qed.

(** The names of the client ends.  From 2n random bytes, [randstring]
    always slices within its string and returns exactly n characters, all of
    the URL-safe alphabet and none of them padding. *)
Theorem randstring_chars n b :
  length b = (2 * n)%nat ->
  exists s, randstring n b = Ok s /\ String.length s = n /\
    Forall (fun c => urlChar c = true) (String.list_ascii_of_string s).
Proof.
  intros Hb. destruct (base64URL_prefix n b) as (Hl & E & Hall); [lia|].
  unfold randstring. rewrite (proj2 (Nat.leb_le _ _) Hl). by eexists.
Qed.

Lemma randstring_chars_witness :
  randstring 3 [x00; x10; x83; xff; xfe; xfd] = Ok "ABC" /\
  exists s, randstring 3 [x00; x10; x83; xff; xfe; xfd] = Ok s /\ String.length s = 3%nat.
Proof.
  split; [reflexivity|].
  destruct (randstring_chars 3 [x00; x10; x83; xff; xfe; xfd] eq_refl) as (s & E & El & _).
  exists s. split; assumption.
Defined.

(** ** Client ends *)

(** The loops that make an end per name and connect the j-th to server j. *)
Definition make_ends (names : list string) (net : Net) : result Net :=
  for_each (fun '(j, e) net => net ← MakeEnd net (End e); Ok (Connect net (End e) (Peer j)))
    (imap pair names) net.

(** A loop that enables or disables the ends it picks. *)
Definition enable_each (pick : nat -> result (option string)) (b : bool) (l : list nat) (net : Net)
    : result Net :=
  for_each (fun j net =>
    o ← pick j;
    match o with Some e => Ok (Enable net (End e) b) | None => Ok net end) l net.

(** [endnames[i][j]], where row [i] may be nil. *)
Definition row (endnames : list (option (list string))) (i : nat) : result (list string) :=
  r ← at_ endnames i; match r with Some names => Ok names | None => Panic IndexOutOfRange end.

Definition end_at (endnames : list (option (list string))) (i j : nat) : result string :=
  names ← row endnames i; at_ names j.

(** The table as a partial function. *)
Definition end_of (endnames : list (option (list string))) (i j : nat) : option string :=
  names ← mjoin (endnames !! i); names !! j.

Lemma row_Ok en i names : row en i = Ok names <-> en !! i = Some (Some names).
Proof.
  unfold row. rewrite result_bind_Ok. split.
  - intros (o & Ho%at_Ok & E). destruct o; by simplify_eq.
  - intros E%at_Ok. by exists (Some names).
Qed.

Lemma end_at_Ok en i j e : end_at en i j = Ok e <-> end_of en i j = Some e.
Proof.
  unfold end_at, end_of. rewrite result_bind_Ok. split.
  - intros (names & Hr%row_Ok & He%at_Ok). rewrite Hr. by simpl.
  - intros (names & Hr & He)%bind_Some. exists names. rewrite row_Ok, at_Ok. split; [|done].
    destruct (en !! i) as [[x|]|]; by simplify_eq/=.
Qed.

Lemma end_of_insert en i names i' j :
  (i < length en)%nat ->
  end_of (<[i := Some names]> en) i' j = if decide (i' = i) then names !! j else end_of en i' j.
Proof.
  intros Hi. unfold end_of. case_decide as E.
  - subst. by rewrite list_lookup_insert_eq.
  - by rewrite list_lookup_insert_ne.
Qed.

(** ** What the loops do to the network *)

Lemma enabled_Enable (net : Net) e b x :
  is_enabled (Enable net e b) x = if decide (x = e) then b else is_enabled net x.
Proof.
  unfold is_enabled, Enable. simpl. case_decide; subst.
  - by rewrite lookup_insert_eq.
  - by rewrite lookup_insert_ne by congruence.
Qed.

(** The network up to the enabling of ends. *)
Definition same_links (net net' : Net) : Prop :=
  ends net' = ends net /\ servers net' = servers net /\ connections net' = connections net.

Lemma same_links_trans net1 net2 net3 :
  same_links net1 net2 -> same_links net2 net3 -> same_links net1 net3.
Proof. unfold same_links. intros (? & ? & ?) (? & ? & ?). split_and!; congruence. Qed.

(** The ends a loop picks. *)
Definition picked (pick : nat -> result (option string)) (l : list nat) : list netName :=
  omap (fun j => match pick j with Ok (Some e) => Some (End e) | _ => None end) l.

Lemma elem_of_picked pick l x :
  x ∈ picked pick l <-> exists j e, j ∈ l /\ pick j = Ok (Some e) /\ x = End e.
Proof.
  unfold picked. rewrite list_elem_of_omap. split.
  - intros (j & Hj & E). destruct (pick j) as [[e|]|] eqn:Ep; simplify_eq. by exists j, e.
  - intros (j & e & Hj & Ep & ->). exists j. by rewrite Ep.
Qed.

Lemma enable_each_spec pick b l net net' :
  enable_each pick b l net = Ok net' ->
  same_links net net' /\
  (forall j, j ∈ l -> exists o, pick j = Ok o) /\
  (forall x, is_enabled net' x = if decide (x ∈ picked pick l) then b else is_enabled net x).
Proof.
  unfold enable_each.
  apply (for_each_ind (fun l net' => same_links net net' /\
    (forall j, j ∈ l -> exists o, pick j = Ok o) /\
    (forall x, is_enabled net' x = if decide (x ∈ picked pick l) then b else is_enabled net x)) _ l net net').
  { split_and!; try done. set_solver. }
  intros pre j post n1 n2 _ (Hs & Hp & He) Hb.
  apply result_bind_Ok in Hb as (o & Ho & Hb). split_and!.
  - destruct o; simplify_eq; [|done]. by destruct Hs as (? & ? & ?).
  - intros k [Hk| ->%list_elem_of_singleton]%elem_of_app; [by apply Hp|by exists o].
  - intros x. unfold picked. rewrite omap_app. simpl. rewrite Ho.
    destruct o as [e|]; simplify_eq; [|by rewrite app_nil_r].
    rewrite enabled_Enable, He. unfold picked. repeat case_decide; set_solver.
Qed.

Lemma enable_each_total pick b l net :
  (forall j, j ∈ l -> exists o, pick j = Ok o) -> exists net', enable_each pick b l net = Ok net'.
Proof.
  unfold enable_each. revert net. induction l as [|j l IH]; intros net Hp; simpl; [by eexists|].
  destruct (Hp j) as [o ->]; [set_solver|]. destruct o; go_run; apply IH; set_solver.
Qed.

(** Ends made afresh are disabled, were not there before, and are connected
    to the server of their position; nothing else changes. *)
Record ends_made (names : list string) (net net' : Net) : Prop := {
  em_ends : ends net' = list_to_set (End <$> names) ∪ ends net;
  em_new : Forall (fun e => End e ∉ ends net) names;
  em_nodup : NoDup names;
  em_servers : servers net' = servers net;
  em_enabled x : is_enabled net' x = if decide (x ∈ End <$> names) then false else is_enabled net x;
  em_connection j e : names !! j = Some e -> connection net' (End e) = Some (Peer j);
  em_others x : x ∉ End <$> names -> connection net' x = connection net x;
}.

Lemma MakeEnd_spec (net : Net) x net' :
  MakeEnd net x = Ok net' ->
  (x ∉ ends net) /\ ends net' = {[x]} ∪ ends net /\ servers net' = servers net /\
  (forall y, is_enabled net' y = if decide (y = x) then false else is_enabled net y) /\
  (forall y, connection net' y = if decide (y = x) then None else connection net y).
Proof.
  unfold MakeEnd. case_bool_decide as Hin; [done|]. intros [= <-]. split_and!; [done..| |].
  - intros y. unfold is_enabled. simpl. case_decide; subst;
      [by rewrite lookup_insert_eq|by rewrite lookup_insert_ne by congruence].
  - intros y. unfold connection. simpl. case_decide; subst;
      [by rewrite lookup_insert_eq|by rewrite lookup_insert_ne by congruence].
Qed.

Lemma Connect_connection (net : Net) x n y :
  connection (Connect net x n) y = if decide (y = x) then Some n else connection net y.
Proof.
  unfold connection, Connect. simpl. case_decide; subst;
    [by rewrite lookup_insert_eq|by rewrite lookup_insert_ne by congruence].
Qed.

Lemma ends_made_nil net : ends_made [] net net.
Proof.
  constructor; simpl; try done; try constructor. set_solver.
Qed.

Lemma ends_made_snoc names e net net1 net2 :
  ends_made names net net1 -> MakeEnd net1 (End e) = Ok net2 ->
  ends_made (names ++ [e]) net (Connect net2 (End e) (Peer (length names))).
Proof.
  intros [He Hnew Hnd Hs Hen Hc Ho] (Hni & He2 & Hs2 & Hen2 & Hc2)%MakeEnd_spec.
  assert (e ∉ names) as Hfresh by set_solver. constructor.
  - simpl. rewrite He2, He, fmap_app, list_to_set_app_L. set_solver.
  - apply Forall_app. split; [done|]. constructor; [set_solver|done].
  - apply NoDup_app. split_and!; [done|set_solver|apply NoDup_singleton].
  - simpl. congruence.
  - intros x. change (is_enabled (Connect net2 _ _) x) with (is_enabled net2 x).
    rewrite Hen2, Hen, fmap_app. repeat case_decide; set_solver.
  - intros j e' Hj. rewrite Connect_connection. apply lookup_app_Some in Hj as [Hj|[Hle Hj]].
    + rewrite decide_False, Hc2, decide_False; [by apply Hc|..];
        intros [= ->]; apply Hfresh; by eapply list_elem_of_lookup_2.
    + apply list_lookup_singleton_Some in Hj as [E <-]. rewrite decide_True by done.
      do 2 f_equal. lia.
  - intros x Hx. rewrite fmap_app in Hx. rewrite Connect_connection, decide_False, Hc2, decide_False by set_solver.
    apply Ho. set_solver.
Qed.

Lemma imap_pair_snoc {A} (pre : list A) x : imap pair (pre ++ [x]) = imap pair pre ++ [(length pre, x)].
Proof. rewrite imap_app. simpl. by rewrite Nat.add_0_r. Qed.

Lemma imap_pair_snd {A} (l : list A) : snd <$> imap pair l = l.
Proof.
  apply list_eq. intros i. rewrite list_lookup_fmap, list_lookup_imap. by destruct (l !! i).
Qed.

Lemma make_ends_spec names net net' : make_ends names net = Ok net' -> ends_made names net net'.
Proof.
  unfold make_ends. intros HR.
  cut (exists pre, imap pair names = imap pair pre /\ ends_made pre net net').
  { intros (pre & E & Hm). assert (names = pre) as ->; [|done].
    rewrite <- (imap_pair_snd names), <- (imap_pair_snd pre). by rewrite E. }
  revert HR. apply (for_each_ind (fun l n => exists pre, l = imap pair pre /\ ends_made pre net n)).
  { exists []. split; [done|apply ends_made_nil]. }
  intros l [j e] post n1 n2 E (pre & -> & Hm) Hb. apply result_bind_Ok in Hb as (n3 & Hb & [= <-]).
  assert (j = length pre) as ->.
  { apply (f_equal (fun l => fst <$> l !! length pre)) in E.
    rewrite list_lookup_imap, lookup_app_r, length_imap, Nat.sub_diag in E by (by rewrite length_imap).
    simpl in E. destruct (names !! length pre); by simplify_eq/=. }
  exists (pre ++ [e]). rewrite imap_pair_snoc. split; [done|]. by eapply ends_made_snoc.
Qed.
