(* ===== verification/RaftConfig.v ===== *)
(** * raft/config.go: the tester of the Raft peers

    The tester starts, crashes, connects and disconnects peers, keeps the
    persister each of them saves into, and records what they apply.  Its
    [config] struct is split by what the parts are about: [Links] (the
    network and the end names), [Store] (the instances of [Raft] and the
    persisters, which are shared through pointers: an index into a heap), and
    [Tally] (what was applied).  Random strings, elapsed time and the moments
    at which goroutines are observed are arguments. *)

From Stdlib Require Import ZArith Lia.
From stdpp Require Import base numbers strings gmap list.
From S2P Require Import Prelude Persister RaftNode Labrpc Harness.
Local Open Scope Z_scope.

(** ** The network *)

Record Links := mkLinks {
  net : Net;
  connected : list bool;
  endnames : list (option (list string));
  srv_heap : list Server;
}.

(** The ends of the loops: the ones whose other side is connected, and the
    ones of a server that has been started. *)
Definition to_connected (c : list bool) (en : list (option (list string))) (i j k : nat)
    : result (option string) :=
  on ← at_ c k;
  match on with true => e ← end_at en i j; Ok (Some e) | false => Ok None end.

Definition if_started (en : list (option (list string))) (i j : nat) : result (option string) :=
  r ← at_ en i;
  match r with Some names => e ← at_ names j; Ok (Some e) | None => Ok None end.

Definition connect (n i : nat) (L : Links) : result Links :=
  c ← put_at (connected L) i true;
  rn ← enable_each (fun j => to_connected c (endnames L) i j j) true (seq 0 n) (net L);
  rn ← enable_each (fun j => to_connected c (endnames L) j i j) true (seq 0 n) rn;
  Ok (mkLinks rn c (endnames L) (srv_heap L)).

Definition disconnect (n i : nat) (L : Links) : result Links :=
  c ← put_at (connected L) i false;
  rn ← enable_each (fun j => if_started (endnames L) i j) false (seq 0 n) (net L);
  rn ← enable_each (fun j => if_started (endnames L) j i) false (seq 0 n) rn;
  Ok (mkLinks rn c (endnames L) (srv_heap L)).

(** What [reflect] finds of a [*Raft]: its exported methods.  [MakeService]
    keeps the two that look like RPC handlers. *)
Definition raft_service : Service :=
  MakeService "Raft"
    [mkMethod "AppendEntries" "" [true; true; true] 0;
     mkMethod "GetState" "" [true] 2;
     mkMethod "Kill" "" [true] 0;
     mkMethod "RequestVote" "" [true; true; true] 0;
     mkMethod "Start" "" [true; false] 3].

(** The part of [crash1] about the network. *)
Definition crash_links (n i : nat) (L : Links) : result Links :=
  L ← disconnect n i L;
  Ok (mkLinks (DeleteServer (net L) (Peer i)) (connected L) (endnames L) (srv_heap L)).

(** The ends [start1] makes for a new instance; [rnd j]: the j-th string. *)
Definition start_ends (n i : nat) (rnd : nat -> string) (L : Links) : result Links :=
  let names := rnd <$> seq 0 n in
  en ← put_at (endnames L) i (Some names);
  rn ← make_ends names (net L);
  Ok (mkLinks rn (connected L) en (srv_heap L)).

(** The server [start1] adds for it. *)
Definition start_server (i : nat) (L : Links) : Links :=
  let srv := AddService MakeServer raft_service in
  mkLinks (AddServer (net L) (Peer i) (length (srv_heap L))) (connected L) (endnames L)
    (srv_heap L ++ [srv]).

Section config.
Context {Cmd : Type} `{EqDecision Cmd} `{Gob Cmd}.

(** ** Instances and persisters *)

(** One run of [Make], with the channel that stops its applier. *)
Record Instance := mkInstance { raft : Raft Cmd; persister : nat; stopped : bool }.

Record Store := mkStore {
  ps_heap : list Persister;
  instances : list Instance;
  rafts : list (option nat);
  saved : list (option nat);
  stopCh : list (option nat);
}.

Definition deref {A} (heap : list A) (p : option nat) : result A :=
  match p ≫= (heap !!.) with Some x => Ok x | None => Panic NilDereference end.

(** [cfg.saved[i] = ] a new persister. *)
Definition save_new (i : nat) (ps : Persister) (S : Store) : result Store :=
  sv ← put_at (saved S) i (Some (length (ps_heap S)));
  Ok (mkStore (ps_heap S ++ [ps]) (instances S) (rafts S) sv (stopCh S)).

(** [if cfg.saved[i] != nil { cfg.saved[i] = f(cfg.saved[i]) } else { other }] *)
Definition resave (i : nat) (f : Persister -> Persister) (other : option Persister) (S : Store)
    : result Store :=
  p ← at_ (saved S) i;
  match p with
  | Some _ => ps ← deref (ps_heap S) p; save_new i (f ps) S
  | None => match other with Some ps => save_new i ps S | None => Ok S end
  end.

(** [close(cfg.stopCh[i]); rf.Kill(); cfg.rafts[i] = nil] *)
Definition stop_instance (i k : nat) (S : Store) : result Store :=
  c ← at_ (stopCh S) i;
  match c with
  | None => Panic (PanicMsg "close of nil channel")
  | Some ch =>
    inst ← deref (instances S) (Some ch);
    if stopped inst then Panic (PanicMsg "close of closed channel")
    else
      let l := <[ch := mkInstance (raft inst) (persister inst) true]> (instances S) in
      rf ← deref l (Some k);
      let l := <[k := mkInstance (Kill (raft rf)) (persister rf) (stopped rf)]> l in
      r ← put_at (rafts S) i None;
      Ok (mkStore (ps_heap S) l r (saved S) (stopCh S))
  end.

(** The rest of [crash1]. *)
Definition crash_store (i : nat) (S : Store) : result Store :=
  S ← resave i Copy None S;
  r ← at_ (rafts S) i;
  S ← match r with Some k => stop_instance i k S | None => Ok S end;
  resave i (fun ps => SaveStateAndSnapshot MakePersister (ReadRaftState ps) (ReadSnapshot ps)) None S.

(** The rest of [start1]: a persister, a channel and an instance. *)
Definition start_store (n i : nat) (S : Store) : result Store :=
  S ← resave i Copy (Some MakePersister) S;
  let k := length (instances S) in
  sc ← put_at (stopCh S) i (Some k);
  p ← at_ (saved S) i;
  ps ← deref (ps_heap S) p;
  rf ← Make n i ps;
  r ← put_at (rafts S) i (Some k);
  Ok (mkStore (ps_heap S) (instances S ++ [mkInstance rf (default 0%nat p) false]) r (saved S) sc).

(** ** What was applied *)

Record logEntry := mkEntry { valid : bool; command : option Cmd }.

#[export] Instance logEntry_eq_dec : EqDecision logEntry.
Proof using EqDecision0. solve_decision. Defined.

Record Tally := mkTally {
  logs : list (gmap Z logEntry);
  didRecv : list bool;
  nextIndex : list Z;
  numCommands : list Z;
  maxIndex : Z;
}.

Definition checkConsistency (index : Z) (e : logEntry) (logs : list (gmap Z logEntry)) : result unit :=
  for_each (fun (l : gmap Z logEntry) _ =>
    match l !! index with
    | Some e' => if decide (e' <> e) then Panic (LogFatal "has already committed") else Ok ()
    | None => Ok ()
    end) logs ().

(** The first message of an instance: [nextIndex] starts at 0 or 1. *)
Definition first_message (server : nat) (m : ApplyMsg Cmd) (T : Tally) : result Tally :=
  dr ← at_ (didRecv T) server;
  match dr with
  | true => Ok T
  | false =>
    dr ← put_at (didRecv T) server true;
    let T := mkTally (logs T) dr (nextIndex T) (numCommands T) (maxIndex T) in
    if CommandIndex m =? 1 then
      ni ← at_ (nextIndex T) server;
      if negb (ni =? 0) then Ok T
      else
        l ← put_at (nextIndex T) server 1;
        Ok (mkTally (logs T) (didRecv T) l (numCommands T) (maxIndex T))
    else Ok T
  end.

Definition apply (server : nat) (m : ApplyMsg Cmd) (T : Tally) : result Tally :=
  T ← first_message server m T;
  ni ← at_ (nextIndex T) server;
  if negb (CommandIndex m =? ni) then Panic (LogFatal "applied index but expected")
  else
    l ← put_at (nextIndex T) server (ni + 1);
    let e := mkEntry (CommandValid m) (am_Command m) in
    _ ← checkConsistency (CommandIndex m) e (logs T);
    lg ← at_ (logs T) server;
    lgs ← put_at (logs T) server (<[CommandIndex m := e]> lg);
    let mx := if maxIndex T <? CommandIndex m then CommandIndex m else maxIndex T in
    nc ← (if CommandValid m then c ← at_ (numCommands T) server; put_at (numCommands T) server (c + 1)
          else Ok (numCommands T));
    Ok (mkTally lgs (didRecv T) l nc mx).

(** What the [select] of [applier] receives. *)
Inductive arrival := Stopped | Message (m : ApplyMsg Cmd) | ChannelClosed.

(** [live]: [stopCh] is not nil. *)
Fixpoint applier (server : nat) (live : bool) (arrivals : list arrival) (T : Tally) : result Tally :=
  match arrivals with
  | [] => Ok T
  | Stopped :: rest => applier server false rest T
  | ChannelClosed :: _ => Ok T
  | Message m :: rest =>
    T ← (if live then apply server m T else Ok T);
    applier server live rest T
  end.

(** The two assignments of [start1] to the tally. *)
Definition start_tally (i : nat) (T : Tally) : result Tally :=
  l ← put_at (nextIndex T) i 0;
  dr ← put_at (didRecv T) i false;
  Ok (mkTally (logs T) dr l (numCommands T) (maxIndex T)).

(** [checkCommitted]: the first server that has the index decides. *)
Fixpoint checkCommitted (index : Z) (cmd : option Cmd) (logs : list (gmap Z logEntry)) : result unit :=
  match logs with
  | [] => Panic (LogFatal "no log entry has been found for snapshot index")
  | l :: logs =>
    match l !! index with
    | Some e =>
      if negb (valid e) then Panic (LogFatal "stores a dummy entry")
      else if decide (command e <> cmd) then Panic (LogFatal "stores another command")
      else Ok ()
    | None => checkCommitted index cmd logs
    end
  end.

(** Snapshots: [labgob] on one int. *)
Definition encodeSnapshot (v : Z) : bytes := gob_encode [GInt v].
Definition decodeSnapshot (snapshot : bytes) : option Z :=
  match gob_decode snapshot with Some (GInt v :: _) => Some v | _ => None end.

(** ** The tester *)

Record config := mkConfig {
  n : nat;
  links : Links;
  store : Store;
  tally : Tally;
  rpcs0 : Z;
  bytes0 : Z;
  maxIndex0 : Z;
}.

Definition set_links (L : Links) (cfg : config) : config :=
  mkConfig (n cfg) L (store cfg) (tally cfg) (rpcs0 cfg) (bytes0 cfg) (maxIndex0 cfg).
Definition set_store (S : Store) (cfg : config) : config :=
  mkConfig (n cfg) (links cfg) S (tally cfg) (rpcs0 cfg) (bytes0 cfg) (maxIndex0 cfg).
Definition set_tally (T : Tally) (cfg : config) : config :=
  mkConfig (n cfg) (links cfg) (store cfg) T (rpcs0 cfg) (bytes0 cfg) (maxIndex0 cfg).
Definition set_net (rn : Net) (cfg : config) : config :=
  let L := links cfg in
  set_links (mkLinks rn (connected L) (endnames L) (srv_heap L)) cfg.

Definition crash1 (i : nat) (cfg : config) : result config :=
  L ← crash_links (n cfg) i (links cfg);
  S ← crash_store i (store cfg);
  Ok (set_store S (set_links L cfg)).

Definition start1 (i : nat) (rnd : nat -> string) (cfg : config) : result config :=
  cfg ← crash1 i cfg;
  L ← start_ends (n cfg) i rnd (links cfg);
  S ← start_store (n cfg) i (store cfg);
  T ← start_tally i (tally cfg);
  Ok (set_tally T (set_store S (set_links (start_server i L) cfg))).

(** [make_config] before it starts the servers. *)
Definition empty_config (n : nat) (unreliable : bool) : config :=
  mkConfig n
    (mkLinks (LongDelays (Reliable MakeNetwork (negb unreliable)) false)
       (replicate n false) (replicate n None) [])
    (mkStore [] [] (replicate n None) (replicate n None) (replicate n None))
    (mkTally (replicate n ∅) (replicate n false) (replicate n 0) (replicate n 0) 0)
    0 0 0.

Definition connect_cfg (i : nat) (cfg : config) : result config :=
  L ← connect (n cfg) i (links cfg); Ok (set_links L cfg).
Definition disconnect_cfg (i : nat) (cfg : config) : result config :=
  L ← disconnect (n cfg) i (links cfg); Ok (set_links L cfg).

Definition make_config (n : nat) (unreliable : bool) (rnd : nat -> nat -> string) : result config :=
  cfg ← for_each (fun i => start1 i (rnd i)) (seq 0 n) (empty_config n unreliable);
  for_each connect_cfg (seq 0 n) cfg.

Definition setunreliable (unrel : bool) (cfg : config) : config :=
  set_net (Reliable (net (links cfg)) (negb unrel)) cfg.
Definition setlongreordering (longrel : bool) (cfg : config) : config :=
  set_net (LongReordering (net (links cfg)) longrel) cfg.

(** [elapsed]: time is up; the test fails. *)
Definition checkTimeout (failed elapsed : bool) : result unit :=
  if negb failed && elapsed then Panic (LogFatal "test took longer than 120 seconds") else Ok ().

Definition kill_at (S : Store) (k : nat) : Store :=
  match instances S !! k with
  | Some inst =>
    mkStore (ps_heap S)
      (<[k := mkInstance (Kill (raft inst)) (persister inst) (stopped inst)]> (instances S))
      (rafts S) (saved S) (stopCh S)
  | None => S
  end.

Definition cleanup (failed elapsed : bool) (cfg : config) : result config :=
  let S := foldl (fun S r => match r with Some k => kill_at S k | None => S end)
             (store cfg) (rafts (store cfg)) in
  rn ← Cleanup (net (links cfg));
  _ ← checkTimeout failed elapsed;
  Ok (set_net rn (set_store S cfg)).

Definition rpcCount (server : nat) (cfg : config) : result Z :=
  GetCount (net (links cfg)) (srv_heap (links cfg)) (Peer server).
Definition rpcTotal (cfg : config) : Z := GetTotalCount (net (links cfg)).
Definition bytesTotal (cfg : config) : Z := GetTotalBytes (net (links cfg)).

Definition begin_ (cfg : config) : config :=
  mkConfig (n cfg) (links cfg) (store cfg) (tally cfg)
    (rpcTotal cfg) (bytesTotal cfg) (maxIndex (tally cfg)).

(** The numbers [end] prints: peers, RPCs, bytes and agreements since [begin]. *)
Definition end_ (failed elapsed : bool) (cfg : config) : result (option (Z * Z * Z * Z)) :=
  _ ← checkTimeout failed elapsed;
  if negb failed then
    Ok (Some (Z.of_nat (n cfg), wrap64 (rpcTotal cfg - rpcs0 cfg),
              wrap64 (bytesTotal cfg - bytes0 cfg), maxIndex (tally cfg) - maxIndex0 cfg))
  else Ok None.

Definition LogSize (cfg : config) : result Z :=
  for_each (fun i logsize =>
    p ← at_ (saved (store cfg)) i;
    ps ← deref (ps_heap (store cfg)) p;
    let sz := RaftStateSize ps in
    Ok (if logsize <? sz then sz else logsize)) (seq 0 (n cfg)) 0.

(** ** Checks on the peers

    A check asks the peers one after the other while they run; its argument
    is what it was told: by connected peer the answer of [GetState]. *)

Abbreviation Answers := (list (nat * (Z * bool))).

Definition leaders_of (answers : Answers) : gmap Z (list nat) :=
  foldl (fun m '(i, (term, leader)) =>
    match leader with
    | true => <[term := default [] (m !! term) ++ [i]]> m
    | false => m
    end) ∅ answers.

(** [for term, leaders := range leaders]; Go leaves the order open. *)
Definition lastTermWithLeader (order : list (Z * list nat)) : result Z :=
  for_each (fun '(term, leaders) last =>
    if 1 <? len leaders then Panic (LogFatal "term has (>1) leaders")
    else Ok (if last <? term then term else last)) order (-1).

Definition leader_round (answers : Answers) (order : list (Z * list nat)) : result (option nat) :=
  let leaders := leaders_of answers in
  last ← lastTermWithLeader order;
  if decide (leaders <> ∅) then i ← at_ (default [] (leaders !! last)) 0; Ok (Some i)
  else Ok None.

Fixpoint leader_rounds (iters : nat) (round : nat -> Answers * list (Z * list nat)) : result Z :=
  match iters with
  | O => Panic (LogFatal "expected one leader, got none")
  | S iters =>
    let '(answers, order) := round 0%nat in
    l ← leader_round answers order;
    match l with
    | Some i => Ok (Z.of_nat i)
    | None => leader_rounds iters (fun k => round (S k))
    end
  end.

Definition checkOneLeader := leader_rounds 10.

Definition checkTerms (answers : Answers) : result Z :=
  for_each (fun '(_, (xterm, _)) term =>
    if term =? -1 then Ok xterm
    else if negb (term =? xterm) then Panic (LogFatal "servers disagree on term")
    else Ok term) answers (-1).

Definition checkNoLeader (answers : Answers) : result unit :=
  for_each (fun '(_, (_, leader)) _ =>
    match leader with true => Panic (LogFatal "expected no leader") | false => Ok () end) answers ().

(** ** Agreement

    [nCommitted] takes [cfg.mu] anew for every server; a reading is what it
    finds there for each. *)

Abbreviation Reading := (list (gmap Z logEntry * Z)).

Definition nCommitted (index : Z) (rd : Reading) : Z * logEntry :=
  foldl (fun '(count, e) '(lg, next) =>
    match (lg : gmap Z logEntry) !! index with
    | Some e' => if index <? next then (count + 1, e') else (count, e)
    | None => (count, e)
    end) (0, mkEntry false None) rd.

(** [for _, r := range cfg.rafts]: some peer is in a later term.  A crashed
    peer is nil. *)
Fixpoint moved_on (startTerm : Z) (terms : list (option Z)) : result bool :=
  match terms with
  | [] => Ok false
  | None :: _ => Panic NilDereference
  | Some t :: terms => if startTerm <? t then Ok true else moved_on startTerm terms
  end.

Definition wait_end (index n : Z) (final : Reading) : result (bool * logEntry) :=
  let '(nd, e) := nCommitted index final in
  if nd <? n then Panic (LogFatal "only decided") else Ok (true, e).

Fixpoint wait_loop (iters : nat) (index n startTerm : Z)
    (polls : nat -> Reading) (terms : nat -> list (option Z)) (final : Reading)
    : result (bool * logEntry) :=
  match iters with
  | O => wait_end index n final
  | S iters =>
    let '(nd, _) := nCommitted index (polls 0%nat) in
    if n <=? nd then wait_end index n final
    else
      moved ← (if -1 <? startTerm then moved_on startTerm (terms 0%nat) else Ok false);
      if (moved : bool) then Ok (false, mkEntry false None)
      else wait_loop iters index n startTerm (fun k => polls (S k)) (fun k => terms (S k)) final
  end.

Definition wait := wait_loop 30.

(** What the servers answer to [rf.Start(cmd)] when they are tried: nothing
    for one that is not connected or nil. *)
Fixpoint try_servers (n starts : Z) (tries : nat) (ask : Z -> option (Z * bool)) : Z * Z :=
  match tries with
  | O => (starts, -1)
  | S tries =>
    let starts := Z.rem (starts + 1) n in
    match ask starts with
    | Some (index1, true) => (starts, index1)
    | _ => try_servers n starts tries ask
    end
  end.

(** The polls of two seconds. *)
Fixpoint poll (cmd : option Cmd) (expectedServers index : Z) (readings : list Reading) : bool :=
  match readings with
  | [] => false
  | rd :: readings =>
    let '(nd, e) := nCommitted index rd in
    if (0 <? nd) && (expectedServers <=? nd) && bool_decide (e = mkEntry true cmd) then true
    else poll cmd expectedServers index readings
  end.

(** The rounds of ten seconds. *)
Fixpoint one (n : nat) (cmd : option Cmd) (expectedServers : Z) (retry : bool) (starts : Z)
    (rounds : list ((Z -> option (Z * bool)) * list Reading)) : result Z :=
  match rounds with
  | [] => Panic (LogFatal "failed to reach agreement")
  | (ask, readings) :: rounds =>
    let '(starts, index) := try_servers (Z.of_nat n) starts n ask in
    if negb (index =? -1) then
      if poll cmd expectedServers index readings then Ok index
      else if negb retry then Panic (LogFatal "failed to reach agreement")
      else one n cmd expectedServers retry starts rounds
    else one n cmd expectedServers retry starts rounds
  end.

(** ** What can happen to the tester's state

    The test calls the operations one after the other; the appliers and the
    instances, old ones too, run in between. *)

Inductive act :=
| AStart (i : nat) (rnd : nat -> string)
| ACrash (i : nat)
| AConnect (i : nat)
| ADisconnect (i : nat)
| AUnreliable (b : bool)
| ALongReordering (b : bool)
| AApply (server : nat) (m : ApplyMsg Cmd)
| ARaft (k : nat) (rf : Raft Cmd)     (* the k-th instance changes its struct *)
| APersist (k : nat).                 (* and saves it *)

Definition instance_step (k : nat) (f : Instance -> list Persister -> Instance * list Persister)
    (S : Store) : Store :=
  match instances S !! k with
  | Some inst =>
    let '(inst, ps) := f inst (ps_heap S) in
    mkStore ps (<[k := inst]> (instances S)) (rafts S) (saved S) (stopCh S)
  | None => S
  end.

Definition persist_instance (inst : Instance) (heap : list Persister) : Instance * list Persister :=
  (inst, alter (persist (raft inst)) (persister inst) heap).

Definition harness_step (a : act) (cfg : config) : result config :=
  match a with
  | AStart i rnd => start1 i rnd cfg
  | ACrash i => crash1 i cfg
  | AConnect i => connect_cfg i cfg
  | ADisconnect i => disconnect_cfg i cfg
  | AUnreliable b => Ok (setunreliable b cfg)
  | ALongReordering b => Ok (setlongreordering b cfg)
  | AApply server m => T ← apply server m (tally cfg); Ok (set_tally T cfg)
  | ARaft k rf =>
    Ok (set_store (instance_step k (fun i ps => (mkInstance rf (persister i) (stopped i), ps))
                     (store cfg)) cfg)
  | APersist k => Ok (set_store (instance_step k persist_instance (store cfg)) cfg)
  end.

Definition harness_run : list act -> config -> result config := for_each harness_step.
End config.

Arguments Instance : clear implicits.
Arguments Store : clear implicits.
Arguments logEntry : clear implicits.
Arguments Tally : clear implicits.
Arguments config : clear implicits.
Arguments act : clear implicits.
