(* ===== verification/RaftConfigLinks.v ===== *)
(** * raft/config.go: who can reach whom

    The invariant of the tester's table of end names: an end of the network
    is enabled exactly when it belongs to the current instances of two
    connected servers. *)

From Stdlib Require Import ZArith Lia.
From stdpp Require Import base numbers strings gmap list.
From S2P Require Import Prelude Persister RaftNode Labrpc Harness RaftConfig.
Local Open Scope Z_scope.

(** The end [e] goes from server [i] to server [j], both connected. *)
Definition live (L : Links) (x : netName) (i j : nat) : Prop :=
  exists e, x = End e /\ end_of (endnames L) i j = Some e /\
    connected L !! i = Some true /\ connected L !! j = Some true.

Record links_ok (n : nat) (L : Links) : Prop := {
  lo_connected : length (connected L) = n;
  lo_rows : length (endnames L) = n;
  lo_row i names : endnames L !! i = Some (Some names) -> length names = n;
  lo_inj i j i' j' e : end_of (endnames L) i j = Some e -> end_of (endnames L) i' j' = Some e ->
    i = i' /\ j = j';
  lo_ends i j e : end_of (endnames L) i j = Some e -> End e ∈ ends (net L);
  lo_connection i j e : end_of (endnames L) i j = Some e ->
    connection (net L) (End e) = Some (Peer j);
  lo_enabled x : is_enabled (net L) x = true <-> exists i j, live L x i j;
}.

Lemma end_of_range n L i j e : links_ok n L -> end_of (endnames L) i j = Some e -> (i < n /\ j < n)%nat.
Proof.
  intros Hok (names & Hr & He)%bind_Some. destruct (endnames L !! i) as [[x|]|] eqn:Ei; simplify_eq/=.
  apply lookup_lt_Some in He. rewrite (lo_row _ _ Hok _ _ Ei) in He.
  apply lookup_lt_Some in Ei. by rewrite (lo_rows _ _ Hok) in Ei.
Qed.

(** The tables but the enabled ends stay. *)
Lemma connection_same net net' x : same_links net net' -> connection net' x = connection net x.
Proof. intros (_ & _ & E). unfold connection. by rewrite E. Qed.

Lemma links_ok_enable n L rn c :
  links_ok n L -> same_links (net L) rn -> length c = n ->
  (forall x, is_enabled rn x = true <-> exists i j, live (mkLinks rn c (endnames L) (srv_heap L)) x i j) ->
  links_ok n (mkLinks rn c (endnames L) (srv_heap L)).
Proof.
  intros [Hc Hr Hrow Hinj Hends Hconn _] Hs Hlen Hen. constructor; simpl; try done.
  - intros i j e He. destruct Hs as (-> & _). by eapply Hends.
  - intros i j e He. rewrite (connection_same _ _ _ Hs). by apply (Hconn i).
Qed.

Lemma to_connected_Some c en i j k e :
  to_connected c en i j k = Ok (Some e) <-> c !! k = Some true /\ end_of en i j = Some e.
Proof.
  unfold to_connected. rewrite result_bind_Ok. split.
  - intros (on & Hon%at_Ok & Hb). destruct on; [|done]. apply result_bind_Ok in Hb as (e' & He & [= ->]).
    by apply end_at_Ok in He.
  - intros [Hon%at_Ok He%end_at_Ok]. exists true. split; [done|]. by rewrite He.
Qed.

Lemma if_started_Some en i j e : if_started en i j = Ok (Some e) <-> end_of en i j = Some e.
Proof.
  unfold if_started, end_of. rewrite result_bind_Ok. split.
  - intros (o & Ho%at_Ok & Hb). rewrite Ho. destruct o as [names|]; [|done]. simpl.
    apply result_bind_Ok in Hb as (e' & He%at_Ok & [= ->]). done.
  - intros (names & Hr & He)%bind_Some. exists (Some names). rewrite at_Ok. split.
    + destruct (en !! i) as [[x|]|]; by simplify_eq/=.
    + apply at_Ok in He. by rewrite He.
Qed.

Lemma connect_ok n i L L' :
  links_ok n L -> connect n i L = Ok L' ->
  links_ok n L' /\ connected L' = <[i := true]> (connected L) /\ (i < n)%nat /\
  endnames L' = endnames L /\ servers (net L') = servers (net L) /\ srv_heap L' = srv_heap L.
Proof.
  intros Hok Hcon. unfold connect in Hcon.
  apply result_bind_Ok in Hcon as (c & [Hi ->]%put_at_Ok & Hcon). rewrite (lo_connected _ _ Hok) in Hi.
  apply result_bind_Ok in Hcon as (rn1 & H1 & Hcon). apply result_bind_Ok in Hcon as (rn2 & H2 & [= <-]).
  apply enable_each_spec in H1 as (Hs1 & _ & He1). apply enable_each_spec in H2 as (Hs2 & _ & He2).
  pose proof (same_links_trans _ _ _ Hs1 Hs2) as Hs.
  split_and!; [|done|done|done|apply Hs|done].
  apply links_ok_enable; [done|done|by rewrite length_insert, (lo_connected _ _ Hok)|].
  intros x. rewrite He2, He1. unfold live. simpl.
  assert (<[i:=true]> (connected L) !! i = Some true) as Hii
    by (apply list_lookup_insert_eq; by rewrite (lo_connected _ _ Hok)).
  split.
  - case_decide as D2; [|case_decide as D1].
    + apply elem_of_picked in D2 as (j & e & _ & [? ?]%to_connected_Some & ->). intros _. by exists j, i, e.
    + apply elem_of_picked in D1 as (j & e & _ & [? ?]%to_connected_Some & ->). intros _. by exists i, j, e.
    + intros (j & k & e & -> & He & Hj & Hk)%(lo_enabled _ _ Hok). exists j, k, e. split_and!; [done|done|..].
      * destruct (decide (i = j)) as [->|]; [done|by rewrite list_lookup_insert_ne].
      * destruct (decide (i = k)) as [->|]; [done|by rewrite list_lookup_insert_ne].
  - intros (j & k & e & -> & He & Hj & Hk). destruct (end_of_range _ _ _ _ _ Hok He).
    case_decide as D2; [done|]. case_decide as D1; [done|]. apply (lo_enabled _ _ Hok).
    exists j, k, e. split_and!; [done|done|..].
    + destruct (decide (i = j)) as [->|Hne]; [|by rewrite list_lookup_insert_ne in Hj].
      exfalso. apply D1, elem_of_picked. exists k, e. rewrite to_connected_Some, elem_of_seq. split_and!; [lia..|done|done|done].
    + destruct (decide (i = k)) as [->|Hne]; [|by rewrite list_lookup_insert_ne in Hk].
      exfalso. apply D2, elem_of_picked. exists j, e. rewrite to_connected_Some, elem_of_seq. split_and!; [lia..|done|done|done].
Qed.

Lemma disconnect_ok n i L L' :
  links_ok n L -> disconnect n i L = Ok L' ->
  links_ok n L' /\ connected L' = <[i := false]> (connected L) /\ (i < n)%nat /\
  endnames L' = endnames L /\ servers (net L') = servers (net L) /\ srv_heap L' = srv_heap L.
Proof.
  intros Hok Hcon. unfold disconnect in Hcon.
  apply result_bind_Ok in Hcon as (c & [Hi ->]%put_at_Ok & Hcon). rewrite (lo_connected _ _ Hok) in Hi.
  apply result_bind_Ok in Hcon as (rn1 & H1 & Hcon). apply result_bind_Ok in Hcon as (rn2 & H2 & [= <-]).
  apply enable_each_spec in H1 as (Hs1 & _ & He1). apply enable_each_spec in H2 as (Hs2 & _ & He2).
  pose proof (same_links_trans _ _ _ Hs1 Hs2) as Hs.
  split_and!; [|done|done|done|apply Hs|done].
  apply links_ok_enable; [done|done|by rewrite length_insert, (lo_connected _ _ Hok)|].
  intros x. rewrite He2, He1. unfold live. simpl.
  assert (<[i:=false]> (connected L) !! i = Some false) as Hii
    by (apply list_lookup_insert_eq; by rewrite (lo_connected _ _ Hok)).
  split.
  - case_decide as D2; [done|]. case_decide as D1; [done|].
    intros (j & k & e & -> & He & Hj & Hk)%(lo_enabled _ _ Hok).
    destruct (end_of_range _ _ _ _ _ Hok He). exists j, k, e. split_and!; [done|done|..].
    + rewrite list_lookup_insert_ne; [done|]. intros ->. apply D1, elem_of_picked. exists k, e.
      rewrite if_started_Some, elem_of_seq. split_and!; [lia..|done|done].
    + rewrite list_lookup_insert_ne; [done|]. intros ->. apply D2, elem_of_picked. exists j, e.
      rewrite if_started_Some, elem_of_seq. split_and!; [lia..|done|done].
  - intros (j & k & e & -> & He & Hj & Hk).
    assert (i <> j) as Hij by (intros ->; congruence). assert (i <> k) as Hik by (intros ->; congruence).
    rewrite list_lookup_insert_ne in Hj, Hk by done.
    rewrite decide_False, decide_False; [by apply (lo_enabled _ _ Hok); exists j, k, e|..];
      intros (k' & e' & _ & He'%if_started_Some & [= <-])%elem_of_picked;
      destruct (lo_inj _ _ Hok _ _ _ _ _ He He'); congruence.
Qed.

Lemma links_ok_table n L rn sh :
  links_ok n L -> ends rn = ends (net L) -> connections rn = connections (net L) ->
  enabled rn = enabled (net L) -> links_ok n (mkLinks rn (connected L) (endnames L) sh).
Proof.
  intros [] E1 E2 E3. constructor; simpl; try done.
  - intros. rewrite E1. eauto.
  - intros. unfold connection. rewrite E2. eapply lo_connection0; eauto.
  - intros x. unfold is_enabled. rewrite E3. apply lo_enabled0.
Qed.

Lemma crash_links_ok n i L L' :
  links_ok n L -> crash_links n i L = Ok L' ->
  links_ok n L' /\ connected L' = <[i := false]> (connected L) /\ (i < n)%nat /\
  endnames L' = endnames L /\ srv_heap L' = srv_heap L /\
  (forall x, server_of (net L') x = if decide (x = Peer i) then None else server_of (net L) x).
Proof.
  intros Hok Hcr. unfold crash_links in Hcr. apply result_bind_Ok in Hcr as (L1 & H1 & [= <-]).
  destruct (disconnect_ok _ _ _ _ Hok H1) as (Hok1 & Ec & Hi & Een & Es & Eh).
  split_and!; [by apply links_ok_table|done|done|done|done|].
  intros x. unfold server_of. simpl. rewrite Es. case_decide; subst;
    [by rewrite lookup_insert_eq|by rewrite lookup_insert_ne by congruence].
Qed.

(** A row of fresh ends for a server that is not connected. *)
Lemma start_ends_ok n i rnd L L' :
  links_ok n L -> connected L !! i = Some false -> start_ends n i rnd L = Ok L' ->
  links_ok n L' /\ connected L' = connected L /\ servers (net L') = servers (net L) /\
  srv_heap L' = srv_heap L /\ endnames L' = <[i := Some (rnd <$> seq 0 n)]> (endnames L).
Proof.
  intros Hok Hoff Hst. unfold start_ends in Hst.
  apply result_bind_Ok in Hst as (en & [Hi ->]%put_at_Ok & Hst).
  apply result_bind_Ok in Hst as (rn & [He Hnew Hnd Hs Hen Hc Ho]%make_ends_spec & [= <-]).
  set (names := rnd <$> seq 0 n) in *. split_and!; [|done|done|done|done].
  assert (forall a b e, end_of (endnames L) a b = Some e -> e ∉ names) as Hold.
  { intros a b e Hab Hin. rewrite Forall_forall in Hnew. apply (Hnew e Hin). by eapply lo_ends. }
  constructor; simpl.
  - apply Hok.
  - rewrite length_insert. apply Hok.
  - intros a ns Ha. destruct (decide (i = a)) as [->|Hne].
    + rewrite list_lookup_insert_eq in Ha by done. injection Ha as <-. unfold names.
      by rewrite length_fmap, length_seq.
    + rewrite list_lookup_insert_ne in Ha by done. by eapply lo_row.
  - intros a b a' b' e. rewrite !end_of_insert by done. intros H1 H2.
    repeat case_decide; subst.
    + split; [done|]. by eapply NoDup_lookup.
    + exfalso. by eapply Hold, list_elem_of_lookup_2.
    + exfalso. by eapply Hold, list_elem_of_lookup_2.
    + by eapply (lo_inj _ _ Hok).
  - intros a b e. rewrite end_of_insert by done. intros H1. rewrite He. case_decide.
    + apply elem_of_union_l, elem_of_list_to_set, list_elem_of_fmap_2. by eapply list_elem_of_lookup_2.
    + apply elem_of_union_r. by eapply lo_ends.
  - intros a b e. rewrite end_of_insert by done. intros H1. case_decide; [by apply Hc|].
    rewrite Ho; [by eapply lo_connection|].
    intros (e' & [= <-] & Hin)%list_elem_of_fmap. by eapply Hold.
  - intros x. rewrite Hen. unfold live. simpl. split.
    + case_decide as D; [done|]. intros (a & b & e & -> & Hab & Ha & Hb)%(lo_enabled _ _ Hok).
      exists a, b, e. split_and!; [done| |done|done].
      rewrite end_of_insert, decide_False; [done|congruence|done].
    + intros (a & b & e & -> & Hab & Ha & Hb). assert (a <> i) as Hne by congruence.
      rewrite end_of_insert, decide_False in Hab by done. rewrite decide_False.
      * apply (lo_enabled _ _ Hok). by exists a, b, e.
      * intros (e' & [= <-] & Hin)%list_elem_of_fmap. by eapply Hold.
Qed.

Lemma start_server_ok n i L : links_ok n L -> links_ok n (start_server i L).
Proof. intros Hok. unfold start_server. by apply links_ok_table. Qed.

Section harness.
Context {Cmd : Type} `{EqDecision Cmd} `{Gob Cmd}.
Implicit Types (cfg : config Cmd).

Lemma links_ok_empty n b : links_ok n (links (empty_config (Cmd := Cmd) n b)).
Proof.
  assert (forall i j e, end_of (replicate n None) i j = Some e -> False) as Hno.
  { intros i j e (names & Hr & _)%bind_Some.
    destruct (replicate n None !! i) as [o|] eqn:E; [|done].
    apply lookup_replicate in E as [-> _]. done. }
  constructor; simpl; try (by intros; exfalso; eapply Hno).
  - by rewrite length_replicate.
  - by rewrite length_replicate.
  - intros i names Hi. by apply lookup_replicate in Hi as [? _].
  - intros x. split; [by destruct b|]. by intros (i & j & e & -> & He%Hno & _).
Qed.

Lemma crash1_links i cfg cfg' :
  crash1 i cfg = Ok cfg' ->
  crash_links (n cfg) i (links cfg) = Ok (links cfg') /\ n cfg' = n cfg /\
  crash_store i (store cfg) = Ok (store cfg') /\ tally cfg' = tally cfg.
Proof.
  unfold crash1. intros (L & HL & (S & HS & [= <-])%result_bind_Ok)%result_bind_Ok. done.
Qed.

Lemma start1_parts i rnd cfg cfg' :
  start1 i rnd cfg = Ok cfg' ->
  exists cfg1 L, crash1 i cfg = Ok cfg1 /\ start_ends (n cfg) i rnd (links cfg1) = Ok L /\
    links cfg' = start_server i L /\ n cfg' = n cfg /\
    start_store (n cfg) i (store cfg1) = Ok (store cfg') /\
    start_tally i (tally cfg) = Ok (tally cfg').
Proof.
  unfold start1. intros (cfg1 & Hcr & (L & HL & (S & HS & (T & HT & [= <-])%result_bind_Ok)%result_bind_Ok)%result_bind_Ok)%result_bind_Ok.
  destruct (crash1_links _ _ _ Hcr) as (_ & En & _ & Et). rewrite En, Et in *. by exists cfg1, L.
Qed.

Lemma start1_ok i rnd cfg cfg' :
  links_ok (n cfg) (links cfg) -> start1 i rnd cfg = Ok cfg' ->
  links_ok (n cfg') (links cfg') /\ n cfg' = n cfg /\
  connected (links cfg') = <[i := false]> (connected (links cfg)) /\
  endnames (links cfg') = <[i := Some (rnd <$> seq 0 (n cfg))]> (endnames (links cfg)).
Proof.
  intros Hok (cfg1 & L & Hcr & HL & EL & En & _)%start1_parts.
  apply crash1_links in Hcr as (Hcr & En1 & _).
  destruct (crash_links_ok _ _ _ _ Hok Hcr) as (Hok1 & Ec & Hi & Een & _).
  assert (connected (links cfg1) !! i = Some false) as Hoff.
  { rewrite Ec. apply list_lookup_insert_eq. by rewrite (lo_connected _ _ Hok). }
  destruct (start_ends_ok _ _ _ _ _ Hok1 Hoff HL) as (Hok2 & Ec2 & _ & _ & Een2).
  rewrite EL, En. split_and!; [by apply start_server_ok|done| |]; simpl; congruence.
Qed.

Lemma harness_step_links a cfg cfg' :
  links_ok (n cfg) (links cfg) -> harness_step a cfg = Ok cfg' -> links_ok (n cfg') (links cfg') /\ n cfg' = n cfg.
Proof.
  intros Hok Hst. destruct a; simpl in Hst; go_inv.
  - by destruct (start1_ok _ _ _ _ Hok Hst) as (? & ? & _).
  - destruct (crash1_links _ _ _ Hst) as (Hcr & En & _). rewrite En. split; [|done].
    by destruct (crash_links_ok _ _ _ _ Hok Hcr).
  - unfold connect_cfg in Hst. go_inv. by destruct (connect_ok _ _ _ _ Hok Ha).
  - unfold disconnect_cfg in Hst. go_inv. by destruct (disconnect_ok _ _ _ _ Hok Ha).
  - split; [|done]. by apply links_ok_table.
  - split; [|done]. by apply links_ok_table.
  - done.
  - done.
  - done.
Qed.

Lemma make_config_links n b rnd cfg :
  make_config (Cmd := Cmd) n b rnd = Ok cfg -> links_ok n (links cfg) /\ RaftConfig.n cfg = n.
Proof.
  unfold make_config. intros (cfg1 & H1 & H2)%result_bind_Ok.
  pose (P := fun c : config Cmd => links_ok n (links c) /\ RaftConfig.n c = n).
  assert (P cfg1) as HP1.
  { revert H1. apply for_each_inv; [split; [apply links_ok_empty|done]|].
    intros i c c' _ [Hok En] Hst. rewrite <- En in Hok.
    destruct (harness_step_links (AStart i (rnd i)) _ _ Hok Hst) as [Hok' En'].
    unfold P. rewrite <- En, <- En'. done. }
  revert H2. apply (for_each_inv P); [done|].
  intros i c c' _ [Hok En] Hst. rewrite <- En in Hok.
  destruct (harness_step_links (AConnect i) _ _ Hok Hst) as [Hok' En'].
  unfold P. rewrite <- En, <- En'. done.
Qed.

Lemma harness_run_links acts cfg cfg' :
  links_ok (n cfg) (links cfg) -> harness_run acts cfg = Ok cfg' ->
  links_ok (n cfg') (links cfg') /\ n cfg' = n cfg.
Proof.
  intros Hok. apply (for_each_inv (fun c => links_ok (n c) (links c) /\ n c = n cfg)); [done|].
  intros a c c' _ [Hc En] Hst. destruct (harness_step_links _ _ _ Hc Hst). by split; [|congruence].
Qed.

(** C19: partitions.  Whatever the test does with the servers, after
    [make_config] the network delivers a request sent over an end precisely
    when the end belongs to the current instance of a connected server and
    leads to a connected server that is running: no request of a crashed
    instance or across a partition is delivered, and none inside a partition
    is refused.  The j-th end of a server leads to server j. *)
Theorem harness_links n b rnd acts cfg cfg0 (req : reqMsg (Name := netName)) inf :
  make_config (Cmd := Cmd) n b rnd = Ok cfg0 -> harness_run acts cfg0 = Ok cfg ->
  let L := links cfg in
  let rn := net L in
  proc_read rn req = Deciding inf <->
  exists i j e, endname req = End e /\ end_of (endnames L) i j = Some e /\
    connected L !! i = Some true /\ connected L !! j = Some true /\
    server_of rn (Peer j) = Some (i_server inf) /\
    inf = mkInfo (Peer j) (i_server inf) (reliable rn) (longReordering rn).
Proof.
  intros [Hok <-]%make_config_links [Hok' _]%harness_run_links L rn; [|done].
  unfold proc_read, readEndnameInfo. split.
  - destruct (connection rn (endname req)) as [sn|] eqn:Ec; simpl; [|done].
    destruct (server_of rn sn) as [s|] eqn:Es; simpl; [|done].
    destruct (is_enabled rn (endname req)) eqn:Een; [|done]. intros [= <-].
    apply (lo_enabled _ _ Hok') in Een as (i & j & e & Ee & He & Hi & Hj).
    pose proof (lo_connection _ _ Hok' _ _ _ He) as Ec'. rewrite <- Ee in Ec'. fold L in Ec'.
    assert (sn = Peer j) as -> by (unfold rn in Ec; congruence). by exists i, j, e.
  - intros (i & j & e & Ee & He & Hi & Hj & Es & ->).
    assert (is_enabled rn (endname req) = true) as ->.
    { apply (lo_enabled _ _ Hok'). exists i, j, e. done. }
    unfold rn, L. rewrite Ee, (lo_connection _ _ Hok' _ _ _ He). simpl.
    by unfold rn, L in Es; rewrite Es.
Qed.
End harness.
