(* ===== verification/RaftConfigStore.v ===== *)
(** * raft/config.go: persisters and instances

    A killed instance keeps running, and may keep saving.  The invariant of
    the tester's pointers that makes this harmless, and what a restarted
    instance gets. *)

From Stdlib Require Import ZArith Lia.
From stdpp Require Import base numbers strings gmap list.
From S2P Require Import Prelude Persister RaftNode Labrpc Harness RaftConfig RaftConfigLinks.
Local Open Scope Z_scope.

Section store.
Context {Cmd : Type} `{EqDecision Cmd} `{Gob Cmd}.
Implicit Types (S : Store Cmd) (inst : Instance Cmd) (cfg : config Cmd).

(** [x]: a server whose running instance is being replaced. *)
Record store_ok (n : nat) (x : option nat) S : Prop := {
  so_rafts : length (rafts S) = n;
  so_saved : length (saved S) = n;
  so_stop : length (stopCh S) = n;
  so_ptr i p : saved S !! i = Some (Some p) -> (p < length (ps_heap S))%nat;
  so_inst k inst : instances S !! k = Some inst -> (persister inst < length (ps_heap S))%nat;
  so_inj i j p : saved S !! i = Some (Some p) -> saved S !! j = Some (Some p) -> i = j;
  so_rafts_inj i j k : rafts S !! i = Some (Some k) -> rafts S !! j = Some (Some k) -> i = j;
  so_own i p k inst : saved S !! i = Some (Some p) -> instances S !! k = Some inst ->
    persister inst = p -> rafts S !! i = Some (Some k);
  so_running i k : rafts S !! i = Some (Some k) ->
    stopCh S !! i = Some (Some k) /\
    exists inst, instances S !! k = Some inst /\ stopped inst = false /\
      (x <> Some i -> saved S !! i = Some (Some (persister inst)));
}.

Lemma store_ok_weaken n i S : store_ok n None S -> store_ok n (Some i) S.
Proof.
  intros [? ? ? ? ? ? ? ? Hr]. constructor; try done. intros j k Hj.
  destruct (Hr j k Hj) as (? & inst & ? & ? & Hs). split; [done|]. exists inst. auto.
Qed.

Lemma store_ok_stopped n i S :
  store_ok n (Some i) S -> rafts S !! i = Some None -> store_ok n None S.
Proof.
  intros [? ? ? ? ? ? ? ? Hr] Hi. constructor; try done. intros j k Hj.
  destruct (Hr j k Hj) as (? & inst & ? & ? & Hs). split; [done|]. exists inst. split_and!; [done|done|].
  intros _. apply Hs. congruence.
Qed.

Lemma save_new_Ok i ps S S' :
  save_new i ps S = Ok S' ->
  (i < length (saved S))%nat /\
  S' = mkStore (ps_heap S ++ [ps]) (instances S) (rafts S)
         (<[i := Some (length (ps_heap S))]> (saved S)) (stopCh S).
Proof. unfold save_new. by intros (sv & [? ->]%put_at_Ok & [= <-])%result_bind_Ok. Qed.

Lemma save_new_ok n i ps S S' :
  store_ok n (Some i) S -> save_new i ps S = Ok S' -> store_ok n (Some i) S'.
Proof.
  intros [? Hs ? Hp Hi Hinj ? Hown Hr] [Hlt ->]%save_new_Ok.
  assert (forall j p, <[i:=Some (length (ps_heap S))]> (saved S) !! j = Some (Some p) ->
    (j = i /\ p = length (ps_heap S)) \/ (j <> i /\ saved S !! j = Some (Some p))) as Hsv.
  { intros j p Hj. destruct (decide (i = j)) as [->|Hne].
    - rewrite list_lookup_insert_eq in Hj by done. left. by simplify_eq.
    - rewrite list_lookup_insert_ne in Hj by done. by right. }
  constructor; simpl; rewrite ?length_app, ?length_insert; try done; simpl.
  - intros j p [[-> ->]|[_ Hj]]%Hsv; [lia|]. specialize (Hp _ _ Hj). lia.
  - intros k inst Hk. specialize (Hi _ _ Hk). lia.
  - intros j j' p [[-> ->]|[_ Hj]]%Hsv [[-> E]|[_ Hj']]%Hsv; [done|..|by eapply Hinj].
    + specialize (Hp _ _ Hj'). lia.
    + subst p. specialize (Hp _ _ Hj). lia.
  - intros j p k inst [[-> ->]|[_ Hj]]%Hsv Hk Ep; [|by eapply Hown].
    specialize (Hi _ _ Hk). lia.
  - intros j k Hj. destruct (Hr j k Hj) as (? & inst & ? & ? & Hx). split; [done|].
    exists inst. split_and!; [done|done|]. intros Hne. rewrite list_lookup_insert_ne by congruence. auto.
Qed.

(** The contents of the persister of server [i]. *)
Definition content S i : option Persister := p ← mjoin (saved S !! i); ps_heap S !! p.

Lemma content_saved S i p : saved S !! i = Some (Some p) -> content S i = ps_heap S !! p.
Proof. unfold content. by intros ->. Qed.

Lemma save_new_content i ps S S' j :
  save_new i ps S = Ok S' -> (forall k p, saved S !! k = Some (Some p) -> (p < length (ps_heap S))%nat) ->
  content S' j = if decide (j = i) then Some ps else content S j.
Proof.
  intros [Hlt ->]%save_new_Ok Hp. unfold content. simpl. case_decide; subst.
  - rewrite list_lookup_insert_eq by done. simpl. by rewrite list_lookup_middle.
  - rewrite list_lookup_insert_ne by done. destruct (saved S !! j) as [[p|]|] eqn:Ej; simpl; [|done..].
    rewrite lookup_app_l; [done|by eapply Hp].
Qed.

(** No instance saves into the persister of server [i]. *)
Definition unowned i S : Prop :=
  forall p k inst, saved S !! i = Some (Some p) -> instances S !! k = Some inst -> persister inst <> p.

(** A persister replaced by one made from its contents. *)
Lemma resave_ok n i f other S S' :
  store_ok n (Some i) S -> resave i f other S = Ok S' ->
  store_ok n (Some i) S' /\ rafts S' = rafts S /\ instances S' = instances S /\ stopCh S' = stopCh S /\
  (i < n)%nat /\ unowned i S' /\
  content S' i = match content S i with Some ps => Some (f ps) | None => other end /\
  (forall j, j <> i -> content S' j = content S j /\ saved S' !! j = saved S !! j).
Proof.
  intros Hok Hre. unfold resave in Hre. apply result_bind_Ok in Hre as (o & Ho%at_Ok & Hre).
  assert (i < n)%nat as Hi by (rewrite <- (so_saved _ _ _ Hok); by eapply lookup_lt_Some).
  assert (forall ps, save_new i ps S = Ok S' ->
    store_ok n (Some i) S' /\ rafts S' = rafts S /\ instances S' = instances S /\ stopCh S' = stopCh S /\
    (i < n)%nat /\ unowned i S' /\ content S' i = Some ps /\
    (forall j, j <> i -> content S' j = content S j /\ saved S' !! j = saved S !! j)) as Hnew.
  { intros ps Hps. pose proof (save_new_content i ps S S') as Hc.
    pose proof (save_new_ok _ _ _ _ _ Hok Hps) as Hok'.
    pose proof (save_new_Ok _ _ _ _ Hps) as [_ E].
    split_and!; try done; try (by rewrite E).
    - intros p k inst Hp Hk. rewrite E in Hp, Hk. simpl in Hp, Hk.
      rewrite list_lookup_insert_eq in Hp by (by rewrite (so_saved _ _ _ Hok)).
      injection Hp as <-. pose proof (so_inst _ _ _ Hok _ _ Hk). lia.
    - rewrite (Hc i Hps (so_ptr _ _ _ Hok)). by rewrite decide_True.
    - intros j Hne. split; [|by rewrite E; simpl; rewrite list_lookup_insert_ne].
      rewrite (Hc j Hps (so_ptr _ _ _ Hok)). by rewrite decide_False. }
  unfold content at 2. rewrite Ho. destruct o as [p|]; simpl.
  - apply result_bind_Ok in Hre as (ps & Hps & Hre). unfold deref in Hps. simpl in Hps.
    destruct (ps_heap S !! p) eqn:Ep; [|done]. injection Hps as ->. by apply Hnew.
  - destruct other as [ps|]; [by apply Hnew|]. injection Hre as <-. split_and!; try done.
    + intros p k inst Hp. congruence.
    + unfold content. by rewrite Ho.
Qed.

Lemma deref_Some {A} (heap : list A) k x : deref heap (Some k) = Ok x <-> heap !! k = Some x.
Proof. unfold deref. simpl. by destruct (heap !! k); split; intros E; simplify_eq. Qed.

Lemma stop_instance_ok n i k S S' :
  store_ok n (Some i) S -> unowned i S -> rafts S !! i = Some (Some k) -> stop_instance i k S = Ok S' ->
  store_ok n (Some i) S' /\ rafts S' = <[i := None]> (rafts S) /\ saved S' = saved S /\
  ps_heap S' = ps_heap S /\
  exists inst, instances S !! k = Some inst /\
    instances S' = <[k := mkInstance (Kill (raft inst)) (persister inst) true]> (instances S).
Proof.
  intros Hok Hfresh Hk Hst. destruct (so_running _ _ _ Hok _ _ Hk) as (Hch & inst & Hinst & Hlive & _).
  unfold stop_instance in Hst. apply result_bind_Ok in Hst as (o & Ho%at_Ok & Hst).
  rewrite Hch in Ho. injection Ho as <-.
  apply result_bind_Ok in Hst as (inst' & Hi%deref_Some & Hst).
  rewrite Hinst in Hi. injection Hi as <-. rewrite Hlive in Hst.
  apply result_bind_Ok in Hst as (rf & Hrf%deref_Some & Hst).
  rewrite list_lookup_insert_eq in Hrf by (by eapply lookup_lt_Some). injection Hrf as <-.
  apply result_bind_Ok in Hst as (r & [Hlt ->]%put_at_Ok & [= <-]). simpl.
  rewrite list_insert_insert_eq.
  split_and!; [|done|done|done|by exists inst].
  destruct Hok as [? ? ? Hp Hin Hinj Hrinj Hown Hr].
  assert (forall k' inst', <[k:=mkInstance (Kill (raft inst)) (persister inst) true]> (instances S) !! k'
    = Some inst' -> exists inst0, instances S !! k' = Some inst0 /\ persister inst' = persister inst0) as Hold.
  { intros k' inst' [[-> ->]|[_ E]]%(lookup_update _ _ _ _ _ _ Hinst); by eexists. }
  assert (forall j k', <[i:=None]> (rafts S) !! j = Some (Some k') -> j <> i /\ rafts S !! j = Some (Some k'))
    as Hraft.
  { intros j k' [[_ E]|[? ?]]%(lookup_update _ _ _ _ _ _ Hk); [done|by split]. }
  constructor; simpl; rewrite ?length_insert; try done.
  - intros k' inst' (inst0 & E & ->)%Hold. by eapply Hin.
  - intros j j' k' [_ Hj]%Hraft [_ Hj']%Hraft. by eapply Hrinj.
  - intros j p k' inst' Hj (inst0 & E & Ep)%Hold Hp'. destruct (decide (i = j)) as [->|Hne].
    + exfalso. apply (Hfresh p k' inst0); [done|done|congruence].
    + rewrite list_lookup_insert_ne by done. eapply Hown; [done|done|congruence].
  - intros j k' [Hne Hj]%Hraft.
    destruct (Hr j k' Hj) as (Hch' & inst' & Hi' & Hl' & Hx). split; [done|].
    assert (k' <> k) as Hkk by (intros ->; apply Hne; by eapply Hrinj).
    exists inst'. rewrite list_lookup_insert_ne by done. split_and!; [done|done|].
    intros _. apply Hx. congruence.
Qed.

Lemma alter_insert {A} (f : A -> A) (l : list A) k x : l !! k = Some x -> alter f k l = <[k := f x]> l.
Proof. intros Hk. rewrite list_insert_alter. apply list_alter_ext; [|done]. naive_solver. Qed.

(** What a crash does to the store: the instance is dead and stopped, and the
    saved state is in a persister that nobody else has. *)
Lemma crash_store_ok n i S S' :
  store_ok n None S -> crash_store i S = Ok S' ->
  store_ok n None S' /\ rafts S' !! i = Some None /\ (i < n)%nat /\ unowned i S' /\
  (content S' i = (ps ← content S i; Some (mkPersister (raftstate ps) (snapshot ps)))) /\
  (forall j, j <> i -> content S' j = content S j /\ rafts S' !! j = rafts S !! j) /\
  instances S' = match mjoin (rafts S !! i) with
    | Some k => alter (fun inst => mkInstance (Kill (raft inst)) (persister inst) true) k (instances S)
    | None => instances S
    end.
Proof.
  intros Hok Hcr. unfold crash_store in Hcr. apply (store_ok_weaken n i) in Hok.
  apply result_bind_Ok in Hcr as (S1 & H1 & Hcr).
  destruct (resave_ok _ _ _ _ _ _ Hok H1) as (Hok1 & Er1 & Ei1 & Es1 & Hi & Hun1 & Hc1 & Ho1).
  apply result_bind_Ok in Hcr as (o & Ho%at_Ok & Hcr). apply result_bind_Ok in Hcr as (S2 & H2 & H3).
  assert (store_ok n (Some i) S2 /\ rafts S2 !! i = Some None /\ saved S2 = saved S1 /\
    ps_heap S2 = ps_heap S1 /\ (forall j, j <> i -> rafts S2 !! j = rafts S !! j) /\
    instances S2 = match mjoin (rafts S !! i) with
    | Some k => alter (fun inst => mkInstance (Kill (raft inst)) (persister inst) true) k (instances S)
    | None => instances S
    end) as (Hok2 & Hr2 & Esv2 & Eph2 & Hj2 & Ei2).
  { rewrite Er1 in Ho. rewrite Ho. destruct o as [k|]; simpl.
    - rewrite <- Er1 in Ho. destruct (stop_instance_ok _ _ _ _ _ Hok1 Hun1 Ho H2)
        as (? & Er & ? & ? & inst & Hinst & Ei).
      split_and!; [done|..|done|done| |].
      + rewrite Er. apply list_lookup_insert_eq. rewrite (so_rafts _ _ _ Hok1). done.
      + intros j Hne. rewrite Er, Er1. by apply list_lookup_insert_ne.
      + rewrite Ei, <- Ei1. by rewrite (alter_insert _ _ _ _ Hinst).
    - injection H2 as <-. split_and!; [done|by rewrite Er1|done|done|by rewrite Er1|done]. }
  destruct (resave_ok _ _ _ _ _ _ Hok2 H3) as (Hok3 & Er3 & Ei3 & Es3 & _ & Hun3 & Hc3 & Ho3).
  assert (forall j, content S2 j = content S1 j) as Ec by (intros; unfold content; by rewrite Esv2, Eph2).
  split_and!; [|by rewrite Er3|done|done| | |by rewrite Ei3].
  - apply (store_ok_stopped n i); [done|by rewrite Er3].
  - rewrite Hc3, Ec, Hc1. destruct (content S i) as [ps|]; simpl; [|done].
    unfold SaveStateAndSnapshot, ReadRaftState, ReadSnapshot. by rewrite !clone_id.
  - intros j Hne. rewrite Er3. split; [|by apply Hj2].
    destruct (Ho3 j Hne) as [-> _]. rewrite Ec. by apply Ho1.
Qed.
(** What a start does: a new instance made from the saved state. *)
Lemma start_store_ok n i S S' :
  store_ok n None S -> rafts S !! i = Some None -> start_store n i S = Ok S' ->
  store_ok n None S' /\
  (exists p ps rf, saved S' !! i = Some (Some p) /\ content S' i = Some ps /\
    ps = match content S i with Some ps => Copy ps | None => MakePersister end /\
    Make n i ps = Ok rf /\ rafts S' !! i = Some (Some (length (instances S))) /\
    instances S' = instances S ++ [mkInstance rf p false]) /\
  (forall j, j <> i -> content S' j = content S j /\ rafts S' !! j = rafts S !! j).
Proof.
  intros Hok Hnone Hst. unfold start_store in Hst. apply (store_ok_weaken n i) in Hok.
  apply result_bind_Ok in Hst as (S1 & H1 & Hst).
  destruct (resave_ok _ _ _ _ _ _ Hok H1) as (Hok1 & Er1 & Ei1 & Es1 & Hi & Hun1 & Hc1 & Ho1).
  rewrite <- Er1 in Hnone.
  apply result_bind_Ok in Hst as (sc & [Hlt ->]%put_at_Ok & Hst).
  apply result_bind_Ok in Hst as (o & Ho%at_Ok & Hst).
  apply result_bind_Ok in Hst as (ps & Hps & Hst). destruct o as [p|]; [|done]. simpl in Hst.
  apply deref_Some in Hps. pose proof (content_saved _ _ _ Ho) as Hcp. rewrite Hps in Hcp.
  apply result_bind_Ok in Hst as (rf & Hrf & Hst).
  apply result_bind_Ok in Hst as (r & [Hlt' ->]%put_at_Ok & [= <-]). rewrite Ei1.
  pose proof (store_ok_stopped _ _ _ Hok1 Hnone) as [? Hsv ? Hp Hin Hinj Hrinj Hown Hr].
  assert (forall j k, rafts S1 !! j = Some (Some k) -> (k < length (instances S))%nat) as Hlen.
  { intros j k Hj. destruct (Hr j k Hj) as (_ & inst & Hinst & _). rewrite Ei1 in Hinst.
    by eapply lookup_lt_Some. }
  assert (forall j k, <[i:=Some (length (instances S))]> (rafts S1) !! j = Some (Some k) ->
    (j = i /\ k = length (instances S)) \/ (j <> i /\ rafts S1 !! j = Some (Some k))) as Hraft.
  { intros j k [[-> E]|?]%(lookup_update _ _ _ _ _ _ Hnone); [left|by right]. by injection E. }
  assert (forall k inst, (instances S ++ [mkInstance rf p false]) !! k = Some inst ->
    (k = length (instances S) /\ inst = mkInstance rf p false) \/ instances S1 !! k = Some inst) as Hinst.
  { intros k inst [?|[Hle Hk]]%lookup_app_Some; [right; congruence|left].
    apply list_lookup_singleton_Some in Hk as [? <-]. split; [lia|done]. }
  split_and!.
  - constructor; simpl; rewrite ?length_insert; try done.
    + intros k inst [[-> ->]|Hk]%Hinst; [by eapply Hp|by eapply Hin].
    + intros j j' k [[-> ->]|[_ Hj]]%Hraft [[-> E]|[_ Hj']]%Hraft; [done|..|by eapply Hrinj].
      * apply Hlen in Hj'. lia.
      * subst k. apply Hlen in Hj. lia.
    + intros j q k inst Hj [[-> ->]|Hk]%Hinst E; simpl in E.
      * subst q. rewrite (Hinj _ _ _ Hj Ho). by apply list_lookup_insert_eq.
      * destruct (decide (i = j)) as [->|Hne]; [by destruct (Hun1 q k inst)|].
        rewrite list_lookup_insert_ne by done. by eapply Hown.
    + intros j k [[-> ->]|[Hne Hj]]%Hraft.
      * split; [by apply list_lookup_insert_eq|]. eexists. split_and!; [by apply list_lookup_middle|done|done].
      * destruct (Hr j k Hj) as (? & inst & Hk & ? & ?). rewrite list_lookup_insert_ne by done.
        split; [done|]. exists inst. split_and!; [|done|done].
        rewrite Ei1 in Hk. by apply lookup_app_l_Some.
  - exists p, ps, rf. split_and!; [done|done| |done|by apply list_lookup_insert_eq|done].
    rewrite Hc1 in Hcp. destruct (content S i); congruence.
  - intros j Hne. simpl. rewrite list_lookup_insert_ne by done. rewrite Er1. split; [|done]. by apply Ho1.
Qed.

(** Another instance's struct, or what it saves. *)
Lemma raft_step_ok n k rf S :
  store_ok n None S ->
  store_ok n None (instance_step k (fun i ps => (mkInstance rf (persister i) (stopped i), ps)) S).
Proof.
  intros [? ? ? Hp Hin Hinj Hrinj Hown Hr]. unfold instance_step.
  destruct (instances S !! k) as [inst|] eqn:Ek; [|by constructor].
  assert (forall k' inst', <[k := mkInstance rf (persister inst) (stopped inst)]> (instances S) !! k' = Some inst' ->
    exists inst0, instances S !! k' = Some inst0 /\ persister inst' = persister inst0) as Hold.
  { intros k' inst' [[-> ->]|[_ E]]%(lookup_update _ _ _ _ _ _ Ek); by eexists. }
  constructor; simpl; rewrite ?length_insert; try done.
  - intros k' inst' (inst0 & E & ->)%Hold. by eapply Hin.
  - intros i p k' inst' Hi (inst0 & E & Ep)%Hold E'. eapply Hown; [done|done|congruence].
  - intros i k' Hi. destruct (Hr i k' Hi) as (? & inst' & Hk' & Hl & Hs). split; [done|].
    destruct (decide (k = k')) as [->|Hne].
    + rewrite list_lookup_insert_eq by (by eapply lookup_lt_Some). rewrite Hk' in Ek. injection Ek as <-.
      by eexists.
    + rewrite list_lookup_insert_ne by done. by exists inst'.
Qed.

Lemma persist_step_ok n k S : store_ok n None S -> store_ok n None (instance_step k persist_instance S).
Proof.
  intros [? ? ? Hp Hin Hinj Hrinj Hown Hr]. unfold instance_step, persist_instance.
  destruct (instances S !! k) as [inst|] eqn:Ek; [|by constructor].
  rewrite list_insert_id by done. constructor; simpl; rewrite ?length_alter; done.
Qed.

Lemma persist_content n k inst S i :
  store_ok n None S -> instances S !! k = Some inst ->
  content (instance_step k persist_instance S) i =
    if decide (rafts S !! i = Some (Some k)) then persist (raft inst) <$> content S i else content S i.
Proof.
  intros Hok Hk. unfold instance_step, persist_instance. rewrite Hk. unfold content. simpl.
  destruct (saved S !! i) as [[p|]|] eqn:Ei; simpl.
  - case_decide as D.
    + destruct (so_running _ _ _ Hok _ _ D) as (_ & inst' & Hk' & _ & Hs). simplify_eq.
      specialize (Hs ltac:(done)). simplify_eq. by rewrite list_lookup_alter_eq.
    + rewrite list_lookup_alter_ne; [done|]. intros E. apply D. by eapply so_own.
  - by case_decide.
  - by case_decide.
Qed.

Lemma harness_step_store a cfg cfg' :
  store_ok (n cfg) None (store cfg) -> harness_step a cfg = Ok cfg' ->
  store_ok (n cfg') None (store cfg') /\ n cfg' = n cfg.
Proof.
  intros Hok Hst. destruct a; simpl in Hst; go_inv.
  - apply start1_parts in Hst as (cfg1 & L & Hcr & _ & _ & En & HS & _).
    apply crash1_links in Hcr as (_ & _ & Hcr & _).
    destruct (crash_store_ok _ _ _ _ Hok Hcr) as (Hok1 & Hnone & _). rewrite En. split; [|done].
    by destruct (start_store_ok _ _ _ _ Hok1 Hnone HS).
  - apply crash1_links in Hst as (_ & En & Hcr & _). rewrite En. split; [|done].
    by destruct (crash_store_ok _ _ _ _ Hok Hcr).
  - unfold connect_cfg in Hst. by go_inv.
  - unfold disconnect_cfg in Hst. by go_inv.
  - done.
  - done.
  - done.
  - split; [|done]. by apply raft_step_ok.
  - split; [|done]. by apply persist_step_ok.
Qed.

Lemma store_ok_empty n b : store_ok n None (store (empty_config (Cmd := Cmd) n b)).
Proof.
  assert (forall i (p : nat), replicate n None !! i = Some (Some p) -> False) as Hno.
  { intros i p Hi. by apply lookup_replicate in Hi as [? _]. }
  constructor; simpl; rewrite ?length_replicate; try done; try (by intros; exfalso; eapply Hno).
Qed.

Lemma harness_run_store acts cfg cfg' :
  store_ok (n cfg) None (store cfg) -> harness_run acts cfg = Ok cfg' ->
  store_ok (n cfg') None (store cfg') /\ n cfg' = n cfg.
Proof.
  intros Hok. apply (for_each_inv (fun c => store_ok (n c) None (store c) /\ n c = n cfg)); [done|].
  intros a c c' _ [Hc En] Hst. destruct (harness_step_store _ _ _ Hc Hst). by split; [|congruence].
Qed.

(** [make_config] is a run of the tester's operations. *)
Lemma make_config_run n b rnd cfg :
  make_config (Cmd := Cmd) n b rnd = Ok cfg ->
  harness_run (((fun i => AStart i (rnd i)) <$> seq 0 n) ++ (AConnect <$> seq 0 n)) (empty_config n b)
    = Ok cfg.
Proof.
  unfold make_config, harness_run. intros (cfg1 & H1 & H2)%result_bind_Ok.
  rewrite for_each_app, for_each_fmap. apply result_bind_Ok. exists cfg1.
  split; [exact H1|rewrite for_each_fmap; exact H2].
Qed.

Lemma make_config_store n b rnd cfg :
  make_config (Cmd := Cmd) n b rnd = Ok cfg -> store_ok n None (store cfg) /\ RaftConfig.n cfg = n.
Proof.
  intros [Hok En]%make_config_run%harness_run_store; [|apply store_ok_empty].
  simpl in En. by rewrite En in Hok.
Qed.

(** C18: isolation of a crashed instance's disk.  In every state the test can
    bring the servers into, a server's saved state is written by its running
    instance and by no other: whatever an instance that was killed, or one of
    another server, still saves, the saved state stays what it was; and what
    the running instance saves is what the tester has. *)
Theorem persister_isolation n b rnd acts cfg cfg0 i k inst :
  make_config (Cmd := Cmd) n b rnd = Ok cfg0 -> harness_run acts cfg0 = Ok cfg ->
  instances (store cfg) !! k = Some inst ->
  exists cfg', harness_step (APersist k) cfg = Ok cfg' /\
    (rafts (store cfg) !! i <> Some (Some k) -> content (store cfg') i = content (store cfg) i) /\
    (rafts (store cfg) !! i = Some (Some k) ->
       ReadRaftState <$> content (store cfg') i =
         Some (gob_encode [GLog (log (raft inst)); GInt (currentTerm (raft inst)); GInt (votedFor (raft inst))])).
Proof.
  intros [Hok <-]%make_config_store [Hok' _]%harness_run_store Hk; [|done].
  eexists. split; [done|]. simpl. rewrite (persist_content _ _ _ _ _ Hok' Hk). split; intros Hi.
  - by rewrite decide_False.
  - rewrite decide_True by done. destruct (so_running _ _ _ Hok' _ _ Hi) as (_ & inst' & Hk' & _ & Hs).
    rewrite Hk in Hk'. injection Hk' as <-. specialize (Hs ltac:(done)).
    rewrite (content_saved _ _ _ Hs).
    destruct (lookup_lt_is_Some_2 (ps_heap (store cfg)) (persister inst)) as [ps Hps];
      [by eapply so_ptr|]. rewrite Hps. simpl. unfold persist. by rewrite ReadRaftState_Save.
Qed.

(** Restart.  When the test restarts a server, the new instance is what
    [Make] reads from the last state the server saved, and its persister has
    that state and the snapshot; the previous instance is killed and its
    applier stopped; the other servers keep their instances and their saved
    states. *)
Theorem restart_last_state n b rnd acts cfg cfg0 i rnd' cfg' :
  make_config (Cmd := Cmd) n b rnd = Ok cfg0 -> harness_run acts cfg0 = Ok cfg ->
  start1 i rnd' cfg = Ok cfg' ->
  let ps := default MakePersister (content (store cfg) i) in
  (exists k inst, rafts (store cfg') !! i = Some (Some k) /\ instances (store cfg') !! k = Some inst /\
     Make n i ps = Ok (raft inst) /\ stopped inst = false) /\
  content (store cfg') i = Some ps /\
  (forall k, rafts (store cfg) !! i = Some (Some k) -> exists inst,
     instances (store cfg') !! k = Some inst /\ killed (raft inst) = true /\ stopped inst = true) /\
  (forall j, j <> i -> content (store cfg') j = content (store cfg) j /\
     rafts (store cfg') !! j = rafts (store cfg) !! j).
Proof.
  intros [Hok <-]%make_config_store [Hok' En]%harness_run_store Hst ps; [|done].
  apply start1_parts in Hst as (cfg1 & L & (_ & _ & Hcr & _)%crash1_links & _ & _ & _ & HS & _).
  destruct (crash_store_ok _ _ _ _ Hok' Hcr) as (Hok1 & Hnone & _ & _ & Hc1 & Ho1 & Ei1).
  destruct (start_store_ok _ _ _ _ Hok1 Hnone HS) as (_ & (p & ps' & rf & Hp & Hc & Eps & Hrf & Hr & Ei) & Ho).
  assert (ps' = ps) as ->.
  { rewrite Eps, Hc1. unfold ps. by destruct (content (store cfg) i) as [[]|]. }
  rewrite En in Hrf. split_and!.
  - exists (length (instances (store cfg1))), (mkInstance rf p false). rewrite Ei.
    split_and!; [done|by apply list_lookup_middle|done|done].
  - done.
  - intros k Hk. destruct (so_running _ _ _ Hok' _ _ Hk) as (_ & inst & Hinst & _). rewrite Ei, Ei1, Hk. simpl.
    exists (mkInstance (Kill (raft inst)) (persister inst) true). split_and!; [|done|done].
    apply lookup_app_l_Some. by rewrite list_lookup_alter_eq, Hinst.
  - intros j Hne. destruct (Ho j Hne) as [-> ->]. by apply Ho1.
Qed.
End store.
