(* ===== verification/RaftConfigTally.v ===== *)
(** * raft/config.go: what the tester concludes from what peers apply

    The appliers' record of committed entries is consistent, the tester fails
    precisely when two peers apply different commands at one index, and an
    agreement that [one] reports is one. *)

From Stdlib Require Import ZArith Lia.
From stdpp Require Import base numbers strings gmap list.
From S2P Require Import Prelude Persister RaftNode RaftCluster RaftWf RaftHistory.
From S2P Require Import Labrpc Harness RaftConfig RaftConfigLinks RaftConfigStore.
Local Open Scope Z_scope.

Section tally.
Context {Cmd : Type} `{EqDecision Cmd} `{Gob Cmd}.
Implicit Types (T : Tally Cmd) (e : logEntry Cmd) (m : ApplyMsg Cmd) (l : gmap Z (logEntry Cmd)).

Definition entry_of m : logEntry Cmd := mkEntry (CommandValid m) (am_Command m).

Definition disagreement : panic := LogFatal "has already committed".

(** ** One message *)

Lemma checkConsistency_spec (k : Z) e lgs :
  (checkConsistency k e lgs = Ok () /\ Forall (fun l => forall e', l !! k = Some e' -> e' = e) lgs) \/
  (checkConsistency k e lgs = Panic disagreement /\
     exists l e', l ∈ lgs /\ l !! k = Some e' /\ e' <> e).
Proof.
  unfold checkConsistency. induction lgs as [|l lgs IH]; simpl; [by left|].
  destruct (l !! k) as [e'|] eqn:El.
  - case_decide as D; simpl.
    + right. split; [done|]. exists l, e'. set_solver.
    + subst e'.
      destruct IH as [[-> Hall]|[-> (l' & e' & ? & ? & ?)]]; [left|right].
      * split; [done|]. constructor; [congruence|done].
      * split; [done|]. exists l', e'. set_solver.
  - simpl. destruct IH as [[-> Hall]|[-> (l' & e' & ? & ? & ?)]]; [left|right].
    + split; [done|]. constructor; [congruence|done].
    + split; [done|]. exists l', e'. set_solver.
Qed.

Record sized (n : nat) T : Prop := {
  sz_logs : length (logs T) = n;
  sz_recv : length (didRecv T) = n;
  sz_next : length (nextIndex T) = n;
  sz_cmds : length (numCommands T) = n;
}.

(** The next index of a server, with the first message accounted for. *)
Definition expected T (i : nat) m : Z :=
  let next := default 0 (nextIndex T !! i) in
  if default true (didRecv T !! i) then next
  else if (CommandIndex m =? 1) && (next =? 0) then 1 else next.

Lemma first_message_spec n i m T :
  sized n T -> (i < n)%nat ->
  exists T', first_message i m T = Ok T' /\ sized n T' /\ logs T' = logs T /\
    numCommands T' = numCommands T /\ maxIndex T' = maxIndex T /\
    didRecv T' = <[i := true]> (didRecv T) /\ nextIndex T' !! i = Some (expected T i m) /\
    (forall j, j <> i -> nextIndex T' !! j = nextIndex T !! j).
Proof.
  intros [Hl Hr Hn Hc] Hi. unfold first_message, expected.
  destruct (lookup_lt_is_Some_2 (didRecv T) i) as [dr Hdr]; [lia|].
  destruct (lookup_lt_is_Some_2 (nextIndex T) i) as [ni Hni]; [lia|].
  rewrite Hdr, Hni, (proj2 (at_Ok _ _ _) Hdr). simpl. destruct dr.
  { exists T. split_and!; try done. by rewrite list_insert_id. }
  rewrite (proj2 (put_at_Ok _ _ _ _) (conj (lookup_lt_Some _ _ _ Hdr) eq_refl)). simpl.
  destruct (CommandIndex m =? 1); simpl.
  - rewrite (proj2 (at_Ok _ _ _) Hni). simpl. destruct (ni =? 0); simpl.
    + rewrite (proj2 (put_at_Ok _ _ _ _) (conj (lookup_lt_Some _ _ _ Hni) eq_refl)). simpl.
      eexists. split; [done|]. split_and!; simpl; try done.
      * constructor; simpl; by rewrite ?length_insert.
      * apply list_lookup_insert_eq. by eapply lookup_lt_Some.
      * intros j Hne. by rewrite list_lookup_insert_ne.
    + eexists. split; [done|]. split_and!; simpl; try done. constructor; simpl; by rewrite ?length_insert.
  - eexists. split; [done|]. split_and!; simpl; try done. constructor; simpl; by rewrite ?length_insert.
Qed.

(** [apply] on every branch. *)
Lemma apply_spec n i m T :
  sized n T -> (i < n)%nat ->
  (CommandIndex m <> expected T i m /\
     apply i m T = Panic (LogFatal "applied index but expected")) \/
  (CommandIndex m = expected T i m /\ apply i m T = Panic disagreement /\
     exists l e', l ∈ logs T /\ l !! CommandIndex m = Some e' /\ e' <> entry_of m) \/
  (CommandIndex m = expected T i m /\
     Forall (fun l => forall e', l !! CommandIndex m = Some e' -> e' = entry_of m) (logs T) /\
     exists l c T', logs T !! i = Some l /\ numCommands T !! i = Some c /\ apply i m T = Ok T' /\
       logs T' = <[i := <[CommandIndex m := entry_of m]> l]> (logs T) /\ sized n T' /\
       didRecv T' = <[i := true]> (didRecv T) /\
       nextIndex T' !! i = Some (CommandIndex m + 1) /\
       (forall j, j <> i -> nextIndex T' !! j = nextIndex T !! j) /\
       numCommands T' = (if CommandValid m then <[i := c + 1]> (numCommands T) else numCommands T) /\
       maxIndex T' = Z.max (maxIndex T) (CommandIndex m)).
Proof.
  intros Hs Hi. destruct (first_message_spec n i m T Hs Hi)
    as (T1 & E1 & Hs1 & El & Ec & Em & Ed & En & Ej).
  unfold apply. rewrite E1. simpl. rewrite (proj2 (at_Ok _ _ _) En). simpl.
  destruct (Z.eqb_spec (CommandIndex m) (expected T i m)) as [Ek|Hne]; simpl; [right|by left].
  assert (i < length (nextIndex T1))%nat as Hin by (by eapply lookup_lt_Some).
  rewrite (proj2 (put_at_Ok _ _ _ _) (conj Hin eq_refl)). simpl. rewrite El.
  destruct (checkConsistency_spec (CommandIndex m) (entry_of m) (logs T)) as [[Hck Hall]|[Hck Hex]];
    unfold entry_of in *; rewrite Hck; simpl; [right|by left].
  destruct (lookup_lt_is_Some_2 (logs T) i) as [l Hl]; [by rewrite (sz_logs _ _ Hs)|].
  destruct (lookup_lt_is_Some_2 (numCommands T) i) as [c Hc]; [by rewrite (sz_cmds _ _ Hs)|].
  rewrite (proj2 (at_Ok _ _ _) Hl). simpl.
  rewrite (proj2 (put_at_Ok _ _ _ _) (conj (lookup_lt_Some _ _ _ Hl) eq_refl)). simpl.
  split_and!; [done|done|]. exists l, c. rewrite Ec, (proj2 (at_Ok _ _ _) Hc). simpl.
  rewrite (proj2 (put_at_Ok _ _ _ _) (conj (lookup_lt_Some _ _ _ Hc) eq_refl)).
  destruct Hs1 as [? ? ? ?], Hs as [? ? ? ?].
  destruct (CommandValid m); simpl; (eexists; split_and!; [done|done|done|done|..]; simpl);
    try done; try (constructor; simpl; rewrite ?length_insert; congruence).
  all: try (rewrite list_lookup_insert_eq by done; by f_equal; lia).
  all: try (intros j Hne; rewrite list_lookup_insert_ne by done; by apply Ej).
  all: rewrite Em; destruct (Z.ltb_spec (maxIndex T) (CommandIndex m)); lia.
Qed.

(** ** The record of committed entries is consistent *)

Definition consistent T : Prop :=
  forall l l' k e e', l ∈ logs T -> l' ∈ logs T -> l !! k = Some e -> l' !! k = Some e' -> e = e'.

(** Entries are added and never replaced by others. *)
Definition logs_le T T' : Prop := Forall2 (⊆@{gmap Z (logEntry Cmd)}) (logs T) (logs T').

Lemma logs_le_refl T : logs_le T T.
Proof. unfold logs_le. reflexivity. Qed.

Lemma logs_le_trans T1 T2 T3 : logs_le T1 T2 -> logs_le T2 T3 -> logs_le T1 T3.
Proof. unfold logs_le. intros. by etrans. Qed.

Lemma apply_consistent n i m T T' :
  sized n T -> consistent T -> apply i m T = Ok T' -> sized n T' /\ consistent T' /\ logs_le T T'.
Proof.
  intros Hs Hc Ha.
  assert (i < n)%nat as Hi.
  { unfold apply, first_message in Ha. repeat apply result_bind_Ok in Ha as (? & Ha & _).
    apply at_Ok, lookup_lt_Some in Ha. by rewrite (sz_recv _ _ Hs) in Ha. }
  destruct (apply_spec n i m T Hs Hi) as [[_ E]|[(_ & E & _)|(_ & Hall & l & c & T1 & Hl & _ & E & El & Hs1 & _)]];
    try congruence.
  rewrite E in Ha. injection Ha as <-. split; [done|].
  assert (l ⊆ <[CommandIndex m := entry_of m]> l) as Hsub.
  { destruct (l !! CommandIndex m) as [e'|] eqn:Ee; [|by apply insert_subseteq].
    rewrite Forall_forall in Hall. rewrite insert_id; [done|].
    rewrite Ee. f_equal. apply (Hall l); [by eapply list_elem_of_lookup_2|done]. }
  split.
  - assert (forall l1 k e1, l1 ∈ logs T1 -> l1 !! k = Some e1 ->
      (exists l2, l2 ∈ logs T /\ l2 !! k = Some e1) \/ (k = CommandIndex m /\ e1 = entry_of m)) as Hold.
    { intros l1 k e1 [j Hj]%list_elem_of_lookup_1 He. rewrite El in Hj.
      apply (lookup_update _ _ _ _ _ _ Hl) in Hj as [[-> ->]|[_ Hj]].
      - apply lookup_insert_Some in He as [[<- <-]|[_ He]]; [by right|left].
        exists l. split; [by eapply list_elem_of_lookup_2|done].
      - left. exists l1. split; [by eapply list_elem_of_lookup_2|done]. }
    rewrite Forall_forall in Hall. intros l1 l2 k e1 e2 H1 H2 He1 He2.
    destruct (Hold _ _ _ H1 He1) as [(l3 & H3 & He3)|[-> ->]], (Hold _ _ _ H2 He2) as [(l4 & H4 & He4)|[? ->]];
      subst; [exact (Hc l3 l4 _ _ _ H3 H4 He3 He4)|exact (Hall l3 H3 _ He3)|symmetry; exact (Hall l4 H4 _ He4)|done].
  - unfold logs_le. rewrite El. rewrite <- (list_insert_id (logs T) i l) at 1 by done.
    apply Forall2_insert; [|done]. apply logs_le_refl.
Qed.
Lemma start_tally_logs i T T' : start_tally i T = Ok T' -> logs T' = logs T.
Proof.
  unfold start_tally. intros (l & _ & (dr & _ & [= <-])%result_bind_Ok)%result_bind_Ok. done.
Qed.

Lemma start_tally_sized n i T T' : sized n T -> start_tally i T = Ok T' -> sized n T'.
Proof.
  intros [? ? ? ?]. unfold start_tally.
  intros (l & [_ ->]%put_at_Ok & (dr & [_ ->]%put_at_Ok & [= <-])%result_bind_Ok)%result_bind_Ok.
  constructor; simpl; by rewrite ?length_insert.
Qed.

(** ** The verdict *)

Definition msgs_of (i : nat) (ms : list (nat * ApplyMsg Cmd)) : list (ApplyMsg Cmd) :=
  snd <$> filter (fun x => x.1 = i) ms.

(** No two messages have different commands for an index. *)
Definition agree (ms : list (nat * ApplyMsg Cmd)) : Prop :=
  forall i j m m', (i, m) ∈ ms -> (j, m') ∈ ms -> CommandIndex m = CommandIndex m' ->
    entry_of m = entry_of m'.

Definition apply_all : list (nat * ApplyMsg Cmd) -> Tally Cmd -> result (Tally Cmd) :=
  for_each (fun '(i, m) => apply i m).

(** The tally after the messages [ms]. *)
Record tallied (n : nat) (ms : list (nat * ApplyMsg Cmd)) T : Prop := {
  td_sized : sized n T;
  td_next i : (i < n)%nat ->
    nextIndex T !! i = Some (match msgs_of i ms with [] => 0 | _ => len (msgs_of i ms) + 1 end);
  td_recv i : (i < n)%nat ->
    didRecv T !! i = Some (match msgs_of i ms with [] => false | _ => true end);
  td_logs i l k e : logs T !! i = Some l ->
    l !! k = Some e <-> exists m, (i, m) ∈ ms /\ CommandIndex m = k /\ entry_of m = e;
  td_agree : agree ms;
  td_range i m : (i, m) ∈ ms -> (i < n)%nat;
}.

Lemma msgs_of_snoc i ms j m :
  msgs_of i (ms ++ [(j, m)]) = if decide (j = i) then msgs_of i ms ++ [m] else msgs_of i ms.
Proof.
  unfold msgs_of. rewrite filter_app, fmap_app, filter_cons, filter_nil. simpl.
  case_decide; simpl; [done|by rewrite app_nil_r].
Qed.

Lemma tallied_expected n ms T i m :
  tallied n ms T -> (i < n)%nat -> CommandIndex m = len (msgs_of i ms) + 1 ->
  expected T i m = CommandIndex m.
Proof.
  intros Ht Hi Em. unfold expected. rewrite (td_next _ _ _ Ht i Hi), (td_recv _ _ _ Ht i Hi). simpl.
  destruct (msgs_of i ms) as [|m0 l] eqn:E; simpl; [|done].
  rewrite len_nil in Em. by rewrite Em.
Qed.

Lemma tallied_snoc n ms T i m :
  tallied n ms T -> (i < n)%nat -> CommandIndex m = len (msgs_of i ms) + 1 ->
  (exists T', apply i m T = Ok T' /\ tallied n (ms ++ [(i, m)]) T') \/
  (apply i m T = Panic disagreement /\ ~ agree (ms ++ [(i, m)])).
Proof.
  intros Ht Hi Em. pose proof (tallied_expected _ _ _ _ _ Ht Hi Em) as Ex.
  pose proof Ht as [Hs Hn Hr Hlg Hag Hrng].
  assert (forall l e', l ∈ logs T -> l !! CommandIndex m = Some e' ->
    exists j m', (j, m') ∈ ms /\ CommandIndex m' = CommandIndex m /\ entry_of m' = e') as Hin.
  { intros l e' [j Hj]%list_elem_of_lookup_1 He. apply (Hlg _ _ _ _ Hj) in He as (m' & ? & ? & ?).
    by exists j, m'. }
  destruct (apply_spec n i m T Hs Hi) as [[Hne _]|[(_ & E & l & e' & Hl & He & Hd)|
    (_ & Hall & l & c & T' & Hl & _ & E & El & Hs' & Ed & En & Ej & _)]]; [congruence|right|left].
  - split; [done|]. intros Hag'. destruct (Hin l e' Hl He) as (j & m' & Hm' & Ek & Ee). apply Hd. subst e'.
    apply (Hag' j i); [set_solver|set_solver|done].
  - exists T'. split; [done|]. constructor; [done|..].
    + intros j Hj. rewrite msgs_of_snoc. case_decide as D.
      * subst j. rewrite En. destruct (msgs_of i ms ++ [m]) eqn:Ea; [by destruct (msgs_of i ms)|].
        rewrite <- Ea, len_app, len_cons, len_nil. f_equal. lia.
      * rewrite Ej by done. by apply Hn.
    + intros j Hj. rewrite msgs_of_snoc, Ed. case_decide as D.
      * subst j. rewrite list_lookup_insert_eq by (by rewrite (sz_recv _ _ Hs)).
        by destruct (msgs_of i ms).
      * rewrite list_lookup_insert_ne by done. by apply Hr.
    + assert (forall i' m' k e, (i', m') ∈ ms ++ [(i, m)] -> CommandIndex m' = k -> entry_of m' = e ->
        (i', m') ∈ ms \/ (i' = i /\ k = CommandIndex m /\ e = entry_of m)) as Hsplit.
      { intros i' m' k e [?|[= -> ->]%list_elem_of_singleton]%elem_of_app <- <-; [by left|by right]. }
      intros j l' k e Hj. rewrite El in Hj. apply (lookup_update _ _ _ _ _ _ Hl) in Hj as [[-> ->]|[Hne Hj]].
      * rewrite lookup_insert_Some. split.
        -- intros [[<- <-]|[_ (m' & ? & ? & ?)%(Hlg _ _ _ _ Hl)]]; [exists m; set_solver|exists m'; set_solver].
        -- intros (m' & Hm' & Ek & Ee). destruct (Hsplit _ _ _ _ Hm' Ek Ee) as [Hold|(_ & -> & ->)]; [|by left].
           assert (l !! k = Some e) as Hk by (apply (Hlg _ _ _ _ Hl); by exists m').
           destruct (decide (CommandIndex m = k)) as [<-|]; [left|by right]. split; [done|].
           rewrite Forall_forall in Hall. symmetry. apply (Hall l); [by eapply list_elem_of_lookup_2|done].
      * rewrite (Hlg _ _ _ _ Hj). split; intros (m' & Hm' & Ek & Ee); exists m'; [set_solver|].
        destruct (Hsplit _ _ _ _ Hm' Ek Ee) as [?|(? & _)]; [done|congruence].
    + assert (forall j m', (j, m') ∈ ms -> CommandIndex m' = CommandIndex m -> entry_of m' = entry_of m) as Hnew.
      { intros j m' Hm' Ek.
        destruct (lookup_lt_is_Some_2 (logs T) j) as [l' Hl'];
          [rewrite (sz_logs _ _ Hs); by eapply Hrng|].
        rewrite Forall_forall in Hall. apply (Hall l'); [by eapply list_elem_of_lookup_2|].
        apply (Hlg _ _ _ _ Hl'). by exists m'. }
      intros j j' m1 m2 [H1|[= -> ->]%list_elem_of_singleton]%elem_of_app
        [H2|[= -> ->]%list_elem_of_singleton]%elem_of_app Ek; [by eapply Hag|by eapply Hnew| |done].
      symmetry. by eapply Hnew.
    + intros j m' [?|[= -> ->]%list_elem_of_singleton]%elem_of_app; [by eapply Hrng|done].
Qed.

Lemma tallied_empty n b : tallied n [] (tally (empty_config n b)).
Proof.
  constructor; simpl.
  - constructor; simpl; by rewrite length_replicate.
  - intros i Hi. by apply lookup_replicate.
  - intros i Hi. by apply lookup_replicate.
  - intros i l k e [-> _]%lookup_replicate. rewrite lookup_empty. split; [done|].
    intros (m & ? & _). set_solver.
  - intros i j m m' ?. set_solver.
  - set_solver.
Qed.

(** Messages of each server in the order of their indices. *)
Definition in_order (n : nat) (ms : list (nat * ApplyMsg Cmd)) : Prop :=
  (forall i m, (i, m) ∈ ms -> (i < n)%nat) /\
  (forall i k m, msgs_of i ms !! k = Some m -> CommandIndex m = Z.of_nat k + 1).

Lemma in_order_prefix n ms x : in_order n (ms ++ [x]) -> in_order n ms.
Proof.
  intros [Hr Hk]. split; [set_solver|]. intros i k m Hm. apply (Hk i k). destruct x as [j m'].
  rewrite msgs_of_snoc. case_decide; [by apply lookup_app_l_Some|done].
Qed.

Lemma in_order_last n ms i m : in_order n (ms ++ [(i, m)]) -> CommandIndex m = len (msgs_of i ms) + 1.
Proof.
  intros [_ Hk]. unfold len. apply (Hk i). rewrite msgs_of_snoc, decide_True by done.
  by apply list_lookup_middle.
Qed.

Lemma apply_all_spec n ms T0 :
  tallied n [] T0 -> in_order n ms ->
  (exists T, apply_all ms T0 = Ok T /\ tallied n ms T) \/
  (apply_all ms T0 = Panic disagreement /\ ~ agree ms).
Proof.
  intros H0. unfold apply_all. induction ms as [|[i m] ms IH] using rev_ind; intros Ho.
  { left. by exists T0. }
  rewrite for_each_app.
  destruct (IH (in_order_prefix _ _ _ Ho)) as [(T & -> & Ht)|[-> Hno]].
  - simpl. destruct Ho as [Hr ?] eqn:Eo. clear Eo.
    destruct (tallied_snoc n ms T i m Ht) as [(T' & -> & Ht')|[-> ?]];
      [apply (Hr i m); set_solver|by eapply in_order_last|left; by exists T'|by right].
  - right. split; [done|]. intros Ha. apply Hno. intros j j' m1 m2 ? ?. apply (Ha j j'); set_solver.
Qed.

(** What the peers of a cluster deliver, in any interleaving. *)
Lemma deliveries_in_order n ok (c : Cluster Cmd) ms :
  RaftCluster.reach n ok c -> (forall i m, (i, m) ∈ ms -> (i < n)%nat) ->
  (forall i s, RaftCluster.servers c !! i = Some s -> msgs_of i ms `prefix_of` applied s) ->
  in_order n ms.
Proof.
  intros Hr Hrng Hpre. split; [done|]. intros i k m Hm.
  assert (i < length (RaftCluster.servers c))%nat as Hi.
  { rewrite (wf_size _ _ (wf_reach _ _ _ Hr)). apply list_elem_of_lookup_2 in Hm. unfold msgs_of in Hm.
    apply list_elem_of_fmap in Hm as ([j m'] & _ & [<- ?]%list_elem_of_filter). by eapply Hrng. }
  apply lookup_lt_is_Some_2 in Hi as [s Hs]. eapply reach_index; [done|exact Hs|].
  eapply prefix_lookup_Some; [done|]. by apply Hpre.
Qed.

(** C24: the tester's verdict.  Let the peers of any execution, with any
    crashes and losses, deliver what they commit to the tester, interleaved
    in any way.  The tester's appliers never complain about the order; they
    stop the test precisely when two peers have committed different commands
    at the same index, and otherwise have recorded every command under its
    index. *)
Theorem tester_verdict n b ok (c : Cluster Cmd) ms :
  RaftCluster.reach n ok c -> (forall i m, (i, m) ∈ ms -> (i < n)%nat) ->
  (forall i s, RaftCluster.servers c !! i = Some s -> msgs_of i ms `prefix_of` applied s) ->
  (agree ms /\ exists T, apply_all ms (tally (empty_config n b)) = Ok T /\
     forall i m, (i, m) ∈ ms -> exists l, logs T !! i = Some l /\
       l !! CommandIndex m = Some (mkEntry (CommandValid m) (am_Command m))) \/
  (~ agree ms /\ apply_all ms (tally (empty_config n b)) = Panic disagreement).
Proof.
  intros Hr Hrng Hpre.
  pose proof (deliveries_in_order n ok c ms Hr Hrng Hpre) as Ho.
  destruct (apply_all_spec n ms _ (tallied_empty n b) Ho) as [(T & E & Ht)|[E Hno]]; [left|by right].
  split; [by apply (td_agree _ _ _ Ht)|]. exists T. split; [done|]. intros i m Hm.
  destruct (lookup_lt_is_Some_2 (logs T) i) as [l Hl];
    [rewrite (sz_logs _ _ (td_sized _ _ _ Ht)); by eapply Hrng|].
  exists l. split; [done|]. apply (td_logs _ _ _ Ht _ _ _ _ Hl). by exists m.
Qed.
(** ** Agreement *)

(** A reading of earlier moments, when the tally is now [T]. *)
Definition taken T (rd : list (gmap Z (logEntry Cmd) * Z)) : Prop :=
  forall i l next, rd !! i = Some (l, next) -> exists l', logs T !! i = Some l' /\ l ⊆ l'.

(** What [nCommitted] counts. *)
Lemma nCommitted_spec k rd nd e :
  nCommitted k rd = (nd, e) ->
  exists S : list nat, NoDup S /\ len S = nd /\
    (forall i, i ∈ S -> exists l next, rd !! i = Some (l, next) /\ is_Some (l !! k)) /\
    (0 < nd -> exists i l next, rd !! i = Some (l, next) /\ l !! k = Some e).
Proof.
  revert nd e. induction rd as [|[l next] rd IH] using rev_ind; intros nd e Hn.
  { injection Hn as <- <-. exists []. split_and!; [constructor|done|set_solver|lia]. }
  unfold nCommitted in *. rewrite foldl_app in Hn. simpl in Hn.
  destruct (foldl _ _ rd) as [nd0 e0]. destruct (IH _ _ eq_refl) as (S & Hnd & Hlen & Hin & Hlast).
  assert (forall i, i ∈ S -> exists l' next', (rd ++ [(l, next)]) !! i = Some (l', next') /\ is_Some (l' !! k))
    as Hin'.
  { intros i Hi. destruct (Hin i Hi) as (l' & next' & ? & ?). exists l', next'.
    split; [by apply lookup_app_l_Some|done]. }
  assert (nd = nd0 -> e = e0 -> exists S : list nat, NoDup S /\ len S = nd /\
    (forall i, i ∈ S -> exists l' next', (rd ++ [(l, next)]) !! i = Some (l', next') /\ is_Some (l' !! k)) /\
    (0 < nd -> exists i l' next', (rd ++ [(l, next)]) !! i = Some (l', next') /\ l' !! k = Some e)) as Hsame.
  { intros -> ->. exists S. split_and!; [done|done|done|]. intros Hpos.
    destruct (Hlast Hpos) as (i & l' & next' & ? & ?). exists i, l', next'.
    split; [by apply lookup_app_l_Some|done]. }
  destruct (l !! k) as [e'|] eqn:El; [|injection Hn as <- <-; by apply Hsame].
  destruct (k <? next); [|injection Hn as <- <-; by apply Hsame].
  injection Hn as <- <-. exists (S ++ [length rd]). split_and!.
  - apply NoDup_app. split_and!; [done| |apply NoDup_singleton]. intros i Hi ->%list_elem_of_singleton.
    destruct (Hin _ Hi) as (? & ? & Hx%lookup_lt_Some & _). lia.
  - rewrite len_app, len_cons, len_nil. lia.
  - intros i [Hi| ->%list_elem_of_singleton]%elem_of_app; [by apply Hin'|].
    exists l, next. split; [by apply list_lookup_middle|by eexists].
  - intros _. exists (length rd), l, next. split; [by apply list_lookup_middle|done].
Qed.

Lemma reading_agrees T rd k nd e :
  consistent T -> taken T rd -> nCommitted k rd = (nd, e) -> 0 < nd ->
  exists S : list nat, NoDup S /\ len S = nd /\
    forall i, i ∈ S -> exists l, logs T !! i = Some l /\ l !! k = Some e.
Proof.
  intros Hc Ht Hn Hpos. destruct (nCommitted_spec _ _ _ _ Hn) as (S & Hnd & Hlen & Hin & Hlast).
  destruct (Hlast Hpos) as (i0 & l0 & next0 & H0 & He0). destruct (Ht _ _ _ H0) as (l0' & Hl0 & Hsub0).
  exists S. split_and!; [done|done|]. intros i Hi. destruct (Hin i Hi) as (l & next & Hl & [e' He']).
  destruct (Ht _ _ _ Hl) as (l' & Hl' & Hsub). exists l'. split; [done|].
  assert (l' !! k = Some e') as Hke by (by eapply lookup_weaken).
  rewrite Hke. f_equal. eapply (Hc l' l0' k); [by eapply list_elem_of_lookup_2..|done|].
  by eapply lookup_weaken.
Qed.

Lemma try_servers_spec n starts tries ask :
  0 < n -> let '(starts', index) := try_servers n starts tries ask in
  index = -1 \/ exists s, ask s = Some (index, true).
Proof.
  intros Hn. revert starts. induction tries as [|tries IH]; intros starts; simpl; [by left|].
  destruct (ask _) as [[index1 []]|] eqn:E; [right; by eexists|apply IH..].
Qed.

Lemma poll_spec (cmd : option Cmd) want k readings :
  poll cmd want k readings = true ->
  exists rd nd, rd ∈ readings /\ nCommitted k rd = (nd, mkEntry true cmd) /\ 0 < nd /\ want <= nd.
Proof.
  induction readings as [|rd readings IH]; simpl; [done|].
  destruct (nCommitted k rd) as [nd e] eqn:En.
  destruct ((0 <? nd) && (want <=? nd) && bool_decide (e = mkEntry true cmd)) eqn:Eb.
  - intros _. apply andb_true_iff in Eb as [[? ?]%andb_true_iff ->%bool_decide_eq_true].
    zbool. exists rd, nd. split_and!; [set_solver|done|done|done].
  - intros Hp. destruct (IH Hp) as (rd' & nd' & ? & ?). exists rd', nd'. set_solver.
Qed.

Lemma harness_step_tally a (cfg cfg' : config Cmd) :
  sized (RaftConfig.n cfg) (tally cfg) -> consistent (tally cfg) -> harness_step a cfg = Ok cfg' ->
  sized (RaftConfig.n cfg') (tally cfg') /\ consistent (tally cfg') /\ logs_le (tally cfg) (tally cfg').
Proof.
  intros Hs Hc Hst.
  assert (forall T', RaftConfig.n cfg' = RaftConfig.n cfg -> logs T' = logs (tally cfg) ->
    sized (RaftConfig.n cfg) T' -> tally cfg' = T' ->
    sized (RaftConfig.n cfg') (tally cfg') /\ consistent (tally cfg') /\ logs_le (tally cfg) (tally cfg')) as Hsame.
  { intros T' En El Hs' ->. rewrite En. split_and!; [done|by unfold consistent; rewrite El|].
    unfold logs_le. by rewrite El. }
  destruct a; simpl in Hst; go_inv; try by eapply Hsame.
  - apply start1_parts in Hst as (cfg1 & L & _ & _ & _ & En & _ & HT).
    eapply Hsame; [done|by eapply start_tally_logs|by eapply start_tally_sized|done].
  - apply crash1_links in Hst as (_ & En & _ & Et). eapply Hsame; [done| |by rewrite <- Et in Hs|done].
    by rewrite Et.
  - unfold connect_cfg in Hst. go_inv. by eapply Hsame.
  - unfold disconnect_cfg in Hst. go_inv. by eapply Hsame.
  - by eapply apply_consistent.
Qed.

(** The tester's record in any of its states. *)
Lemma harness_run_tally acts (cfg cfg' : config Cmd) :
  sized (RaftConfig.n cfg) (tally cfg) -> consistent (tally cfg) -> harness_run acts cfg = Ok cfg' ->
  sized (RaftConfig.n cfg') (tally cfg') /\ consistent (tally cfg') /\ logs_le (tally cfg) (tally cfg').
Proof.
  intros Hs Hc. apply (for_each_inv (fun c => sized (RaftConfig.n c) (tally c) /\ consistent (tally c) /\
    logs_le (tally cfg) (tally c))); [split_and!; [done|done|apply logs_le_refl]|].
  intros a c c' _ (Hs1 & Hc1 & Hle) Hst. destruct (harness_step_tally _ _ _ Hs1 Hc1 Hst) as (? & ? & ?).
  split_and!; [done|done|by eapply logs_le_trans].
Qed.

Lemma make_config_tally n b rnd (cfg : config Cmd) :
  make_config n b rnd = Ok cfg -> sized (RaftConfig.n cfg) (tally cfg) /\ consistent (tally cfg).
Proof.
  intros (Hs & Hc & _)%make_config_run%harness_run_tally; [done| |].
  - apply (tallied_empty n b).
  - intros l l' k e e' Hl _ He _. simpl in Hl. apply elem_of_replicate in Hl as [-> _]. by rewrite lookup_empty in He.
Qed.

(** [one] reports agreements.  When [one] returns an index, a server
    accepted the command at that index, and at least [expectedServers]
    servers have applied that very command there, and still have it in the
    tester's record; whichever moments between two states of the test the
    servers were looked at, and whatever else happens in between.  Otherwise
    it stops the test. *)
Theorem one_agreement n b rnd acts acts' cfg0 cfg cfg' ns (cmd : option Cmd) want retry starts rounds index :
  make_config (Cmd := Cmd) n b rnd = Ok cfg0 -> harness_run acts cfg0 = Ok cfg ->
  harness_run acts' cfg = Ok cfg' -> (0 < ns)%nat ->
  (forall ask readings rd, (ask, readings) ∈ rounds -> rd ∈ readings -> taken (tally cfg) rd) ->
  one ns cmd want retry starts rounds = Ok index ->
  (exists ask readings s, (ask, readings) ∈ rounds /\ ask s = Some (index, true)) /\
  exists S : list nat, NoDup S /\ want <= len S /\ (0 < len S) /\
    forall i, i ∈ S -> exists l, logs (tally cfg') !! i = Some l /\ l !! index = Some (mkEntry true cmd).
Proof.
  intros [Hs0 Hc0]%make_config_tally Hrun Hrun' Hm Htaken Hone.
  destruct (harness_run_tally _ _ _ Hs0 Hc0 Hrun) as (Hs & Hc & _).
  destruct (harness_run_tally _ _ _ Hs Hc Hrun') as (Hs' & Hc' & Hle).
  revert starts Hone. induction rounds as [|[ask readings] rounds IH]; intros starts Hone; [done|].
  simpl in Hone. pose proof (try_servers_spec (Z.of_nat ns) starts ns ask ltac:(lia)) as Htry.
  destruct (try_servers (Z.of_nat ns) starts ns ask) as [starts' k].
  assert (one ns cmd want retry starts' rounds = Ok index ->
    (exists ask0 readings0 s, (ask0, readings0) ∈ (ask, readings) :: rounds /\ ask0 s = Some (index, true)) /\
    exists S : list nat, NoDup S /\ want <= len S /\ (0 < len S) /\
      forall i, i ∈ S -> exists l, logs (tally cfg') !! i = Some l /\ l !! index = Some (mkEntry true cmd))
    as Hrec.
  { intros Hrest. destruct (IH ltac:(set_solver) starts' Hrest) as [(ask0 & rds & s & ? & ?) ?].
    split; [|done]. exists ask0, rds, s. set_solver. }
  destruct (Z.eqb_spec k (-1)) as [|Hk]; simpl in Hone; [by apply Hrec|].
  destruct (poll cmd want k readings) eqn:Ep.
  - injection Hone as ->. destruct Htry as [|[s Hask]]; [done|].
    split; [exists ask, readings, s; set_solver|].
    destruct (poll_spec _ _ _ _ Ep) as (rd & nd & Hrd & Hn & Hpos & Hwant).
    assert (taken (tally cfg) rd) as Ht by (eapply (Htaken ask readings); [left|done]).
    destruct (reading_agrees _ _ _ _ _ Hc Ht Hn Hpos) as (S & Hnd & Hlen & Hall).
    exists S. split_and!; [done|lia|lia|]. intros i Hi. destruct (Hall i Hi) as (l & Hl & He).
    destruct (Forall2_lookup_l _ _ _ _ _ Hle Hl) as (l' & Hl' & Hsub). exists l'. split; [done|].
    by eapply lookup_weaken.
  - destruct retry; simpl in Hone; [by apply Hrec|done].
Qed.
End tally.
