(* ===== verification/RaftConfigChecks.v ===== *)
(** * raft/config.go: the checks on leaders

    [checkOneLeader] asks the peers one after the other while the cluster
    runs on.  It looks for two leaders of one term, which election safety
    excludes also when the two are seen at different moments. *)

From Stdlib Require Import ZArith Lia.
From stdpp Require Import base numbers strings gmap list.
From S2P Require Import Prelude Labrpc Harness RaftConfig.
From S2P Require Import RaftNode RaftCluster RaftWf RaftSafety RaftTheorems.
Local Open Scope Z_scope.

Section checks.
Context {Cmd : Type} `{Gob Cmd}.
Implicit Types (c : Cluster Cmd) (answers : list (nat * (Z * bool))).

Lemma inv_run n ls c c' g :
  reach n fresh_votes c -> inv n g (rafts c) (net c) -> run fresh_votes ls c = Some (Ok c') ->
  exists g', won g ⊆ won g' /\ inv n g' (rafts c') (net c').
Proof.
  revert c g. induction ls as [|l ls IH]; intros c g Hr Hg HR; simpl in HR.
  { injection HR as <-. by exists g. }
  destruct (fresh_votes c l) eqn:Hf; [|done].
  apply bind_Some in HR as ([c1|] & Hst & HR); [|done].
  destruct (inv_step n c l c1 g) as (g1 & Hle & Hg1); [by eapply wf_reach|done|done|done|].
  destruct (IH c1 g1) as (g2 & Hle2 & ?); [by eapply reach_step|done|done|].
  exists g2. split; [by etrans|done].
Qed.

(** A term has one leader over the whole of an execution. *)
Lemma leaders_once n ls c c' i j s s' :
  reach n fresh_votes c -> run fresh_votes ls c = Some (Ok c') ->
  servers c !! i = Some s -> servers c' !! j = Some s' ->
  state (rf s) = Leader -> state (rf s') = Leader ->
  currentTerm (rf s) = currentTerm (rf s') -> i = j.
Proof.
  intros Hr HR Hi%rafts_lookup Hj%rafts_lookup Hl Hl' Et.
  destruct (reach_inv _ _ Hr) as [g Hg]. destruct (inv_run _ _ _ _ _ Hr Hg HR) as (g' & Hle & Hg').
  destruct (inv_leader _ _ _ _ Hg _ _ Hi Hl) as [Hw _].
  destruct (inv_leader _ _ _ _ Hg' _ _ Hj Hl') as [Hw' _].
  pose proof (lookup_weaken _ _ _ _ Hw Hle). congruence.
Qed.

(** The answers of peers that are asked in turn, each after some more steps
    of the cluster. *)
Inductive asked : Cluster Cmd -> list (nat * (Z * bool)) -> Prop :=
| asked_nobody c : asked c []
| asked_next c ls c' i s answers :
    run fresh_votes ls c = Some (Ok c') -> servers c' !! i = Some s ->
    asked c' answers -> asked c ((i, GetState (rf s)) :: answers).

(** Everyone asked at one moment. *)
Lemma asked_now c : asked c (imap (fun i s => (i, GetState (rf s))) (servers c)).
Proof.
  assert (forall l k, (forall i s, l !! i = Some s -> servers c !! (k + i)%nat = Some s) ->
    asked c (imap (fun i s => ((k + i)%nat, GetState (rf s))) l)) as Hgen;
    [|by apply (Hgen (servers c) 0%nat)].
  induction l as [|s l IH]; intros k Hl; simpl; [constructor|].
  apply (asked_next c [] c _ s); [done|by apply Hl|].
  rewrite (imap_ext _ (fun i s => ((S k + i)%nat, GetState (rf s)))); [|intros; simpl; f_equal; lia].
  apply IH. intros i s' Hi. replace (S k + i)%nat with (k + S i)%nat by lia. by apply Hl.
Qed.

Lemma run_app ok ls ls' c : run ok (ls ++ ls') c =
  (r ← run ok ls c; match r with Ok c1 => run ok ls' c1 | Panic p => Some (Panic p) end).
Proof.
  revert c. induction ls as [|l ls IH]; intros c; simpl; [done|].
  destruct (ok c l); [|done]. destruct (step l c) as [[c1|]|]; simpl; [apply IH|done|done].
Qed.

Lemma asked_elem n c answers i t b :
  reach n fresh_votes c -> asked c answers -> (i, (t, b)) ∈ answers ->
  exists ls c' s, run fresh_votes ls c = Some (Ok c') /\ servers c' !! i = Some s /\
    t = currentTerm (rf s) /\ (b = true -> state (rf s) = Leader).
Proof.
  intros Hr Ha. revert Hr. induction Ha as [|c ls c' i' s answers HR Hs Ha IH]; intros Hr; [set_solver|].
  intros [[= -> -> ->]|Hin]%elem_of_cons.
  - exists ls, c', s. split_and!; [done|done|done|]. by intros ?%bool_decide_eq_true.
  - destruct (IH ltac:(by eapply run_reach) Hin) as (ls' & c2 & s2 & HR2 & ? & ? & ?).
    exists (ls ++ ls'), c2, s2. split_and!; [by rewrite run_app, HR|done|done|done].
Qed.

(** Two answers name the same leader for a term. *)
Lemma asked_unique n c answers i j t :
  reach n fresh_votes c -> asked c answers ->
  (i, (t, true)) ∈ answers -> (j, (t, true)) ∈ answers -> i = j.
Proof.
  intros Hr Ha. revert Hr. induction Ha as [|c ls c' i' s answers HR Hs Ha IH]; intros Hr; [set_solver|].
  assert (reach n fresh_votes c') as Hr' by (by eapply run_reach).
  assert (forall k, GetState (rf s) = (t, true) -> (k, (t, true)) ∈ answers -> i' = k) as Hone.
  { intros k [= Et Hl%bool_decide_eq_true] Hk.
    destruct (asked_elem _ _ _ _ _ _ Hr' Ha Hk) as (ls2 & c2 & s2 & HR2 & Hs2 & Et2 & Hl2).
    eapply (leaders_once n ls2 c' c2); [done|done|done|done|done|auto|congruence]. }
  intros [[-> E1]%pair_eq|Hi]%elem_of_cons [[-> E2]%pair_eq|Hj]%elem_of_cons;
    [done|by apply Hone|symmetry; by apply Hone|by apply IH].
Qed.

Lemma asked_leader_term n c answers i t :
  reach n fresh_votes c -> asked c answers -> (i, (t, true)) ∈ answers -> 1 <= t.
Proof.
  intros Hr Ha Hi. destruct (asked_elem _ _ _ _ _ _ Hr Ha Hi) as (ls & c' & s & HR & Hs & -> & Hl).
  destruct (reach_inv n c') as [g Hg]; [by eapply run_reach|].
  apply (inv_role _ _ _ _ Hg i); [by apply rafts_lookup|]. by rewrite Hl.
Qed.

(** ** The table of leaders *)

Definition leaders_in (t : Z) answers : list nat := fst <$> filter (fun a => a.2 = (t, true)) answers.

Lemma leaders_of_lookup answers t :
  leaders_of answers !! t = match leaders_in t answers with [] => None | l => Some l end.
Proof.
  unfold leaders_of, leaders_in. induction answers as [|[i [t' b]] answers IH] using rev_ind.
  { apply lookup_empty. }
  rewrite foldl_app, filter_app, fmap_app. simpl. rewrite filter_cons, filter_nil. simpl. destruct b.
  - destruct (decide (t' = t)) as [->|Hne].
    + rewrite lookup_insert_eq, IH, decide_True by done. simpl. by destruct (fst <$> filter _ answers).
    + rewrite lookup_insert_ne, IH, decide_False by congruence. simpl. by rewrite app_nil_r.
  - rewrite IH, decide_False by congruence. simpl. by rewrite app_nil_r.
Qed.

Lemma elem_of_leaders_in i t answers : i ∈ leaders_in t answers <-> (i, (t, true)) ∈ answers.
Proof.
  unfold leaders_in. rewrite list_elem_of_fmap. split.
  - intros ([j x] & -> & [E Hin]%list_elem_of_filter). simpl in *. by subst.
  - intros Hin. exists (i, (t, true)). split; [done|]. by apply list_elem_of_filter.
Qed.

Lemma leaders_in_short t answers :
  NoDup answers.*1 ->
  (forall i j, (i, (t, true)) ∈ answers -> (j, (t, true)) ∈ answers -> i = j) ->
  (length (leaders_in t answers) <= 1)%nat.
Proof.
  intros Hnd Hone. assert (NoDup (leaders_in t answers)) as Hnd'.
  { apply NoDup_fmap_2_strong; [|by eapply NoDup_filter, NoDup_fmap_1].
    intros [i x] [j y] [E1 _]%list_elem_of_filter [E2 _]%list_elem_of_filter. simpl in *. congruence. }
  destruct (leaders_in t answers) as [|i [|j l]] eqn:E; simpl; [lia..|].
  assert (i = j) as ->.
  { apply Hone; apply elem_of_leaders_in; rewrite E; set_solver. }
  apply NoDup_cons in Hnd' as [Hni _]. set_solver.
Qed.

Lemma lastTerm_spec order :
  Forall (fun x => (length x.2 <= 1)%nat) order ->
  exists last, lastTermWithLeader order = Ok last /\ Forall (fun x => x.1 <= last) order /\
    -1 <= last /\ (last = -1 \/ last ∈ order.*1).
Proof.
  unfold lastTermWithLeader. intros Hall.
  assert (forall l0, exists last, for_each (fun '(term, leaders) last =>
    if 1 <? len (leaders : list nat) then Panic (LogFatal "term has (>1) leaders")
    else Ok (if last <? term then term else last)) order l0 = Ok last /\
    Forall (fun x => x.1 <= last) order /\ l0 <= last /\ (last = l0 \/ last ∈ order.*1)) as Hgen;
    [|by apply Hgen].
  induction Hall as [|[t l] order Hl Hall IH]; intros l0; simpl; [exists l0; split_and!; [done|done|lia|by left]|].
  simpl in Hl. destruct (Z.ltb_spec 1 (len l)) as [Hlt|_]; [unfold len in Hlt; lia|]. simpl.
  destruct (IH (if l0 <? t then t else l0)) as (last & -> & Hf & Hle & Hin). exists last.
  destruct (Z.ltb_spec l0 t); split_and!; try done; try lia.
  - constructor; [simpl; lia|done].
  - right. destruct Hin as [->|?]; set_solver.
  - constructor; [simpl; lia|done].
  - destruct Hin as [->|?]; [by left|right; set_solver].
Qed.

(** One round of [checkOneLeader]. *)
Lemma leader_round_spec n c answers order :
  reach n fresh_votes c -> asked c answers -> NoDup answers.*1 ->
  order ≡ₚ map_to_list (leaders_of answers) ->
  (leader_round answers order = Ok None /\ forall i t, (i, (t, true)) ∉ answers) \/
  (exists i t, leader_round answers order = Ok (Some i) /\ (i, (t, true)) ∈ answers /\
     forall j t', (j, (t', true)) ∈ answers -> t' <= t).
Proof.
  intros Hr Ha Hnd Hord.
  assert (forall t l, (t, l) ∈ order <-> leaders_of answers !! t = Some l) as Hin.
  { intros t l. by rewrite Hord, elem_of_map_to_list. }
  assert (forall i t, (i, (t, true)) ∈ answers -> exists l, (t, l) ∈ order) as Hcover.
  { intros i t Hit%elem_of_leaders_in. exists (leaders_in t answers). apply Hin. rewrite leaders_of_lookup.
    destruct (leaders_in t answers); [by apply elem_of_nil in Hit|done]. }
  assert (Forall (fun x => (length x.2 <= 1)%nat) order) as Hshort.
  { apply Forall_forall. intros [t l] Htl%Hin. rewrite leaders_of_lookup in Htl. simpl.
    pose proof (leaders_in_short t answers Hnd (fun i j => asked_unique n c answers i j t Hr Ha)) as Hlen.
    destruct (leaders_in t answers); simplify_eq; done. }
  destruct (lastTerm_spec order Hshort) as (last & Hlast & Hmax & Hge & Hcase).
  rewrite Forall_forall in Hmax. unfold leader_round. rewrite Hlast. simpl. case_decide as D.
  - assert (exists t l, (t, l) ∈ order) as (t0 & l0 & H0).
    { destruct order as [|[t l] order]; [|exists t, l; set_solver]. exfalso. apply D, map_eq. intros t.
      rewrite lookup_empty. destruct (leaders_of answers !! t) as [l|] eqn:E; [|done].
      apply Hin in E. set_solver. }
    assert (exists l, leaders_of answers !! last = Some l) as [l Hl].
    { destruct Hcase as [->|([t l] & -> & Htl)%list_elem_of_fmap]; [|exists l; by apply Hin].
      exfalso. specialize (Hmax _ H0). simpl in Hmax. apply Hin in H0. rewrite leaders_of_lookup in H0.
      destruct (leaders_in t0 answers) as [|i l1] eqn:E; [done|].
      assert (1 <= t0); [|lia]. eapply (asked_leader_term n c answers i); [done|done|].
      apply elem_of_leaders_in. rewrite E. set_solver. }
    rewrite leaders_of_lookup in Hl |- *. destruct (leaders_in last answers) as [|i l1] eqn:E; [done|].
    right. exists i, last. split; [done|]. split.
    + apply elem_of_leaders_in. rewrite E. set_solver.
    + intros j t' (l' & Hl')%Hcover. exact (Hmax _ Hl').
  - left. split; [done|]. intros i t (l & Hl%Hin)%Hcover. rewrite D in Hl.
    by rewrite lookup_empty in Hl.
Qed.

(** [checkOneLeader] on a correct cluster.  In an execution in which
    election safety holds, the check never reports two leaders of a term,
    although it sees the peers at different moments and whatever the order in
    which Go walks the table: it returns the leader with the highest term of
    the first round that finds one, and only fails when in ten rounds nobody
    says it is the leader. *)
Theorem check_one_leader n round :
  (forall k, (k < 10)%nat -> exists c, reach n fresh_votes c /\ asked c (fst (round k)) /\
     NoDup (fst (round k)).*1 /\ snd (round k) ≡ₚ map_to_list (leaders_of (fst (round k)))) ->
  (checkOneLeader round = Panic (LogFatal "expected one leader, got none") /\
     forall k i t, (k < 10)%nat -> (i, (t, true)) ∉ fst (round k)) \/
  (exists k i t, (k < 10)%nat /\ checkOneLeader round = Ok (Z.of_nat i) /\
     (i, (t, true)) ∈ fst (round k) /\
     (forall j t', (j, (t', true)) ∈ fst (round k) -> t' <= t) /\
     (forall k' j t', (k' < k)%nat -> (j, (t', true)) ∉ fst (round k'))).
Proof.
  unfold checkOneLeader. generalize 10%nat as iters. intros iters. revert round.
  induction iters as [|iters IH]; intros round Hrounds; simpl; [left; split; [done|lia]|].
  destruct (Hrounds 0%nat) as (c & Hr & Ha & Hnd & Hord); [lia|].
  destruct (leader_round_spec n c _ _ Hr Ha Hnd Hord) as [[E Hno]|(i & t & E & Hi & Hmax)];
    destruct (round 0%nat) as [answers order] eqn:E0; simpl in *; rewrite E; simpl.
  - destruct (IH (fun k => round (S k))) as [[E' Hno']|(k & i & t & Hk & E' & Hi & Hmax & Hfirst)];
      [intros k Hk; apply Hrounds; lia|left|right].
    + split; [done|]. intros [|k] i t Hk; [by rewrite E0|]. apply Hno'. lia.
    + exists (S k), i, t. split_and!; [lia|done|done|done|].
      intros [|k'] j t' Hlt; [by rewrite E0|]. apply Hfirst. lia.
  - right. exists 0%nat, i, t. rewrite E0. split_and!; [lia|done|done|done|lia].
Qed.
End checks.
