(* ===== verification/RaftConfigRuns.v ===== *)
(** * raft/config.go: concrete tests

    Runs of the tester on three servers, at which the theorems about it are
    applied.  A run is computed only as far as what is observed of it. *)

From Stdlib Require Import ZArith Lia Ascii.
From stdpp Require Import base numbers strings gmap list.
From S2P Require Import Prelude Persister Labrpc Harness.
From S2P Require Import RaftNode RaftCluster RaftRuns.
From S2P Require Import RaftConfig RaftConfigLinks RaftConfigStore RaftConfigTally RaftConfigChecks.
Local Open Scope Z_scope.

(** Distinct names: one character per server and one per peer. *)
Definition demo_names (c : nat) (i j : nat) : string :=
  String (ascii_of_nat (c + i)) (String (ascii_of_nat (97 + j)) EmptyString).

Definition or_else {A} (d : A) (r : result A) : A := match r with Ok x => x | Panic _ => d end.

Lemma is_ok_or_else {A} (d : A) r : is_ok r = true -> r = Ok (or_else d r).
Proof. by destruct r. Qed.

Definition demo_config : config Z :=
  or_else (empty_config 3 true) (make_config 3 true (demo_names 65)).

Definition demo_after (acts : list (act Z)) : config Z :=
  or_else demo_config (harness_run acts demo_config).

Lemma demo_make : make_config 3 true (demo_names 65) = Ok demo_config.
Proof. apply is_ok_or_else. vm_compute. reflexivity. Qed.

Lemma demo_config_run acts :
  is_ok (harness_run acts demo_config) = true -> harness_run acts demo_config = Ok (demo_after acts).
Proof. apply is_ok_or_else. Qed.

(** Server 1 is cut off: server 0 reaches server 2. *)
Lemma harness_links_witness :
  proc_read (net (links (demo_after [ADisconnect 1]))) (mkReqMsg (End "Ac") "Raft.RequestVote" [])
    = Deciding (mkInfo (Peer 2) 2 false false).
Proof.
  assert (harness_run [ADisconnect 1] demo_config = Ok (demo_after [ADisconnect 1])) as HR
    by (apply demo_config_run; vm_compute; reflexivity).
  apply (harness_links 3 true (demo_names 65) [ADisconnect 1] _ demo_config _ _ demo_make HR).
  exists 0%nat, 2%nat, "Ac"%string.
  split; [reflexivity|]. repeat split; vm_compute; reflexivity.
Defined.

(** The instance of server 1 that was replaced saves; the state of server 1
    stays. *)
Lemma persister_isolation_witness :
  exists cfg', harness_step (APersist 1) (demo_after [AStart 1 (demo_names 80 1)]) = Ok cfg' /\
    content (store cfg') 1 = content (store (demo_after [AStart 1 (demo_names 80 1)])) 1.
Proof.
  assert (harness_run [AStart 1 (demo_names 80 1)] demo_config =
    Ok (demo_after [AStart 1 (demo_names 80 1)])) as HR by (apply demo_config_run; vm_compute; reflexivity).
  assert (exists inst, instances (store (demo_after [AStart 1 (demo_names 80 1)])) !! 1%nat = Some inst)
    as [inst Hinst] by (vm_compute; eexists; reflexivity).
  destruct (persister_isolation 3 true (demo_names 65) _ _ _ 1 1 inst demo_make HR Hinst)
    as (cfg' & Hst & Hold & _).
  exists cfg'. split; [exact Hst|]. apply Hold. vm_compute. discriminate.
Defined.

Definition demo_saved : config Z := demo_after [APersist 1].

Lemma restart_last_state_witness :
  exists cfg', start1 1 (demo_names 80 1) demo_saved = Ok cfg' /\
    content (store cfg') 1 = Some (default MakePersister (content (store demo_saved) 1)).
Proof.
  assert (harness_run [APersist 1] demo_config = Ok demo_saved) as HR
    by (apply demo_config_run; vm_compute; reflexivity).
  assert (start1 1 (demo_names 80 1) demo_saved = Ok (or_else demo_saved (start1 1 (demo_names 80 1) demo_saved)))
    as E by (apply is_ok_or_else; vm_compute; reflexivity).
  eexists. split; [exact E|].
  exact (proj1 (proj2 (restart_last_state 3 true (demo_names 65) _ _ _ 1 _ _ demo_make HR E))).
Defined.

(** What the peers of a cluster have delivered, server by server. *)
Definition delivered_by (c : Rcluster) : list (nat * ApplyMsg Z) :=
  concat (imap (fun i s => pair i <$> applied s) (RaftCluster.servers c)).

(** The execution in which a delayed request removes a committed entry: the
    tester stops the test. *)
Lemma tester_verdict_witness :
  let c := after fresh_votes stale_append_schedule in
  apply_all (delivered_by c) (tally (empty_config 3 true)) = Panic disagreement.
Proof.
  intros c.
  assert (RaftCluster.reach 3 fresh_votes c) as Hr by (apply after_reach; eexists; vm_compute; reflexivity).
  destruct (tester_verdict 3 true fresh_votes c (delivered_by c) Hr) as [[_ (T & HT & _)]|[_ E]].
  - intros i m Hin. assert (Forall (fun x => (x.1 < 3)%nat) (delivered_by c)) as Hall
      by (vm_compute; repeat constructor).
    exact (proj1 (Forall_forall _ _) Hall (i, m) Hin).
  - intros i s Hs. destruct i as [|[|[|i]]];
      [vm_compute in Hs; injection Hs as <-; vm_compute; exists []; reflexivity..|].
    vm_compute in Hs. discriminate Hs.
  - exfalso. assert (is_ok (apply_all (delivered_by c) (tally (empty_config 3 true))) = false) as Hno
      by (vm_compute; reflexivity).
    rewrite HT in Hno. discriminate Hno.
  - exact E.
Defined.

(** Both servers 0 and 1 apply 7 at index 1. *)
Definition demo_applied : list (act Z) :=
  [AApply 0 (mkApplyMsg true (Some 7) 1); AApply 1 (mkApplyMsg true (Some 7) 1)].

Definition demo_reading : list (gmap Z (logEntry Z) * Z) :=
  [({[1 := mkEntry true (Some 7)]}, 2); ({[1 := mkEntry true (Some 7)]}, 2)].

Definition demo_ask (s : Z) : option (Z * bool) := if s =? 0 then Some (1, true) else Some (-1, false).

Lemma one_agreement_witness :
  one 3 (Some 7) 2 false 0 [(demo_ask, [demo_reading])] = Ok 1 /\
  exists S : list nat, NoDup S /\ 2 <= len S /\
    forall i, i ∈ S -> exists l, logs (tally (demo_after demo_applied)) !! i = Some l /\
      l !! 1 = Some (mkEntry true (Some 7)).
Proof.
  assert (one 3 (Some 7) 2 false 0 [(demo_ask, [demo_reading])] = Ok 1) as Hone
    by (vm_compute; reflexivity).
  split; [exact Hone|].
  assert (harness_run demo_applied demo_config = Ok (demo_after demo_applied)) as HR
    by (apply demo_config_run; vm_compute; reflexivity).
  destruct (one_agreement 3 true (demo_names 65) demo_applied [] demo_config (demo_after demo_applied)
    (demo_after demo_applied) 3 (Some 7) 2 false 0 [(demo_ask, [demo_reading])] 1 demo_make HR eq_refl)
    as (_ & S & Hnd & Hlen & _ & Hall).
  - apply Nat.ltb_lt. reflexivity.
  - intros ask readings rd Hin Hrd. apply list_elem_of_singleton in Hin. injection Hin as -> ->.
    apply list_elem_of_singleton in Hrd as ->. intros i l next Hi.
    exists {[1 := mkEntry true (Some 7)]}. destruct i as [|[|i]]; [| |discriminate Hi].
    + split; [vm_compute; reflexivity|]. injection Hi as <- _. reflexivity.
    + split; [vm_compute; reflexivity|]. injection Hi as <- _. reflexivity.
  - exact Hone.
  - exists S. split; [exact Hnd|]. split; [exact Hlen|exact Hall].
Defined.

(** The peers of the uneventful run, asked at its end. *)
Definition normal_answers : list (nat * (Z * bool)) :=
  [(0%nat, (1, true)); (1%nat, (1, false)); (2%nat, (0, false))].

Definition normal_round (k : nat) : list (nat * (Z * bool)) * list (Z * list nat) :=
  (normal_answers, [(1, [0%nat])]).

Lemma normal_asked : asked normal normal_answers.
Proof.
  replace normal_answers with (imap (fun i s => (i, GetState (rf s))) (RaftCluster.servers normal))
    by (vm_compute; reflexivity).
  apply asked_now.
Qed.

Lemma check_one_leader_witness : checkOneLeader normal_round = Ok 0.
Proof.
  destruct (check_one_leader (Cmd := Z) 3 normal_round) as [[_ Hno]|(k & i & t & _ & E & Hi & _)].
  - intros k _. exists normal. split; [exact normal_reach|]. split; [exact normal_asked|]. split.
    + apply (bool_decide_unpack _). vm_compute. exact I.
    + replace (snd (normal_round k)) with (map_to_list (leaders_of normal_answers))
        by (vm_compute; reflexivity).
      apply Permutation_refl.
  - exfalso. apply (Hno 0%nat 0%nat 1); [apply Nat.ltb_lt; reflexivity|]. left.
  - rewrite E. change ((i, (t, true)) ∈ normal_answers) in Hi.
    assert (Forall (fun x => x.2.2 = true -> x.1 = 0%nat) normal_answers) as Hall
      by (repeat constructor; discriminate).
    pose proof (proj1 (Forall_forall _ _) Hall (i, (t, true)) Hi eq_refl) as Ei.
    change (i = 0%nat) in Ei. rewrite Ei. reflexivity.
Defined.
