(* ===== verification/RaftOverLabrpc.v ===== *)
(** * raft over labrpc: the peers on the simulated network

    [RaftCluster] has a network of its own, whose RPCs are requested, handled,
    answered or lost.  Here the peers run on the network of labrpc.go as it
    is: a goroutine that sends an RPC calls [Call], [processReq] decides its
    fate, the handler runs inside [server.dispatch] and returns when the
    ticker of its peer has received from it, and the goroutine goes on when
    [Call] has returned.  Every execution of this system is one of
    [RaftCluster] without crashes. *)

From Stdlib Require Import ZArith Lia.
From stdpp Require Import base numbers strings gmap list.
From S2P Require Import Prelude Labrpc LabrpcTheorems LabrpcCalls.
From S2P Require Import RaftNode RaftCluster.
Local Open Scope Z_scope.

(** The schedules a theorem speaks about: all of them; those in which a
    granted vote is counted only in the term it was asked for; those in which
    moreover no AppendEntries is overtaken by a longer one of its term and a
    positive reply is used only in the term of its request. *)
Inductive policy := AnyReply | FreshVotes | InOrder.

#[export] Instance policy_eq_dec : EqDecision policy.
Proof. solve_decision. Defined.

Section over.
Context {Cmd : Type} `{Gob Cmd} {Name : Type} `{Countable Name}.

(** What travels: the arguments and the replies of the two RPCs. *)
Inductive msg :=
| VoteArgs (a : RequestVoteArgs)
| VoteReply (r : RequestVoteReply)
| AppendArgs (a : AppendEntriesArgs Cmd)
| AppendReply (r : AppendEntriesReply).

Context `{Codec msg}.

(** [end_ i j]: the name of the end that peer [i] uses for peer [j]. *)
Variable end_ : nat -> nat -> Name.
Variable peer : nat -> Name.

Abbreviation Net := (Network (Name := Name)).
Abbreviation Call := (Labrpc.call (Name := Name) (V := msg)).
Abbreviation Wire := (World (Name := Name) (V := msg)).
Abbreviation wlabel := (Labrpc.label (Name := Name) (V := msg)).

(** The local variables of the goroutines of an RPC: of the caller, who calls
    [peers[dst].Call], and of the handler, once it has computed its reply. *)
Record frame := mkFrame {
  fr_src : nat;
  fr_dst : nat;
  fr_args : msg;
  fr_reply : option msg;
  fr_done : bool;         (* the caller has used the reply *)
}.

(** The k-th frame belongs to the k-th call. *)
Record Sys := mkSys {
  world : Wire;
  nodes : list (Server Cmd);
  frames : list frame;
}.

Definition set_world (w : Wire) (s : Sys) : Sys := mkSys w (nodes s) (frames s).
Definition put_node (i : nat) (sv : Server Cmd) (s : Sys) : Sys :=
  mkSys (world s) (<[i := sv]> (nodes s)) (frames s).
Definition put_frame (k : nat) (f : frame) (s : Sys) : Sys :=
  mkSys (world s) (nodes s) (<[k := f]> (frames s)).

(** [rf.peers[server].Call("Raft.RequestVote", args, reply)], and so on. *)
Definition method_of (v : msg) : string :=
  match v with
  | VoteArgs _ | VoteReply _ => "Raft.RequestVote"
  | AppendArgs _ | AppendReply _ => "Raft.AppendEntries"
  end.

Definition args_of (m : rpc Cmd) : msg :=
  match m with RV _ _ a _ => VoteArgs a | AE _ _ a _ => AppendArgs a end.

(** The goroutines a step starts each begin their call. *)
Definition spawn (ms : list (rpc Cmd)) (s : Sys) : result Sys :=
  for_each (fun m s =>
    let w := world s in
    c ← startCall (end_ (rpc_src m) (rpc_dst m)) (method_of (args_of m)) (args_of m);
    Ok (mkSys (mkWorld (Labrpc.net w) (heap w) (calls w ++ [c]) (listening w)) (nodes s)
          (frames s ++ [mkFrame (rpc_src m) (rpc_dst m) (args_of m) None false]))) ms s.

(** The handler that [dispatch] calls, up to its send on the channel. *)
Definition run_handler (sv : Server Cmd) (v : msg) : result (Server Cmd * msg) :=
  match v with
  | VoteArgs a =>
    '(rf', r) ← RequestVote (rf sv) a;
    Ok (mkServer rf' (pc sv) (disk sv) (applied sv), VoteReply r)
  | AppendArgs a =>
    '(rf', r, ms) ← AppendEntries (rf sv) a;
    Ok (mkServer rf' (pc sv) (disk sv) (applied sv ++ ms), AppendReply r)
  | _ => Panic TypeAssertion
  end.

(** The rest of [sendRequestVote] and [sendAppendEntries], when [Call] was
    true and [v] is the reply. *)
Definition run_reply (i : nat) (sv : Server Cmd) (f : frame) (v : msg)
    : result (Server Cmd * list (rpc Cmd)) :=
  match fr_args f, v with
  | VoteArgs a, VoteReply r =>
    let '(rf', cs) := sendRequestVote (rf sv) (Some r) in
    Ok (mkServer rf' (pc sv) (disk sv) (applied sv), ae_calls i cs)
  | AppendArgs a, AppendReply r =>
    '(rf', ms) ← sendAppendEntries (rf sv) (fr_dst f) a (Some r);
    Ok (mkServer rf' (pc sv) (disk sv) (applied sv ++ ms), [])
  | _, _ => Panic TypeAssertion
  end.

(** A leader's select has no case for the votes it is asked for. *)
Definition wakes (read : State) (v : msg) : bool :=
  match v with VoteArgs _ => bool_decide (read <> Leader) | _ => true end.

(** The steps that only the network takes.  The tester may cut and restore
    links, delete servers, make the network lossy, and clean it up. *)
Definition wire_label (l : wlabel) : bool :=
  match l with
  | LCall _ _ _ | LDispatch _ | LHandler _ _ => false
  | LAdmin a =>
    match a with
    | ACleanup | AReliable _ | ALongReordering _ | ALongDelays _ | AEnable _ _ | ADeleteServer _ => true
    | _ => false
    end
  | _ => true
  end.

Inductive slabel :=
| SRead (i : nat)              (* ticker: sleep, read the state, persist *)
| STimeout (i : nat)           (* ticker: the time-out case of the select *)
| SClient (i : nat) (cmd : Cmd)
| SDispatch (k : nat)          (* the handler of call k runs to its channel *)
| SWake (i k : nat)            (* ticker i receives from it, and it returns *)
| SProcess (k : nat)           (* the goroutine of call k uses the reply *)
| SWire (l : wlabel).

Definition sys_step (l : slabel) (s : Sys) : option (result Sys) :=
  match l with
  | SRead i =>
    sv ← nodes s !! i;
    if decide (pc sv = Sleeping /\ killed (rf sv) = false) then
      Some (Ok (put_node i (ticker_read sv) s))
    else None
  | STimeout i =>
    sv ← nodes s !! i;
    match pc sv with
    | Selecting read => Some ('(sv', ms) ← ticker_timeout i sv read; spawn ms (put_node i sv' s))
    | Sleeping => None
    end
  | SClient i cmd =>
    sv ← nodes s !! i;
    Some ('(rf', _) ← Start (rf sv) (Some cmd);
          Ok (put_node i (mkServer rf' (pc sv) (disk sv) (applied sv)) s))
  | SDispatch k =>
    r ← Labrpc.step (LDispatch k) (world s);
    match r with
    | Ok (w, [Invoked _ i v]) =>
      f ← frames s !! k;
      sv ← nodes s !! i;
      Some ('(sv', reply) ← run_handler sv v;
            Ok (set_world w (put_node i sv'
                  (put_frame k (mkFrame (fr_src f) (fr_dst f) (fr_args f) (Some reply) (fr_done f)) s))))
    | Ok _ => None
    | Panic e => Some (Panic e)
    end
  | SWake i k =>
    sv ← nodes s !! i;
    f ← frames s !! k;
    c ← calls (world s) !! k;
    reply ← fr_reply f;
    match pc sv, c_handler c with
    | Selecting read, Running j =>
      if decide (i = j /\ wakes read (fr_args f) = true) then
        r ← Labrpc.step (LHandler k reply) (world s);
        Some ('(w, _) ← r;
              Ok (set_world w (put_node i (mkServer (rf sv) Sleeping (disk sv) (applied sv)) s)))
      else None
    | _, _ => None
    end
  | SProcess k =>
    f ← frames s !! k;
    c ← calls (world s) !! k;
    sv ← nodes s !! fr_src f;
    match c_caller c, fr_done f with
    | Returned (Some v), false =>
      Some ('(sv', ms) ← run_reply (fr_src f) sv f v;
            spawn ms (put_node (fr_src f) sv'
              (put_frame k (mkFrame (fr_src f) (fr_dst f) (fr_args f) (fr_reply f) true) s)))
    | _, _ => None
    end
  | SWire l =>
    if wire_label l then
      r ← Labrpc.step l (world s);
      Some ('(w, _) ← r; Ok (set_world w s))
    else None
  end.

Definition request_admitted (pol : policy) (r : Raft Cmd) (f : frame) : bool :=
  match fr_args f with
  | AppendArgs a => bool_decide (pol <> InOrder) || not_behind r a
  | _ => true
  end.

Definition reply_admitted (pol : policy) (r : Raft Cmd) (f : frame) : bool :=
  match fr_args f, fr_reply f with
  | VoteArgs a, Some (VoteReply v) =>
    bool_decide (pol = AnyReply) || negb (rvr_VoteGranted v) || (rva_Term a =? currentTerm r)
  | AppendArgs a, Some (AppendReply v) => bool_decide (pol <> InOrder) || current_reply r a v
  | _, _ => true
  end.

Definition sys_admits (pol : policy) (s : Sys) (l : slabel) : bool :=
  let at_peer k peer admitted :=
    match f ← frames s !! k; sv ← nodes s !! peer f; Some (admitted pol (rf sv) f) with
    | Some b => b
    | None => true
    end in
  match l with
  | SDispatch k => at_peer k fr_dst request_admitted
  | SProcess k => at_peer k fr_src reply_admitted
  | _ => true
  end.

Fixpoint sys_run (pol : policy) (ls : list slabel) (s : Sys) : option (result Sys) :=
  match ls with
  | [] => Some (Ok s)
  | l :: ls =>
    if sys_admits pol s l then
      r ← sys_step l s;
      match r with Ok s => sys_run pol ls s | Panic e => Some (Panic e) end
    else None
  end.

(** [n] peers that have not done anything, on a network without calls. *)
Definition sys_init (n : nat) (w : Wire) : Sys := mkSys w (servers (init n)) [].

(** The network is the one the tester sets up: each end leads to its peer,
    and a peer's name to its server, until it is deleted; nothing has been
    called yet. *)
Record wired (n : nat) (w : Wire) : Prop := {
  wi_connection i j : (i < n)%nat -> (j < n)%nat -> connection (Labrpc.net w) (end_ i j) = Some (peer j);
  wi_server j s : (j < n)%nat -> server_of (Labrpc.net w) (peer j) = Some s -> s = j;
  wi_calls : calls w = [];
}.

(** ** The abstraction *)

Definition phase_of {R} (h : handler) (reply : option R) : phase R :=
  match reply with
  | None => Requested
  | Some r => match h with Running _ => Blocked r | _ => Replied r end
  end.

(** The RPC of [RaftCluster] a call stands for. *)
Definition rpc_of (f : frame) (h : handler) : option (rpc Cmd) :=
  match fr_args f, fr_reply f with
  | VoteArgs a, None => Some (RV (fr_src f) (fr_dst f) a Requested)
  | VoteArgs a, Some (VoteReply r) => Some (RV (fr_src f) (fr_dst f) a (phase_of h (Some r)))
  | AppendArgs a, None => Some (AE (fr_src f) (fr_dst f) a Requested)
  | AppendArgs a, Some (AppendReply r) => Some (AE (fr_src f) (fr_dst f) a (phase_of h (Some r)))
  | _, _ => None
  end.

(** The call can still make a difference to a peer. *)
Definition alive (c : Call) (done : bool) : bool :=
  match c_handler c with
  | NoHandler =>
    match c_caller c, c_proc c with
    | Returned _, _ => false
    | _, (Absent | Reading | Deciding _) => true
    | _, _ => false
    end
  | Dispatching _ | Running _ | Holding _ => true
  | Drained =>
    match proc_reply (c_proc c), c_caller c with
    | Some r, _ => ok r
    | None, Returned (Some _) => negb done
    | None, _ => false
    end
  end.

Definition abs_call (x : Call * frame) : option (rpc Cmd) :=
  if alive x.1 (fr_done x.2) then rpc_of x.2 (c_handler x.1) else None.

Definition inflight (s : Sys) : list (rpc Cmd) := omap abs_call (zip (calls (world s)) (frames s)).

Definition abs (s : Sys) : Cluster Cmd := mkCluster (nodes s) (inflight s).
End over.
