(* ===== verification/RaftOverLabrpcSim.v ===== *)
(** * raft over labrpc: the simulation

    Every step of the peers on the simulated network is a step of
    [RaftCluster] or invisible to it. *)

From Stdlib Require Import ZArith Lia.
From stdpp Require Import base numbers strings gmap list.
From S2P Require Import Prelude Labrpc LabrpcTheorems LabrpcCalls.
From S2P Require Import RaftNode RaftNodeFacts RaftCluster RaftWf RaftTheorems RaftOverLabrpc.
Local Open Scope Z_scope.

(** ** Lists seen through a partial function *)

Section seen.
Context {A B : Type} (f : A -> option B).
Implicit Types (l : list A).

(** An element that is seen: it can be replaced or vanish. *)
Lemma omap_seen l k x y :
  l !! k = Some x -> f x = Some y ->
  exists j, omap f l !! j = Some y /\
    (forall x' y', f x' = Some y' -> omap f (<[k := x']> l) = <[j := y']> (omap f l)) /\
    (forall x', f x' = None -> omap f (<[k := x']> l) = delete j (omap f l)).
Proof.
  intros Hk Hy. apply list_elem_of_split_length in Hk as (l1 & l2 & -> & ->).
  exists (length (omap f l1)). rewrite omap_app. cbn [omap list_omap]. rewrite Hy. split_and!.
  - by apply list_lookup_middle.
  - intros x' y' Hy'. rewrite insert_app_r_alt, Nat.sub_diag by done. cbn [insert list_insert].
    rewrite omap_app. cbn [omap list_omap]. rewrite Hy'.
    rewrite insert_app_r_alt, Nat.sub_diag by done. done.
  - intros x' Hn. rewrite insert_app_r_alt, Nat.sub_diag by done. cbn [insert list_insert].
    rewrite omap_app. cbn [omap list_omap]. rewrite Hn. by rewrite delete_middle.
Qed.

(** An element that looks the same. *)
Lemma omap_same l k x x' :
  l !! k = Some x -> f x' = f x -> omap f (<[k := x']> l) = omap f l.
Proof.
  intros Hk E. apply list_elem_of_split_length in Hk as (l1 & l2 & -> & ->).
  rewrite insert_app_r_alt, Nat.sub_diag by done. cbn [insert list_insert].
  rewrite !omap_app. cbn [omap list_omap]. by rewrite E.
Qed.
End seen.

Lemma zip_insert_l {A B} (l : list A) (k : list B) i x y :
  k !! i = Some y -> zip (<[i := x]> l) k = <[i := (x, y)]> (zip l k).
Proof. intros Hi. rewrite insert_zip_with. by rewrite (list_insert_id k i y). Qed.

Lemma zip_insert_r {A B} (l : list A) (k : list B) i x y :
  l !! i = Some x -> zip l (<[i := y]> k) = <[i := (x, y)]> (zip l k).
Proof. intros Hi. rewrite insert_zip_with. by rewrite (list_insert_id l i x). Qed.

Section sim.
Context {Cmd : Type} `{Gob Cmd} {Name : Type} `{Countable Name} `{Codec (msg (Cmd := Cmd))}.
Variable end_ : nat -> nat -> Name.
Variable peer : nat -> Name.
Hypothesis codec_total : forall v : msg (Cmd := Cmd), is_Some (encode v).

Abbreviation Call := (Labrpc.call (Name := Name) (V := msg (Cmd := Cmd))).
Abbreviation Wire := (World (Name := Name) (V := msg (Cmd := Cmd))).
Implicit Types (c : Call) (f : frame (Cmd := Cmd)) (w : Wire) (s : Sys (Cmd := Cmd) (Name := Name)).

(** ** The invariant *)

(** The reply has the type of the RPC. *)
Definition kind_ok f : Prop :=
  match fr_args f with
  | VoteArgs _ => match fr_reply f with None | Some (VoteReply _) => True | _ => False end
  | AppendArgs _ => match fr_reply f with None | Some (AppendReply _) => True | _ => False end
  | _ => False
  end.

Record call_rel (n : nat) c f : Prop := {
  cr_src : (fr_src f < n)%nat;
  cr_dst : (fr_dst f < n)%nat;
  cr_endname : endname (c_req c) = end_ (fr_src f) (fr_dst f);
  cr_args : encode (fr_args f) = Some (args (c_req c));
  cr_kind : kind_ok f;
  cr_handler : match c_handler c with
    | NoHandler => fr_reply f = None
    | Dispatching i => fr_reply f = None /\ i = fr_dst f
    | Running i => is_Some (fr_reply f) /\ i = fr_dst f
    | Holding r => exists v, fr_reply f = Some v /\ r = reply_of v
    | Drained => is_Some (fr_reply f)
    end;
  cr_info i : open_info (c_proc c) = Some i -> i_server i = fr_dst f;
  cr_reply r : proc_reply (c_proc c) = Some r -> ok r = true ->
    c_handler c = Drained /\ exists v, fr_reply f = Some v /\ r = reply_of v;
  cr_early : match c_proc c with Absent | Reading | Deciding _ => c_handler c = NoHandler | _ => True end;
  cr_caller : match c_caller c with
    | Sending => c_proc c = Absent
    | Waiting => True
    | Returned (Some v) => c_handler c = Drained /\ fr_reply f = Some v /\ c_proc c = Ended
    | Returned None => c_proc c = Absent \/ c_proc c = Ended
    end;
  cr_done : fr_done f = true -> exists v, c_caller c = Returned (Some v);
}.

Record tables_ok (n : nat) w : Prop := {
  to_connection i j : (i < n)%nat -> (j < n)%nat ->
    connection (Labrpc.net w) (end_ i j) = Some (peer j);
  to_server j i : (j < n)%nat -> server_of (Labrpc.net w) (peer j) = Some i -> i = j;
}.

Record sys_inv (n : nat) s : Prop := {
  si_calls : Forall2 (call_rel n) (calls (world s)) (frames s);
  si_tables : tables_ok n (world s);
}.

Lemma tables_same n w w' :
  same_tables (Labrpc.net w) (Labrpc.net w') -> tables_ok n w -> tables_ok n w'.
Proof.
  intros (_ & Es & Ec) [Hc Hs]. constructor.
  - intros i j. unfold connection. rewrite Ec. apply Hc.
  - intros j i. unfold server_of. rewrite Es. apply Hs.
Qed.

(** ** The network's own steps on a call *)

(** The call looks as before to the cluster, or is lost. *)
Definition seen_same c c' f : Prop :=
  alive c' (fr_done f) = alive c (fr_done f) /\ rpc_of f (c_handler c') = rpc_of f (c_handler c).
Definition seen_lost c c' f : Prop :=
  alive c (fr_done f) = true /\ alive c' (fr_done f) = false /\ forall i, c_handler c <> Running i.

Lemma proc_read_info n w c f i :
  tables_ok n w -> call_rel n c f -> proc_read (Labrpc.net w) (c_req c) = Deciding i -> i_server i = fr_dst f.
Proof.
  intros [Hc Hs] Hr. unfold proc_read, readEndnameInfo. rewrite (cr_endname _ _ _ Hr).
  rewrite (Hc _ _ (cr_src _ _ _ Hr) (cr_dst _ _ _ Hr)). simpl.
  destruct (server_of _ _) as [j|] eqn:Ej; simpl; [|done].
  destruct (is_enabled _ _); [|done]. intros [= <-]. simpl. by eapply Hs, Ej; eapply cr_dst.
Qed.

Lemma proc_read_cases w (req : reqMsg (Name := Name)) :
  proc_read (Labrpc.net w) req = Replying failure \/ exists i, proc_read (Labrpc.net w) req = Deciding i.
Proof.
  unfold proc_read, readEndnameInfo. destruct (_ ≫= _) as [[? ?]|]; [|by left].
  destruct (is_enabled _ _); [right; by eexists|by left].
Qed.

(** Everything but the two steps in which a handler starts and returns. *)
Definition wire_step (l : Labrpc.label (Name := Name) (V := msg (Cmd := Cmd))) : Prop :=
  match l with LDispatch _ | LHandler _ _ => False | _ => True end.

Lemma wire_call n l k c f w w' evs :
  tables_ok n w -> call_rel n c f -> wire_step l -> call_step l k c w = Some (Ok (w', evs)) ->
  exists c', calls w' = <[k := c']> (calls w) /\ call_rel n c' f /\ (seen_same c c' f \/ seen_lost c c' f).
Proof.
  intros Ht Hr Hl Hst. pose proof Hr as [? ? He Ha Hk Hh Hi Hrep Hea Hc Hd].
  destruct c as [req cl p hd]. unfold seen_same, seen_lost, alive. simpl in *.
  assert (forall p', p = p' -> p' <> Absent -> p' <> Ended -> cl = Waiting) as Hwait.
  { intros p' -> Hn1 Hn2. destruct cl as [| |[v|]]; [done|done| |]; naive_solver. }
  destruct l as [| | | | | | | | | | | | | |]; try done; simpl in Hst.
  - destruct cl, p; try done. destruct (listening w); [|done]. go_inv. simpl. try subst hd.
    eexists. split; [done|]. split; [|by left]. constructor; simpl; try done.
    intros Hdn. destruct (Hd Hdn). done.
  - destruct cl, p; try done. destruct (done (Labrpc.net w)); [|done]. go_inv. simpl. try subst hd.
    eexists. split; [done|]. split; [|by right]. constructor; simpl; try done; [by left|].
    intros Hdn. destruct (Hd Hdn). done.
  - destruct p; try done. rewrite (Hwait _ eq_refl) in * by done. go_inv. simpl. try subst hd.
    eexists. split; [done|].
    destruct (proc_read_cases w req) as [E|[i E]]; rewrite E.
    + split; [|by right]. constructor; simpl; try done. by intros r [= <-].
    + split; [|by left]. constructor; simpl; try done.
      intros i' [= <-]. by eapply (proc_read_info n w _ f).
  - destruct p; try done. rewrite (Hwait _ eq_refl) in * by done. unfold proc_decide in Hst.
    destruct (negb (i_reliable i) && drop); go_inv; simpl; try subst hd; (eexists; split; [done|]).
    + split; [|by right]. constructor; simpl; try done. by intros r [= <-].
    + split; [|by left]. constructor; simpl; try done. split; [done|]. by apply Hi.
  - destruct p, hd; try done. rewrite (Hwait _ eq_refl) in * by done. go_inv. simpl.
    destruct Hh as (v & Ev & ->). eexists. split; [done|]. split.
    + constructor; simpl; try done; try (by rewrite Ev). intros r' [= <-] _. split; [done|]. by exists v.
    + left. simpl. split; [done|]. unfold rpc_of. by destruct (fr_args f), (fr_reply f) as [[]|].
  - destruct p; try done. rewrite (Hwait _ eq_refl) in * by done. go_inv.
    eexists. split; [done|]. destruct (isServerDead _ _ _ _); (split; [by constructor|]); left; by destruct hd.
  - assert (exists r, hd = Holding r /\ calls w' = <[k := mkCall req cl p Drained]> (calls w) /\
      (p = Replying (default failure (proc_reply p)) \/ proc_reply p = None) /\
      match p with Absent | Reading | Deciding _ => False | _ => True end) as (r & -> & E & Hp & Hpe).
    { destruct p as [| | | |? [?|]| | |], hd; try done; go_inv; eexists; (split_and!; [done|done| |done]);
        first [by left|by right]. }
    destruct Hh as (v & Ev & ->). eexists. split; [exact E|].
    assert (match proc_reply p with Some r => ok r = false | None => True end) as Hnok.
    { destruct (proc_reply p) as [r|] eqn:Er; [|done]. destruct (ok r) eqn:Eo; [|done].
      by destruct (Hrep r eq_refl Eo). }
    assert (forall v, cl <> Returned (Some v)) as Hnr by (intros v' ->; by destruct Hc).
    split.
    + constructor; simpl; try done; try (by rewrite Ev).
      * intros r Er Eo. rewrite Er in Hnok. congruence.
      * by destruct p.
      * destruct cl as [| |[v'|]]; try done. by destruct (Hnr v').
    + right. split_and!; [done| |done]. simpl. revert Hnok. destruct (proc_reply p); [done|intros _].
      destruct cl as [| |[v'|]]; try done. by destruct (Hnr v').
  - destruct p as [| | | |i r| | |]; try done. rewrite (Hwait _ eq_refl) in * by done.
    destruct (proc_final (Labrpc.net w) req i r drop reorder) as [rn p'] eqn:Ef. go_inv. simpl.
    eexists. split; [done|]. simpl in Hrep.
    assert (open_info p' = None /\ match p' with Absent | Reading | Deciding _ => False | _ => True end /\
      (proc_reply p' = Some failure \/ (proc_reply p' = r /\ is_Some r))) as (Ei & Epe & Hp').
    { unfold proc_final in Ef. destruct r as [r|]; [|by simplify_eq/=; split_and!; [| |left]].
      repeat case_match; simplify_eq/=; split_and!; try done; first [by left|right; by split; [|eexists]]. }
    assert (forall r', proc_reply p' = Some r' -> ok r' = true -> r = Some r') as Hpr.
    { intros r' Er Eo. destruct Hp' as [E|[E _]]; [|congruence]. rewrite E in Er. by simplify_eq. }
    split.
    + constructor; simpl; try done.
      * intros i'. by rewrite Ei.
      * intros r' Er Eo. apply Hrep; [by apply Hpr|done].
      * by destruct p'.
    + destruct hd; try (left; simpl; by destruct p'). simpl.
      destruct Hp' as [E|[E [r0 ->]]]; rewrite E; [|by left]. simpl.
      destruct r as [r0|]; [|by left]. destruct (ok r0); [by right|by left].
  - destruct p; try done. rewrite (Hwait _ eq_refl) in * by done. go_inv. simpl.
    eexists. split; [done|]. split; [by constructor|]. left. by destruct hd.
  - destruct cl, p; try done. go_inv. simpl. eexists. split; [done|]. unfold finishCall in *.
    destruct (ok r) eqn:Eo.
    + destruct (Hrep r eq_refl Eo) as (-> & v & Ev & ->).
      destruct (codec_total v) as [b Hb]. unfold reply_of in Ha0. simpl in Ha0. rewrite Hb in Ha0. simpl in Ha0.
      rewrite (codec_roundtrip _ _ Hb) in Ha0. go_inv.
      assert (fr_done f = false) as Ed by (destruct (fr_done f); [by destruct (Hd eq_refl)|done]).
      split; [constructor; simpl; try done; by eexists|]. left. simpl. by rewrite Ed.
    + go_inv. split.
      * constructor; simpl; try done; [by right|]. intros Hdn. by destruct (Hd Hdn).
      * left. by destruct hd; simpl; rewrite ?Eo.
Qed.

(** ** What a step changes for the cluster *)

Lemma pair_lookup s k c f :
  calls (world s) !! k = Some c -> frames s !! k = Some f ->
  zip (calls (world s)) (frames s) !! k = Some (c, f).
Proof. intros Hc Hf. apply lookup_zip_with_Some. by exists c, f. Qed.

Lemma inv_lookup n s k c :
  sys_inv n s -> calls (world s) !! k = Some c -> exists f, frames s !! k = Some f /\ call_rel n c f.
Proof. intros [Hc _] Hk. exact (Forall2_lookup_l _ _ _ _ _ Hc Hk). Qed.

Lemma rpc_of_total n c f : call_rel n c f -> exists m, rpc_of f (c_handler c) = Some m.
Proof.
  intros Hr. pose proof (cr_kind _ _ _ Hr) as Hk. unfold kind_ok, rpc_of in *.
  destruct (fr_args f); try done; destruct (fr_reply f) as [[]|]; try done; by eexists.
Qed.

Lemma same_inflight s k c c' f w' :
  calls (world s) !! k = Some c -> frames s !! k = Some f -> seen_same c c' f ->
  calls w' = <[k := c']> (calls (world s)) -> inflight (set_world w' s) = inflight s.
Proof.
  intros Hc Hf [Ea Er] Ew. unfold inflight. simpl. rewrite Ew, (zip_insert_l _ _ _ _ _ Hf).
  apply (omap_same _ _ _ (c, f)); [by apply pair_lookup|]. unfold abs_call. simpl. by rewrite Ea, Er.
Qed.

Lemma lost_inflight n s k c c' f w' :
  call_rel n c f -> calls (world s) !! k = Some c -> frames s !! k = Some f -> seen_lost c c' f ->
  calls w' = <[k := c']> (calls (world s)) ->
  exists j m, inflight s !! j = Some m /\ droppable m = true /\
    inflight (set_world w' s) = delete j (inflight s).
Proof.
  intros Hr Hc Hf (Ea & Ea' & Hrun) Ew. destruct (rpc_of_total _ _ _ Hr) as [m Hm].
  destruct (omap_seen abs_call _ _ (c, f) m (pair_lookup _ _ _ _ Hc Hf)) as (j & Hj & _ & Hdel).
  { unfold abs_call. simpl. by rewrite Ea. }
  exists j, m. split_and!; [done| |].
  - unfold rpc_of in Hm. destruct (fr_args f); try done; destruct (fr_reply f) as [[]|]; try done;
      injection Hm as <-; try done; simpl; destruct (c_handler c); try done; by destruct (Hrun server).
  - unfold inflight. simpl. rewrite Ew, (zip_insert_l _ _ _ _ _ Hf). apply Hdel.
    unfold abs_call. simpl. by rewrite Ea'.
Qed.

Definition requested (n : nat) (m : rpc Cmd) : Prop :=
  match m with
  | RV src dst _ Requested | AE src dst _ Requested => (src < n)%nat /\ (dst < n)%nat
  | _ => False
  end.

(** Goroutines that start their calls are RPCs on their way. *)
Lemma spawn_spec n ms s s' :
  Forall (requested n) ms -> sys_inv n s -> spawn end_ ms s = Ok s' ->
  sys_inv n s' /\ nodes s' = nodes s /\ inflight s' = inflight s ++ ms.
Proof.
  intros Hms. unfold spawn. revert s. induction Hms as [|m ms Hm _ IH]; intros s Hi HR.
  { injection HR as <-. by rewrite app_nil_r. }
  cbn [for_each] in HR. apply result_bind_Ok in HR as (s1 & Hs1 & HR).
  apply result_bind_Ok in Hs1 as (c & Hc & [= <-]).
  unfold startCall in Hc. destruct (encode (args_of m)) as [b|] eqn:Eb; [|done]. injection Hc as <-.
  set (c := mkCall _ _ _ _) in HR. set (f := mkFrame _ _ _ _ _) in HR.
  assert (call_rel n c f) as Hrel.
  { destruct m as [src dst a [| |]|src dst a [| |]]; simpl in Hm; try done; destruct Hm;
      constructor; simpl; done. }
  set (s1 := mkSys _ _ _) in HR. assert (sys_inv n s1) as Hi1.
  { destruct Hi as [Hc Ht]. constructor; simpl; [|by destruct Ht].
    apply Forall2_app; [exact Hc|]. constructor; [exact Hrel|constructor]. }
  destruct (IH s1 Hi1 HR) as (Hi' & En & Efl).
  split_and!; [done|done|]. rewrite Efl. unfold inflight. simpl.
  rewrite zip_with_app by (by eapply Forall2_length, si_calls). rewrite omap_app, <- (assoc_L (++)). f_equal.
  simpl. destruct m as [src dst a [| |]|src dst a [| |]]; simpl in Hm; try done.
Qed.

(** A step of the network. *)
Lemma wire_sim n l s w' evs :
  sys_inv n s -> wire_label l = true -> Labrpc.step l (world s) = Some (Ok (w', evs)) ->
  sys_inv n (set_world w' s) /\
  (inflight (set_world w' s) = inflight s \/
   exists j m, inflight s !! j = Some m /\ droppable m = true /\
     inflight (set_world w' s) = delete j (inflight s)).
Proof.
  intros Hi Hl Hst. pose proof Hi as [Hc Ht]. destruct (label_call l) as [k|] eqn:El.
  - destruct (proj1 (step_call l k (world s) _ El) Hst) as (c & Hk & Hcs).
    destruct (inv_lookup _ _ _ _ Hi Hk) as (f & Hf & Hr).
    destruct (wire_call n l k c f (world s) w' evs) as (c' & Ew & Hr' & Hsee); [done|done|by destruct l|done|].
    split.
    + constructor; simpl; [|by eapply tables_same, Ht; eapply call_step_tables].
      rewrite Ew. rewrite <- (list_insert_id (frames s) k f) by done. by apply Forall2_insert.
    + destruct Hsee as [Hs|Hs]; [left; exact (same_inflight s k c c' f w' Hk Hf Hs Ew)|right; exact (lost_inflight n s k c c' f w' Hr Hk Hf Hs Ew)].
  - destruct l; simpl in El, Hst, Hl; try done; go_inv.
    + destruct (done (Labrpc.net (world s)) && listening (world s)); [|done]. go_inv.
      split; [|by left]. constructor; simpl; [done|]. by destruct Ht.
    + destruct (admin_valid a (world s)); [|done]. go_inv.
      pose proof (admin_calls _ _ _ Ha) as Ec. split.
      * constructor; simpl; [by rewrite Ec|]. destruct a; simpl in Ha; try done; go_inv; try by destruct Ht.
        -- unfold Cleanup in *. destruct (done (Labrpc.net (world s))); [done|]. go_inv. by destruct Ht.
        -- constructor; [apply Ht|]. intros j i Hj. unfold server_of. simpl.
           destruct (decide (s0 = peer j)) as [->|Hne]; [by rewrite lookup_insert_eq|].
           rewrite lookup_insert_ne by done. by apply (to_server _ _ Ht).
      * left. unfold inflight. simpl. by rewrite Ec.
Qed.

(** ** The peers' steps *)

Definition restr (pol : policy) : restriction (Cmd := Cmd) :=
  match pol with AnyReply => crash_free | FreshVotes => fresh_votes | InOrder => orderly end.

(** The cluster does not see the step, or can take it. *)
Definition simulated (pol : policy) s s' : Prop :=
  abs s' = abs s \/
  exists cl, restr pol (abs s) cl = true /\ RaftCluster.step cl (abs s) = Some (Ok (abs s')).

(** Only the labels of crashes, requests and replies are restricted. *)
Lemma restr_free pol x cl :
  match cl with Restart _ | HandleReply _ | HandleRequest _ => False | _ => True end ->
  restr pol x cl = true.
Proof. by destruct pol, cl. Qed.

Lemma put_inv n s w' nd k c' f' :
  sys_inv n s -> call_rel n c' f' -> calls w' = <[k := c']> (calls (world s)) ->
  same_tables (Labrpc.net (world s)) (Labrpc.net w') -> sys_inv n (mkSys w' nd (<[k := f']> (frames s))).
Proof.
  intros [Hc Ht] Hr Ew Hs. constructor; simpl; [|by eapply tables_same].
  rewrite Ew. by apply Forall2_insert.
Qed.

Lemma put_inflight s k c f m :
  calls (world s) !! k = Some c -> frames s !! k = Some f -> abs_call (c, f) = Some m ->
  exists j, inflight s !! j = Some m /\
    forall w' nd c' f', calls w' = <[k := c']> (calls (world s)) ->
      inflight (mkSys w' nd (<[k := f']> (frames s))) =
      match abs_call (c', f') with Some m' => <[j := m']> (inflight s) | None => delete j (inflight s) end.
Proof.
  intros Hc Hf Hm.
  destruct (omap_seen abs_call _ _ (c, f) m (pair_lookup _ _ _ _ Hc Hf) Hm) as (j & Hj & Hput & Hdel).
  exists j. split; [done|]. intros w' nd c' f' Ew. unfold inflight. simpl.
  assert (frames s !! k <> None) as Hk by (by rewrite Hf).
  rewrite Ew, (zip_insert_l _ _ _ _ f') by (apply list_lookup_insert_eq; by eapply lookup_lt_Some).
  rewrite (zip_insert_r _ _ _ c f') by done. rewrite list_insert_insert_eq.
  destruct (abs_call (c', f')) as [m'|] eqn:Em; [by apply Hput|by apply Hdel].
Qed.

Lemma rv_requested n i calls :
  Forall (wf_rpc n) (rv_calls (Cmd := Cmd) i calls) -> Forall (requested n) (rv_calls i calls).
Proof. unfold rv_calls. rewrite !Forall_fmap. intros Hf. apply (Forall_impl _ _ _ Hf). by intros [p a] (? & ? & _). Qed.

Lemma ae_requested n i calls :
  Forall (wf_rpc n) (ae_calls (Cmd := Cmd) i calls) -> Forall (requested n) (ae_calls i calls).
Proof. unfold ae_calls. rewrite !Forall_fmap. intros Hf. apply (Forall_impl _ _ _ Hf). by intros [p a] (? & ? & _). Qed.

Lemma timeout_requested n i (sv sv' : Server Cmd) read ms :
  wf_server n i sv -> ticker_timeout i sv read = Ok (sv', ms) -> Forall (requested n) ms.
Proof.
  intros Hw Hst. destruct (wf_ticker_timeout n i sv read Hw) as (sv1 & ms1 & E & _ & Hms).
  rewrite Hst in E. injection E as <- <-. revert Hms.
  destruct read; simpl in Hst; go_inv; try (by apply ae_requested); destruct a; go_inv; by apply rv_requested.
Qed.

Abbreviation sys_step := (sys_step end_).

(** The ticker and the client. *)
Lemma local_sim pol n s i cl sv :
  sys_inv n s -> match cl with Restart _ | HandleReply _ | HandleRequest _ => False | _ => True end ->
  RaftCluster.step cl (abs s) = Some (Ok (put i sv (abs s) (inflight s))) ->
  sys_inv n (put_node i sv s) /\ simulated pol s (put_node i sv s).
Proof.
  intros Hi Hcl Hst. split; [by destruct Hi; constructor|].
  right. exists cl. split; [by apply restr_free|exact Hst].
Qed.

Lemma spawn_sim pol n s s1 s' ms cl i sv :
  sys_inv n s1 -> Forall (requested n) ms -> spawn end_ ms s1 = Ok s' ->
  nodes s1 = <[i := sv]> (nodes s) -> restr pol (abs s) cl = true ->
  RaftCluster.step cl (abs s) = Some (Ok (put i sv (abs s) (inflight s1 ++ ms))) ->
  sys_inv n s' /\ simulated pol s s'.
Proof.
  intros Hi Hms Hsp En Hcl Hst. destruct (spawn_spec _ _ _ _ Hms Hi Hsp) as (Hi' & En' & Efl).
  split; [done|]. right. exists cl. split; [done|]. rewrite Hst. unfold put, abs at 1 2.
  simpl. by rewrite En', En, Efl.
Qed.

Lemma timeout_sim pol n s i s' :
  wf_cluster n (abs s) -> sys_inv n s -> sys_step (STimeout i) s = Some (Ok s') ->
  sys_inv n s' /\ simulated pol s s'.
Proof.
  intros Hw Hi Hst. simpl in Hst. apply bind_Some in Hst as (sv & Hsv & Hst).
  destruct (pc sv) as [|read] eqn:Epc; [done|]. go_inv. destruct a as [sv' ms].
  eapply (spawn_sim pol n s (put_node i sv' s)); [| |exact Hst|done|by apply (restr_free _ _ (TickTimeout i))|].
  - by destruct Hi; constructor.
  - eapply timeout_requested; [|done]. by eapply (wf_servers _ _ Hw).
  - simpl. rewrite Hsv. simpl. rewrite Epc, Ha. done.
Qed.

(** ** The handlers *)

Lemma dispatch_step k w w' evs :
  Labrpc.step (LDispatch k) w = Some (Ok (w', evs)) ->
  exists req cl p i, calls w !! k = Some (mkCall req cl p (Dispatching i)) /\
    calls w' = <[k := mkCall req cl p (Running i)]> (calls w) /\
    evs = [Invoked k i (default zero_value (decode (args req)))].
Proof.
  intros Hst. destruct (proj1 (step_call (LDispatch k) k w _ eq_refl) Hst) as ([req cl p h] & Hk & Hcs).
  simpl in Hcs. destruct h; try by destruct cl, p. exists req, cl, p, server.
  assert (exists rs, heap w !! server = Some rs /\
    ('(rs, _) ← server_dispatch rs (svcMeth req);
     Ok (mkWorld (Labrpc.net w) (<[server := rs]> (heap w))
           (<[k := mkCall req cl p (Running server)]> (calls w)) (listening w),
         [Invoked k server (default zero_value (decode (args req)))])) = Ok (w', evs)) as (rs & _ & HR).
  { destruct cl, p; simpl in Hcs; apply bind_Some in Hcs as (rs & Hrs & Hcs); exists rs; by simplify_eq. }
  go_inv. destruct a as [rs' me]. by go_inv.
Qed.

Lemma handler_step k v w w' evs req cl p i :
  calls w !! k = Some (mkCall req cl p (Running i)) ->
  Labrpc.step (LHandler k v) w = Some (Ok (w', evs)) ->
  calls w' = <[k := mkCall req cl p (Holding (reply_of v))]> (calls w) /\
  Labrpc.net w' = Labrpc.net w.
Proof.
  intros Hk Hst. destruct (proj1 (step_call (LHandler k v) k w _ eq_refl) Hst) as (c & Hk' & Hcs).
  rewrite Hk in Hk'. injection Hk' as <-. simpl in Hcs. destruct cl, p; by simplify_eq/=.
Qed.

(** What the handler does to the server is what [handle_request] says. *)
Lemma run_handler_spec f h i (sv sv' : Server Cmd) v :
  kind_ok f -> fr_reply f = None -> run_handler sv (fr_args f) = Ok (sv', v) ->
  exists m m', rpc_of f h = Some m /\ rpc_dst m = fr_dst f /\ handle_request sv m = Some (Ok (sv', m')) /\
    let f' := mkFrame (fr_src f) (fr_dst f) (fr_args f) (Some v) (fr_done f) in
    kind_ok f' /\ rpc_of f' (Running i) = Some m'.
Proof.
  unfold kind_ok, rpc_of. intros Hk -> HR. simpl in *.
  destruct (fr_args f) as [a| |a|]; try done; simpl in HR; go_inv; repeat destruct a0 as [a0 ?]; go_inv.
  - do 2 eexists. split_and!; [done|done| |done..]. simpl. by rewrite Ha.
  - do 2 eexists. split_and!; [done|done| |done..]. simpl. by rewrite Ha.
Qed.

Lemma admits_request pol s k f h m j :
  frames s !! k = Some f -> fr_reply f = None -> rpc_of f h = Some m -> inflight s !! j = Some m ->
  sys_admits pol s (SDispatch k) = true -> restr pol (abs s) (HandleRequest j) = true.
Proof.
  intros Hf Hn Hm Hj. unfold sys_admits. rewrite Hf. simpl.
  destruct pol; [done|done|]. intros Had. unfold restr, orderly. rewrite andb_true_r.
  simpl. rewrite Hj. unfold rpc_of in Hm. rewrite Hn in Hm.
  destruct f as [src dst ar re dn]. simpl in *. destruct ar; simplify_eq/=; [done|].
  by destruct (nodes s !! dst).
Qed.

Lemma dispatch_sim pol n s k s' :
  sys_inv n s -> sys_admits pol s (SDispatch k) = true ->
  sys_step (SDispatch k) s = Some (Ok s') -> sys_inv n s' /\ simulated pol s s'.
Proof.
  intros Hi Had Hst. cbn [RaftOverLabrpc.sys_step] in Hst. apply bind_Some in Hst as (r & Hlr & Hst).
  destruct r as [[w evs]|]; [|done].
  destruct (dispatch_step _ _ _ _ Hlr) as (req & cl & p & i & Hk & Ew & ->).
  apply bind_Some in Hst as (f & Hf & Hst). apply bind_Some in Hst as (sv & Hsv & Hst). go_inv.
  destruct a as [sv' v]. go_inv.
  destruct (inv_lookup _ _ _ _ Hi Hk) as (f0 & Hf0 & Hr). rewrite Hf in Hf0. injection Hf0 as <-.
  pose proof (cr_handler _ _ _ Hr) as [Hn ->]. pose proof (cr_args _ _ _ Hr) as Hargs. simpl in Hargs.
  rewrite (codec_roundtrip _ _ Hargs) in Ha. simpl in Ha.
  destruct (run_handler_spec f (Dispatching (fr_dst f)) (fr_dst f) sv sv' v (cr_kind _ _ _ Hr) Hn Ha)
    as (m & m' & Em & Ed & Eh & Hk' & Em').
  destruct (put_inflight s k _ f m Hk Hf Em) as (j & Hj & Hput).
  specialize (Hput w (<[fr_dst f := sv']> (nodes s)) _
    (mkFrame (fr_src f) (fr_dst f) (fr_args f) (Some v) (fr_done f)) Ew).
  destruct (proj1 (step_call (LDispatch k) k _ _ eq_refl) Hlr) as (c0 & _ & Hcs).
  split.
  - eapply put_inv; [done| |exact Ew|by eapply call_step_tables].
    destruct Hr as [? ? ? ? _ _ ? Hrep Hea Hc ?]. constructor; simpl in *; try done.
    + intros r Er Eo. by destruct (Hrep r Er Eo).
    + by destruct p.
    + destruct cl as [| |[v'|]]; try done. by destruct Hc.
  - right. exists (HandleRequest j). split; [by eapply admits_request|].
    cbn [RaftCluster.step abs servers RaftCluster.net]. rewrite Hj. simpl. rewrite Ed, Hsv. simpl.
    rewrite Eh. simpl. unfold put, abs, set_world, put_node, put_frame.
    cbn [nodes frames world RaftCluster.servers]. rewrite Hput. unfold abs_call. simpl. by rewrite Em'.
Qed.

(** ** The tickers that receive from a handler *)

Lemma wakes_spec f i read m v :
  kind_ok f -> fr_reply f = Some v -> fr_dst f = i -> wakes read (fr_args f) = true ->
  rpc_of f (Running i) = Some m ->
  exists m', ticker_wake i read m = Some m' /\ forall r, rpc_of f (Holding r) = Some m'.
Proof.
  unfold kind_ok, rpc_of, wakes. intros Hk Hv <- Hw Hm. rewrite Hv in *.
  destruct (fr_args f), v; try done; simplify_eq; simpl; eexists; (split; [|done]).
  - rewrite decide_True; [done|]. split; [done|]. by apply bool_decide_eq_true in Hw.
  - by rewrite decide_True.
Qed.

Lemma wake_sim pol n s i k s' :
  sys_inv n s -> sys_step (SWake i k) s = Some (Ok s') -> sys_inv n s' /\ simulated pol s s'.
Proof.
  intros Hi Hst. cbn [RaftOverLabrpc.sys_step] in Hst. apply bind_Some in Hst as (sv & Hsv & Hst).
  apply bind_Some in Hst as (f & Hf & Hst). apply bind_Some in Hst as (c & Hk & Hst).
  apply bind_Some in Hst as (v & Hv & Hst). destruct (pc sv) as [|read] eqn:Epc; [done|].
  destruct c as [req cl p h]. destruct h as [| |j| |]; try done. simpl in Hst.
  destruct (decide _) as [[<- Hwk]|]; [|done]. apply bind_Some in Hst as (r & Hlr & Hst). go_inv.
  destruct r as [[w evs]|]; [|done]. go_inv.
  destruct (handler_step _ _ _ _ _ _ _ _ _ Hk Hlr) as [Ew En].
  destruct (inv_lookup _ _ _ _ Hi Hk) as (f0 & Hf0 & Hr). rewrite Hf in Hf0. injection Hf0 as <-.
  pose proof (cr_handler _ _ _ Hr) as [_ Hdst]. simpl in Hdst.
  destruct (rpc_of_total _ _ _ Hr) as [m Em].
  destruct (wakes_spec f i read m v (cr_kind _ _ _ Hr) Hv (eq_sym Hdst) Hwk Em) as (m' & Ewk & Em').
  destruct (put_inflight s k _ f m Hk Hf Em) as (j & Hj & Hput).
  specialize (Hput w (<[i := mkServer (rf sv) Sleeping (disk sv) (applied sv)]> (nodes s)) _ f Ew).
  rewrite (list_insert_id (frames s) k f) in Hput by done. split.
  - pose proof (put_inv n s w (<[i := mkServer (rf sv) Sleeping (disk sv) (applied sv)]> (nodes s)) k
      (mkCall req cl p (Holding (reply_of v))) f) as HP.
    rewrite (list_insert_id (frames s) k f) in HP by done.
    apply HP; [done| |done|by rewrite En].
    destruct Hr as [? ? ? ? ? _ ? Hrep Hea Hc ?]. constructor; simpl in *; try done.
    + by exists v.
    + intros r Er Eo. by destruct (Hrep r Er Eo).
    + by destruct p.
    + destruct cl as [| |[v'|]]; try done. by destruct Hc.
  - right. exists (TickWake i j). split; [by apply restr_free|].
    cbn [RaftCluster.step abs servers RaftCluster.net]. rewrite Hsv. simpl. rewrite Hj. simpl. rewrite Epc.
    rewrite Ewk. simpl. unfold put, abs, set_world, put_node.
    cbn [nodes frames world RaftCluster.servers]. rewrite Hput. unfold abs_call. simpl. by rewrite Em'.
Qed.

(** ** The callers that use a reply *)

Lemma run_reply_spec f i (sv sv' : Server Cmd) v ms :
  kind_ok f -> fr_reply f = Some v -> run_reply i sv f v = Ok (sv', ms) ->
  exists m, rpc_of f Drained = Some m /\ rpc_src m = fr_src f /\
    handle_reply i sv m = Some (Ok (sv', ms)).
Proof.
  unfold kind_ok, rpc_of, run_reply. intros Hk Hv HR. rewrite Hv in *.
  destruct (fr_args f), v; try done; eexists; (split_and!; [done|done|]).
  - cbn [handle_reply phase_of]. by rewrite HR.
  - cbn [handle_reply phase_of]. by rewrite HR.
Qed.

Lemma reply_requested n i (sv sv' : Server Cmd) m ms :
  wf_server n i sv -> wf_rpc n m -> handle_reply i sv m = Some (Ok (sv', ms)) -> Forall (requested n) ms.
Proof.
  intros Hw Hm Hst. destruct (wf_handle_reply n i sv m _ Hw Hm Hst) as (sv1 & ms1 & [= <- <-] & _ & Hms).
  destruct m as [src dst a [| |r]|src dst a [| |r]]; cbn [handle_reply] in Hst; simplify_eq.
  - destruct (sendRequestVote (rf sv) (Some r)). simplify_eq. by apply ae_requested.
  - go_inv. destruct a0. by go_inv.
Qed.

Lemma admits_reply pol s k f m j :
  frames s !! k = Some f -> rpc_of f Drained = Some m -> inflight s !! j = Some m ->
  sys_admits pol s (SProcess k) = true -> restr pol (abs s) (HandleReply j) = true.
Proof.
  intros Hf Hm Hj. unfold sys_admits. rewrite Hf. simpl.
  unfold rpc_of in Hm. destruct f as [src dst ar re dn]. simpl in *. intros Had.
  destruct pol; simpl; [done|unfold fresh_votes|unfold orderly, fresh_votes, ordered_requests, current_replies];
    cbn [abs RaftCluster.net RaftCluster.servers]; rewrite Hj;
    destruct ar, re as [[]|]; simplify_eq/=; try done; destruct (nodes s !! src); try done;
    simpl in Had; by rewrite ?andb_true_r, ?Had.
Qed.

Lemma process_sim pol n s k s' :
  wf_cluster n (abs s) -> sys_inv n s -> sys_admits pol s (SProcess k) = true ->
  sys_step (SProcess k) s = Some (Ok s') -> sys_inv n s' /\ simulated pol s s'.
Proof.
  intros Hw Hi Had Hst. cbn [RaftOverLabrpc.sys_step] in Hst. apply bind_Some in Hst as (f & Hf & Hst).
  apply bind_Some in Hst as (c & Hk & Hst). apply bind_Some in Hst as (sv & Hsv & Hst).
  destruct (c_caller c) as [| |[v|]] eqn:Ec; try done. destruct (fr_done f) eqn:Ed; [done|]. go_inv.
  destruct a as [sv' ms].
  destruct (inv_lookup _ _ _ _ Hi Hk) as (f0 & Hf0 & Hr). rewrite Hf in Hf0. injection Hf0 as <-.
  pose proof (cr_caller _ _ _ Hr) as Hc. rewrite Ec in Hc. destruct Hc as (Eh & Ev & Ep).
  destruct (run_reply_spec _ _ _ _ _ _ (cr_kind _ _ _ Hr) Ev Ha) as (m & Em & Es & Ehr).
  destruct (put_inflight s k c f m Hk Hf) as (j & Hj & Hput).
  { unfold abs_call, alive. simpl. by rewrite Eh, Ep, Ec, Ed. }
  set (f' := mkFrame (fr_src f) (fr_dst f) (fr_args f) (fr_reply f) true) in *.
  specialize (Hput (world s) (<[fr_src f := sv']> (nodes s)) c f').
  rewrite (list_insert_id (calls (world s)) k c) in Hput by done. specialize (Hput eq_refl).
  unfold abs_call at 1, alive in Hput. simpl in Hput. rewrite Eh, Ep, Ec in Hput. simpl in Hput.
  eapply (spawn_sim pol n s _ s' ms (HandleReply j) (fr_src f) sv'); [| |exact Hst|done| |].
  - apply (put_inv n s (world s) _ k c); [done| |by rewrite list_insert_id|by split_and!].
    destruct Hr. constructor; try done. intros _. by exists v.
  - eapply (reply_requested n (fr_src f)); [by eapply (wf_servers _ _ Hw)| |exact Ehr].
    exact (Forall_lookup_1 _ _ _ _ (wf_net _ _ Hw) Hj).
  - by eapply admits_reply.
  - cbn [RaftCluster.step abs servers RaftCluster.net]. rewrite Hj. simpl. rewrite Es, Hsv. simpl.
    rewrite Ehr. simpl. unfold put, put_node, put_frame. cbn [nodes frames world]. by rewrite Hput.
Qed.

(** ** Every step *)

Lemma drop_sim pol s s' j m :
  nodes s' = nodes s -> inflight s !! j = Some m -> droppable m = true ->
  inflight s' = delete j (inflight s) -> simulated pol s s'.
Proof.
  intros En Hj Hd E. right. exists (Drop j). split; [by apply restr_free|].
  cbn [RaftCluster.step abs RaftCluster.net RaftCluster.servers]. rewrite Hj. simpl. rewrite Hd.
  unfold abs. by rewrite En, E.
Qed.

Lemma sys_sim pol n s l s' :
  wf_cluster n (abs s) -> sys_inv n s -> sys_admits pol s l = true ->
  sys_step l s = Some (Ok s') -> sys_inv n s' /\ simulated pol s s'.
Proof.
  intros Hw Hi Had Hst. destruct l as [i|i|i cmd|k|i k|k|l].
  - simpl in Hst. apply bind_Some in Hst as (sv & Hsv & Hst).
    destruct (decide _) as [Hd|] eqn:Ed; [|done]. go_inv. apply (local_sim pol n s i (TickRead i)); [done|done|].
    simpl. rewrite Hsv. simpl. by rewrite decide_True.
  - by eapply timeout_sim.
  - simpl in Hst. apply bind_Some in Hst as (sv & Hsv & Hst). go_inv. destruct a as [rf' x]. go_inv.
    apply (local_sim pol n s i (ClientStart i cmd)); [done|done|]. simpl. rewrite Hsv. simpl. by rewrite Ha.
  - by eapply dispatch_sim.
  - by eapply wake_sim.
  - by eapply process_sim.
  - cbn [RaftOverLabrpc.sys_step] in Hst. destruct (wire_label l) eqn:El; [|done].
    apply bind_Some in Hst as (r & Hlr & Hst). go_inv. destruct r as [[w evs]|]; [|done]. go_inv.
    destruct (wire_sim n l s w evs Hi El Hlr) as [Hi' [E|(j & m & Hj & Hd & E)]]; (split; [done|]).
    + left. unfold abs. by rewrite E.
    + by eapply drop_sim.
Qed.

(** A schedule. *)
Lemma sys_run_sim pol n ls s s' :
  wf_cluster n (abs s) -> sys_inv n s -> sys_run end_ pol ls s = Some (Ok s') ->
  wf_cluster n (abs s') /\ sys_inv n s' /\
  exists cls, RaftCluster.run (restr pol) cls (abs s) = Some (Ok (abs s')).
Proof.
  revert s. induction ls as [|l ls IH]; intros s Hw Hi Hrun; simpl in Hrun.
  { simplify_eq. split_and!; [done|done|by exists []]. }
  destruct (sys_admits pol s l) eqn:Had; [|done]. apply bind_Some in Hrun as (r & Hst & Hrun).
  destruct r as [s1|]; [|done].
  destruct (sys_sim pol n s l s1 Hw Hi Had Hst) as [Hi1 [E|(cl & Hcl & Hcst)]].
  - rewrite <- E in *. by apply IH.
  - destruct (wf_step _ _ _ _ Hw Hcst) as (c' & [= <-] & Hw1).
    destruct (IH s1 Hw1 Hi1 Hrun) as (? & ? & cls & Hcls). split_and!; [done|done|].
    exists (cl :: cls). simpl. by rewrite Hcl, Hcst.
Qed.

Lemma sys_init_ok n w0 :
  wired end_ peer n w0 ->
  wf_cluster n (abs (sys_init (Cmd := Cmd) n w0)) /\ sys_inv n (sys_init (Cmd := Cmd) n w0) /\
  abs (sys_init (Cmd := Cmd) n w0) = init n.
Proof.
  intros Hwi. assert (abs (sys_init (Cmd := Cmd) n w0) = init n) as E.
  { unfold abs, inflight. simpl. by rewrite (wi_calls _ _ _ _ Hwi). }
  rewrite E. split_and!; [apply wf_init| |done].
  constructor; simpl; [rewrite (wi_calls _ _ _ _ Hwi); constructor|].
  constructor; [apply (wi_connection _ _ _ _ Hwi)|]. intros j i Hj. by apply (wi_server _ _ _ _ Hwi).
Qed.

(** C7: raft on labrpc refines raft.  Take the peers on the tester's network
    as labrpc.go and raft.go run them: goroutines that call [Call], requests
    and replies encoded, counted, delayed, reordered and dropped by
    [processReq], handlers that stay in [dispatch] until the ticker of their
    peer has received from them, links that the tester cuts and restores at
    any point and servers it deletes.  Whatever these do, the peers' states
    are those of an execution of [RaftCluster] without crashes, in which RPCs
    are just requested, handled, answered once or lost; when granted votes
    are only counted in the term they were asked for, so they are there. *)
Theorem raft_over_labrpc pol n w0 ls s :
  wired end_ peer n w0 -> sys_run end_ pol ls (sys_init n w0) = Some (Ok s) ->
  exists cls, RaftCluster.run (restr pol) cls (init n) = Some (Ok (abs s)).
Proof.
  intros Hwi Hrun. destruct (sys_init_ok n w0 Hwi) as (Hw & Hi & E). rewrite <- E.
  by destruct (sys_run_sim pol n ls _ _ Hw Hi Hrun) as (_ & _ & ?).
Qed.
End sim.
