(* ===== verification/RaftOverLabrpcTypes.v ===== *)
(** * raft over labrpc: well-typed messages

    A call of [Raft.RequestVote] carries the arguments of a vote and comes
    back with the reply of a vote, and the same for [Raft.AppendEntries];
    every server of the network has both methods; no step of the stack
    panics, but a second clean-up. *)

From Stdlib Require Import ZArith Lia.
From stdpp Require Import base numbers strings gmap list.
From S2P Require Import Prelude Labrpc LabrpcTheorems LabrpcCalls.
From S2P Require Import RaftNode RaftCluster RaftWf RaftOverLabrpc RaftOverLabrpcSim.
Local Open Scope Z_scope.

Section types.
Context {Cmd : Type} `{Gob Cmd} {Name : Type} `{Countable Name} `{Codec (msg (Cmd := Cmd))}.
Variable end_ : nat -> nat -> Name.
Variable peer : nat -> Name.
Hypothesis codec_total : forall v : msg (Cmd := Cmd), is_Some (encode v).

Abbreviation Call := (Labrpc.call (Name := Name) (V := msg (Cmd := Cmd))).
Abbreviation Wire := (World (Name := Name) (V := msg (Cmd := Cmd))).
Abbreviation sys_step := (sys_step end_).
Abbreviation sys_inv := (sys_inv end_ peer).
Implicit Types (c : Call) (f : frame (Cmd := Cmd)) (w : Wire) (s : Sys (Cmd := Cmd) (Name := Name)).

Definition is_reply (v : msg (Cmd := Cmd)) : bool :=
  match v with VoteReply _ | AppendReply _ => true | _ => false end.

(** The methods of a peer. *)
Definition raft_methods : list string := ["Raft.RequestVote"%string; "Raft.AppendEntries"%string].

Record sys_typed s : Prop := {
  ty_methods : (fun c => svcMeth (c_req c)) <$> calls (world s) = (fun f => method_of (fr_args f)) <$> frames s;
  ty_serves m : m ∈ raft_methods -> serves m (world s);
}.

Lemma method_of_elem (v : msg (Cmd := Cmd)) : method_of v ∈ raft_methods.
Proof. destruct v; repeat constructor. Qed.

Lemma typed_method s k c f :
  sys_typed s -> calls (world s) !! k = Some c -> frames s !! k = Some f ->
  svcMeth (c_req c) = method_of (fr_args f).
Proof.
  intros [Hm _] Hc Hf. apply (f_equal (.!! k)) in Hm. rewrite !list_lookup_fmap, Hc, Hf in Hm.
  by injection Hm.
Qed.

(** ** Preservation *)

(** No step of a call changes what was asked for. *)
Lemma call_step_reqs l k c w w' evs :
  calls w !! k = Some c -> call_step l k c w = Some (Ok (w', evs)) -> c_req <$> calls w' = c_req <$> calls w.
Proof.
  intros Hk Hst. destruct c as [req cl p hd]. unfold call_step in Hst. simpl in Hst.
  repeat case_match; simplify_eq; go_inv;
    try (apply bind_Some in Hst as (rs & Hrs & Hst); go_inv; destruct a; go_inv);
    simpl; rewrite list_fmap_insert; apply list_insert_id; by rewrite list_lookup_fmap, Hk.
Qed.

Lemma typed_call l k s w evs nd :
  sys_typed s -> label_call l = Some k -> Labrpc.step l (world s) = Some (Ok (w, evs)) ->
  sys_typed (mkSys w nd (frames s)).
Proof.
  intros [Hm Hs] El Hst. destruct (proj1 (step_call l k _ _ El) Hst) as (c & Hk & Hcs).
  constructor; simpl.
  - rewrite <- Hm. pose proof (call_step_reqs _ _ _ _ _ _ Hk Hcs) as E.
    apply (f_equal (fmap svcMeth)) in E. by rewrite <- !list_fmap_compose in E.
  - intros m Hm'. eapply serves_step; [done|done|by apply Hs].
Qed.

Lemma typed_frame k f f' s w nd :
  sys_typed (mkSys w nd (frames s)) -> frames s !! k = Some f -> fr_args f' = fr_args f ->
  sys_typed (mkSys w nd (<[k := f']> (frames s))).
Proof.
  intros [Hm Hs] Hf E. constructor; simpl in *; [|done].
  rewrite Hm, list_fmap_insert. symmetry. apply list_insert_id. by rewrite list_lookup_fmap, Hf, E.
Qed.

Lemma typed_spawn ms s s' : sys_typed s -> spawn end_ ms s = Ok s' -> sys_typed s'.
Proof.
  intros Ht. unfold spawn. apply for_each_inv; [done|]. clear s Ht. intros m s s1 _ [Hm Hs] Hst.
  go_inv. unfold startCall in Ha. destruct (encode (args_of m)) as [b|]; go_inv.
  constructor; simpl; [|done]. by rewrite !fmap_app, Hm.
Qed.

Lemma typed_step l s s' : sys_typed s -> sys_step l s = Some (Ok s') -> sys_typed s'.
Proof.
  intros Ht Hst. destruct l as [i|i|i cmd|k|i k|k|l]; cbn [RaftOverLabrpc.sys_step] in Hst.
  - apply bind_Some in Hst as (sv & _ & Hst). destruct (decide _); [|done]. go_inv. by destruct Ht.
  - apply bind_Some in Hst as (sv & _ & Hst). destruct (pc sv); [done|]. go_inv. destruct a as [sv' ms].
    by eapply typed_spawn, Hst; destruct Ht.
  - apply bind_Some in Hst as (sv & _ & Hst). go_inv. destruct a as [rf' x]. go_inv. by destruct Ht.
  - apply bind_Some in Hst as (r & Hlr & Hst). destruct r as [[w evs]|]; [|done].
    destruct (dispatch_step _ _ _ _ Hlr) as (req & cl & p & i & Hk & Ew & ->).
    apply bind_Some in Hst as (f & Hf & Hst). apply bind_Some in Hst as (sv & Hsv & Hst). go_inv.
    destruct a as [sv' v]. go_inv. eapply (typed_frame k f); [|done|done].
    by eapply (typed_call (LDispatch k)).
  - apply bind_Some in Hst as (sv & _ & Hst). apply bind_Some in Hst as (f & Hf & Hst).
    apply bind_Some in Hst as (c & Hk & Hst). apply bind_Some in Hst as (v & Hv & Hst).
    destruct (pc sv); [done|]. destruct (c_handler c); try done. destruct (decide _); [|done].
    apply bind_Some in Hst as (r & Hlr & Hst). go_inv. destruct r as [[w evs]|]; [|done]. go_inv.
    exact (typed_call (LHandler k v) k s w evs _ Ht eq_refl Hlr).
  - apply bind_Some in Hst as (f & Hf & Hst). apply bind_Some in Hst as (c & Hk & Hst).
    apply bind_Some in Hst as (sv & Hsv & Hst). destruct (c_caller c) as [| |[v|]]; try done.
    destruct (fr_done f); [done|]. go_inv. destruct a as [sv' ms].
    eapply typed_spawn, Hst. eapply (typed_frame k f); [|done|done]. by destruct Ht.
  - destruct (wire_label l) eqn:El; [|done]. apply bind_Some in Hst as (r & Hlr & Hst). go_inv.
    destruct r as [[w evs]|]; [|done]. go_inv. destruct (label_call l) as [k|] eqn:Ek.
    { exact (typed_call l k s w evs _ Ht Ek Hlr). }
    destruct Ht as [Hm Hs]. destruct l; simpl in Ek, Hlr, El; try done; go_inv.
    + destruct (done (Labrpc.net (world s)) && listening (world s)); [|done]. by go_inv; constructor.
    + destruct (admin_valid a (world s)); [|done]. go_inv.
      pose proof (admin_calls _ _ _ Ha) as Ec. constructor; simpl; [by rewrite Ec|].
      intros m Hm'. specialize (Hs m Hm'). unfold serves in *. destruct a; simpl in Ha; try done; go_inv; try done.
Qed.

(** ** Progress *)

Lemma spawn_total ms s : exists s', spawn end_ ms s = Ok s'.
Proof.
  unfold spawn. revert s. induction ms as [|m ms IH]; intros s; [by eexists|]. cbn [for_each].
  unfold startCall. destruct (codec_total (args_of m)) as [b ->]. simpl. apply IH.
Qed.

Lemma handler_total n f h (sv : Server Cmd) i m :
  wf_server n i sv -> wf_rpc n m -> kind_ok f -> fr_reply f = None -> rpc_of f h = Some m ->
  is_ok (run_handler sv (fr_args f)) = true.
Proof.
  intros Hw Hm Hk Hn Hr. unfold kind_ok, rpc_of in *. rewrite Hn in *.
  destruct (fr_args f) as [a| |a|] eqn:Ea; try done; injection Hr as <-.
  - destruct (wf_RequestVote n i (rf sv) a (wf_server_rf _ _ _ Hw)) as (rf' & r & E & _). simpl. by rewrite E.
  - destruct (wf_AppendEntries n i (rf sv) a (wf_server_rf _ _ _ Hw)) as (rf' & r & ms & E & _);
      [by apply Hm|]. simpl. by rewrite E.
Qed.

Lemma reply_total n f v (sv : Server Cmd) i m :
  wf_server n i sv -> wf_rpc n m -> kind_ok f -> fr_reply f = Some v -> rpc_of f Drained = Some m ->
  is_ok (run_reply i sv f v) = true.
Proof.
  intros Hw Hm Hk Hv Hr. unfold kind_ok, rpc_of, run_reply in *. rewrite Hv in *.
  destruct (fr_args f) as [a|?|a|?] eqn:Ea, v as [?|r1|?|r1]; try done; injection Hr as <-.
  - by destruct (sendRequestVote (rf sv) (Some r1)).
  - destruct Hm as (_ & Hdst & Happ).
    destruct (wf_sendAppendEntries n i (rf sv) (fr_dst f) a r1 (wf_server_rf _ _ _ Hw)) as (rf' & ms & E & _);
      [done|done|]. by rewrite E.
Qed.

(** The network panics at an unknown method or an undecodable reply. *)
Lemma wire_no_panic n l s e :
  sys_inv n s -> sys_typed s -> Labrpc.step l (world s) = Some (Panic e) ->
  match l with LCall _ _ _ => False | LAdmin a => wire_label l = true | _ => True end ->
  l = LAdmin ACleanup /\ done (Labrpc.net (world s)) = true.
Proof.
  intros Hi Ht Hst Hl. destruct (label_call l) as [k|] eqn:El.
  - exfalso. destruct (proj1 (step_call l k _ _ El) Hst) as (c & Hk & Hcs).
    destruct (inv_lookup _ _ _ _ _ _ Hi Hk) as (f & Hf & Hr).
    pose proof (typed_method _ _ _ _ Ht Hk Hf) as Hmeth.
    destruct c as [req cl p hd]. unfold call_step in Hcs. simpl in Hcs, Hmeth.
    repeat case_match; simplify_eq.
    + apply bind_Some in Hcs as (rs & Hrs & Hcs).
      pose proof (Forall_lookup_1 _ _ _ _ (ty_serves _ Ht _ (method_of_elem (fr_args f))) Hrs) as Hok.
      simpl in Hok. rewrite <- Hmeth in Hok. destruct (server_dispatch rs (svcMeth req)) as [[]|]; by simplify_eq/=.
    + pose proof (cr_reply _ _ _ _ Hr) as Hrep. simpl in Hrep. unfold finishCall in Hcs.
      destruct (ok r) eqn:Eo; [|done]. destruct (Hrep r eq_refl Eo) as (_ & v & _ & ->).
      destruct (codec_total v) as [b Hb]. unfold reply_of in Hcs. simpl in Hcs. rewrite Hb in Hcs. simpl in Hcs.
      by rewrite (codec_roundtrip _ _ Hb) in Hcs.
  - destruct l; simpl in El, Hst, Hl; try done.
    + by destruct (done _ && listening _).
    + destruct (admin_valid a (world s)); [|done]. destruct a; simpl in Hst; try done.
      unfold Cleanup in Hst. by destruct (done (Labrpc.net (world s))).
Qed.

Lemma sys_no_panic n l s e :
  wf_cluster n (abs s) -> sys_inv n s -> sys_typed s -> sys_step l s = Some (Panic e) ->
  l = SWire (LAdmin ACleanup) /\ done (Labrpc.net (world s)) = true.
Proof.
  intros Hw Hi Ht Hst.
  assert (forall i sv, nodes s !! i = Some sv -> wf_server n i sv) as Hwf by apply (wf_servers _ _ Hw).
  destruct l as [i|i|i cmd|k|i k|k|l]; cbn [RaftOverLabrpc.sys_step] in Hst.
  - apply bind_Some in Hst as (sv & _ & Hst). by destruct (decide _).
  - exfalso. apply bind_Some in Hst as (sv & Hsv & Hst). destruct (pc sv) as [|read]; [done|].
    destruct (wf_ticker_timeout n i sv read (Hwf _ _ Hsv)) as (sv' & ms & E & _). rewrite E in Hst. simpl in Hst.
    destruct (spawn_total ms (put_node i sv' s)) as [s' E']. by rewrite E' in Hst.
  - exfalso. apply bind_Some in Hst as (sv & Hsv & Hst).
    destruct (wf_Start n i (rf sv) (Some cmd) (wf_server_rf _ _ _ (Hwf _ _ Hsv))) as (rf' & x & E & _).
    by rewrite E in Hst.
  - exfalso. apply bind_Some in Hst as (r & Hlr & Hst). destruct r as [[w evs]|e'].
    2:{ by destruct (wire_no_panic _ _ _ _ Hi Ht Hlr I). }
    destruct (dispatch_step _ _ _ _ Hlr) as (req & cl & p & i & Hk & Ew & ->).
    apply bind_Some in Hst as (f & Hf & Hst). apply bind_Some in Hst as (sv & Hsv & Hst).
    destruct (inv_lookup _ _ _ _ _ _ Hi Hk) as (f0 & Hf0 & Hr). rewrite Hf in Hf0. injection Hf0 as <-.
    pose proof (cr_handler _ _ _ _ Hr) as [Hn ->]. pose proof (cr_args _ _ _ _ Hr) as Hargs. simpl in Hargs.
    rewrite (codec_roundtrip _ _ Hargs) in Hst. simpl in Hst.
    destruct (rpc_of_total _ _ _ _ Hr) as [m Em].
    destruct (put_inflight s k _ f m Hk Hf Em) as (j & Hj & _).
    pose proof (handler_total n f _ sv _ m (Hwf _ _ Hsv) (Forall_lookup_1 _ _ _ _ (wf_net _ _ Hw) Hj)
      (cr_kind _ _ _ _ Hr) Hn Em) as Hok.
    destruct (run_handler sv (fr_args f)) as [[]|]; by simplify_eq/=.
  - exfalso. apply bind_Some in Hst as (sv & Hsv & Hst). apply bind_Some in Hst as (f & Hf & Hst).
    apply bind_Some in Hst as (c & Hk & Hst). apply bind_Some in Hst as (v & Hv & Hst).
    destruct (pc sv); [done|]. destruct (c_handler c); try done. destruct (decide _); [|done].
    apply bind_Some in Hst as (r & Hlr & Hst). destruct r as [[w evs]|e']; [done|].
    by destruct (wire_no_panic _ _ _ _ Hi Ht Hlr I).
  - exfalso. apply bind_Some in Hst as (f & Hf & Hst). apply bind_Some in Hst as (c & Hk & Hst).
    apply bind_Some in Hst as (sv & Hsv & Hst). destruct (c_caller c) as [| |[v|]] eqn:Ec; try done.
    destruct (fr_done f) eqn:Ed; [done|].
    destruct (inv_lookup _ _ _ _ _ _ Hi Hk) as (f0 & Hf0 & Hr). rewrite Hf in Hf0. injection Hf0 as <-.
    pose proof (cr_caller _ _ _ _ Hr) as Hc. rewrite Ec in Hc. destruct Hc as (Eh & Ev & Ep).
    destruct (rpc_of_total _ _ _ _ Hr) as [m Em]. rewrite Eh in Em.
    destruct (put_inflight s k c f m Hk Hf) as (j & Hj & _).
    { unfold abs_call, alive. simpl. by rewrite Eh, Ep, Ec, Ed. }
    pose proof (reply_total n f v sv _ m (Hwf _ _ Hsv) (Forall_lookup_1 _ _ _ _ (wf_net _ _ Hw) Hj)
      (cr_kind _ _ _ _ Hr) Ev Em) as Hok.
    destruct (run_reply (fr_src f) sv f v) as [[sv' ms]|]; [|done]. simpl in Hst.
    destruct (spawn_total ms (put_node (fr_src f) sv' (put_frame k
      (mkFrame (fr_src f) (fr_dst f) (fr_args f) (fr_reply f) true) s))) as [s' E']. by rewrite E' in Hst.
  - destruct (wire_label l) eqn:El; [|done]. apply bind_Some in Hst as (r & Hlr & Hst).
    destruct r as [[w evs]|e']; [done|].
    destruct (wire_no_panic _ _ _ _ Hi Ht Hlr) as [-> ?]; [by destruct l|done].
Qed.

Lemma typed_run pol ls s s' : sys_typed s -> sys_run end_ pol ls s = Some (Ok s') -> sys_typed s'.
Proof.
  revert s. induction ls as [|l ls IH]; intros s Ht HR; simpl in HR; [by simplify_eq|].
  destruct (sys_admits pol s l); [|done]. apply bind_Some in HR as (r & Hst & HR).
  destruct r as [s1|]; [|done]. by eapply IH, HR; eapply typed_step.
Qed.

(** What a call carries, and what it comes back with. *)
Lemma call_types n s k c f :
  sys_inv n s -> sys_typed s -> calls (world s) !! k = Some c -> frames s !! k = Some f ->
  svcMeth (c_req c) = method_of (fr_args f) /\ decode (args (c_req c)) = Some (fr_args f) /\
  is_reply (fr_args f) = false /\
  forall v, c_caller c = Returned (Some v) -> method_of v = svcMeth (c_req c) /\ is_reply v = true.
Proof.
  intros Hi Ht Hk Hf. destruct (inv_lookup _ _ _ _ _ _ Hi Hk) as (f0 & Hf0 & Hr).
  rewrite Hf in Hf0. injection Hf0 as <-. pose proof (cr_kind _ _ _ _ Hr) as Hkind.
  rewrite (typed_method _ _ _ _ Ht Hk Hf). split_and!; [done| | |].
  - exact (codec_roundtrip _ _ (cr_args _ _ _ _ Hr)).
  - unfold kind_ok in Hkind. by destruct (fr_args f).
  - intros v Hv. pose proof (cr_caller _ _ _ _ Hr) as Hc. rewrite Hv in Hc. destruct Hc as (_ & Ev & _).
    unfold kind_ok in Hkind. rewrite Ev in Hkind. by destruct (fr_args f), v.
Qed.
End types.
