(* ===== verification/RaftOverLabrpcRuns.v ===== *)
(** * raft over labrpc: the tester's network, and a concrete execution

    The network that [make_config] of raft/config.go sets up is one on which
    the simulation of [RaftOverLabrpcSim] holds; on it a peer is elected,
    call by call. *)

From Stdlib Require Import ZArith Lia.
From stdpp Require Import base numbers strings countable gmap list.
From S2P Require Import Prelude Persister Labrpc LabrpcTheorems LabrpcCalls Harness.
From S2P Require Import RaftNode RaftCluster RaftTheorems RaftRuns.
From S2P Require Import RaftConfig RaftConfigLinks RaftConfigChecks RaftConfigRuns RaftOverLabrpc RaftOverLabrpcSim RaftOverLabrpcTypes.
Local Open Scope Z_scope.

(** ** The network of [make_config] *)

Section tester.
Context {Cmd : Type} `{EqDecision Cmd} `{Gob Cmd} `{Codec (msg (Cmd := Cmd))}.
Implicit Types (cfg : config Cmd).

(** [cfg.rafts[i].peers[j]], the j-th end that [start1] made for server i. *)
Definition tester_end cfg (i j : nat) : netName := End (default EmptyString (end_of (endnames (links cfg)) i j)).

(** The network goroutine has been started and nothing has been called. *)
Definition tester_world cfg : World (Name := netName) (V := msg (Cmd := Cmd)) :=
  mkWorld (net (links cfg)) (srv_heap (links cfg)) [] true.

(** After k servers: k of them, the j-th in the network under its number, and
    k rows of ends. *)
Record started (k : nat) (L : Links) : Prop := {
  st_heap : length (srv_heap L) = k;
  st_server j s : server_of (net L) (Peer j) = Some s -> s = j;
  st_row i : (i < k)%nat -> exists names, endnames L !! i = Some (Some names);
  st_services : Forall (fun rs => rs = AddService MakeServer raft_service) (srv_heap L);
}.

Lemma start1_started i rnd cfg cfg' :
  links_ok (n cfg) (links cfg) -> started i (links cfg) -> start1 i rnd cfg = Ok cfg' ->
  started (S i) (links cfg').
Proof.
  intros Hok [Hh Hs Hr Hv] (cfg1 & L & Hcr & HL & EL & En & _)%start1_parts.
  apply crash1_links in Hcr as (Hcr & En1 & _).
  destruct (crash_links_ok _ _ _ _ Hok Hcr) as (Hok1 & Ec & Hi & Een & Eh & Es).
  assert (connected (links cfg1) !! i = Some false) as Hoff.
  { rewrite Ec. apply list_lookup_insert_eq. by rewrite (lo_connected _ _ Hok). }
  destruct (start_ends_ok _ _ _ _ _ Hok1 Hoff HL) as (Hok2 & Ec2 & Es2 & Eh2 & Een2).
  rewrite EL. constructor; unfold start_server; simpl.
  - rewrite length_app, Eh2, Eh, Hh. simpl. lia.
  - intros j s. unfold server_of. simpl. destruct (decide (j = i)) as [->|Hne].
    + rewrite lookup_insert_eq. simpl. intros [= <-]. by rewrite Eh2, Eh.
    + rewrite lookup_insert_ne by congruence. rewrite Es2. specialize (Es (Peer j)).
      unfold server_of in Es. rewrite Es, decide_False by congruence. apply Hs.
  - intros a Ha. rewrite Een2, Een. destruct (decide (i = a)) as [->|Hne].
    + eexists. apply list_lookup_insert_eq. by rewrite (lo_rows _ _ Hok).
    + rewrite list_lookup_insert_ne by done. apply Hr. lia.
  - rewrite Eh2, Eh. apply Forall_app. split; [done|]. by constructor.
Qed.

Lemma make_config_started n b rnd cfg :
  make_config (Cmd := Cmd) n b rnd = Ok cfg -> started n (links cfg).
Proof.
  unfold make_config. intros (cfg1 & H1 & H2)%result_bind_Ok.
  pose (P := fun (k : nat) (c : config Cmd) => links_ok n (links c) /\ RaftConfig.n c = n /\ started k (links c)).
  assert (P n cfg1) as HP1.
  { replace (P n cfg1) with (P (length (seq 0 n)) cfg1) by (by rewrite length_seq).
    revert H1. apply (for_each_ind (fun pre => P (length pre))).
    - split_and!; [apply links_ok_empty|done|]. constructor; simpl; [done| |lia|done].
      intros j s. by destruct b.
    - intros pre i post c c' Eseq (Hok & En & Hst) Hs. rewrite length_app, Nat.add_comm. simpl.
      assert (i = length pre) as ->.
      { assert (seq 0 n !! length pre = Some i) as Hl by (rewrite Eseq; by apply list_lookup_middle).
        by apply lookup_seq in Hl as [-> _]. }
      rewrite <- En in Hok. destruct (start1_ok _ _ _ _ Hok Hs) as (Hok' & En' & _).
      pose proof (start1_started _ _ _ _ Hok Hst Hs). unfold P. rewrite <- En, <- En'. done. }
  assert (P n cfg) as (_ & _ & ?); [|done].
  revert H2. apply (for_each_inv (P n)); [done|].
  intros i c c' _ (Hok & En & [Hh Hs Hr Hv]) (L & Hc & [= <-])%result_bind_Ok. rewrite En in Hc.
  destruct (connect_ok _ _ _ _ Hok Hc) as (Hok' & _ & _ & Een & Es & Eh).
  split_and!; [done|done|]. constructor; simpl; [by rewrite Eh| |by rewrite Een|by rewrite Eh].
  intros j s. unfold server_of. rewrite Es. apply Hs.
Qed.

Lemma make_config_wired n b rnd cfg :
  make_config (Cmd := Cmd) n b rnd = Ok cfg -> wired (tester_end cfg) Peer n (tester_world cfg).
Proof.
  intros Hm. destruct (make_config_links _ _ _ _ Hm) as [Hok _].
  destruct (make_config_started _ _ _ _ Hm) as [Hh Hs Hr _]. constructor; simpl; [|by intros; apply Hs|done].
  intros i j Hi Hj. destruct (Hr i Hi) as [names Hn]. pose proof (lo_row _ _ Hok _ _ Hn) as Hl.
  destruct (lookup_lt_is_Some_2 names j) as [e He]; [lia|].
  assert (end_of (endnames (links cfg)) i j = Some e) as E by (unfold end_of; by rewrite Hn).
  unfold tester_end. rewrite E. by apply (lo_connection _ _ Hok i).
Qed.

(** [MakeService] found both handlers of a peer. *)
Lemma make_config_typed n b rnd cfg :
  make_config (Cmd := Cmd) n b rnd = Ok cfg -> sys_typed (sys_init n (tester_world cfg)).
Proof.
  intros Hm. pose proof (st_services _ _ (make_config_started _ _ _ _ Hm)) as Hv.
  constructor; simpl; [done|]. intros m Hmeth. unfold serves. simpl.
  eapply Forall_impl; [exact Hv|]. intros rs ->. unfold raft_methods in Hmeth.
  apply elem_of_cons in Hmeth as [->|Hmeth%list_elem_of_singleton]; [|subst]; vm_compute; reflexivity.
Qed.

(** C21: the whole stack is well typed.  On the tester's network, whatever has
    happened so far: every request names a method that its server has and
    decodes to arguments of that method; a call that returned has a reply of
    the same method; and no step that can be taken next panics - no unknown
    service, no failed decoding or type assertion, no index out of range in a
    handler - except closing the network a second time. *)
Theorem stack_well_typed n b rnd cfg pol ls s :
  (forall v : msg (Cmd := Cmd), is_Some (encode v)) ->
  make_config n b rnd = Ok cfg ->
  sys_run (tester_end cfg) pol ls (sys_init n (tester_world cfg)) = Some (Ok s) ->
  (forall k c f, calls (world s) !! k = Some c -> frames s !! k = Some f ->
     svcMeth (c_req c) = method_of (fr_args f) /\ decode (args (c_req c)) = Some (fr_args f) /\
     is_reply (fr_args f) = false /\
     forall v, c_caller c = Returned (Some v) -> method_of v = svcMeth (c_req c) /\ is_reply v = true) /\
  (forall l e, sys_step (tester_end cfg) l s = Some (Panic e) ->
     l = SWire (LAdmin ACleanup) /\ done (Labrpc.net (world s)) = true).
Proof.
  intros Hcod Hm HR. pose proof (make_config_wired _ _ _ _ Hm) as Hwi.
  destruct (sys_init_ok _ _ _ _ Hwi) as (Hw & Hi & E).
  destruct (sys_run_sim _ _ Hcod pol n ls _ _ Hw Hi HR) as (Hw1 & Hi1 & _).
  pose proof (typed_run _ _ _ _ _ (make_config_typed _ _ _ _ Hm) HR) as Ht. split.
  - intros k c f Hk Hf. by eapply call_types.
  - intros l e. by eapply sys_no_panic.
Qed.

(** C11: the whole stack elects one leader per term.  Start the tester's
    network with [make_config] and the peers on it, and let the goroutines of
    raft.go and labrpc.go run in any order, with the tester cutting links,
    deleting servers and making the network lossy as it likes, under the
    policy [FreshVotes]: no peer crashes, and every granted vote is counted
    in the term it was asked for (without it the code fails, see
    [stale_vote_two_leaders]).  Then two leaders of a term,
    then or at any later time, are the same peer. *)
Theorem one_leader_over_labrpc n b rnd cfg ls ls' s s' i j si sj :
  (forall v : msg (Cmd := Cmd), is_Some (encode v)) ->
  make_config n b rnd = Ok cfg ->
  sys_run (tester_end cfg) FreshVotes ls (sys_init n (tester_world cfg)) = Some (Ok s) ->
  sys_run (tester_end cfg) FreshVotes ls' s = Some (Ok s') ->
  nodes s !! i = Some si -> nodes s' !! j = Some sj ->
  state (rf si) = Leader -> state (rf sj) = Leader ->
  currentTerm (rf si) = currentTerm (rf sj) -> i = j.
Proof.
  intros Hcod Hm HR HR'. pose proof (make_config_wired _ _ _ _ Hm) as Hwi.
  destruct (sys_init_ok _ _ _ _ Hwi) as (Hw & Hi & E).
  destruct (sys_run_sim _ _ Hcod FreshVotes n ls _ _ Hw Hi HR) as (Hw1 & Hi1 & cls & Hc). rewrite E in Hc.
  destruct (sys_run_sim _ _ Hcod FreshVotes n ls' _ _ Hw1 Hi1 HR') as (_ & _ & cls' & Hc').
  apply (leaders_once n cls' (abs s) (abs s')); [|exact Hc']. by eapply run_init_reach.
Qed.
End tester.

(** ** A codec, to run the model

    [labgob] is modelled by what it promises; a countable type has such a
    codec. *)
Section countable_codec.
Context `{Countable V} `{Inhabited V}.

#[export] Program Instance countable_codec : Codec V := {|
  Labrpc.encode v := Some (pos_bytes (countable.encode v));
  Labrpc.decode b := p ← bytes_pos b; countable.decode p;
  zero_value := inhabitant;
|}.
Next Obligation. intros v b [= <-]. simpl. rewrite bytes_pos_bytes. simpl. apply decode_encode. Qed.
End countable_codec.

Definition msg_to_sum (v : msg (Cmd := Z)) :=
  match v with
  | VoteArgs a => inl (inl (rva_Term a, rva_CandidateId a, rva_LastLogIndex a, rva_LastLogTerm a))
  | VoteReply r => inl (inr (rvr_Term r, rvr_VoteGranted r))
  | AppendArgs a => inr (inl (aea_Term a, aea_LeaderId a, aea_PrevLogIndex a, aea_PrevLogTerm a,
      (fun e => (le_Term e, le_Command e)) <$> aea_Entries a, aea_LeaderCommit a))
  | AppendReply r => inr (inr (aer_Term r, aer_Success r))
  end.

Definition msg_of_sum (v : (Z * Z * Z * Z + Z * bool) + (Z * Z * Z * Z * list (Z * option Z) * Z + Z * bool)) :=
  match v with
  | inl (inl (t, c, i, l)) => VoteArgs (mkRequestVoteArgs t c i l)
  | inl (inr (t, b)) => VoteReply (mkRequestVoteReply t b)
  | inr (inl (t, l, i, p, es, c)) =>
    AppendArgs (mkAppendEntriesArgs t l i p ((fun e => mkLogEntry e.1 e.2) <$> es) c)
  | inr (inr (t, b)) => AppendReply (mkAppendEntriesReply t b)
  end.

Lemma msg_of_to_sum v : msg_of_sum (msg_to_sum v) = v.
Proof.
  destruct v as [[]|[]|[]|[]]; simpl; try done. do 2 f_equal.
  rewrite <- list_fmap_compose. rewrite <- (list_fmap_id aea_Entries) at 2.
  apply list_fmap_ext. by intros ? [] _.
Qed.

#[export] Instance msg_eq_dec : EqDecision (msg (Cmd := Z)).
Proof. intros [] []; unfold Decision; repeat decide equality. Defined.

#[export] Instance msg_countable : Countable (msg (Cmd := Z)) := inj_countable' _ _ msg_of_to_sum.

#[export] Instance msg_inhabited : Inhabited (msg (Cmd := Z)) := populate (VoteReply (mkRequestVoteReply 0 false)).

(** ** An election, call by call *)

Abbreviation ZSys := (Sys (Cmd := Z) (Name := netName)).
Abbreviation Zlabel := (slabel (Cmd := Z) (Name := netName)).

(** Call [k] reaches its handler. *)
Definition arrive (k : nat) : list Zlabel :=
  [SWire (LAccept k); SWire (LRead k); SWire (LDecide k false); SDispatch k].

(** Its handler has returned: the reply reaches the caller. *)
Definition return_ (k : nat) : list Zlabel :=
  [SWire (LReceive k); SWire (LFinal k false false); SWire (LDeliver k); SProcess k].

(** Peer 0 asks peers 1 and 2 for their votes; the link to peer 2 is cut, and
    the vote of peer 1 makes it leader. *)
Definition elect : list Zlabel :=
  SWire (LAdmin (AEnable (tester_end demo_config 0 2) false)) ::
  [SRead 0; STimeout 0; SRead 1] ++ arrive 0 ++ [SWake 1 0; SWire (LAccept 1); SWire (LRead 1)] ++ return_ 0.

Definition sys_demo : ZSys := sys_init 3 (tester_world demo_config).

Definition sys_after (ls : list Zlabel) (s : ZSys) : ZSys :=
  match sys_run (tester_end demo_config) FreshVotes ls s with Some (Ok s') => s' | _ => s end.

Definition sys_ok (ls : list Zlabel) (s : ZSys) : bool :=
  match sys_run (tester_end demo_config) FreshVotes ls s with Some (Ok _) => true | _ => false end.

Lemma sys_after_run ls s :
  sys_ok ls s = true -> sys_run (tester_end demo_config) FreshVotes ls s = Some (Ok (sys_after ls s)).
Proof. unfold sys_ok, sys_after. by destruct (sys_run _ _ _ _) as [[]|]. Qed.

Lemma codec_all (v : msg (Cmd := Z)) : is_Some (Labrpc.encode v).
Proof. by eexists. Qed.

Lemma elect_ok : sys_ok elect sys_demo = true.
Proof. vm_compute. reflexivity. Qed.

Definition role_of (i : nat) (s : ZSys) : option (State * Z) :=
  (fun sv => (state (rf sv), currentTerm (rf sv))) <$> nodes s !! i.

Lemma role_of_node i s st t :
  role_of i s = Some (st, t) -> exists sv, nodes s !! i = Some sv /\ state (rf sv) = st /\ currentTerm (rf sv) = t.
Proof. unfold role_of. destruct (nodes s !! i) as [sv|]; [|done]. intros [= <- <-]. by exists sv. Qed.

Lemma elect_leader : role_of 0 (sys_after elect sys_demo) = Some (Leader, 1).
Proof. vm_compute. reflexivity. Qed.

Lemma raft_over_labrpc_witness :
  role_of 0 (sys_after elect sys_demo) = Some (Leader, 1) /\
  exists cls, RaftCluster.run (restr FreshVotes) cls (init 3) = Some (Ok (abs (sys_after elect sys_demo))).
Proof.
  split; [exact elect_leader|].
  exact (raft_over_labrpc (tester_end demo_config) Peer codec_all FreshVotes 3 (tester_world demo_config) elect
    (sys_after elect sys_demo) (make_config_wired 3 true (demo_names 65) demo_config demo_make)
    (sys_after_run elect sys_demo elect_ok)).
Defined.

(** The leader sends its heartbeats; it is still the leader of term 1. *)
Definition beat : list Zlabel := [SRead 0; STimeout 0].

Lemma one_leader_over_labrpc_witness :
  role_of 0 (sys_after beat (sys_after elect sys_demo)) = Some (Leader, 1) /\ 0%nat = 0%nat.
Proof.
  assert (role_of 0 (sys_after beat (sys_after elect sys_demo)) = Some (Leader, 1)) as E
    by (vm_compute; reflexivity).
  assert (sys_ok beat (sys_after elect sys_demo) = true) as Hok by (vm_compute; reflexivity).
  split; [exact E|].
  destruct (role_of_node _ _ _ _ elect_leader) as (si & Hi & Hl & Ht).
  destruct (role_of_node _ _ _ _ E) as (sj & Hj & Hl' & Ht').
  refine (one_leader_over_labrpc 3 true (demo_names 65) demo_config elect beat _ _ 0 0 si sj codec_all
    demo_make (sys_after_run elect sys_demo elect_ok) (sys_after_run beat _ Hok) Hi Hj Hl Hl' _).
  rewrite Ht, Ht'. reflexivity.
Defined.

Lemma stack_well_typed_witness :
  exists c f, calls (world (sys_after elect sys_demo)) !! 0%nat = Some c /\
    frames (sys_after elect sys_demo) !! 0%nat = Some f /\
    svcMeth (c_req c) = "Raft.RequestVote"%string /\
    sys_step (tester_end demo_config) (SWire (LAdmin ACleanup)) (sys_after elect sys_demo)
      <> Some (Panic (PanicMsg "close of closed channel")).
Proof.
  assert (exists c, calls (world (sys_after elect sys_demo)) !! 0%nat = Some c) as [c Hc]
    by (vm_compute; eexists; reflexivity).
  assert (method_of <$> (fr_args <$> frames (sys_after elect sys_demo) !! 0%nat) = Some "Raft.RequestVote"%string)
    as Hm by (vm_compute; reflexivity).
  destruct (frames (sys_after elect sys_demo) !! 0%nat) as [f|] eqn:Hf; [|discriminate Hm].
  destruct (stack_well_typed 3 true (demo_names 65) demo_config FreshVotes elect _ codec_all demo_make
    (sys_after_run elect sys_demo elect_ok)) as [Hcalls Hno].
  exists c, f. split; [exact Hc|]. split; [reflexivity|]. split.
  - rewrite (proj1 (Hcalls _ _ _ Hc Hf)). injection Hm as Hm. exact Hm.
  - intros E. destruct (Hno _ _ E) as [_ Hd].
    assert (done (Labrpc.net (world (sys_after elect sys_demo))) = false) as Hd' by (vm_compute; reflexivity).
    rewrite Hd' in Hd. discriminate Hd.
Defined.
