(* ===== verification/LockStore.v ===== *)
(** * raft-lock/lockStore.go: the table of locks

    A Go map from keys to queues of client ids; the first id of a queue owns
    the lock.  The map is a [gmap]; reading a missing key gives the empty
    slice, as in Go.  The promise the lock server relies on is stated as an
    abstract mutex with a FIFO queue of waiters, [mutex], which the table
    refines. *)

From Stdlib Require Import ZArith Lia.
From stdpp Require Import base numbers strings gmap list.
From S2P Require Import Prelude.
Local Open Scope Z_scope.

(** ** Generic slices *)

Fixpoint exists_elem {A} (array : list A) (predicate : A -> bool) : bool :=
  match array with
  | [] => false
  | elem :: array => if predicate elem then true else exists_elem array predicate
  end.

Fixpoint filter_loop {V} (array : list V) (keepWhenTrue : V -> bool) (result : list V) : list V :=
  match array with
  | [] => result
  | v :: array =>
    filter_loop array keepWhenTrue (if keepWhenTrue v then result ++ [v] else result)
  end.

Definition filter_array {V} (array : list V) (keepWhenTrue : V -> bool) : list V :=
  filter_loop array keepWhenTrue [].

Lemma exists_elem_spec {A} (l : list A) f :
  exists_elem l f = true <-> exists x, x ∈ l /\ f x = true.
Proof.
  induction l as [|y l IH]; simpl.
  - split; [done|]. by intros (x & ?%elem_of_nil & _).
  - destruct (f y) eqn:Ey.
    + split; [|done]. intros _. exists y. split; [left|done].
    + rewrite IH. setoid_rewrite elem_of_cons. split; [by intros (x & ? & ?); eauto|].
      intros (x & [->|?] & ?); [congruence|eauto].
Qed.

Lemma filter_array_spec {V} (l : list V) f :
  filter_array l f = filter (fun x => f x = true) l.
Proof.
  assert (forall acc, filter_loop l f acc = acc ++ filter (fun x => f x = true) l) as E;
    [|by apply E].
  induction l as [|v l IH]; intros acc; simpl; [by rewrite app_nil_r|].
  rewrite IH, filter_cons. destruct (f v) eqn:Ev.
  - rewrite decide_True by done. by rewrite <- app_assoc.
  - by rewrite decide_False by congruence.
Qed.

Lemma filter_all {A} (P : A -> Prop) `{!forall x, Decision (P x)} (l : list A) :
  (forall x, x ∈ l -> P x) -> filter P l = l.
Proof.
  induction l as [|x l IH]; intros Hl; [done|]. rewrite filter_cons.
  rewrite decide_True by (apply Hl; left). f_equal. apply IH. intros y Hy. apply Hl. by right.
Qed.

Section store.
Context {K ID : Type} `{Countable K} `{EqDecision ID} (zeroID : ID).

(** ** MultiMap *)

Implicit Types (m store : gmap K (list ID)) (key : K) (id : ID).

(** [m[key]] *)
Definition at_key m key : list ID := default [] (m !! key).

Definition put m key (val : ID) : gmap K (list ID) := <[key := at_key m key ++ [val]]> m.

Definition cleanEmpty m key : gmap K (list ID) :=
  match m !! key with
  | Some v => if len v =? 0 then delete key m else m
  | None => m
  end.

Definition filter_key m key (keepWhenTrue : ID -> bool) : gmap K (list ID) :=
  let m := <[key := filter_array (at_key m key) keepWhenTrue]> m in
  cleanEmpty m key.

(** ** LockStore *)

Definition getLockOwner store key : result (ID * bool) :=
  match store !! key with
  | Some ids => id ← index ids 0; Ok (id, true)
  | None => Ok (zeroID, false)
  end.

Definition lock store key id : gmap K (list ID) :=
  let sameValDoesntExist :=
    negb (exists_elem (at_key store key) (fun elem => bool_decide (id = elem))) in
  if sameValDoesntExist then put store key id else store.

Definition unlock store key id : gmap K (list ID) :=
  filter_key store key (fun elem => bool_decide (id <> elem)).

(** ** Invariant: a key that is present has waiters, each at most once *)

Definition wf_store store : Prop := map_Forall (fun _ q => q <> [] /\ NoDup q) store.

Lemma wf_at_key store key : wf_store store -> NoDup (at_key store key).
Proof.
  intros Hw. unfold at_key. destruct (store !! key) as [q|] eqn:E; simpl; [|constructor].
  by apply (Hw key).
Qed.

Lemma at_key_insert m key q key' :
  at_key (<[key := q]> m) key' = if decide (key' = key) then q else at_key m key'.
Proof.
  unfold at_key. case_decide as E; [subst; by rewrite lookup_insert_eq|].
  by rewrite lookup_insert_ne.
Qed.

Lemma at_key_delete m key key' :
  at_key (delete key m) key' = if decide (key' = key) then [] else at_key m key'.
Proof.
  unfold at_key. case_decide as E; [subst; by rewrite lookup_delete_eq|].
  by rewrite lookup_delete_ne.
Qed.

Lemma at_key_cleanEmpty m key key' : at_key (cleanEmpty m key) key' = at_key m key'.
Proof.
  unfold cleanEmpty. destruct (m !! key) as [[|v q]|] eqn:E; simpl; [|done|done].
  rewrite at_key_delete. case_decide; [subst|done]. unfold at_key. by rewrite E.
Qed.

(** What the two operations do to the queue of a key. *)
Definition enqueue id (q : list ID) : list ID := if decide (id ∈ q) then q else q ++ [id].
Definition withdraw id (q : list ID) : list ID := filter (fun c => c <> id) q.

Lemma at_key_lock store key id key' :
  at_key (lock store key id) key' =
  if decide (key' = key) then enqueue id (at_key store key) else at_key store key'.
Proof.
  unfold lock, enqueue.
  destruct (exists_elem _ _) eqn:E; simpl.
  - apply exists_elem_spec in E as (x & Hx & ->%bool_decide_eq_true).
    rewrite (decide_True (P := x ∈ at_key store key)) by done. by case_decide; subst.
  - rewrite (decide_False (P := id ∈ at_key store key)); [apply at_key_insert|].
    intros Hin. assert (exists_elem (at_key store key) (fun e => bool_decide (id = e)) = true);
      [|congruence].
    apply exists_elem_spec. exists id. by rewrite bool_decide_eq_true.
Qed.

Lemma at_key_unlock store key id key' :
  at_key (unlock store key id) key' =
  if decide (key' = key) then withdraw id (at_key store key) else at_key store key'.
Proof.
  unfold unlock, filter_key. rewrite at_key_cleanEmpty, at_key_insert, filter_array_spec.
  case_decide; [|done]. unfold withdraw. apply list_filter_iff. intros x.
  rewrite bool_decide_eq_true. naive_solver.
Qed.

Lemma NoDup_enqueue id q : NoDup q -> NoDup (enqueue id q).
Proof.
  intros Hq. unfold enqueue. case_decide; [done|]. apply NoDup_app. split_and!; [done| |].
  - intros x Hx ->%list_elem_of_singleton. done.
  - apply NoDup_singleton.
Qed.

Lemma wf_lock store key id : wf_store store -> wf_store (lock store key id).
Proof.
  intros Hw. pose proof (wf_at_key store key Hw) as Hnd.
  pose proof (at_key_lock store key id key) as E. rewrite decide_True in E by done.
  unfold lock in *. destruct (negb _); [|done].
  unfold put in *. apply map_Forall_insert_2; [|done].
  rewrite at_key_insert, decide_True in E by done. rewrite E.
  split; [|by apply NoDup_enqueue]. rewrite <- E. by intros [_ ?]%app_eq_nil.
Qed.

Lemma wf_unlock store key id : wf_store store -> wf_store (unlock store key id).
Proof.
  intros Hw. pose proof (wf_at_key store key Hw) as Hnd.
  unfold unlock, filter_key, cleanEmpty. rewrite lookup_insert_eq, filter_array_spec.
  assert (NoDup (filter (fun x => bool_decide (id <> x) = true) (at_key store key))) as Hq
    by (by apply NoDup_filter).
  destruct (filter _ (at_key store key)) as [|x q]; simpl.
  - rewrite delete_insert_eq. by apply map_Forall_delete.
  - apply map_Forall_insert_2; [|done]. done.
Qed.

(** ** The abstract mutex *)

Inductive mutex := Free | Held (owner : ID) (waiters : list ID).

Definition spec_lock id (x : mutex) : mutex :=
  match x with
  | Free => Held id []
  | Held o w => if decide (id = o \/ id ∈ w) then x else Held o (w ++ [id])
  end.

(** The owner's release hands the lock to the first waiter; the release of a
    waiter withdraws its request. *)
Definition spec_unlock id (x : mutex) : mutex :=
  match x with
  | Free => Free
  | Held o w =>
    if decide (id = o) then
      match w with [] => Free | c :: w => Held c w end
    else Held o (filter (fun c => c <> id) w)
  end.

Definition spec_owner (x : mutex) : ID * bool :=
  match x with Free => (zeroID, false) | Held o _ => (o, true) end.

Definition mutex_of (q : list ID) : mutex :=
  match q with [] => Free | o :: w => Held o w end.

Definition abs store key : mutex := mutex_of (at_key store key).

Lemma getLockOwner_abs store key :
  wf_store store -> getLockOwner store key = Ok (spec_owner (abs store key)).
Proof.
  intros Hw. unfold getLockOwner, abs, at_key. destruct (store !! key) as [q|] eqn:E; [|done].
  destruct (Hw key q E) as [Hne _]. by destruct q.
Qed.

Lemma mutex_of_enqueue id q : mutex_of (enqueue id q) = spec_lock id (mutex_of q).
Proof.
  unfold enqueue. destruct q as [|o w].
  - rewrite decide_False by apply not_elem_of_nil. done.
  - cbn [mutex_of spec_lock]. case_decide as Hin; rewrite elem_of_cons in Hin; by case_decide.
Qed.

Lemma mutex_of_withdraw id q :
  NoDup q -> mutex_of (withdraw id q) = spec_unlock id (mutex_of q).
Proof.
  unfold withdraw. destruct q as [|o w]; simpl; [done|]. intros [Ho Hw]%NoDup_cons.
  rewrite filter_cons. destruct (decide (id = o)) as [->|Hne].
  - rewrite decide_False by naive_solver. rewrite filter_all; [by destruct w|].
    by intros c Hc ->.
  - by rewrite decide_True by congruence.
Qed.

Lemma lock_abs store key id key' :
  abs (lock store key id) key' =
  if decide (key' = key) then spec_lock id (abs store key) else abs store key'.
Proof. unfold abs. rewrite at_key_lock. case_decide; [apply mutex_of_enqueue|done]. Qed.

Lemma unlock_abs store key id key' :
  wf_store store ->
  abs (unlock store key id) key' =
  if decide (key' = key) then spec_unlock id (abs store key) else abs store key'.
Proof.
  intros Hw. unfold abs. rewrite at_key_unlock. case_decide; [|done].
  by apply mutex_of_withdraw, wf_at_key.
Qed.

(** C13: the table refines the abstract mutex.  On a well-formed table every
    operation keeps the table well formed and acts on its key as the
    abstract FIFO mutex does and on no other key, and [getLockOwner] returns
    the abstract owner, never indexing an empty queue. *)
Theorem lock_store_refines store key id :
  wf_store store ->
  (wf_store (lock store key id) /\ wf_store (unlock store key id)) /\
  getLockOwner store key = Ok (spec_owner (abs store key)) /\
  (forall key', abs (lock store key id) key' =
     if decide (key' = key) then spec_lock id (abs store key) else abs store key') /\
  (forall key', abs (unlock store key id) key' =
     if decide (key' = key) then spec_unlock id (abs store key) else abs store key').
Proof.
  intros Hw. split_and!.
  - by apply wf_lock.
  - by apply wf_unlock.
  - by apply getLockOwner_abs.
  - apply lock_abs.
  - intros key'. by apply unlock_abs.
Qed.

(** ** First come, first served *)

Inductive store_op := SLock (key : K) (id : ID) | SUnlock (key : K) (id : ID).

Definition store_step (op : store_op) store : gmap K (list ID) :=
  match op with SLock key id => lock store key id | SUnlock key id => unlock store key id end.

Definition store_run (ops : list store_op) store : gmap K (list ID) :=
  foldl (fun s op => store_step op s) store ops.

#[local] Instance store_op_eq_dec : EqDecision store_op.
Proof. solve_decision. Defined.

(** The clients before [id] that have not released [key] in [ops]. *)
Definition still_ahead key (ops : list store_op) (a : list ID) : list ID :=
  filter (fun c => SUnlock key c ∉ ops) a.

Lemma still_ahead_cons key op ops a :
  still_ahead key (op :: ops) a =
  still_ahead key ops (match op with
                       | SUnlock k c => if decide (k = key) then withdraw c a else a
                       | SLock _ _ => a
                       end).
Proof.
  unfold still_ahead. destruct op as [k c|k c].
  - apply list_filter_iff. intros x. rewrite not_elem_of_cons. naive_solver.
  - destruct (decide (k = key)) as [->|Hne].
    + unfold withdraw. rewrite list_filter_filter. apply list_filter_iff.
      intros x. rewrite not_elem_of_cons. naive_solver.
    + apply list_filter_iff. intros x. rewrite not_elem_of_cons. naive_solver.
Qed.

Lemma store_step_ahead key op store a id b :
  op <> SUnlock key id -> at_key store key = a ++ id :: b ->
  exists b', at_key (store_step op store) key =
    (match op with
     | SUnlock k c => if decide (k = key) then withdraw c a else a
     | SLock _ _ => a
     end) ++ id :: b'.
Proof.
  intros Hop Hq. destruct op as [k c|k c]; simpl.
  - rewrite at_key_lock. case_decide; [|by eexists]. subst k. rewrite Hq.
    unfold enqueue. case_decide; [by eexists|]. rewrite <- app_assoc. by eexists.
  - rewrite at_key_unlock. case_decide as Hk; case_decide; try congruence; [|by eexists].
    subst k. rewrite Hq. unfold withdraw. rewrite filter_app, filter_cons.
    rewrite decide_True by congruence. by eexists.
Qed.

(** The queue keeps its order through any operations of other clients. *)
Lemma store_run_ahead key ops store a id b :
  SUnlock key id ∉ ops -> at_key store key = a ++ id :: b ->
  exists b', at_key (store_run ops store) key = still_ahead key ops a ++ id :: b'.
Proof.
  revert store a b. induction ops as [|op ops IH]; intros store a b; simpl.
  { intros _ ->. exists b. unfold still_ahead. rewrite filter_all; [done|].
    intros c _. apply not_elem_of_nil. }
  rewrite not_elem_of_cons. intros [Hop Hops] Hq.
  destruct (store_step_ahead key op store a id b) as [b' Hq']; [congruence|done|].
  destruct (IH _ _ _ Hops Hq') as [b'' E]. exists b''. by rewrite still_ahead_cons.
Qed.

Lemma wf_store_run ops store : wf_store store -> wf_store (store_run ops store).
Proof.
  revert store. induction ops as [|[k c|k c] ops IH]; intros store Hw; simpl; [done| |];
    apply IH; by auto using wf_lock, wf_unlock.
Qed.

(** First come, first served.  A client that waits for a key with the
    clients [a] before it, and that does not withdraw, owns the key after
    any sequence of lock and unlock operations exactly when each client of
    [a] has released the key in it. *)
Theorem lock_store_fifo store key a id b ops :
  wf_store store -> at_key store key = a ++ id :: b -> SUnlock key id ∉ ops ->
  getLockOwner (store_run ops store) key = Ok (id, true) <->
  forall c, c ∈ a -> SUnlock key c ∈ ops.
Proof.
  intros Hw Hq Hops. destruct (store_run_ahead key ops store a id b Hops Hq) as [b' E].
  assert (id ∉ a) as Hid.
  { intros Hin. apply (wf_at_key store key) in Hw. rewrite Hq in Hw.
    apply NoDup_app in Hw as (_ & Hd & _). by apply (Hd id Hin); left. }
  rewrite getLockOwner_abs by (by apply wf_store_run). unfold abs. rewrite E.
  destruct (still_ahead key ops a) as [|c l] eqn:Ea; simpl.
  - split; [|done]. intros _ c Hc. destruct (decide (SUnlock key c ∈ ops)) as [|Hn]; [done|].
    assert (c ∈ still_ahead key ops a) as Hin by (by apply list_elem_of_filter).
    rewrite Ea in Hin. by apply elem_of_nil in Hin.
  - assert (c ∈ still_ahead key ops a) as [Hn Hc]%list_elem_of_filter by (rewrite Ea; left).
    split; [intros [= ->]; done|]. intros Hall. by apply Hall in Hc.
Qed.
End store.

Arguments store_op : clear implicits.

(** ** Witnesses *)

Definition demo_store : gmap string (list Z) :=
  lock (lock (lock ∅ "k"%string 11) "k"%string 12) "k"%string 13.

Lemma demo_store_wf : wf_store demo_store.
Proof. repeat apply wf_lock. apply map_Forall_empty. Qed.

Lemma lock_store_refines_witness :
  getLockOwner 0 demo_store "k"%string = Ok (11, true) /\
  abs (unlock demo_store "k"%string 11) "k"%string = Held 12 [13].
Proof.
  destruct (lock_store_refines 0 demo_store "k"%string 11 demo_store_wf)
    as (_ & E & _ & Hu). split; [exact E|exact (Hu "k"%string)].
Defined.

Lemma lock_store_fifo_witness :
  getLockOwner 0 (store_run [SLock "k"%string 14; SUnlock "k"%string 12; SUnlock "k"%string 11]
    demo_store) "k"%string = Ok (13, true).
Proof.
  apply (lock_store_fifo 0 demo_store "k"%string [11; 12] 13 []);
    [exact demo_store_wf|reflexivity|set_solver|set_solver].
Defined.
