(* ===== verification/LockServer.v ===== *)
(** * raft-lock/server.go and common.go: the replicated lock server

    One replica: the lock table, the per-client duplicate filter and the
    result channels its RPC handlers wait on.  [applyOp] is the body of
    [applyOpsLoop] for one message; the answers of [rf.GetState()] are
    arguments of it ([lead], [lead']: the code asks up to twice), and what it
    sends (events, [Clerk.ReceiveLock] calls) is its output.  [rt_step]
    interleaves that loop with the RPC handlers. *)

From Stdlib Require Import ZArith Lia.
From stdpp Require Import base numbers strings pretty gmap list.
From S2P Require Import Prelude RaftNode LockStore.
Local Open Scope Z_scope.

(** ** common.go *)

Definition OK : string := "OK".
Definition ErrWrongLeader : string := "ErrWrongLeader".

Definition LockOp : Z := 1.
Definition UnlockOp : Z := 2.
Definition RequestLockOp : Z := 3.
Definition AcquireLockOp : Z := 4.
Definition RequestUnlockOp : Z := 5.

Definition OpType_ToString (o : Z) : result string :=
  if o =? LockOp then Ok "Lock"%string
  else if o =? UnlockOp then Ok "Unlock"%string
  else if o =? RequestLockOp then Ok "RequestLock"%string
  else if o =? AcquireLockOp then Ok "AcquireLock"%string
  else if o =? RequestUnlockOp then Ok "RequestUnlock"%string
  else Panic (PanicMsg "impossible!").

Definition ServerEvent : Z := 1.
Definition ClientEvent : Z := 2.

Definition EventType_ToString (e : Z) : result string :=
  if e =? ServerEvent then Ok "Server"%string
  else if e =? ClientEvent then Ok "Client"%string
  else Panic (PanicMsg "impossible!").

Record Event := mkEvent { ev_Op : Z; eventType : Z; ev_key : string; ev_id : Z }.

Definition Event_ToString (e : Event) : result string :=
  et ← EventType_ToString (eventType e);
  ot ← OpType_ToString (ev_Op e);
  Ok ("Event: " +:+ et +:+ " " +:+ ot +:+ " " +:+ ev_key e +:+ " " +:+ pretty (ev_id e)).

Record MutexArgs := mkMutexArgs {
  ma_Key : string; ma_Op : Z; ma_ClientId : Z; ma_RequestId : Z }.

(** ** server.go *)

Record Op := mkOp { op_Type : Z; op_Key : string; op_ClientId : Z; op_RequestId : Z }.

#[export] Instance Op_eq_dec : EqDecision Op.
Proof. solve_decision. Defined.

(** [clerkEnds] is the set of clients that have an end point.  A channel of
    [results] is the list of what its buffer of capacity 1 holds. *)
Record LockServer := mkLockServer {
  clerkEnds : gset Z;
  store : gmap string (list Z);
  results : gmap Z (list Op);
  ls_lastApplied : gmap Z Z;
}.

Inductive output :=
| SendEvent (e : Event)                         (* ls.events <- e *)
| CallReceiveLock (client : Z) (key : string).  (* clerkEnds[client].Call(...) *)

Definition StartLockServer (clerkEnds : gset Z) : LockServer := mkLockServer clerkEnds ∅ ∅ ∅.

Definition isSameOp (issued applied : Op) : bool :=
  (op_ClientId issued =? op_ClientId applied) && (op_RequestId issued =? op_RequestId applied).

Definition giveLockToOwner (ls : LockServer) (isLeader : bool) (key : string) (lockOwner : Z)
    : list output :=
  if isLeader then
    if decide (lockOwner ∈ clerkEnds ls) then [CallReceiveLock lockOwner key] else []
  else [].

Definition applyToStateMachine (ls : LockServer) (lead lead' : bool) (op : Op)
    : result (LockServer * list output) :=
  '(owner, _) ← getLockOwner 0 (store ls) (op_Key op);
  let st := store ls in
  let st := if op_Type op =? LockOp then lock st (op_Key op) (op_ClientId op) else st in
  let st := if op_Type op =? UnlockOp then unlock st (op_Key op) (op_ClientId op) else st in
  let ls := mkLockServer (clerkEnds ls) st (results ls) (ls_lastApplied ls) in
  if lead then
    '(newOwner, _) ← getLockOwner 0 (store ls) (op_Key op);
    Ok (ls, SendEvent (mkEvent (op_Type op) ServerEvent (op_Key op) (op_ClientId op)) ::
            (if decide (newOwner <> owner) then giveLockToOwner ls lead' (op_Key op) newOwner
             else []))
  else Ok (ls, []).

(** [op.RequestId > lastId], or the client is new. *)
Definition is_fresh (ls : LockServer) (op : Op) : bool :=
  match ls_lastApplied ls !! op_ClientId op with
  | None => true
  | Some lastId => lastId <? op_RequestId op
  end.

Definition applyIfFresh (ls : LockServer) (lead lead' : bool) (op : Op)
    : result (LockServer * list output) :=
  if is_fresh ls op then
    '(ls, out) ← applyToStateMachine ls lead lead' op;
    Ok (mkLockServer (clerkEnds ls) (store ls) (results ls)
          (<[op_ClientId op := op_RequestId op]> (ls_lastApplied ls)), out)
  else Ok (ls, []).

(** [opCh, ok := ls.results[index]; if !ok { make(chan Op, 1) }] *)
Definition register (ls : LockServer) (idx : Z) : LockServer * list Op :=
  match results ls !! idx with
  | Some ch => (ls, ch)
  | None => (mkLockServer (clerkEnds ls) (store ls) (<[idx := []]> (results ls))
               (ls_lastApplied ls), [])
  end.

Definition set_channel (ls : LockServer) (idx : Z) (ch : list Op) : LockServer :=
  mkLockServer (clerkEnds ls) (store ls) (<[idx := ch]> (results ls)) (ls_lastApplied ls).

(** One iteration of [applyOpsLoop].  [Ok None]: the iteration is blocked in
    [opCh <- op] because the buffer is full. *)
Definition applyOp (ls : LockServer) (lead lead' : bool) (msg : ApplyMsg Op)
    : result (option (LockServer * list output)) :=
  if negb (CommandValid msg) then Ok (Some (ls, []))
  else
    let idx := CommandIndex msg in
    match am_Command msg with
    | None => Panic TypeAssertion
    | Some op =>
      '(ls, out) ← applyIfFresh ls lead lead' op;
      let '(ls, ch) := register ls idx in
      if len ch <? 1 then Ok (Some (set_channel ls idx (ch ++ [op]), out)) else Ok None
    end.

(** ** The RPC handlers

    [Mutex] calls [waitForApplied], which asks Raft to start agreement,
    registers the channel of the index it got and then waits for the channel
    or a timer. *)

Definition op_of_args (args : MutexArgs) : Op :=
  mkOp (ma_Op args) (ma_Key args) (ma_ClientId args) (ma_RequestId args).

(** [Mutex] once [waitForApplied] has returned. *)
Definition mutexReply (ok : bool) : string := if ok then OK else ErrWrongLeader.

(** The replica with its handlers in the select of [waitForApplied], the
    replies it has sent and the messages it has received on [applyCh]. *)
Record Runtime := mkRuntime {
  rt_ls : LockServer;
  rt_waiting : list (Z * Op);
  rt_replies : list (Op * string);
  rt_applied : list (ApplyMsg Op);
}.

Inductive rt_label :=
| Refused (args : MutexArgs)              (* Start: not the leader *)
| Accepted (args : MutexArgs) (idx : Z)   (* Start returned idx; the channel is registered *)
| Received (k : nat)                      (* the k-th waiting handler receives *)
| TimedOut (k : nat)                      (* its timer fires *)
| Apply (lead lead' : bool) (msg : ApplyMsg Op).

Definition rt_step (l : rt_label) (rt : Runtime) : option (result Runtime) :=
  match l with
  | Refused args =>
    Some (Ok (mkRuntime (rt_ls rt) (rt_waiting rt)
      (rt_replies rt ++ [(op_of_args args, mutexReply false)]) (rt_applied rt)))
  | Accepted args idx =>
    let '(ls, _) := register (rt_ls rt) idx in
    Some (Ok (mkRuntime ls (rt_waiting rt ++ [(idx, op_of_args args)])
      (rt_replies rt) (rt_applied rt)))
  | Received k =>
    '(idx, op) ← rt_waiting rt !! k;
    ch ← results (rt_ls rt) !! idx;
    match ch with
    | [] => None
    | appliedOp :: ch =>
      Some (Ok (mkRuntime (set_channel (rt_ls rt) idx ch) (delete k (rt_waiting rt))
        (rt_replies rt ++ [(op, mutexReply (isSameOp op appliedOp))]) (rt_applied rt)))
    end
  | TimedOut k =>
    '(_, op) ← rt_waiting rt !! k;
    Some (Ok (mkRuntime (rt_ls rt) (delete k (rt_waiting rt))
      (rt_replies rt ++ [(op, mutexReply false)]) (rt_applied rt)))
  | Apply lead lead' msg =>
    match applyOp (rt_ls rt) lead lead' msg with
    | Panic p => Some (Panic p)
    | Ok None => None
    | Ok (Some (ls, _)) =>
      Some (Ok (mkRuntime ls (rt_waiting rt) (rt_replies rt) (rt_applied rt ++ [msg])))
    end
  end.

Definition rt_init (ends : gset Z) : Runtime := mkRuntime (StartLockServer ends) [] [] [].

Inductive rt_reach (ends : gset Z) : Runtime -> Prop :=
| rt_reach_init : rt_reach ends (rt_init ends)
| rt_reach_step rt l rt' :
    rt_reach ends rt -> rt_step l rt = Some (Ok rt') -> rt_reach ends rt'.

(** ** The state machine every replica runs *)

(** The table and the duplicate filter. *)
Definition machine := (gmap string (list Z) * gmap Z Z)%type.

Definition machine_of (ls : LockServer) : machine := (store ls, ls_lastApplied ls).

Definition op_on_store (op : Op) (st : gmap string (list Z)) : gmap string (list Z) :=
  if op_Type op =? LockOp then lock st (op_Key op) (op_ClientId op)
  else if op_Type op =? UnlockOp then unlock st (op_Key op) (op_ClientId op)
  else st.

Definition machine_step (op : Op) (m : machine) : machine :=
  let '(st, la) := m in
  if match la !! op_ClientId op with None => true | Some lastId => lastId <? op_RequestId op end
  then (op_on_store op st, <[op_ClientId op := op_RequestId op]> la)
  else (st, la).

Arguments machine_step : simpl never.

Definition machine_run (ops : list Op) : machine :=
  foldl (fun m op => machine_step op m) (∅, ∅) ops.

Lemma machine_run_snoc ops op : machine_run (ops ++ [op]) = machine_step op (machine_run ops).
Proof. unfold machine_run. by rewrite foldl_app. Qed.

(** The commands of the valid messages. *)
Definition commands (msgs : list (ApplyMsg Op)) : list Op :=
  omap (fun m => if CommandValid m then am_Command m else None) msgs.

Lemma commands_snoc msgs m :
  commands (msgs ++ [m]) =
  commands msgs ++ (if CommandValid m then option_list (am_Command m) else []).
Proof.
  unfold commands. rewrite omap_app. f_equal. simpl.
  destruct (CommandValid m); [|done]. by destruct (am_Command m).
Qed.

(** ** Lemmas on the operations *)

Lemma op_on_store_wf op st : wf_store st -> wf_store (op_on_store op st).
Proof. unfold op_on_store. intros ?. repeat case_match; auto using wf_lock, wf_unlock. Qed.

Lemma op_on_store_code op (st : gmap string (list Z)) :
  (let st := if op_Type op =? LockOp then lock st (op_Key op) (op_ClientId op) else st in
   if op_Type op =? UnlockOp then unlock st (op_Key op) (op_ClientId op) else st)
  = op_on_store op st.
Proof.
  unfold op_on_store. destruct (Z.eqb_spec (op_Type op) LockOp) as [E|]; [|done].
  by destruct (Z.eqb_spec (op_Type op) UnlockOp) as [E'|]; [rewrite E in E'|].
Qed.

(** The outputs of applying [op] between two owners of its key. *)
Definition announce (ends : gset Z) (lead' : bool) (op : Op) (owner newOwner : Z) : list output :=
  SendEvent (mkEvent (op_Type op) ServerEvent (op_Key op) (op_ClientId op)) ::
  (if decide (newOwner <> owner /\ lead' = true /\ newOwner ∈ ends)
   then [CallReceiveLock newOwner (op_Key op)] else []).

(** The owner of a lock, and what [getLockOwner] says: 0 for nobody. *)
Definition lock_owner (st : gmap string (list Z)) (key : string) : option Z := head (default [] (st !! key)).

Definition owner_of (st : gmap string (list Z)) (key : string) : Z :=
  fst (spec_owner 0 (abs st key)).

Lemma owner_of_lock st key c :
  owner_of st key = c -> lock_owner st key = Some c \/ (c = 0 /\ lock_owner st key = None).
Proof.
  unfold owner_of, lock_owner, abs, at_key. destruct (default [] (st !! key)); simpl; intros <-; [by right|by left].
Qed.

Lemma getLockOwner_owner st key :
  wf_store st -> getLockOwner 0 st key = Ok (owner_of st key, snd (spec_owner 0 (abs st key))).
Proof. intros Hw. rewrite getLockOwner_abs by done. unfold owner_of. by destruct (abs st key). Qed.

Lemma applyToStateMachine_spec ls lead lead' op :
  wf_store (store ls) ->
  applyToStateMachine ls lead lead' op =
  Ok (mkLockServer (clerkEnds ls) (op_on_store op (store ls)) (results ls) (ls_lastApplied ls),
      if lead then announce (clerkEnds ls) lead' op (owner_of (store ls) (op_Key op))
                     (owner_of (op_on_store op (store ls)) (op_Key op)) else []).
Proof.
  intros Hw. unfold applyToStateMachine. rewrite (getLockOwner_owner (store ls)) by done. go_run. cbn zeta.
  rewrite op_on_store_code. cbn [store clerkEnds results ls_lastApplied].
  destruct lead; [|done]. rewrite getLockOwner_owner by (by apply op_on_store_wf). go_run.
  unfold announce, giveLockToOwner. cbn [clerkEnds].
  do 3 f_equal. destruct lead'; repeat case_decide; naive_solver.
Qed.

(** The state-machine part of one iteration. *)
Lemma applyIfFresh_spec ls lead lead' op :
  wf_store (store ls) ->
  exists out, applyIfFresh ls lead lead' op =
    Ok (mkLockServer (clerkEnds ls) (fst (machine_step op (machine_of ls))) (results ls)
          (snd (machine_step op (machine_of ls))), out) /\
    (is_fresh ls op = false -> out = []).
Proof.
  intros Hw. unfold applyIfFresh, machine_step, machine_of, is_fresh.
  destruct (match ls_lastApplied ls !! _ with Some _ => _ | None => _ end) eqn:Ef.
  - rewrite applyToStateMachine_spec by done. go_run. simpl. by eexists.
  - simpl. exists []. by destruct ls.
Qed.

Lemma machine_step_wf op m : wf_store (fst m) -> wf_store (fst (machine_step op m)).
Proof.
  destruct m as [st la]. unfold machine_step. simpl. intros Hw.
  destruct (match la !! _ with Some _ => _ | None => _ end); simpl; [|done].
  by apply op_on_store_wf.
Qed.
