(* ===== verification/LockTheorems.v ===== *)
(** * raft-lock: properties of the lock server

    The invariant of a replica's reachable states, and the theorems about
    replication, acknowledgements, duplicates and hand-over of locks. *)

From Stdlib Require Import ZArith Lia.
From stdpp Require Import base numbers strings pretty gmap list.
From S2P Require Import Prelude RaftNode LockStore LockServer.
Local Open Scope Z_scope.

(** ** The duplicate filter *)

Definition req (op : Op) : Z * Z := (op_ClientId op, op_RequestId op).

Lemma isSameOp_req a b : isSameOp a b = true <-> req a = req b.
Proof.
  unfold isSameOp, req. rewrite andb_true_iff, !Z.eqb_eq.
  split; [by intros [-> ->]|by intros [= -> ->]].
Qed.

(** [la] holds the greatest request of each client among [ops]. *)
Definition la_tracks (ops : list Op) (la : gmap Z Z) : Prop :=
  forall c,
    match la !! c with
    | None => forall o, o ∈ ops -> op_ClientId o <> c
    | Some r => (c, r) ∈ req <$> ops /\
        forall o, o ∈ ops -> op_ClientId o = c -> op_RequestId o <= r
    end.

Lemma la_tracks_fresh ops la op :
  la_tracks ops la ->
  (match la !! op_ClientId op with None => true | Some r => r <? op_RequestId op end = true) ->
  la_tracks (ops ++ [op]) (<[op_ClientId op := op_RequestId op]> la).
Proof.
  intros Ht Hf c. destruct (decide (c = op_ClientId op)) as [->|Hne].
  - rewrite lookup_insert_eq. split.
    + rewrite fmap_app. apply elem_of_app. right. by apply list_elem_of_singleton.
    + intros o [Ho| ->%list_elem_of_singleton]%elem_of_app Hc; [|done].
      specialize (Ht (op_ClientId op)). destruct (la !! op_ClientId op) as [r|].
      * apply Z.ltb_lt in Hf. destruct Ht as [_ Ht]. specialize (Ht o Ho Hc). lia.
      * by apply Ht in Ho.
  - rewrite lookup_insert_ne by done. specialize (Ht c). destruct (la !! c) as [r|].
    + destruct Ht as [Hin Ht]. split; [rewrite fmap_app; apply elem_of_app; by left|].
      intros o [Ho| ->%list_elem_of_singleton]%elem_of_app Hc; [by apply Ht|congruence].
    + intros o [Ho| ->%list_elem_of_singleton]%elem_of_app; [by apply Ht|congruence].
Qed.

Lemma la_tracks_stale ops la op r :
  la_tracks ops la -> la !! op_ClientId op = Some r -> op_RequestId op <= r ->
  la_tracks (ops ++ [op]) la.
Proof.
  intros Ht Hr Hle c. specialize (Ht c). destruct (la !! c) as [r'|] eqn:E.
  - destruct Ht as [Hin Ht]. split; [rewrite fmap_app; apply elem_of_app; by left|].
    intros o [Ho| ->%list_elem_of_singleton]%elem_of_app Hc; [by apply Ht|congruence].
  - intros o [Ho| ->%list_elem_of_singleton]%elem_of_app; [by apply Ht|congruence].
Qed.

Lemma machine_run_tracks ops : la_tracks ops (snd (machine_run ops)).
Proof.
  induction ops as [|op ops IH] using rev_ind.
  { intros c. simpl. rewrite lookup_empty. by intros o ?%elem_of_nil. }
  rewrite machine_run_snoc. destruct (machine_run ops) as [st la]. simpl in IH.
  unfold machine_step.
  destruct (match la !! _ with Some _ => _ | None => _ end) eqn:Ef; simpl.
  - by apply la_tracks_fresh.
  - destruct (la !! op_ClientId op) as [r|] eqn:Er; [|done]. apply Z.ltb_ge in Ef.
    by eapply la_tracks_stale.
Qed.

(** Every op that a replica has taken from the log is at or below the
    client's entry of the filter. *)
Lemma machine_run_covers ops o :
  o ∈ ops -> exists r, snd (machine_run ops) !! op_ClientId o = Some r /\ op_RequestId o <= r.
Proof.
  intros Ho. pose proof (machine_run_tracks ops (op_ClientId o)) as Ht.
  destruct (snd (machine_run ops) !! op_ClientId o) as [r|]; [|by apply Ht in Ho].
  exists r. split; [done|]. by apply Ht.
Qed.

(** ** Reachable replicas *)

Record rt_inv (rt : Runtime) : Prop := {
  rt_wf : wf_store (store (rt_ls rt));
  rt_machine : machine_of (rt_ls rt) = machine_run (commands (rt_applied rt));
  rt_chan : forall idx ch, results (rt_ls rt) !! idx = Some ch ->
    (length ch <= 1)%nat /\ forall op, op ∈ ch -> exists m, m ∈ rt_applied rt /\
      CommandValid m = true /\ am_Command m = Some op /\ CommandIndex m = idx;
  rt_acks : forall op, (op, OK) ∈ rt_replies rt ->
    exists o, o ∈ commands (rt_applied rt) /\ req o = req op;
}.

Lemma register_spec ls idx :
  exists ch, register ls idx =
    (mkLockServer (clerkEnds ls) (store ls) (<[idx := ch]> (results ls)) (ls_lastApplied ls), ch) /\
    (results ls !! idx = Some ch \/ results ls !! idx = None /\ ch = []).
Proof.
  unfold register. destruct (results ls !! idx) as [ch|] eqn:E.
  - exists ch. split; [|by left]. rewrite insert_id by done. by destruct ls.
  - exists []. split; [done|by right].
Qed.

Lemma applyOp_spec ls lead lead' msg op :
  wf_store (store ls) -> CommandValid msg = true -> am_Command msg = Some op ->
  let m := machine_step op (machine_of ls) in
  let ch := default [] (results ls !! CommandIndex msg) in
  exists out, applyOp ls lead lead' msg =
    Ok (if len ch <? 1 then
          Some (mkLockServer (clerkEnds ls) (fst m)
                  (<[CommandIndex msg := ch ++ [op]]> (results ls)) (snd m), out)
        else None).
Proof.
  intros Hw Hv Hc m ch. unfold applyOp. rewrite Hv, Hc. cbn [negb].
  destruct (applyIfFresh_spec ls lead lead' op Hw) as (out & -> & _). exists out. go_run.
  destruct (register_spec (mkLockServer (clerkEnds ls) m.1 (results ls) m.2) (CommandIndex msg))
    as (ch' & E & Hch). unfold m in E. rewrite E. cbn [results] in Hch.
  assert (ch' = ch) as -> by (unfold ch; destruct Hch as [->|[-> ->]]; done).
  unfold set_channel. cbn [clerkEnds store results ls_lastApplied]. rewrite insert_insert_eq.
  by destruct (len ch <? 1).
Qed.

Lemma rt_inv_init ends : rt_inv (rt_init ends).
Proof.
  constructor; simpl.
  - apply map_Forall_empty.
  - done.
  - intros idx ch. by rewrite lookup_empty.
  - by intros op ?%elem_of_nil.
Qed.

(** The invariant is about the replica only through these four parts. *)
Lemma rt_inv_reply rt op ok w :
  rt_inv rt ->
  (ok = true -> exists o, o ∈ commands (rt_applied rt) /\ req o = req op) ->
  rt_inv (mkRuntime (rt_ls rt) w (rt_replies rt ++ [(op, mutexReply ok)]) (rt_applied rt)).
Proof.
  intros [] Hok. constructor; try done. simpl.
  intros o [Ho|Ho%list_elem_of_singleton]%elem_of_app; [by apply rt_acks0|].
  injection Ho as -> E. apply Hok. by destruct ok.
Qed.

Lemma rt_inv_channel rt w idx ch :
  rt_inv rt -> (length ch <= 1)%nat ->
  (forall op, op ∈ ch -> exists m, m ∈ rt_applied rt /\
      CommandValid m = true /\ am_Command m = Some op /\ CommandIndex m = idx) ->
  rt_inv (mkRuntime (set_channel (rt_ls rt) idx ch) w (rt_replies rt) (rt_applied rt)).
Proof.
  intros [] Hlen Hch. constructor; try done. simpl.
  intros idx' ch' [[<- <-]|[? ?]]%lookup_insert_Some; [done|by apply rt_chan0].
Qed.

Lemma elem_of_commands m op msgs :
  m ∈ msgs -> CommandValid m = true -> am_Command m = Some op -> op ∈ commands msgs.
Proof. intros Hm Hv Hc. apply list_elem_of_omap. exists m. by rewrite Hv. Qed.

Lemma commands_mono op msgs m : op ∈ commands msgs -> op ∈ commands (msgs ++ [m]).
Proof. intros ?. rewrite commands_snoc. apply elem_of_app. by left. Qed.

Lemma rt_inv_apply rt lead lead' msg ls out :
  rt_inv rt -> applyOp (rt_ls rt) lead lead' msg = Ok (Some (ls, out)) ->
  rt_inv (mkRuntime ls (rt_waiting rt) (rt_replies rt) (rt_applied rt ++ [msg])).
Proof.
  intros [Hwf Hm Hch Hak] HR.
  assert (forall idx ch, results (rt_ls rt) !! idx = Some ch -> (length ch <= 1)%nat /\
    forall op, op ∈ ch -> exists m, m ∈ rt_applied rt ++ [msg] /\
      CommandValid m = true /\ am_Command m = Some op /\ CommandIndex m = idx) as Hch'.
  { intros idx ch E. destruct (Hch idx ch E) as [? Hin]. split; [done|]. intros op Hop.
    destruct (Hin op Hop) as (m & ? & ?). exists m. split; [apply elem_of_app; by left|done]. }
  assert (forall op, (op, OK) ∈ rt_replies rt ->
    exists o, o ∈ commands (rt_applied rt ++ [msg]) /\ req o = req op) as Hak'.
  { intros op Hop. destruct (Hak op Hop) as (o & ? & ?). exists o. by auto using commands_mono. }
  destruct (CommandValid msg) eqn:Hv; cycle 1.
  { unfold applyOp in HR. rewrite Hv in HR. simpl in HR. injection HR as <- <-.
    constructor; try done. simpl. by rewrite commands_snoc, Hv, app_nil_r. }
  destruct (am_Command msg) as [op|] eqn:Hc; cycle 1.
  { unfold applyOp in HR. by rewrite Hv, Hc in HR. }
  destruct (applyOp_spec (rt_ls rt) lead lead' msg op Hwf Hv Hc) as (out' & E).
  rewrite E in HR. clear E.
  destruct (Z.ltb_spec (len (default [] (results (rt_ls rt) !! CommandIndex msg))) 1)
    as [Hlt|]; [|done].
  injection HR as <- <-. constructor; simpl.
  - by apply machine_step_wf.
  - rewrite commands_snoc, Hv, Hc. simpl. rewrite machine_run_snoc, <- Hm.
    unfold machine_of. simpl. by destruct (machine_step op _).
  - intros idx ch [[<- <-]|[? ?]]%lookup_insert_Some; [|by apply Hch'].
    destruct (default [] _) as [|x l]; simpl; [|rewrite len_cons in Hlt; pose proof (len_nonneg l); lia].
    split; [lia|]. intros o ->%list_elem_of_singleton. exists msg.
    split; [apply elem_of_app; right; by apply list_elem_of_singleton|done].
  - done.
Qed.

Lemma rt_inv_step l rt rt' : rt_inv rt -> rt_step l rt = Some (Ok rt') -> rt_inv rt'.
Proof.
  intros Hi Hst. destruct l as [args|args idx|k|k|lead lead' msg]; cbn [rt_step] in Hst.
  - injection Hst as <-. by apply (rt_inv_reply _ _ false).
  - destruct (register_spec (rt_ls rt) idx) as (ch & E & Hch). rewrite E in Hst.
    injection Hst as <-. apply (rt_inv_channel rt _ idx ch); [done|..].
    + destruct Hch as [Hch|[_ ->]]; [|simpl; lia]. by apply (rt_chan rt Hi) in Hch as [? _].
    + destruct Hch as [Hch|[_ ->]]; [|by intros ? ?%elem_of_nil].
      by apply (rt_chan rt Hi) in Hch as [_ ?].
  - apply bind_Some in Hst as ([idx op] & Hk & Hst). apply bind_Some in Hst as (ch & Hc & Hst).
    destruct ch as [|a ch]; [done|]. injection Hst as <-.
    destruct (rt_chan rt Hi _ _ Hc) as [Hlen Hin]. simpl in Hlen.
    apply (rt_inv_reply (mkRuntime (set_channel (rt_ls rt) idx ch) [] _ _)).
    + apply rt_inv_channel; [done|lia|]. intros o Ho. apply Hin. by right.
    + intros Hsame%isSameOp_req. destruct (Hin a) as (m & Hm & Hv & Ha & _); [left|].
      exists a. split; [|done]. by eapply elem_of_commands.
  - apply bind_Some in Hst as ([idx op] & Hk & Hst). injection Hst as <-. by apply (rt_inv_reply _ _ false).
  - destruct (applyOp (rt_ls rt) lead lead' msg) as [[[ls out]|]|p] eqn:E; [|done|done].
    injection Hst as <-. by eapply rt_inv_apply.
Qed.

Lemma rt_reach_inv ends rt : rt_reach ends rt -> rt_inv rt.
Proof. induction 1; [apply rt_inv_init|by eapply rt_inv_step]. Qed.

(** ** Replication *)

(** A replica computes the replicated state machine.  Whatever its
    handlers do and whoever leads, a replica that does not panic has the
    table and the duplicate filter that the pure state machine computes from
    the commands it received; so replicas that received the same commands
    are in the same state. *)
Theorem replica_refines_machine ends rt :
  rt_reach ends rt -> machine_of (rt_ls rt) = machine_run (commands (rt_applied rt)).
Proof. intros Hr%rt_reach_inv. by apply rt_machine. Qed.

(** An acknowledged request was applied.  When [Mutex] has answered OK,
    the replica has taken a command of that client and request id from the
    log, and its filter drops every later copy of the request. *)
Theorem ack_implies_applied ends rt op :
  rt_reach ends rt -> (op, OK) ∈ rt_replies rt ->
  (exists o, o ∈ commands (rt_applied rt) /\ isSameOp op o = true) /\
  is_fresh (rt_ls rt) op = false.
Proof.
  intros Hi%rt_reach_inv Hop. destruct (rt_acks rt Hi op Hop) as (o & Ho & E). split.
  - exists o. split; [done|]. by apply isSameOp_req.
  - destruct (machine_run_covers _ _ Ho) as (r & Hr & Hle).
    rewrite <- (rt_machine rt Hi) in Hr. injection E as Ec Eq.
    unfold is_fresh. simpl in Hr. rewrite <- Ec, <- Eq, Hr. by apply Z.ltb_ge.
Qed.

(** The apply loop does not block on a result channel.  If the messages
    a replica received have pairwise different indices and the next one is
    new, as a Raft peer's are, and each carries a command, then the next
    iteration neither panics nor blocks sending to the handler's channel. *)
Theorem apply_loop_proceeds ends rt lead lead' msg op :
  rt_reach ends rt -> CommandValid msg = true -> am_Command msg = Some op ->
  CommandIndex msg ∉ CommandIndex <$> rt_applied rt ->
  exists ls out, applyOp (rt_ls rt) lead lead' msg = Ok (Some (ls, out)).
Proof.
  intros Hi%rt_reach_inv Hv Hc Hnew.
  destruct (applyOp_spec (rt_ls rt) lead lead' msg op (rt_wf rt Hi) Hv Hc) as (out & ->).
  destruct (results (rt_ls rt) !! CommandIndex msg) as [ch|] eqn:E; simpl; [|by eexists _, _].
  destruct (rt_chan rt Hi _ _ E) as [_ Hin]. destruct ch as [|o ch]; [by eexists _, _|].
  destruct (Hin o) as (m & Hm & _ & _ & Em); [left|]. exfalso. apply Hnew.
  rewrite <- Em. by apply list_elem_of_fmap_2.
Qed.

(** ** Exactly once *)

(** Without the filter: every command changes the table. *)
Definition plain_run (ops : list Op) : gmap string (list Z) :=
  foldl (fun st op => op_on_store op st) ∅ ops.

(** The log with the repetitions of a request removed. *)
Fixpoint first_requests (seen : list (Z * Z)) (ops : list Op) : list Op :=
  match ops with
  | [] => []
  | o :: ops =>
    if decide (req o ∈ seen) then first_requests seen ops
    else o :: first_requests (req o :: seen) ops
  end.

Lemma first_requests_snoc seen ops o :
  first_requests seen (ops ++ [o]) =
  first_requests seen ops ++ (if decide (req o ∈ seen ++ (req <$> ops)) then [] else [o]).
Proof.
  revert seen. induction ops as [|x ops IH]; intros seen; simpl.
  { rewrite app_nil_r. by case_decide. }
  case_decide as Hx; rewrite IH; simpl; f_equal; [|f_equal]; apply decide_ext.
  - rewrite !elem_of_app, elem_of_cons.
    assert (req o = req x -> req o ∈ seen) by (by intros ->). tauto.
  - rewrite elem_of_cons, !elem_of_app, elem_of_cons. tauto.
Qed.

(** The order in which clients that wait for one request before they send
    the next put their commands in the log: before a command, all smaller
    requests of its client that occur at all have occurred. *)
Definition clients_sequential (ops : list Op) : Prop :=
  forall i j o o', ops !! i = Some o' -> ops !! j = Some o -> (i < j)%nat ->
    op_ClientId o = op_ClientId o' -> op_RequestId o < op_RequestId o' ->
    req o ∈ req <$> take i ops.

Lemma clients_sequential_app ops k : clients_sequential (ops ++ k) -> clients_sequential ops.
Proof.
  intros Hs i j o o' Hi Hj Hlt Hc Hr.
  specialize (Hs i j o o'). rewrite !lookup_app_l in Hs by (by eapply lookup_lt_Some).
  specialize (Hs Hi Hj Hlt Hc Hr). rewrite take_app_le in Hs; [done|].
  apply lookup_lt_Some in Hi. lia.
Qed.

(** The filter admits a command exactly when its request is new. *)
Lemma fresh_iff_new ops op :
  clients_sequential (ops ++ [op]) ->
  match snd (machine_run ops) !! op_ClientId op with
  | None => true | Some r => r <? op_RequestId op end = bool_decide (req op ∉ req <$> ops).
Proof.
  intros Hs. pose proof (machine_run_tracks ops (op_ClientId op)) as Ht.
  destruct (snd (machine_run ops) !! op_ClientId op) as [r|]; symmetry.
  - destruct Ht as [Hin Hmax]. destruct (Z.ltb_spec r (op_RequestId op)) as [Hlt|Hge].
    + apply bool_decide_eq_true. intros (o & E & Ho)%list_elem_of_fmap_1.
      injection E as Ec Er. specialize (Hmax o Ho). lia.
    + apply bool_decide_eq_false. intros Hnew. apply Hnew.
      destruct (decide (r = op_RequestId op)) as [->|Hne]; [done|].
      apply list_elem_of_fmap_1 in Hin as (o' & E & [i Hi]%list_elem_of_lookup).
      injection E as Ec Er.
      assert (req op ∈ req <$> take i (ops ++ [op])) as Hocc.
      { apply (Hs i (length ops) op o'); [by apply lookup_app_l_Some| |by eapply lookup_lt_Some
          |done|lia]. by rewrite lookup_app_r, Nat.sub_diag by lia. }
      rewrite take_app_le in Hocc by (apply lookup_lt_Some in Hi; lia).
      apply list_elem_of_fmap_1 in Hocc as (x & -> & Hx%elem_of_take). apply list_elem_of_fmap_2.
      destruct Hx as (k & Hx & _). by eapply list_elem_of_lookup_2.
  - apply bool_decide_eq_true. intros (o & E & Ho)%list_elem_of_fmap_1.
    injection E as Ec Er. by apply Ht in Ho.
Qed.

(** If clients send one request at a time, the table a replica computes from
    the log is the one obtained by applying each request once, at its first
    occurrence. *)
Lemma machine_run_once ops :
  clients_sequential ops -> fst (machine_run ops) = plain_run (first_requests [] ops).
Proof.
  induction ops as [|op ops IH] using rev_ind; intros Hs; [done|].
  specialize (IH (clients_sequential_app _ _ Hs)). pose proof (fresh_iff_new ops op Hs) as Hf.
  rewrite machine_run_snoc, first_requests_snoc. simpl.
  destruct (machine_run ops) as [st la]. simpl in *. unfold machine_step. rewrite Hf.
  case_decide as Hin.
  - rewrite bool_decide_eq_false_2 by naive_solver. simpl. by rewrite app_nil_r.
  - rewrite bool_decide_eq_true_2 by done. simpl. unfold plain_run in *.
    rewrite foldl_app. simpl. by rewrite <- IH.
Qed.

(** ** Handing a lock over *)

(** [op] gives the lock, in state [x], to [c]: it was free and [c] asked for
    it, or its owner released it and [c] has waited longest. *)
Definition hands_over (x : mutex) (op : Op) (c : Z) : Prop :=
  match x with
  | Free => op_Type op = LockOp /\ op_ClientId op = c
  | Held o w => op_Type op = UnlockOp /\ op_ClientId op = o /\ head w = Some c
  end.

Lemma abs_op_on_store op st :
  wf_store st ->
  abs (op_on_store op st) (op_Key op) =
  (if op_Type op =? LockOp then spec_lock (op_ClientId op) (abs st (op_Key op))
   else if op_Type op =? UnlockOp then spec_unlock (op_ClientId op) (abs st (op_Key op))
   else abs st (op_Key op)).
Proof.
  intros Hw. unfold op_on_store. repeat case_match; [| |done].
  - by rewrite lock_abs, decide_True.
  - by rewrite unlock_abs, decide_True.
Qed.

(** A held lock is not held by two clients of its queue. *)
Lemma abs_NoDup (st : gmap string (list Z)) key o w :
  wf_store st -> abs st key = Held o w -> o ∉ w.
Proof.
  intros Hw%(wf_at_key _ key) E. unfold abs in E. destruct (at_key st key); [done|].
  injection E as -> ->. by apply NoDup_cons in Hw as [? _].
Qed.

Lemma owner_change op st c :
  wf_store st -> c <> 0 ->
  (owner_of (op_on_store op st) (op_Key op) = c /\ owner_of st (op_Key op) <> c) <->
  hands_over (abs st (op_Key op)) op c.
Proof.
  intros Hw Hc. unfold owner_of. rewrite abs_op_on_store by done.
  destruct (abs st (op_Key op)) as [|o w] eqn:Ex; simpl.
  - destruct (Z.eqb_spec (op_Type op) LockOp) as [|Hl]; simpl.
    + split; [by intros [? _]|]. intros [_ ?]. split; [done|congruence].
    + replace (fst (spec_owner 0 (if op_Type op =? UnlockOp then Free else Free))) with 0
        by (by destruct (op_Type op =? UnlockOp)). naive_solver.
  - pose proof (abs_NoDup _ _ _ _ Hw Ex) as Hnd.
    destruct (Z.eqb_spec (op_Type op) LockOp) as [El|Hl]; simpl.
    { split; [case_decide; naive_solver|]. intros [E _]. by rewrite El in E. }
    destruct (Z.eqb_spec (op_Type op) UnlockOp) as [Eu|Hu]; simpl; [|naive_solver].
    destruct (decide (op_ClientId op = o)) as [Eo|Ho]; simpl; [|naive_solver].
    destruct w as [|c' w]; simpl; [naive_solver|].
    rewrite not_elem_of_cons in Hnd. naive_solver.
Qed.

(** Notifications.  A replica tells client [c] that it now owns a key
    exactly when it leads, it knows the client, and the command hands the
    lock over to [c]: the key was free and [c] asked for it, or its owner
    released it and [c] is the longest waiter; the table then has [c] as
    the owner.  Client ids are not 0, the value that stands for no owner. *)
Theorem grant_iff_hands_over ls lead lead' op c key :
  wf_store (store ls) -> c <> 0 ->
  exists ls' out, applyToStateMachine ls lead lead' op = Ok (ls', out) /\
    (CallReceiveLock c key ∈ out <->
       lead = true /\ lead' = true /\ c ∈ clerkEnds ls /\ key = op_Key op /\
       hands_over (abs (store ls) key) op c) /\
    (CallReceiveLock c key ∈ out -> fst (spec_owner 0 (abs (store ls') key)) = c).
Proof.
  intros Hw Hc. rewrite applyToStateMachine_spec by done. eexists _, _. split; [done|].
  pose proof (owner_change op (store ls) c Hw Hc) as Ho.
  assert (CallReceiveLock c key ∈ (if lead then announce (clerkEnds ls) lead' op
      (owner_of (store ls) (op_Key op)) (owner_of (op_on_store op (store ls)) (op_Key op)) else [])
    <-> lead = true /\ lead' = true /\ c ∈ clerkEnds ls /\ key = op_Key op /\
        owner_of (op_on_store op (store ls)) (op_Key op) = c /\
        owner_of (store ls) (op_Key op) <> c) as Hout.
  { destruct lead; [|split; [by intros ?%elem_of_nil|by intros [? _]]].
    unfold announce. rewrite elem_of_cons. case_decide as Hd.
    - rewrite list_elem_of_singleton. destruct Hd as (? & ? & ?). split.
      + intros [?|[= -> ->]]; [done|]. by split_and!.
      + intros (_ & _ & _ & -> & <- & _). by right.
    - rewrite elem_of_nil. split; [by intros [?|?]|].
      intros (_ & ? & ? & _ & ? & ?). exfalso. apply Hd. naive_solver. }
  split.
  - rewrite Hout. split.
    + intros (? & ? & ? & -> & Hch). apply Ho in Hch. by split_and!.
    + intros (? & ? & ? & -> & Hch). apply Ho in Hch as [? ?]. by split_and!.
  - intros (_ & _ & _ & -> & E & _)%Hout. exact E.
Qed.

(** ** Concurrent requests of one client *)

Definition msg_of (idx : Z) (op : Op) : ApplyMsg Op := mkApplyMsg true (Some op) idx.

Fixpoint rt_run (ls : list rt_label) (rt : Runtime) : option (result Runtime) :=
  match ls with
  | [] => Some (Ok rt)
  | l :: ls =>
    r ← rt_step l rt;
    match r with Ok rt => rt_run ls rt | Panic p => Some (Panic p) end
  end.

Lemma rt_run_reach ends ls rt rt' :
  rt_reach ends rt -> rt_run ls rt = Some (Ok rt') -> rt_reach ends rt'.
Proof.
  revert rt. induction ls as [|l ls IH]; intros rt Hr; simpl; [by intros [= <-]|].
  destruct (rt_step l rt) as [[rt1|p]|] eqn:E; simpl; [|done|done].
  apply IH. by eapply rt_reach_step.
Qed.

Definition rt_after (ends : gset Z) (ls : list rt_label) : Runtime :=
  match rt_run ls (rt_init ends) with Some (Ok rt) => rt | _ => rt_init ends end.

Lemma rt_after_reach ends ls : rt_reach ends (rt_after ends ls).
Proof.
  unfold rt_after. destruct (rt_run ls (rt_init ends)) as [[rt|p]|] eqn:E; [|constructor..].
  eapply rt_run_reach; [constructor|done].
Qed.

(** Client 7 holds "k", then releases "k" (request 2) and locks "j" (request
    3) from two goroutines; request 3 is logged first. *)
Definition overtaken_schedule : list rt_label :=
  let lock_k := mkMutexArgs "k" LockOp 7 1 in
  let unlock_k := mkMutexArgs "k" UnlockOp 7 2 in
  let lock_j := mkMutexArgs "j" LockOp 7 3 in
  [ Accepted lock_k 1; Apply true true (msg_of 1 (op_of_args lock_k)); Received 0;
    Accepted lock_j 2; Accepted unlock_k 3;
    Apply true true (msg_of 2 (op_of_args lock_j));
    Apply true true (msg_of 3 (op_of_args unlock_k)); Received 1; Received 0 ].

(** Concurrent requests of one client.  The duplicate filter drops a
    request that a later one of the same client overtook in the log, and
    [Mutex] still answers OK: the client's release of "k" is acknowledged
    and the client still owns "k". *)
Theorem overtaken_request_lost :
  exists rt, rt_reach {[7]} rt /\
    (mkOp UnlockOp "k" 7 2, OK) ∈ rt_replies rt /\
    getLockOwner 0 (store (rt_ls rt)) "k"%string = Ok (7, true).
Proof.
  exists (rt_after {[7]} overtaken_schedule). split; [apply rt_after_reach|]. split.
  - apply list_elem_of_lookup. exists 1%nat. vm_compute. reflexivity.
  - vm_compute. reflexivity.
Qed.

(** ** Witnesses *)

Definition demo_schedule : list rt_label :=
  let a := mkMutexArgs "k" LockOp 7 1 in
  [ Accepted a 1; Apply true true (msg_of 1 (op_of_args a)); Received 0 ].

Definition demo_rt : Runtime := rt_after {[7]} demo_schedule.

Lemma replica_refines_machine_witness :
  machine_of (rt_ls demo_rt) = machine_run [mkOp LockOp "k" 7 1].
Proof. exact (replica_refines_machine {[7]} demo_rt (rt_after_reach _ _)). Defined.

Lemma ack_implies_applied_witness :
  is_fresh (rt_ls demo_rt) (mkOp LockOp "k" 7 1) = false.
Proof.
  refine (proj2 (ack_implies_applied {[7]} demo_rt _ (rt_after_reach _ _) _)).
  apply list_elem_of_lookup. exists 0%nat. vm_compute. reflexivity.
Defined.

Lemma apply_loop_proceeds_witness :
  exists ls out, applyOp (rt_ls demo_rt) true true (msg_of 2 (mkOp UnlockOp "k" 7 2))
                 = Ok (Some (ls, out)).
Proof.
  apply (apply_loop_proceeds {[7]} demo_rt true true _ (mkOp UnlockOp "k" 7 2));
    [apply rt_after_reach|reflexivity|reflexivity|].
  change (2 ∉ [1]). set_solver.
Defined.

Lemma grant_iff_hands_over_witness :
  exists ls' out,
    applyToStateMachine (mkLockServer {[12]} demo_store ∅ ∅) true true
      (mkOp UnlockOp "k" 11 1) = Ok (ls', out) /\ CallReceiveLock 12 "k" ∈ out.
Proof.
  destruct (grant_iff_hands_over (mkLockServer {[12]} demo_store ∅ ∅) true true
    (mkOp UnlockOp "k" 11 1) 12 "k") as (ls' & out & E & Hg & _);
    [exact demo_store_wf|discriminate|].
  exists ls', out. split; [exact E|]. apply Hg. split_and!; [done|done|set_solver|done|].
  vm_compute. auto.
Defined.
