(* ===== verification/LockClerk.v ===== *)
(** * raft-lock/clerk.go: the clients of the lock service

    [SendMutex] is the loop that tries the servers in turn, with the outcome
    of each [Call()] given by an oracle.  [cl_step] is the system of clients
    that send one request at a time, the log their copies end up in, and the
    acknowledgements the servers give, which the duplicate filter of the
    servers relies on. *)

From Stdlib Require Import ZArith Lia.
From stdpp Require Import base numbers strings gmap list.
From S2P Require Import Prelude RaftNode LockStore LockServer LockTheorems.
Local Open Scope Z_scope.

(** [servers] is the number of end points. *)
Record Clerk := mkClerk {
  ck_servers : nat;
  leaderId : Z;
  ClientID : Z;
  requestId : Z;
}.

Definition MakeClerk (servers : nat) (clientId : Z) : Clerk := mkClerk servers 0 clientId 0.

(** The event a client reports when a server hands it a lock. *)
Definition ReceiveLock (clerk : Clerk) (key : string) : Event :=
  mkEvent AcquireLockOp ClientEvent key (ClientID clerk).

(** The arguments of the next request: [atomic.AddInt64(&ck.requestId, 1)]. *)
Definition nextRequest (ck : Clerk) (key : string) (op : Z) : Clerk * MutexArgs :=
  let reqId := wrap64 (requestId ck + 1) in
  (mkClerk (ck_servers ck) (leaderId ck) (ClientID ck) reqId,
   mkMutexArgs key op (ClientID ck) reqId).

(** [(server + 1) % int32(len(ck.servers))] *)
Definition nextServer (n : nat) (server : Z) : Z :=
  Z.rem (wrap32 (server + 1)) (wrap32 (Z.of_nat n)).

(** [call k server]: what the k-th attempt got, [None] when [Call()] returned
    false and the error string of the reply otherwise. *)
Fixpoint sendLoop (fuel : nat) (n k : nat) (server : Z) (call : nat -> Z -> option string)
    : result Z :=
  match fuel with
  | O => Panic OutOfFuel
  | S fuel =>
    if decide (0 <= server < Z.of_nat n) then
      match call k server with
      | Some err =>
        if bool_decide (err <> ErrWrongLeader) then Ok server
        else sendLoop fuel n (S k) (nextServer n server) call
      | None => sendLoop fuel n (S k) (nextServer n server) call
      end
    else Panic IndexOutOfRange
  end.

Definition SendMutex (fuel : nat) (ck : Clerk) (key : string) (op : Z)
    (call : MutexArgs -> nat -> Z -> option string) : result Clerk :=
  let leader := leaderId ck in
  let '(ck, args) := nextRequest ck key op in
  server ← sendLoop fuel (ck_servers ck) 0 leader (call args);
  Ok (mkClerk (ck_servers ck) server (ClientID ck) (requestId ck)).

Definition Lock (fuel : nat) (ck : Clerk) (key : string) := SendMutex fuel ck key LockOp.
Definition Unlock (fuel : nat) (ck : Clerk) (key : string) := SendMutex fuel ck key UnlockOp.

(** ** The loop finds a server that answers *)

Definition answers (r : option string) : bool :=
  match r with Some err => bool_decide (err <> ErrWrongLeader) | None => false end.

Lemma nextServer_mod n s :
  Z.of_nat n < 2 ^ 31 -> 0 <= s < Z.of_nat n -> nextServer n s = (s + 1) mod Z.of_nat n.
Proof.
  intros Hn Hs. unfold nextServer. rewrite !wrap32_id by lia.
  apply Z.rem_mod_nonneg; lia.
Qed.

Lemma sendLoop_finds n call fuel k s d :
  Z.of_nat n < 2 ^ 31 -> 0 <= s < Z.of_nat n -> (d < fuel)%nat ->
  answers (call (k + d)%nat ((s + Z.of_nat d) mod Z.of_nat n)) = true ->
  exists j, (j <= d)%nat /\
    sendLoop fuel n k s call = Ok ((s + Z.of_nat j) mod Z.of_nat n) /\
    answers (call (k + j)%nat ((s + Z.of_nat j) mod Z.of_nat n)) = true.
Proof.
  intros Hn. revert k s d. induction fuel as [|fuel IH]; intros k s d Hs Hd Ha; [lia|].
  assert ((s + Z.of_nat 0) mod Z.of_nat n = s) as E0
    by (rewrite Z.add_0_r; by apply Z.mod_small).
  cbn [sendLoop]. rewrite decide_True by done.
  destruct (answers (call k s)) eqn:Hnow.
  { exists 0%nat. rewrite E0, Nat.add_0_r. split; [lia|]. split; [|done].
    unfold answers in Hnow. destruct (call k s) as [err|]; [by rewrite Hnow|done]. }
  destruct d as [|d]; [rewrite E0, Nat.add_0_r in Ha; congruence|].
  assert (forall j : nat, ((s + 1) mod Z.of_nat n + Z.of_nat j) mod Z.of_nat n =
    (s + Z.of_nat (S j)) mod Z.of_nat n) as Eshift.
  { intros j. rewrite Zplus_mod_idemp_l. f_equal. lia. }
  destruct (IH (S k) ((s + 1) mod Z.of_nat n) d) as (j & Hj & Hrun & Haj).
  - apply Z.mod_pos_bound. lia.
  - lia.
  - rewrite Eshift. by replace (S k + d)%nat with (k + S d)%nat by lia.
  - exists (S j). rewrite <- Eshift. replace (k + S j)%nat with (S k + j)%nat by lia.
    split; [lia|]. split; [|done]. rewrite <- Hrun, nextServer_mod by done.
    unfold answers in Hnow. destruct (call k s) as [err|]; [by rewrite Hnow|done].
Qed.

(** A request reaches a server that answers.  If one of the servers
    answers every attempt, [SendMutex] returns after at most as many
    attempts as there are servers, never indexing out of range, with the
    server that answered as the one to try first next time, and with the
    next request id. *)
Theorem send_mutex_returns ck key op call j :
  0 <= leaderId ck < Z.of_nat (ck_servers ck) -> Z.of_nat (ck_servers ck) < 2 ^ 31 ->
  0 <= j < Z.of_nat (ck_servers ck) ->
  (forall args k, answers (call args k j) = true) ->
  exists ck', SendMutex (ck_servers ck) ck key op call = Ok ck' /\
    0 <= leaderId ck' < Z.of_nat (ck_servers ck') /\
    ck_servers ck' = ck_servers ck /\ requestId ck' = wrap64 (requestId ck + 1) /\
    exists k, (k < ck_servers ck)%nat /\
      answers (call (mkMutexArgs key op (ClientID ck) (requestId ck')) k (leaderId ck')) = true.
Proof.
  intros Hl Hn Hj Hans. set (n := Z.of_nat (ck_servers ck)) in *.
  set (d := (j - leaderId ck) mod n).
  assert (0 <= d < n) as Hd by (apply Z.mod_pos_bound; lia).
  assert ((leaderId ck + Z.of_nat (Z.to_nat d)) mod n = j) as Ej.
  { rewrite Z2Nat.id by lia. unfold d. rewrite Zplus_mod_idemp_r.
    replace (leaderId ck + (j - leaderId ck)) with j by lia. by apply Z.mod_small. }
  unfold SendMutex, nextRequest. cbn [ck_servers].
  destruct (sendLoop_finds (ck_servers ck)
    (call (mkMutexArgs key op (ClientID ck) (wrap64 (requestId ck + 1))))
    (ck_servers ck) 0 (leaderId ck) (Z.to_nat d)) as (i & Hi & -> & Ha).
  - done.
  - done.
  - lia.
  - fold n. rewrite Ej. apply Hans.
  - go_run. eexists. split; [done|]. cbn [leaderId ck_servers requestId ClientID].
    split; [apply Z.mod_pos_bound; lia|]. split; [done|]. split; [done|].
    exists i. split; [lia|done].
Qed.

Lemma send_mutex_returns_witness :
  exists ck', SendMutex 3 (mkClerk 3 2 7 0) "k" LockOp
      (fun _ _ s => if s =? 1 then Some OK else Some ErrWrongLeader) = Ok ck' /\
    requestId ck' = 1.
Proof.
  destruct (send_mutex_returns (mkClerk 3 2 7 0) "k" LockOp
    (fun _ _ s => if s =? 1 then Some OK else Some ErrWrongLeader) 1)
    as (ck' & E & _ & _ & Hr & _); [simpl; lia|simpl; lia|simpl; lia|reflexivity|].
  exists ck'. split; [exact E|exact Hr].
Defined.

(** ** Clients that send one request at a time *)

(** The clients, the request each is sending, all requests sent so far (a
    copy of any of them may still enter the log), and the log. *)
Record Clients := mkClients {
  clerks : gmap Z Clerk;
  sending : gmap Z Op;
  sent : list Op;
  agreed : list Op;
}.

Inductive cl_label :=
| Issue (c : Z) (key : string) (ty : Z)   (* SendMutex is called *)
| Agree (op : Op)                         (* a copy enters the log *)
| Done (c : Z).                           (* SendMutex returns: a server answered OK *)

(** A server answers OK only after a command of that client and request id
    came out of the log. *)
Definition cl_step (l : cl_label) (cs : Clients) : option Clients :=
  match l with
  | Issue c key ty =>
    ck ← clerks cs !! c;
    if decide (sending cs !! c = None /\ requestId ck < 2 ^ 63 - 1) then
      let '(ck, args) := nextRequest ck key ty in
      let op := op_of_args args in
      Some (mkClients (<[c := ck]> (clerks cs)) (<[c := op]> (sending cs))
              (sent cs ++ [op]) (agreed cs))
    else None
  | Agree op =>
    if decide (op ∈ sent cs) then
      Some (mkClients (clerks cs) (sending cs) (sent cs) (agreed cs ++ [op]))
    else None
  | Done c =>
    op ← sending cs !! c;
    if decide (req op ∈ req <$> agreed cs) then
      Some (mkClients (clerks cs) (delete c (sending cs)) (sent cs) (agreed cs))
    else None
  end.

Definition cl_init (ids : gset Z) (servers : nat) : Clients :=
  mkClients (set_to_map (fun c => (c, MakeClerk servers c)) ids) ∅ [] [].

Inductive cl_reach (ids : gset Z) (servers : nat) : Clients -> Prop :=
| cl_reach_init : cl_reach ids servers (cl_init ids servers)
| cl_reach_step cs l cs' :
    cl_reach ids servers cs -> cl_step l cs = Some cs' -> cl_reach ids servers cs'.

Record cl_inv (cs : Clients) : Prop := {
  cl_ids : forall c ck, clerks cs !! c = Some ck -> ClientID ck = c /\ 0 <= requestId ck < 2 ^ 63;
  cl_agreed : forall o, o ∈ agreed cs -> o ∈ sent cs;
  cl_sent : forall o, o ∈ sent cs -> exists ck, clerks cs !! op_ClientId o = Some ck /\
    1 <= op_RequestId o <= requestId ck /\
    (req o ∈ req <$> agreed cs \/
     op_RequestId o = requestId ck /\ sending cs !! op_ClientId o = Some o);
  cl_before : forall i o' o, agreed cs !! i = Some o' -> o ∈ sent cs ->
    op_ClientId o = op_ClientId o' -> op_RequestId o < op_RequestId o' ->
    req o ∈ req <$> take i (agreed cs);
}.

Lemma cl_inv_init ids servers : cl_inv (cl_init ids servers).
Proof.
  constructor; simpl; try (by intros ? ?%elem_of_nil); [|done].
  intros c ck E. apply lookup_set_to_map in E as (x & _ & [= -> <-]); [|done]. by simpl.
Qed.

Lemma cl_inv_issue cs c key ty cs' :
  cl_inv cs -> cl_step (Issue c key ty) cs = Some cs' -> cl_inv cs'.
Proof.
  intros [Hids Hag Hsent Hbef] Hst. cbn [cl_step] in Hst.
  apply bind_Some in Hst as (ck & Hck & Hst). case_decide as Hd; [|done].
  destruct Hd as [Hfree Hmax]. destruct (Hids c ck Hck) as [Ec Hr]. unfold nextRequest in Hst.
  rewrite wrap64_id in Hst by (unfold in_int64; lia). injection Hst as <-. rewrite Ec.
  set (op := op_of_args _). constructor; simpl.
  - intros c' ck' [[<- <-]|[_ ?]]%lookup_insert_Some; [simpl; split; [done|lia]|by apply Hids].
  - intros o Ho. apply elem_of_app. left. by apply Hag.
  - intros o [Ho| ->%list_elem_of_singleton]%elem_of_app.
    + destruct (Hsent o Ho) as (ck' & Hck' & Hle & Hcase).
      destruct (decide (op_ClientId o = c)) as [E|Hne].
      * rewrite E in *. simplify_eq. rewrite !lookup_insert_eq. eexists. split; [done|].
        simpl. split; [lia|]. left. destruct Hcase as [|[_ ?]]; [done|congruence].
      * rewrite !lookup_insert_ne by done. by exists ck'.
    + simpl. rewrite !lookup_insert_eq. eexists. split; [done|]. simpl. split; [lia|]. by right.
  - intros i o' o Hi [Ho| ->%list_elem_of_singleton]%elem_of_app Hc Hlt; [by eapply Hbef|].
    simpl in *. apply list_elem_of_lookup_2, Hag in Hi.
    destruct (Hsent o' Hi) as (ck' & Hck' & Hle & _). rewrite <- Hc in Hck'. simplify_eq. lia.
Qed.

Lemma cl_inv_agree cs op cs' : cl_inv cs -> cl_step (Agree op) cs = Some cs' -> cl_inv cs'.
Proof.
  intros [Hids Hag Hsent Hbef] Hst. cbn [cl_step] in Hst. case_decide as Hop; [|done].
  injection Hst as <-. constructor; simpl; [done| | |].
  - intros o [Ho| ->%list_elem_of_singleton]%elem_of_app; [by apply Hag|done].
  - intros o Ho. destruct (Hsent o Ho) as (ck & Hck & Hle & Hcase). exists ck.
    split_and!; [done|lia|lia|]. destruct Hcase; [left|by right].
    rewrite fmap_app. apply elem_of_app. by left.
  - intros i o' o Hi Ho Hc Hlt. apply lookup_app_Some in Hi as [Hi|[Hi Hx]].
    + rewrite take_app_le by (apply lookup_lt_Some in Hi; lia). by eapply Hbef.
    + apply list_lookup_singleton_Some in Hx as [Hx <-].
      assert (i = length (agreed cs)) as -> by lia. rewrite take_app_length.
      destruct (Hsent o Ho) as (ck & Hck & _ & Hcase).
      destruct (Hsent op Hop) as (ck' & Hck' & Hle & _).
      rewrite Hc in Hck. simplify_eq. destruct Hcase as [|[? _]]; [done|lia].
Qed.

Lemma cl_inv_done cs c cs' : cl_inv cs -> cl_step (Done c) cs = Some cs' -> cl_inv cs'.
Proof.
  intros [Hids Hag Hsent Hbef] Hst. cbn [cl_step] in Hst.
  apply bind_Some in Hst as (op & Hop & Hst). case_decide as Hin; [|done].
  injection Hst as <-. constructor; simpl; [done|done| |done].
  intros o Ho. destruct (Hsent o Ho) as (ck & Hck & Hle & Hcase). exists ck.
  split_and!; [done|lia|lia|]. destruct Hcase as [|[Hr Hs]]; [by left|].
  destruct (decide (op_ClientId o = c)) as [<-|]; [left; congruence|].
  right. by rewrite lookup_delete_ne.
Qed.

Lemma cl_reach_inv ids servers cs : cl_reach ids servers cs -> cl_inv cs.
Proof.
  induction 1 as [|cs [c key ty|op|c] cs' _ IH Hst].
  - apply cl_inv_init.
  - by eapply cl_inv_issue.
  - by eapply cl_inv_agree.
  - by eapply cl_inv_done.
Qed.

Lemma cl_inv_sequential cs : cl_inv cs -> clients_sequential (agreed cs).
Proof.
  intros Hi i j o o' Ho' Ho _ Hc Hlt.
  eapply cl_before; [done|done| |done|done]. apply (cl_agreed cs Hi).
  by eapply list_elem_of_lookup_2.
Qed.

(** Exactly once.  When every client sends one request at a time, then
    however many copies of a request the retries put in the log and however
    late they come, the table a replica computes from the log is the one
    obtained by applying each request once, at its first occurrence. *)
Theorem requests_applied_once ids servers cs :
  cl_reach ids servers cs ->
  fst (machine_run (agreed cs)) = plain_run (first_requests [] (agreed cs)).
Proof. intros Hr%cl_reach_inv. by apply machine_run_once, cl_inv_sequential. Qed.

Fixpoint cl_run (ls : list cl_label) (cs : Clients) : option Clients :=
  match ls with [] => Some cs | l :: ls => cs ← cl_step l cs; cl_run ls cs end.

Lemma cl_run_reach ids servers ls cs cs' :
  cl_reach ids servers cs -> cl_run ls cs = Some cs' -> cl_reach ids servers cs'.
Proof.
  revert cs. induction ls as [|l ls IH]; intros cs Hr; simpl; [by intros [= <-]|].
  destruct (cl_step l cs) as [cs1|] eqn:E; simpl; [|done]. apply IH. by eapply cl_reach_step.
Qed.

(** Client 7 locks and releases "k"; its first request is logged twice and a
    third copy arrives after the second request. *)
Definition retry_schedule : list cl_label :=
  let l := mkOp LockOp "k" 7 1 in
  let u := mkOp UnlockOp "k" 7 2 in
  [Issue 7 "k" LockOp; Agree l; Agree l; Done 7; Issue 7 "k" UnlockOp; Agree u; Agree l].

Lemma requests_applied_once_witness :
  exists cs, cl_run retry_schedule (cl_init {[7]} 3) = Some cs /\
    fst (machine_run (agreed cs)) = plain_run (first_requests [] (agreed cs)) /\
    agreed cs = [mkOp LockOp "k" 7 1; mkOp LockOp "k" 7 1; mkOp UnlockOp "k" 7 2;
                 mkOp LockOp "k" 7 1].
Proof.
  destruct (cl_run retry_schedule (cl_init {[7]} 3)) as [cs|] eqn:E; [|discriminate].
  exists cs. split; [reflexivity|]. split.
  - apply (requests_applied_once {[7]} 3). eapply cl_run_reach; [constructor|exact E].
  - vm_compute in E. injection E as <-. reflexivity.
Defined.
