(* ===== verification/LockSystem.v ===== *)
(** * raft-lock: clerks, lock servers and Raft peers together

    The lock service as a whole: the peers of RaftCluster, a lock server on
    top of each, and clerks whose calls of [Mutex] travel, reach a server,
    start agreement, wait for the channel of their index or a timer, and come
    back or get lost.  A call the clerk has given up goes on at its server,
    so that requests arrive late and more than once.  [sys_step] has every
    step but a crash; [sys_reach] are the executions in which the peers'
    steps are [orderly], as in RaftStateMachine. *)

From Stdlib Require Import ZArith Lia.
From stdpp Require Import base numbers strings gmap list.
From S2P Require Import Prelude RaftNode RaftCluster LockStore LockServer LockTheorems LockClerk.
Local Open Scope Z_scope.

(** ** Calls of Mutex *)

(** Where a call is: on its way; after [rf.Start] returned an index; in the
    select of [waitForApplied]; [Mutex] has returned. *)
Inductive call_phase :=
| Travelling
| HasIndex (idx : Z)
| InSelect (idx : Z)
| Answered (err : string).

Record Call := mkCall { ca_args : MutexArgs; ca_server : nat; ca_phase : call_phase }.

(** A lock server, and what it has received on [applyCh]. *)
Record Replica := mkReplica { rep : LockServer; taken : list (ApplyMsg Op) }.

(** What the clients see: [Lock] or [Unlock] is called, and returns. *)
Inductive event := Invoked (op : Op) | Completed (op : Op).

(** [Clerk.ReceiveLock] called for a client, with the number of commands the
    server has taken. *)
Record grant := mkGrant { gr_position : nat; gr_client : Z; gr_key : string }.

(** A clerk in [SendMutex] is in its last call. *)
Record System := mkSystem {
  cluster : Cluster Op;
  replicas : list Replica;
  clients : gmap Z (Clerk * option (MutexArgs * nat));
  calls : list Call;
  trace : list event;
  grants : list grant;
}.

Inductive sys_label :=
| Peers (l : label Op)                     (* raft.go, labrpc: any step but Start *)
| CallMutex (c : Z) (key : string) (ty : Z) (* SendMutex is called *)
| Deliver (k : nat)                        (* Mutex runs up to the return of rf.Start *)
| RegisterChannel (k : nat)                (* waitForApplied: ls.results[index] *)
| ReceiveOp (k : nat)                      (* waitForApplied: case opCh *)
| TimeAfter (k : nat)                      (* waitForApplied: case time.After *)
| Take (j : nat) (lead lead' : bool)       (* one iteration of applyOpsLoop *)
| CallReturns (c : Z)                      (* ck.servers[server].Call: true *)
| CallFails (c : Z).                       (* ck.servers[server].Call: false *)

Section system.
Context `{Gob Op}.

Definition with_call (k : nat) (ph : call_phase) (ca : Call) (s : System) : System :=
  mkSystem (cluster s) (replicas s) (clients s)
    (<[k := mkCall (ca_args ca) (ca_server ca) ph]> (calls s)) (trace s) (grants s).

Definition with_replica (j : nat) (r : Replica) (s : System) : System :=
  mkSystem (cluster s) (<[j := r]> (replicas s)) (clients s) (calls s) (trace s) (grants s).

(** [ck.servers[server].Call("LockServer.Mutex", &args, &reply)] *)
Definition start_call (c : Z) (ck : Clerk) (args : MutexArgs) (server : Z) (s : System)
    : result System :=
  if decide (0 <= server < Z.of_nat (ck_servers ck)) then
    Ok (mkSystem (cluster s) (replicas s) (<[c := (ck, Some (args, length (calls s)))]> (clients s))
          (calls s ++ [mkCall args (Z.to_nat server) Travelling]) (trace s) (grants s))
  else Panic IndexOutOfRange.

(** [SendMutex] up to its first call. *)
Definition send_mutex (c : Z) (ck : Clerk) (key : string) (ty : Z) (s : System) : result System :=
  let leader := leaderId ck in
  let '(ck, args) := nextRequest ck key ty in
  start_call c ck args leader
    (mkSystem (cluster s) (replicas s) (clients s) (calls s)
       (trace s ++ [Invoked (op_of_args args)]) (grants s)).

(** The loop of [SendMutex] after a call to [server]. *)
Definition after_call (c : Z) (ck : Clerk) (args : MutexArgs) (server : nat) (call : option string)
    (s : System) : result System :=
  let again := start_call c ck args (nextServer (ck_servers ck) (Z.of_nat server)) s in
  match call with
  | Some err =>
    if bool_decide (err <> ErrWrongLeader) then
      Ok (mkSystem (cluster s) (replicas s)
            (<[c := (mkClerk (ck_servers ck) (Z.of_nat server) (ClientID ck) (requestId ck), None)]> (clients s))
            (calls s) (trace s ++ [Completed (op_of_args args)]) (grants s))
    else again
  | None => again
  end.

(** [waitForApplied] up to the return of [rf.Start]. *)
Definition deliver (k : nat) (ca : Call) (s : System) : option (result System) :=
  let op := op_of_args (ca_args ca) in
  peer ← servers (cluster s) !! ca_server ca;
  stepped ← step (ClientStart (ca_server ca) op) (cluster s);
  Some (
    '(_, (index, _, isLeader)) ← Start (rf peer) (Some op);
    cl ← stepped;
    Ok (with_call k (if isLeader : bool then HasIndex index else Answered (mutexReply false)) ca
          (mkSystem cl (replicas s) (clients s) (calls s) (trace s) (grants s)))).

Definition grants_of (position : nat) (out : list output) : list grant :=
  omap (fun o => match o with
                 | CallReceiveLock c key => Some (mkGrant position c key)
                 | SendEvent _ => None
                 end) out.

(** One message from [applyCh]; [lead], [lead'] are what [isLeader()] returns
    at its two calls. *)
Definition take_message (j : nat) (lead lead' : bool) (m : ApplyMsg Op) (r : Replica) (s : System)
    : option (result System) :=
  match applyOp (rep r) lead lead' m with
  | Panic p => Some (Panic p)
  | Ok None => None
  | Ok (Some (ls, out)) =>
    let r := mkReplica ls (taken r ++ [m]) in
    Some (Ok (mkSystem (cluster s) (<[j := r]> (replicas s)) (clients s) (calls s) (trace s)
                (grants s ++ grants_of (length (commands (taken r))) out)))
  end.

Definition sys_step (l : sys_label) (s : System) : option (result System) :=
  match l with
  | Peers (ClientStart _ _) | Peers (Restart _) => None
  | Peers l =>
    r ← step l (cluster s);
    Some (cl ← r; Ok (mkSystem cl (replicas s) (clients s) (calls s) (trace s) (grants s)))
  | CallMutex c key ty =>
    '(ck, doing) ← clients s !! c;
    if decide (doing = None /\ requestId ck < 2 ^ 63 - 1) then Some (send_mutex c ck key ty s)
    else None
  | Deliver k =>
    ca ← calls s !! k;
    match ca_phase ca with Travelling => deliver k ca s | _ => None end
  | RegisterChannel k =>
    ca ← calls s !! k;
    match ca_phase ca with
    | HasIndex idx =>
      r ← replicas s !! ca_server ca;
      let '(ls, _) := register (rep r) idx in
      Some (Ok (with_call k (InSelect idx) ca
                  (with_replica (ca_server ca) (mkReplica ls (taken r)) s)))
    | _ => None
    end
  | ReceiveOp k =>
    ca ← calls s !! k;
    match ca_phase ca with
    | InSelect idx =>
      r ← replicas s !! ca_server ca;
      ch ← results (rep r) !! idx;
      match ch with
      | [] => None
      | appliedOp :: ch =>
        let ok := isSameOp (op_of_args (ca_args ca)) appliedOp in
        Some (Ok (with_call k (Answered (mutexReply ok)) ca
                    (with_replica (ca_server ca) (mkReplica (set_channel (rep r) idx ch) (taken r)) s)))
      end
    | _ => None
    end
  | TimeAfter k =>
    ca ← calls s !! k;
    match ca_phase ca with
    | InSelect idx => Some (Ok (with_call k (Answered (mutexReply false)) ca s))
    | _ => None
    end
  | Take j lead lead' =>
    r ← replicas s !! j;
    peer ← servers (cluster s) !! j;
    m ← applied peer !! length (taken r);
    take_message j lead lead' m r s
  | CallReturns c =>
    '(ck, doing) ← clients s !! c;
    '(args, k) ← doing;
    ca ← calls s !! k;
    match ca_phase ca with
    | Answered err => Some (after_call c ck args (ca_server ca) (Some err) s)
    | _ => None
    end
  | CallFails c =>
    '(ck, doing) ← clients s !! c;
    '(args, k) ← doing;
    ca ← calls s !! k;
    Some (after_call c ck args (ca_server ca) None s)
  end.

(** As [orderly] of RaftCluster, for the steps of the peers. *)
Definition sys_orderly (l : sys_label) (s : System) : bool :=
  match l with Peers l => orderly (cluster s) l | _ => true end.

(** Run a schedule, provided it is orderly. *)
Fixpoint sys_run (ls : list sys_label) (s : System) : option (result System) :=
  match ls with
  | [] => Some (Ok s)
  | l :: ls =>
    if sys_orderly l s then
      r ← sys_step l s;
      match r with Ok s => sys_run ls s | Panic p => Some (Panic p) end
    else None
  end.

(** [n] servers, and a clerk per client, known to the servers; a clerk sends
    one request at a time. *)
Definition sys_init (n : nat) (ids : gset Z) : System :=
  mkSystem (init n) (replicate n (mkReplica (StartLockServer ids) []))
    (set_to_map (fun c => (c, (MakeClerk n c, None))) ids) [] [] [].

(** The states of orderly executions. *)
Inductive sys_reach (n : nat) (ids : gset Z) : System -> Prop :=
| sys_reach_init : sys_reach n ids (sys_init n ids)
| sys_reach_step s l s' :
    sys_reach n ids s -> sys_orderly l s = true -> sys_step l s = Some (Ok s') -> sys_reach n ids s'.

Lemma sys_run_reach n ids ls s s' :
  sys_reach n ids s -> sys_run ls s = Some (Ok s') -> sys_reach n ids s'.
Proof.
  revert s. induction ls as [|l ls IH]; intros s Hs; simpl; [by intros [= <-]|].
  destruct (sys_orderly l s) eqn:Ho; [|done].
  destruct (sys_step l s) as [[s1|p]|] eqn:E; simpl; [|done|done]. apply IH. by eapply sys_reach_step.
Qed.

(** ** The history *)

Definition longest {A} (ls : list (list A)) : list A :=
  foldr (fun l acc => if (length acc <=? length l)%nat then l else acc) [] ls.

(** The commands of the peer that has delivered most. *)
Definition history (c : Cluster Op) : list Op := commands (longest (applied <$> servers c)).

(** The requests that were sent. *)
Definition invoked (tr : list event) : list Op :=
  omap (fun e => match e with Invoked op => Some op | Completed _ => None end) tr.
End system.
