(* ===== verification/LockSystemInv.v ===== *)
(** * raft-lock: the history of the lock service

    What the peers have delivered is one growing history; every command of it
    is a request some clerk sent; the system behaves like the clients of
    LockClerk, whose log is this history. *)

From Stdlib Require Import ZArith Lia.
From stdpp Require Import base numbers strings gmap list.
From S2P Require Import Prelude RaftNode RaftCluster RaftWf RaftHistory RaftStateMachine RaftOrigin.
From S2P Require Import LockStore LockServer LockTheorems LockClerk LockSystem.
Local Open Scope Z_scope.

(** ** The longest of lists that agree *)

Lemma longest_bound {A} (ls : list (list A)) l : l ∈ ls -> (length l <= length (longest ls))%nat.
Proof.
  induction ls as [|x ls IH]; [by intros ?%elem_of_nil|]. simpl.
  intros [->|Hl]%elem_of_cons; destruct (Nat.leb_spec (length (longest ls)) (length x)); try lia.
  - specialize (IH Hl). lia.
  - by apply IH.
Qed.

Lemma longest_in {A} (ls : list (list A)) : longest ls = [] \/ longest ls ∈ ls.
Proof.
  induction ls as [|x ls IH]; [by left|]. simpl.
  destruct (Nat.leb_spec (length (longest ls)) (length x)); [right; left|].
  destruct IH as [->|?]; [by left|right; by right].
Qed.

Section history.
Context `{Gob Op}.
Implicit Types (c : Cluster Op).

(** What a peer delivered is the beginning of what the longest did. *)
Lemma applied_longest n c i s :
  reach n orderly c -> servers c !! i = Some s ->
  applied s `prefix_of` longest (applied <$> servers c).
Proof.
  intros Hr Hi. assert (applied s ∈ applied <$> servers c) as Hin.
  { apply list_elem_of_fmap_2. by eapply list_elem_of_lookup_2. }
  pose proof (longest_bound _ _ Hin) as Hlen.
  destruct (longest_in (applied <$> servers c)) as [E|Hl].
  { rewrite E in *. destruct (applied s); [done|]. simpl in Hlen. lia. }
  apply list_elem_of_fmap in Hl as (s' & El & [j Hj]%list_elem_of_lookup).
  rewrite El in *. by eapply (orderly_history n c i j s s').
Qed.

Lemma commands_prefix ms ms' : ms `prefix_of` ms' -> commands ms `prefix_of` commands ms'.
Proof. intros [k ->]. exists (commands k). unfold commands. apply omap_app. Qed.

(** The history only grows. *)
Lemma history_step n c l c' :
  reach n orderly c -> orderly c l = true -> step l c = Some (Ok c') ->
  history c `prefix_of` history c'.
Proof.
  intros Hr Ho Hst. apply commands_prefix.
  destruct (longest_in (applied <$> servers c)) as [->|Hl]; [apply prefix_nil|].
  apply list_elem_of_fmap in Hl as (s & -> & [i Hi]%list_elem_of_lookup).
  destruct (step_evolves n c l c' i s) as (s' & Hi' & ms & _ & E);
    [by eapply wf_reach|apply fresh_crash_free, (orderly_parts _ _ Ho)|done..|].
  etrans; [|eapply applied_longest, Hi'; by eapply reach_step].
  rewrite E. by apply prefix_app_r.
Qed.

Lemma history_init n : history (init n) = [].
Proof.
  unfold history. destruct (longest_in (applied <$> servers (init (Cmd := Op) n))) as [->|Hl]; [done|].
  apply list_elem_of_fmap in Hl as (s & -> & Hs).
  apply list_elem_of_fmap in Hs as (i & -> & _). done.
Qed.

Lemma history_from P c op : origin P c -> op ∈ history c -> P op.
Proof.
  intros [Hs _] Hop. unfold history in Hop.
  destruct (longest_in (applied <$> servers c)) as [E|Hl]; [by rewrite E in Hop; apply elem_of_nil in Hop|].
  apply list_elem_of_fmap in Hl as (s & E & Hin). rewrite E in Hop.
  apply (proj1 (Forall_forall _ _) Hs) in Hin as [_ Hd].
  apply list_elem_of_omap in Hop as (m & Hm & Ec).
  apply (proj1 (Forall_forall _ _) Hd) in Hm as (x & Ex & Hx).
  destruct (CommandValid m); [|done]. congruence.
Qed.
End history.

(** ** Clients *)

Lemma cl_reach_agree ids n cs ops :
  cl_reach ids n cs -> Forall (fun o => o ∈ sent cs) ops ->
  cl_reach ids n (mkClients (clerks cs) (sending cs) (sent cs) (agreed cs ++ ops)).
Proof.
  intros Hr Hops. revert cs Hr Hops. induction ops as [|op ops IH]; intros cs Hr Hops.
  - rewrite app_nil_r. by destruct cs.
  - apply Forall_cons in Hops as [Hop Hops].
    rewrite (app_assoc (agreed cs) [op] ops : agreed cs ++ op :: ops = _).
    apply (IH (mkClients (clerks cs) (sending cs) (sent cs) (agreed cs ++ [op]))); [|done].
    apply (cl_reach_step _ _ cs (Agree op)); [exact Hr|]. cbn [cl_step]. by rewrite decide_True.
Qed.

(** A request is known by its client and number. *)
Lemma cl_sent_unique ids n cs :
  cl_reach ids n cs -> NoDup (req <$> sent cs).
Proof.
  induction 1 as [|cs l cs' Hr IH Hst]; [constructor|].
  destruct l as [c key ty|op|c]; cbn [cl_step] in Hst.
  - apply bind_Some in Hst as (ck & Hck & Hst). case_decide as Hd; [|done].
    pose proof (cl_reach_inv _ _ _ Hr) as Hi. destruct (cl_ids _ Hi c ck Hck) as [Ec Hrng].
    unfold nextRequest in Hst. rewrite wrap64_id in Hst by (unfold in_int64; lia).
    injection Hst as <-. simpl. rewrite fmap_app. apply NoDup_app. split; [done|].
    split; [|apply NoDup_singleton]. intros q Hq E%list_elem_of_singleton. simpl in E.
    apply list_elem_of_fmap in Hq as (o & -> & Ho). unfold req in E. simpl in E. injection E as E1 E2.
    destruct (cl_sent _ Hi o Ho) as (ck' & Hck' & Hle & _). rewrite E1, Ec in Hck'. simplify_eq. lia.
  - case_decide; [|done]. by injection Hst as <-.
  - apply bind_Some in Hst as (op & Hop & Hst). case_decide; [|done]. by injection Hst as <-.
Qed.

Lemma NoDup_fmap_inj {A B} (f : A -> B) l x y :
  NoDup (f <$> l) -> x ∈ l -> y ∈ l -> f x = f y -> x = y.
Proof.
  induction l as [|z l IH]; [by intros _ ?%elem_of_nil|]. rewrite fmap_cons.
  intros [Hz Hl]%NoDup_cons Hx Hy E.
  apply elem_of_cons in Hx as [->|Hx]; apply elem_of_cons in Hy as [->|Hy]; [done| | |by apply IH].
  - destruct Hz. rewrite E. by apply list_elem_of_fmap_2.
  - destruct Hz. rewrite <- E. by apply list_elem_of_fmap_2.
Qed.

(** ** Completed requests come first *)

(** Every copy of [b] in the history has a copy of [a] before it. *)
Definition behind (h : list Op) (a b : Op) : Prop :=
  forall i o, h !! i = Some o -> req o = req b -> req a ∈ req <$> take i h.

Record trace_ok (tr : list event) (h : list Op) : Prop := {
  tk_completed a : Completed a ∈ tr -> a ∈ invoked tr /\ req a ∈ req <$> h;
  tk_order t1 a t2 b t3 : tr = t1 ++ Completed a :: t2 ++ Invoked b :: t3 -> behind h a b;
}.

Lemma req_app (h k : list Op) q : q ∈ req <$> h -> q ∈ req <$> (h ++ k).
Proof. rewrite fmap_app, elem_of_app. by left. Qed.

Lemma behind_app h k a b : behind h a b -> req a ∈ req <$> h -> behind (h ++ k) a b.
Proof.
  intros Hb Ha i o Hi E. destruct (decide (i < length h)%nat) as [Hlt|Hge].
  - rewrite take_app_le by lia. rewrite lookup_app_l in Hi by done. by eapply Hb.
  - rewrite take_app_ge by lia. by apply req_app.
Qed.

Lemma trace_ok_grow tr h k : trace_ok tr h -> trace_ok tr (h ++ k).
Proof.
  intros [Hc Ho]. split.
  - intros a Ha. destruct (Hc a Ha). split; [done|by apply req_app].
  - intros t1 a t2 b t3 E. apply behind_app; [by eapply Ho|].
    apply Hc. rewrite E. apply elem_of_app. right. left.
Qed.

Lemma invoked_app tr tr' : invoked (tr ++ tr') = invoked tr ++ invoked tr'.
Proof. apply omap_app. Qed.

(** The last of two lists that are equal. *)
Lemma snoc_split {A} (tr : list A) e t1 x t2 y t3 :
  tr ++ [e] = t1 ++ x :: t2 ++ y :: t3 ->
  (t3 = [] /\ y = e /\ tr = t1 ++ x :: t2) \/ exists t3', tr = t1 ++ x :: t2 ++ y :: t3'.
Proof.
  destruct t3 as [|z t3 _] using rev_ind; intros E.
  - left. rewrite app_comm_cons, app_assoc in E. apply app_inj_tail in E as [-> ->]. done.
  - right. exists t3. rewrite app_comm_cons, app_assoc, app_comm_cons, app_assoc in E.
    apply app_inj_tail in E as [-> _]. by rewrite <- app_assoc.
Qed.

Lemma trace_ok_invoke tr h op :
  trace_ok tr h -> req op ∉ req <$> h -> trace_ok (tr ++ [Invoked op]) h.
Proof.
  intros [Hc Ho] Hnew. split.
  - intros a [Ha|[= ]%list_elem_of_singleton]%elem_of_app. destruct (Hc a Ha). split; [|done].
    rewrite invoked_app. apply elem_of_app. by left.
  - intros t1 a t2 b t3 [(-> & [= <-] & E)|[t3' E]]%snoc_split; [|by eapply Ho].
    intros i o Hi E'. destruct Hnew. rewrite <- E'. by eapply list_elem_of_fmap_2, list_elem_of_lookup_2.
Qed.

Lemma trace_ok_complete tr h op :
  trace_ok tr h -> op ∈ invoked tr -> req op ∈ req <$> h -> trace_ok (tr ++ [Completed op]) h.
Proof.
  intros [Hc Ho] Hin Hh.
  assert (invoked (tr ++ [Completed op]) = invoked tr) as E by (rewrite invoked_app; apply app_nil_r).
  split.
  - rewrite E. intros a [Ha|[= ->]%list_elem_of_singleton]%elem_of_app; [by apply Hc|done].
  - intros t1 a t2 b t3 [(_ & [= ] & _)|[t3' E']]%snoc_split. by eapply Ho.
Qed.

(** ** The invariant *)

(** [leaderId] has no part in what the clerks ask for. *)
Definition forget_leader (ck : Clerk) : Clerk := mkClerk (ck_servers ck) 0 (ClientID ck) (requestId ck).

Section invariant.
Context `{Gob Op} (n : nat) (ids : gset Z).
Implicit Types (s : System).

Definition client_map := gmap Z (Clerk * option (MutexArgs * nat)).

Definition abs_clerks (m : client_map) : gmap Z Clerk := (fun x => forget_leader (fst x)) <$> m.
Definition abs_sending (m : client_map) : gmap Z Op :=
  omap (fun x => (fun d => op_of_args (fst d)) <$> snd x) m.

(** The system as the clients of LockClerk. *)
Definition abs_clients s : Clients :=
  mkClients (abs_clerks (clients s)) (abs_sending (clients s)) (invoked (trace s)) (history (cluster s)).

(** What an answer means. *)
Definition answer_ok s (ca : Call) : Prop :=
  forall err, ca_phase ca = Answered err ->
    err = ErrWrongLeader \/ (err = OK /\ req (op_of_args (ca_args ca)) ∈ req <$> history (cluster s)).

(** A grant went to the owner of the lock at its place in the history. *)
Definition grant_ok (h : list Op) (g : grant) : Prop :=
  (gr_position g <= length h)%nat /\
  owner_of (fst (machine_run (take (gr_position g) h))) (gr_key g) = gr_client g.

Record sys_inv s : Prop := {
  si_reach : reach n orderly (cluster s);
  si_origin : origin (fun op => op ∈ invoked (trace s)) (cluster s);
  si_refine : cl_reach ids n (abs_clients s);
  si_size : length (replicas s) = n;
  si_rt j r : replicas s !! j = Some r -> rt_inv (mkRuntime (rep r) [] [] (taken r)) /\
    exists p, servers (cluster s) !! j = Some p /\ taken r `prefix_of` applied p;
  si_calls k ca : calls s !! k = Some ca ->
    (ca_server ca < n)%nat /\ op_of_args (ca_args ca) ∈ invoked (trace s) /\ answer_ok s ca;
  si_clients c ck d : clients s !! c = Some (ck, d) -> ck_servers ck = n /\
    0 <= leaderId ck < Z.of_nat n /\
    forall args k, d = Some (args, k) -> exists ca, calls s !! k = Some ca /\ ca_args ca = args;
  si_trace : trace_ok (trace s) (history (cluster s));
  si_grants : Forall (grant_ok (history (cluster s))) (grants s);
}.

Lemma grant_ok_app h k g : grant_ok h g -> grant_ok (h ++ k) g.
Proof.
  intros [Hp Ho]. split; [rewrite length_app; lia|]. by rewrite take_app_le.
Qed.

Lemma taken_history s j r :
  sys_inv s -> replicas s !! j = Some r -> commands (taken r) `prefix_of` history (cluster s).
Proof.
  intros Hs Hr. destruct (si_rt _ Hs _ _ Hr) as (_ & p & Hp & Hpre). apply commands_prefix.
  etrans; [exact Hpre|]. by eapply applied_longest; [apply Hs|].
Qed.

(** The peers make a step. *)
Lemma inv_cluster s l c' :
  sys_inv s -> orderly (cluster s) l = true -> given (fun op => op ∈ invoked (trace s)) l ->
  step l (cluster s) = Some (Ok c') ->
  sys_inv (mkSystem c' (replicas s) (clients s) (calls s) (trace s) (grants s)).
Proof.
  intros Hs Ho Hg Hst. pose proof (history_step n _ _ _ (si_reach _ Hs) Ho Hst) as [k Hk].
  assert (reach n orderly c') as Hr' by (eapply reach_step; [apply Hs|done|done]).
  pose proof (wf_reach _ _ _ (si_reach _ Hs)) as Hwf.
  assert (origin (fun op => op ∈ invoked (trace s)) c') as Ho' by (eapply origin_step; [done|apply Hs|done|done]).
  assert (Forall (fun o => o ∈ invoked (trace s)) k) as Hnew.
  { apply Forall_forall. intros o Hok. apply (history_from _ c' o Ho'). rewrite Hk. apply elem_of_app. by right. }
  split; simpl; try apply Hs; [done|done| | | | |].
  - unfold abs_clients. simpl. rewrite Hk. by apply (cl_reach_agree ids n (abs_clients s) k); [apply Hs|].
  - intros j r Hj. destruct (si_rt _ Hs _ _ Hj) as (Hi & p & Hp & Hpre). split; [done|].
    destruct (step_evolves n _ _ c' j p Hwf (fresh_crash_free _ _ (proj1 (orderly_parts _ _ Ho))) Hst Hp)
      as (p' & Hp' & ms & _ & E).
    exists p'. split; [done|]. rewrite E. by apply prefix_app_r.
  - intros i ca Hca. destruct (si_calls _ Hs _ _ Hca) as (H1 & H2 & H3). split; [done|]. split; [done|].
    intros err Herr. destruct (H3 err Herr) as [|[? ?]]; [by left|right]. simpl. rewrite Hk.
    split; [done|by apply req_app].
  - rewrite Hk. apply trace_ok_grow, Hs.
  - rewrite Hk. eapply Forall_impl; [apply Hs|]. intros g. apply grant_ok_app.
Qed.

(** A call moves on. *)
Lemma inv_call s k ca ph :
  sys_inv s -> calls s !! k = Some ca -> answer_ok s (mkCall (ca_args ca) (ca_server ca) ph) ->
  sys_inv (with_call k ph ca s).
Proof.
  intros Hs Hk Ha. destruct (si_calls _ Hs _ _ Hk) as (H1 & H2 & _).
  split; simpl; try apply Hs.
  - intros i ca' [(<- & <- & _)|[_ Hi]]%list_lookup_insert_Some; [done|]. by apply (si_calls _ Hs i).
  - intros c ck d Hc. destruct (si_clients _ Hs _ _ _ Hc) as (? & ? & Hd). split; [done|]. split; [done|].
    intros args i E. destruct (Hd args i E) as (ca' & Hi & <-). destruct (decide (i = k)) as [->|Hne].
    + exists (mkCall (ca_args ca) (ca_server ca) ph).
      rewrite list_lookup_insert_eq by (by eapply lookup_lt_Some). by simplify_eq.
    + exists ca'. by rewrite list_lookup_insert_ne.
Qed.

(** A lock server moves on. *)
Lemma inv_replica s j r r' p gs :
  sys_inv s -> replicas s !! j = Some r -> rt_inv (mkRuntime (rep r') [] [] (taken r')) ->
  servers (cluster s) !! j = Some p -> taken r' `prefix_of` applied p ->
  Forall (grant_ok (history (cluster s))) gs ->
  sys_inv (mkSystem (cluster s) (<[j := r']> (replicas s)) (clients s) (calls s) (trace s) (grants s ++ gs)).
Proof.
  intros Hs Hj Hi Hp Hpre Hg. split; simpl; try apply Hs.
  - rewrite length_insert. apply Hs.
  - intros x rx [(<- & <- & _)|[_ Hx]]%list_lookup_insert_Some; [|by apply (si_rt _ Hs)].
    split; [done|]. by exists p.
  - apply Forall_app. split; [apply Hs|done].
Qed.

(** Neither what is being sent nor the clerks but for [leaderId] depend on
    the call. *)
Lemma inv_again s c ck args k server s' :
  sys_inv s -> clients s !! c = Some (ck, Some (args, k)) ->
  start_call c ck args server s = Ok s' -> sys_inv s'.
Proof.
  intros Hs Hc Hst. destruct (si_clients _ Hs _ _ _ Hc) as (Hn & Hl & Hd).
  destruct (Hd args k eq_refl) as (ca & Hca & <-). destruct (si_calls _ Hs _ _ Hca) as (H1 & H2 & _).
  unfold start_call in Hst. case_decide as Hsrv; [|done]. injection Hst as <-.
  split; simpl; try apply Hs.
  - unfold abs_clients. simpl.
    assert (abs_clerks (<[c:=(ck, Some (ca_args ca, length (calls s)))]> (clients s)) = abs_clerks (clients s)) as ->.
    { unfold abs_clerks. rewrite fmap_insert. apply insert_id. by rewrite lookup_fmap, Hc. }
    assert (abs_sending (<[c:=(ck, Some (ca_args ca, length (calls s)))]> (clients s)) = abs_sending (clients s)) as ->.
    { unfold abs_sending. rewrite omap_insert. simpl. apply insert_id. by rewrite lookup_omap, Hc. }
    apply Hs.
  - intros i ca' [Hi|[Hi Hx]]%lookup_app_Some; [by apply (si_calls _ Hs i)|].
    apply list_lookup_singleton_Some in Hx as [_ <-]. simpl. split; [lia|]. split; [done|]. by intros err.
  - intros x ckx d [[<- [= <- <-]]|[_ Hx]]%lookup_insert_Some.
    + split; [done|]. split; [done|]. intros args' k' [= <- <-]. eexists.
      rewrite lookup_app_r, Nat.sub_diag by lia. done.
    + destruct (si_clients _ Hs _ _ _ Hx) as (? & ? & Hdx). split; [done|]. split; [done|].
      intros args' k' E. destruct (Hdx args' k' E) as (ca' & Hca' & E'). exists ca'.
      split; [|done]. by apply lookup_app_l_Some.
Qed.

(** [SendMutex] is called. *)
Lemma inv_send s c ck key ty s' :
  sys_inv s -> clients s !! c = Some (ck, None) -> requestId ck < 2 ^ 63 - 1 ->
  send_mutex c ck key ty s = Ok s' -> sys_inv s'.
Proof.
  intros Hs Hc Hmax Hst. destruct (si_clients _ Hs _ _ _ Hc) as (Hn & Hl & _).
  pose proof (cl_reach_inv _ _ _ (si_refine _ Hs)) as Hcl.
  assert (clerks (abs_clients s) !! c = Some (forget_leader ck)) as Hck by (simpl; unfold abs_clerks; by rewrite lookup_fmap, Hc).
  destruct (cl_ids _ Hcl c _ Hck) as [Ec Hrng]. simpl in Ec, Hrng.
  unfold send_mutex, nextRequest in Hst. rewrite wrap64_id in Hst by (unfold in_int64; lia).
  unfold start_call in Hst. cbn [ck_servers leaderId ClientID requestId cluster replicas clients calls trace grants] in Hst.
  case_decide as Hsrv; [|done]. injection Hst as <-.
  set (args := mkMutexArgs key ty (ClientID ck) (requestId ck + 1)).
  set (ck' := mkClerk (ck_servers ck) (leaderId ck) (ClientID ck) (requestId ck + 1)).
  set (cs := <[c := (ck', Some (args, length (calls s)))]> (clients s)).
  assert (invoked (trace s ++ [Invoked (op_of_args args)]) = invoked (trace s) ++ [op_of_args args]) as Einv
    by apply invoked_app.
  assert (cl_reach ids n (mkClients (abs_clerks cs) (abs_sending cs) (invoked (trace s) ++ [op_of_args args])
    (history (cluster s)))) as Hcl'.
  { apply (cl_reach_step ids n (abs_clients s) (Issue c key ty)); [apply Hs|]. cbn [cl_step].
    rewrite Hck. simpl. rewrite decide_True.
    - unfold nextRequest. simpl. rewrite wrap64_id by (unfold in_int64; lia). do 2 f_equal.
      + unfold abs_clerks, cs. by rewrite fmap_insert.
      + unfold abs_sending, cs. rewrite omap_insert. done.
    - split; [|done]. unfold abs_sending. by rewrite lookup_omap, Hc. }
  assert (req (op_of_args args) ∉ req <$> history (cluster s)) as Hnew.
  { intros (o & E & Ho)%list_elem_of_fmap. unfold req in E. simpl in E. injection E as E1 E2.
    assert (o ∈ sent (abs_clients s)) as Ho' by (by apply (history_from (fun o => o ∈ invoked (trace s)) (cluster s)); [apply Hs|]).
    destruct (cl_sent _ Hcl o Ho') as (ck1 & Hck1 & Hle & _). rewrite <- E1, Ec, Hck in Hck1.
    injection Hck1 as <-. simpl in Hle. lia. }
  split; cbn [cluster replicas clients calls trace grants]; try apply Hs.
  - eapply origin_impl; [|apply Hs]. intros x Hx. simpl. rewrite Einv. apply elem_of_app. by left.
  - unfold abs_clients. cbn [cluster clients trace]. by rewrite Einv.
  - intros i ca [Hi|[Hi Hx]]%lookup_app_Some.
    + destruct (si_calls _ Hs _ _ Hi) as (H1 & H2 & H3). split; [done|]. split; [|done].
      rewrite Einv. apply elem_of_app. by left.
    + apply list_lookup_singleton_Some in Hx as [_ <-]. cbn [ca_server ca_args].
      split; [lia|]. split; [|by intros err]. rewrite Einv. apply elem_of_app. right. left.
  - intros x ckx d [[<- [= <- <-]]|[_ Hx]]%lookup_insert_Some.
    + split; [done|]. split; [done|]. intros args' k' [= <- <-]. eexists.
      rewrite lookup_app_r, Nat.sub_diag by lia. done.
    + destruct (si_clients _ Hs _ _ _ Hx) as (? & ? & Hdx). split; [done|]. split; [done|].
      intros args' k' E. destruct (Hdx args' k' E) as (ca' & Hca' & E'). exists ca'.
      split; [|done]. by apply lookup_app_l_Some.
  - apply trace_ok_invoke; [apply Hs|done].
Qed.

(** [SendMutex] returns. *)
Lemma inv_complete s c ck args k ca :
  sys_inv s -> clients s !! c = Some (ck, Some (args, k)) -> calls s !! k = Some ca ->
  ca_phase ca = Answered OK ->
  sys_inv (mkSystem (cluster s) (replicas s)
    (<[c := (mkClerk (ck_servers ck) (Z.of_nat (ca_server ca)) (ClientID ck) (requestId ck), None)]> (clients s))
    (calls s) (trace s ++ [Completed (op_of_args args)]) (grants s)).
Proof.
  intros Hs Hc Hk Hph. destruct (si_clients _ Hs _ _ _ Hc) as (Hn & Hl & Hd).
  destruct (Hd args k eq_refl) as (ca' & Hca & Eargs). assert (ca' = ca) as -> by congruence.
  destruct (si_calls _ Hs _ _ Hca) as (H1 & H2 & H3). rewrite Eargs in *.
  destruct (H3 OK Hph) as [|[_ Hh]]; [done|]. rewrite Eargs in Hh.
  assert (invoked (trace s ++ [Completed (op_of_args args)]) = invoked (trace s)) as Einv
    by (rewrite invoked_app; apply app_nil_r).
  split; cbn [cluster replicas clients calls trace grants]; rewrite ?Einv; try apply Hs.
  - unfold abs_clients. cbn [cluster clients trace]. rewrite Einv.
    apply (cl_reach_step ids n (abs_clients s) (Done c)); [apply Hs|]. cbn [cl_step].
    assert (sending (abs_clients s) !! c = Some (op_of_args args)) as ->.
    { simpl. unfold abs_sending. by rewrite lookup_omap, Hc. }
    simpl. rewrite decide_True by done. do 2 f_equal.
    + unfold abs_clerks. rewrite fmap_insert. symmetry. apply insert_id. by rewrite lookup_fmap, Hc.
    + unfold abs_sending. by rewrite omap_insert.
  - intros x ckx d [[<- [= <- <-]]|[_ Hx]]%lookup_insert_Some; [|by apply (si_clients _ Hs x)].
    split; [done|]. split; [simpl; lia|]. done.
  - apply trace_ok_complete; [apply Hs|done|done].
Qed.
End invariant.
