(* ===== verification/LockSystemTheorems.v ===== *)
(** * raft-lock: the lock service is linearizable

    In executions whose peers are orderly, the requests of all clerks take
    effect one after the other, each once, in an order that respects the
    times of the calls, and every lock server has the table of a beginning of
    that sequence; a lock is only handed to its owner there; and no step of
    the system panics. *)

From Stdlib Require Import ZArith Lia.
From stdpp Require Import base numbers strings gmap list.
From S2P Require Import Prelude RaftNode RaftCluster RaftWf RaftHistory RaftStateMachine RaftOrigin.
From S2P Require Import LockStore LockServer LockTheorems LockClerk LockSystem LockSystemInv.
Local Open Scope Z_scope.

(** ** Hand-overs *)

Lemma grants_of_app pos out out' : grants_of pos (out ++ out') = grants_of pos out ++ grants_of pos out'.
Proof. apply omap_app. Qed.

(** A server announces a lock to the client that owns it after the command. *)
Lemma applyOp_grants ls lead lead' m ls' out g pos :
  wf_store (store ls) -> applyOp ls lead lead' m = Ok (Some (ls', out)) -> g ∈ grants_of pos out ->
  gr_position g = pos /\ owner_of (store ls') (gr_key g) = gr_client g.
Proof.
  intros Hw HR Hg. unfold applyOp in HR.
  destruct (negb (CommandValid m)); [injection HR as <- <-; by apply elem_of_nil in Hg|].
  destruct (am_Command m) as [op|]; [|done]. unfold applyIfFresh in HR.
  destruct (is_fresh ls op).
  - rewrite applyToStateMachine_spec in HR by done. go_run. cbn [clerkEnds store results ls_lastApplied] in HR.
    destruct (register_spec (mkLockServer (clerkEnds ls) (op_on_store op (store ls)) (results ls)
      (<[op_ClientId op := op_RequestId op]> (ls_lastApplied ls))) (CommandIndex m)) as (ch & E & _).
    unfold mbind, result_bind in HR. cbn [clerkEnds store results ls_lastApplied] in HR. rewrite E in HR.
    destruct (len ch <? 1); [|done]. injection HR as <- <-.
    destruct lead; [|by apply elem_of_nil in Hg]. unfold announce in Hg. simpl in Hg.
    destruct (decide _) as [(_ & _ & _)|]; [|by apply elem_of_nil in Hg].
    apply list_elem_of_singleton in Hg as ->. done.
  - unfold mbind, result_bind in HR. destruct (register_spec ls (CommandIndex m)) as (ch & E & _).
    rewrite E in HR. destruct (len ch <? 1); [|done]. injection HR as <- <-. by apply elem_of_nil in Hg.
Qed.

Section steps.
Context `{Gob Op} (n : nat) (ids : gset Z).
Implicit Types (s : System).

Lemma prefix_snoc_lookup {A} (l k : list A) x :
  l `prefix_of` k -> k !! length l = Some x -> l ++ [x] `prefix_of` k.
Proof.
  intros [k' ->] Hx. rewrite lookup_app_r, Nat.sub_diag in Hx by lia.
  destruct k' as [|y k']; [done|]. injection Hx as ->. exists k'. by rewrite <- app_assoc.
Qed.

Lemma inv_take s j lead lead' m r p s' :
  sys_inv n ids s -> replicas s !! j = Some r -> servers (cluster s) !! j = Some p ->
  applied p !! length (taken r) = Some m -> take_message j lead lead' m r s = Some (Ok s') ->
  sys_inv n ids s'.
Proof.
  intros Hs Hr Hp Hm Hst. unfold take_message in Hst.
  destruct (applyOp (rep r) lead lead' m) as [[[ls out]|]|] eqn:E; try done. injection Hst as <-.
  destruct (si_rt _ _ _ Hs _ _ Hr) as (Hi & p' & Hp' & Hpre). assert (p' = p) as -> by congruence.
  pose proof (prefix_snoc_lookup _ _ _ Hpre Hm) as Hpre'.
  assert (rt_inv (mkRuntime ls [] [] (taken r ++ [m]))) as Hi' by (by eapply (rt_inv_apply _ lead lead' m ls out Hi)).
  eapply inv_replica; [done|done|done|done|done|]. apply Forall_forall. intros g Hg. simpl in Hg.
  destruct (applyOp_grants _ _ _ _ _ _ _ _ (rt_wf _ Hi) E Hg) as [Epos Eown].
  assert (commands (taken r ++ [m]) `prefix_of` history (cluster s)) as [rest Hh].
  { apply commands_prefix. etrans; [exact Hpre'|]. by eapply applied_longest; [apply Hs|]. }
  split; rewrite Epos, Hh; [rewrite length_app; lia|].
  rewrite take_app_length. pose proof (rt_machine _ Hi') as Em. simpl in Em. rewrite <- Em. exact Eown.
Qed.

(** ** The invariant holds *)

Lemma lookup_ids {A} (f : Z -> A) c :
  (set_to_map (fun c => (c, f c)) ids : gmap Z A) !! c = if decide (c ∈ ids) then Some (f c) else None.
Proof.
  case_decide as Hc.
  - apply lookup_set_to_map; [done|]. by exists c.
  - apply eq_None_not_Some. intros [x Hx]. by apply lookup_set_to_map in Hx as (? & ? & [= ->]).
Qed.

Lemma sys_inv_init : (0 < n)%nat -> sys_inv n ids (sys_init n ids).
Proof.
  intros Hn. split; simpl.
  - constructor.
  - apply origin_init.
  - unfold abs_clients. simpl. rewrite history_init.
    replace (mkClients _ _ _ _) with (cl_init ids n); [constructor|]. unfold cl_init. f_equal.
    + apply map_eq. intros c. unfold abs_clerks. rewrite lookup_fmap, !lookup_ids. by case_decide.
    + apply map_eq. intros c. unfold abs_sending. rewrite lookup_omap, lookup_empty, lookup_ids. by case_decide.
  - by rewrite length_replicate.
  - intros j r [-> Hj]%lookup_replicate. split; [apply (rt_inv_init ids)|].
    exists (mkServer (boot n j) Sleeping Persister.MakePersister []). split; [|apply prefix_nil].
    rewrite list_lookup_fmap, lookup_seq_lt by done. done.
  - intros k ca. by rewrite lookup_nil.
  - intros c ck d E. apply lookup_set_to_map in E as (x & _ & [= <- <- <-]); [|done]. simpl. split; [done|]. split; [lia|done].
  - rewrite history_init. split; [intros a Ha; by apply elem_of_nil in Ha|]. intros [] a t2 b t3 E; done.
  - constructor.
Qed.

(** A step of the peers, not a call of [Start]. *)
Lemma peers_step s l s' :
  sys_step (Peers l) s = Some (Ok s') ->
  given (fun op => op ∈ invoked (trace s)) l /\
  exists cl, step l (cluster s) = Some (Ok cl) /\
    s' = mkSystem cl (replicas s) (clients s) (calls s) (trace s) (grants s).
Proof.
  intros Hst. destruct l; cbn [sys_step] in Hst; try done;
    apply bind_Some in Hst as ([cl|] & Hcl & Hst); try done; injection Hst as <-; (split; [done|]); by exists cl.
Qed.

Lemma inv_peers s l s' :
  sys_inv n ids s -> orderly (cluster s) l = true -> sys_step (Peers l) s = Some (Ok s') -> sys_inv n ids s'.
Proof. intros Hs Ho (Hg & cl & Hcl & ->)%peers_step. by eapply inv_cluster. Qed.

Lemma inv_deliver s k ca s' :
  sys_inv n ids s -> calls s !! k = Some ca -> deliver k ca s = Some (Ok s') -> sys_inv n ids s'.
Proof.
  intros Hs Hk Hst. unfold deliver in Hst.
  apply bind_Some in Hst as (peer & Hp & Hst). apply bind_Some in Hst as (stepped & Hcl & Hst).
  injection Hst as Hst. apply result_bind_Ok in Hst as ([r' [[index term] lead]] & HS & Hst).
  apply result_bind_Ok in Hst as (cl & -> & Hst). injection Hst as <-.
  destruct (si_calls _ _ _ Hs _ _ Hk) as (_ & Hin & _).
  apply inv_call; [by eapply (inv_cluster n ids s (ClientStart _ _))|done|].
  intros err. simpl. destruct lead; [done|]. intros [= <-]. by left.
Qed.

Lemma inv_receive s k ca idx r appliedOp ch :
  sys_inv n ids s -> calls s !! k = Some ca -> replicas s !! ca_server ca = Some r ->
  results (rep r) !! idx = Some (appliedOp :: ch) ->
  sys_inv n ids (with_call k (Answered (mutexReply (isSameOp (op_of_args (ca_args ca)) appliedOp))) ca
    (with_replica (ca_server ca) (mkReplica (set_channel (rep r) idx ch) (taken r)) s)).
Proof.
  intros Hs Hk Hr Hch. destruct (si_rt _ _ _ Hs _ _ Hr) as (Hi & p & Hp & Hpre).
  destruct (rt_chan _ Hi _ _ Hch) as [Hlen Hin]. simpl in Hlen.
  apply inv_call; [|done|].
  - unfold with_replica. rewrite <- (app_nil_r (grants s)).
    eapply inv_replica; [done|done| |done|done|constructor].
    apply (rt_inv_channel _ [] idx ch Hi); [lia|]. intros op Hop. apply Hin. by right.
  - intros err [= <-]. destruct (isSameOp _ _) eqn:Esame; [right|by left]. split; [done|].
    apply isSameOp_req in Esame. simpl. rewrite Esame.
    destruct (Hin appliedOp) as (m & Hm & Hv & Hc & _); [left|]. apply list_elem_of_fmap_2.
    eapply elem_of_prefix; [|by eapply taken_history]. by eapply elem_of_commands.
Qed.

Lemma inv_register s k ca idx r :
  sys_inv n ids s -> calls s !! k = Some ca -> replicas s !! ca_server ca = Some r ->
  sys_inv n ids (with_call k (InSelect idx) ca
    (with_replica (ca_server ca) (mkReplica (fst (register (rep r) idx)) (taken r)) s)).
Proof.
  intros Hs Hk Hr. destruct (si_rt _ _ _ Hs _ _ Hr) as (Hi & p & Hp & Hpre).
  apply inv_call; [|done|by intros err].
  unfold with_replica. rewrite <- (app_nil_r (grants s)).
  eapply inv_replica; [done|done| |done|done|constructor].
  destruct (register_spec (rep r) idx) as (ch & E & Hch). rewrite E.
  apply (rt_inv_channel _ [] idx ch Hi).
  - destruct Hch as [Hch|[_ ->]]; [|simpl; lia]. by destruct (rt_chan _ Hi _ _ Hch).
  - destruct Hch as [Hch|[_ ->]]; [|by intros op ?%elem_of_nil]. by destruct (rt_chan _ Hi _ _ Hch).
Qed.

Lemma sys_inv_step s l s' :
  sys_inv n ids s -> sys_orderly l s = true -> sys_step l s = Some (Ok s') -> sys_inv n ids s'.
Proof.
  intros Hs Ho Hst. destruct l as [l|c key ty|k|k|k|k|j lead lead'|c|c]; [by eapply inv_peers|..];
    cbn [sys_step] in Hst.
  - apply bind_Some in Hst as ([ck d] & Hc & Hst). case_decide as Hd; [|done]. destruct Hd as [-> Hmax].
    injection Hst as Hst. by eapply inv_send.
  - apply bind_Some in Hst as (ca & Hk & Hst). destruct (ca_phase ca); try done. by eapply inv_deliver.
  - apply bind_Some in Hst as (ca & Hk & Hst). destruct (ca_phase ca); try done.
    apply bind_Some in Hst as (r & Hr & Hst). pose proof (inv_register _ _ _ idx _ Hs Hk Hr) as Hi.
    destruct (register (rep r) idx) as [ls ch]. injection Hst as <-. exact Hi.
  - apply bind_Some in Hst as (ca & Hk & Hst). destruct (ca_phase ca); try done.
    apply bind_Some in Hst as (r & Hr & Hst). apply bind_Some in Hst as (ch & Hch & Hst).
    destruct ch as [|appliedOp ch]; [done|]. injection Hst as <-. by apply inv_receive.
  - apply bind_Some in Hst as (ca & Hk & Hst). destruct (ca_phase ca); try done. injection Hst as <-.
    apply inv_call; [done|done|]. intros err [= <-]. by left.
  - apply bind_Some in Hst as (r & Hr & Hst). apply bind_Some in Hst as (p & Hp & Hst).
    apply bind_Some in Hst as (m & Hm & Hst). by eapply inv_take.
  - apply bind_Some in Hst as ([ck d] & Hc & Hst). apply bind_Some in Hst as ([args k] & -> & Hst).
    apply bind_Some in Hst as (ca & Hk & Hst). destruct (ca_phase ca) as [| | |err] eqn:Hph; try done.
    injection Hst as Hst. unfold after_call in Hst. case_bool_decide as Herr.
    + injection Hst as <-. destruct (si_calls _ _ _ Hs _ _ Hk) as (_ & _ & Ha).
      destruct (Ha err Hph) as [|[-> _]]; [done|]. by eapply inv_complete.
    + by eapply inv_again.
  - apply bind_Some in Hst as ([ck d] & Hc & Hst). apply bind_Some in Hst as ([args k] & -> & Hst).
    apply bind_Some in Hst as (ca & Hk & Hst). injection Hst as Hst. by eapply inv_again.
Qed.

Lemma step_history s l s' :
  sys_inv n ids s -> sys_orderly l s = true -> sys_step l s = Some (Ok s') ->
  history (cluster s) `prefix_of` history (cluster s').
Proof.
  intros Hs Hor Hst.
  assert (cluster s' = cluster s \/ exists l, orderly (cluster s) l = true /\
    step l (cluster s) = Some (Ok (cluster s'))) as [->|(l' & Ho & Hl)]; [|done|].
  2:{ eapply history_step; [apply Hs|done|done]. }
  destruct l as [l|c key ty|k|k|k|k|j lead lead'|c|c].
  { right. exists l. by apply peers_step in Hst as (_ & cl & Hcl & ->). }
  all: cbn [sys_step] in Hst.
  2:{ right. apply bind_Some in Hst as (ca & Hk & Hst). destruct (ca_phase ca); try done.
      unfold deliver in Hst. apply bind_Some in Hst as (peer & Hp & Hst).
      apply bind_Some in Hst as (stepped & Hcl & Hst). injection Hst as Hst.
      apply result_bind_Ok in Hst as ([r' [[index term] lead]] & HS & Hst).
      apply result_bind_Ok in Hst as (cl & -> & Hst). injection Hst as <-.
      by exists (ClientStart (ca_server ca) (op_of_args (ca_args ca))). }
  all: left; unfold send_mutex, after_call, start_call, take_message in Hst;
    repeat (case_match || match goal with H : _ ≫= _ = Some _ |- _ => apply bind_Some in H as (? & ? & ?) end);
    simplify_eq; done.
Qed.

Lemma sys_reach_inv s : (0 < n)%nat -> sys_reach n ids s -> sys_inv n ids s.
Proof. intros Hn. induction 1; [by apply sys_inv_init|by eapply sys_inv_step]. Qed.
End steps.

(** ** The order of the requests *)

Definition precedes {A} (a b : A) (l : list A) : Prop := exists l1 l2 l3, l = l1 ++ a :: l2 ++ b :: l3.

(** [L] orders the requests of a trace: each once, none that was not sent,
    all that have returned, and a request that returned before another was
    sent is before it. *)
Record linearization (tr : list event) (L : list Op) : Prop := {
  lin_once : NoDup (req <$> L);
  lin_sent op : op ∈ L -> op ∈ invoked tr;
  lin_completed op : Completed op ∈ tr -> op ∈ L;
  lin_order t1 a t2 b t3 :
    tr = t1 ++ Completed a :: t2 ++ Invoked b :: t3 -> b ∈ L -> precedes a b L;
}.

Lemma first_requests_prefix seen h k : first_requests seen h `prefix_of` first_requests seen (h ++ k).
Proof.
  induction k as [|op k IH] using rev_ind; [by rewrite app_nil_r|].
  rewrite app_assoc, first_requests_snoc. etrans; [exact IH|]. by apply prefix_app_r.
Qed.

Lemma first_requests_in h op : op ∈ first_requests [] h -> op ∈ h.
Proof.
  induction h as [|x h IH] using rev_ind; [done|]. rewrite first_requests_snoc.
  intros [Hop|Hop]%elem_of_app; apply elem_of_app; [left; by apply IH|right].
  by case_decide; [apply elem_of_nil in Hop|].
Qed.

Lemma first_requests_req h q : q ∈ req <$> h <-> q ∈ req <$> first_requests [] h.
Proof.
  induction h as [|x h IH] using rev_ind; [done|].
  rewrite first_requests_snoc, !fmap_app, !elem_of_app, <- IH. simpl.
  case_decide as Hx; simpl; [|done].
  split; [intros [?| ->%list_elem_of_singleton]; by left|intros [?|?%elem_of_nil]; [by left|done]].
Qed.

Lemma first_requests_once h : NoDup (req <$> first_requests [] h).
Proof.
  induction h as [|x h IH] using rev_ind; [constructor|]. rewrite first_requests_snoc, fmap_app.
  apply NoDup_app. split; [done|]. case_decide as Hx; simpl; [split; [by intros q _ ?%elem_of_nil|constructor]|].
  split; [|apply NoDup_singleton]. intros q Hq ->%list_elem_of_singleton.
  apply Hx. by apply first_requests_req.
Qed.

(** What comes before a request in the order are the requests before its
    first copy in the history. *)
Lemma first_requests_place h l1 b l2 :
  first_requests [] h = l1 ++ b :: l2 -> exists i, h !! i = Some b /\ l1 = first_requests [] (take i h).
Proof.
  revert l1 l2. induction h as [|x h IH] using rev_ind; intros l1 l2 E; [by destruct l1|].
  rewrite first_requests_snoc in E. simpl in E. case_decide as Hx.
  { rewrite app_nil_r in E. destruct (IH _ _ E) as (i & Hi & ->). exists i.
    split; [by apply lookup_app_l_Some|]. apply lookup_lt_Some in Hi. by rewrite take_app_le by lia. }
  destruct l2 as [|y l2 _] using rev_ind.
  - apply app_inj_tail in E as [<- ->]. exists (length h). rewrite lookup_app_r, Nat.sub_diag by lia.
    by rewrite take_app_length.
  - rewrite app_comm_cons, app_assoc in E. apply app_inj_tail in E as [E _].
    destruct (IH _ _ E) as (i & Hi & ->). exists i.
    split; [by apply lookup_app_l_Some|]. apply lookup_lt_Some in Hi. by rewrite take_app_le by lia.
Qed.

Section theorems.
Context `{Gob Op} (n : nat) (ids : gset Z).
Implicit Types (s : System).

Definition order s : list Op := first_requests [] (history (cluster s)).

Lemma history_sequential s : sys_inv n ids s -> clients_sequential (history (cluster s)).
Proof. intros Hs. apply (cl_inv_sequential (abs_clients s)). eapply cl_reach_inv, Hs. Qed.

Lemma prefix_sequential h k : clients_sequential k -> h `prefix_of` k -> clients_sequential h.
Proof. intros Hs [r ->]. by eapply clients_sequential_app. Qed.

(** The request in the order with the number of one that was sent is it. *)
Lemma in_order s op :
  sys_inv n ids s -> op ∈ invoked (trace s) -> req op ∈ req <$> history (cluster s) -> op ∈ order s.
Proof.
  intros Hs Hin Hh. apply first_requests_req, list_elem_of_fmap in Hh as (o & E & Ho).
  replace op with o; [done|]. eapply (NoDup_fmap_inj req (invoked (trace s))); [|..|by symmetry]; [| |done].
  - eapply (cl_sent_unique ids n (abs_clients s)), Hs.
  - apply first_requests_in in Ho. by apply (history_from (fun o => o ∈ invoked (trace s)) (cluster s)); [apply Hs|].
Qed.

Lemma order_linearizes s : sys_inv n ids s -> linearization (trace s) (order s).
Proof.
  intros Hs. pose proof (si_trace _ _ _ Hs) as [Hc Ho]. split.
  - apply first_requests_once.
  - intros op Hop%first_requests_in.
    by apply (history_from (fun o => o ∈ invoked (trace s)) (cluster s)); [apply Hs|].
  - intros op [Hin Hh]%Hc. by apply in_order.
  - intros t1 a t2 b t3 E Hb. apply list_elem_of_split in Hb as (l1 & l3 & El).
    destruct (first_requests_place _ _ _ _ El) as (i & Hi & E1).
    pose proof (Ho _ _ _ _ _ E _ _ Hi eq_refl) as Ha.
    apply first_requests_req in Ha. rewrite <- E1 in Ha. apply list_elem_of_fmap in Ha as (o & Er & Hol).
    assert (a ∈ invoked (trace s)) as Hina.
    { apply Hc. rewrite E. apply elem_of_app. right. left. }
    assert (o = a) as ->.
    { eapply (NoDup_fmap_inj req (order s)); [apply first_requests_once| | |by symmetry].
      - rewrite El. apply elem_of_app. by left.
      - apply in_order; [done|done|]. apply Hc. rewrite E. apply elem_of_app. right. left. }
    apply list_elem_of_split in Hol as (k1 & k2 & Ek). exists k1, k2, l3.
    by rewrite El, Ek, <- app_assoc.
Qed.

Lemma replica_in_order s j r :
  sys_inv n ids s -> replicas s !! j = Some r ->
  store (rep r) = plain_run (first_requests [] (commands (taken r))) /\
  first_requests [] (commands (taken r)) `prefix_of` order s.
Proof.
  intros Hs Hr. pose proof (taken_history _ _ _ _ _ Hs Hr) as Hpre.
  destruct (si_rt _ _ _ Hs _ _ Hr) as (Hi & _). split.
  - rewrite <- machine_run_once by (by eapply prefix_sequential; [apply history_sequential|]).
    pose proof (rt_machine _ Hi) as E. simpl in E. by rewrite <- E.
  - destruct Hpre as [k E]. unfold order. rewrite E. apply first_requests_prefix.
Qed.

(** C1: the lock service is linearizable.  Clerks call [Lock] and [Unlock]
    on servers that may answer, refuse, time out or never be heard of again,
    retry at the next server, and leave old requests behind, each clerk with
    one request at a time.  The executions are orderly: no server crashes, no
    AppendEntries is overtaken by a longer one of its term, and votes and
    positive replies are used only in the term they answer (the findings of
    RaftStateMachine show that the code needs this).  Then the commands that came out of Raft, each request taken
    once, order the requests of all clerks as if they took effect one after
    the other: every request that returned is in it, none that was not sent,
    and a request that returned before another was sent comes first.  The
    table of every lock server is that of a beginning of this sequence. *)
Theorem lock_service_linearizable s :
  (0 < n)%nat -> sys_reach n ids s ->
  linearization (trace s) (order s) /\
  forall j r, replicas s !! j = Some r ->
    exists k, store (rep r) = plain_run (take k (order s)).
Proof.
  intros Hn Hs%sys_reach_inv; [|done]. split; [by apply order_linearizes|].
  intros j r Hr. destruct (replica_in_order _ _ _ Hs Hr) as [-> [k ->]].
  eexists. by rewrite take_app_length.
Qed.

(** The order is never revised.  Whatever the system does next, the
    sequence of requests that have taken effect is only extended. *)
Theorem lock_order_grows s ls s' :
  (0 < n)%nat -> sys_reach n ids s -> sys_run ls s = Some (Ok s') -> order s `prefix_of` order s'.
Proof.
  intros Hn Hs. revert s Hs. induction ls as [|l ls IH]; intros s Hs E; simpl in E; [by injection E as <-|].
  destruct (sys_orderly l s) eqn:Ho; [|done].
  destruct (sys_step l s) as [[s1|]|] eqn:E1; simpl in E; try done.
  etrans; [|by eapply IH; [eapply sys_reach_step|]].
  destruct (step_history n ids _ _ _ (sys_reach_inv _ _ _ Hn Hs) Ho E1) as [k Ek].
  unfold order. rewrite Ek. apply first_requests_prefix.
Qed.

(** C6: a lock is handed to its owner only.  In the orderly executions of
    C1, whenever a server tells a client that it now has a lock, the client
    is the owner of the lock after the requests the server has applied, in
    the one order of the requests of all clerks; so two clients told of a
    lock at the same place of the history are the same.  Client 0, whose
    number stands for nobody, is also told of locks that have become free. *)
Theorem locks_go_to_owners s g :
  (0 < n)%nat -> sys_reach n ids s -> g ∈ grants s ->
  let applied_then := first_requests [] (take (gr_position g) (history (cluster s))) in
  applied_then `prefix_of` order s /\
  (lock_owner (plain_run applied_then) (gr_key g) = Some (gr_client g) \/
   gr_client g = 0 /\ lock_owner (plain_run applied_then) (gr_key g) = None).
Proof.
  intros Hn Hs%sys_reach_inv Hg applied_then; [|done].
  pose proof (proj1 (Forall_forall _ _) (si_grants _ _ _ Hs) _ Hg) as [Hp Ho]. split.
  - destruct (prefix_take (history (cluster s)) (gr_position g)) as [k E].
    unfold order. rewrite E at 1. apply first_requests_prefix.
  - apply owner_of_lock. rewrite <- Ho. unfold applied_then. rewrite <- machine_run_once; [done|].
    eapply prefix_sequential; [by apply history_sequential|]. apply prefix_take.
Qed.

(** ** No panics *)

Lemma start_call_ok c (ck : Clerk) args server s :
  ck_servers ck = n -> 0 <= server < Z.of_nat n -> exists s', start_call c ck args server s = Ok s'.
Proof. intros En Hr. unfold start_call. rewrite En, decide_True by done. by eexists. Qed.

Lemma nextServer_range server : 0 <= server < Z.of_nat n -> Z.of_nat n < 2 ^ 31 -> 0 <= nextServer n server < Z.of_nat n.
Proof. intros Hs Hn. rewrite nextServer_mod by done. apply Z.mod_pos_bound. lia. Qed.

Lemma after_call_ok s c (ck : Clerk) d args k ca call :
  Z.of_nat n < 2 ^ 31 -> sys_inv n ids s -> clients s !! c = Some (ck, d) -> calls s !! k = Some ca ->
  exists s', after_call c ck args (ca_server ca) call s = Ok s'.
Proof.
  intros Hmax Hs Hc Hk. destruct (si_clients _ _ _ Hs _ _ _ Hc) as (En & _).
  destruct (si_calls _ _ _ Hs _ _ Hk) as (Hsrv & _). unfold after_call.
  destruct (start_call_ok c ck args (nextServer (ck_servers ck) (Z.of_nat (ca_server ca))) s En) as [s' E];
    [rewrite En; apply nextServer_range; lia|].
  destruct call as [err|]; [case_bool_decide; [by eexists|]|]; by exists s'.
Qed.

(** Every message a peer delivers has a command. *)
Lemma delivered_command s j p k m :
  sys_inv n ids s -> servers (cluster s) !! j = Some p -> applied p !! k = Some m ->
  exists op, am_Command m = Some op.
Proof.
  intros Hs Hp Hm. pose proof (or_servers _ _ (si_origin _ _ _ Hs)) as Hall.
  destruct (Forall_lookup_1 _ _ _ _ Hall Hp) as [_ Hd].
  destruct (Forall_lookup_1 _ _ _ _ Hd Hm) as (op & E & _). by exists op.
Qed.

(** C20: the lock service does not panic.  With fewer than 2^31 servers, no
    state of an orderly execution has a step, orderly or not, in which a clerk indexes its servers out of
    range, a lock server receives something that is no command or finds an
    empty queue in its table, or a peer panics. *)
Theorem lock_service_no_panic s l p :
  (0 < n)%nat -> Z.of_nat n < 2 ^ 31 -> sys_reach n ids s -> sys_step l s <> Some (Panic p).
Proof.
  intros Hn Hmax Hs%sys_reach_inv Hst; [|done].
  pose proof (wf_reach _ _ _ (si_reach _ _ _ Hs)) as Hwf.
  assert (forall l x, step l (cluster s) = Some x -> exists c, x = Ok c) as Hok.
  { intros l' x E. destruct (wf_step _ _ _ _ Hwf E) as (c & -> & _). by exists c. }
  destruct l as [l|c key ty|k|k|k|k|j lead lead'|c|c]; cbn [sys_step] in Hst.
  - destruct l; try done;
      apply bind_Some in Hst as (x & E & Hst); by destruct (Hok _ _ E) as [c ->].
  - apply bind_Some in Hst as ([ck d] & Hc & Hst). case_decide; [|done]. injection Hst as Hst.
    destruct (si_clients _ _ _ Hs _ _ _ Hc) as (En & Hr & _). unfold send_mutex, nextRequest in Hst.
    match type of Hst with start_call _ ?ck' ?args ?l ?s' = _ =>
      destruct (start_call_ok c ck' args l s' En Hr) as [? E] end. by rewrite E in Hst.
  - apply bind_Some in Hst as (ca & Hk & Hst). destruct (ca_phase ca); try done. unfold deliver in Hst.
    apply bind_Some in Hst as (peer & Hp & Hst). apply bind_Some in Hst as (x & E & Hst).
    destruct (Hok _ _ E) as [cl ->]. cbn [step] in E. rewrite Hp in E. simpl in E. injection Hst as Hst.
    destruct (Start (rf peer) _) as [[r' [[index term] lead]]|]; [done|discriminate E].
  - apply bind_Some in Hst as (ca & Hk & Hst). destruct (ca_phase ca); try done.
    apply bind_Some in Hst as (r & Hr & Hst). by destruct (register (rep r) idx).
  - apply bind_Some in Hst as (ca & Hk & Hst). destruct (ca_phase ca); try done.
    apply bind_Some in Hst as (r & Hr & Hst). apply bind_Some in Hst as (ch & Hch & Hst). by destruct ch.
  - apply bind_Some in Hst as (ca & Hk & Hst). by destruct (ca_phase ca).
  - apply bind_Some in Hst as (r & Hr & Hst). apply bind_Some in Hst as (peer & Hp & Hst).
    apply bind_Some in Hst as (m & Hm & Hst). destruct (delivered_command _ _ _ _ _ Hs Hp Hm) as [op Hop].
    destruct (si_rt _ _ _ Hs _ _ Hr) as (Hi & _). unfold take_message in Hst.
    destruct (CommandValid m) eqn:Hv.
    + destruct (applyOp_spec (rep r) lead lead' m op (rt_wf _ Hi) Hv Hop) as (out & E). rewrite E in Hst.
      by destruct (_ <? _).
    + unfold applyOp in Hst. by rewrite Hv in Hst.
  - apply bind_Some in Hst as ([ck d] & Hc & Hst). apply bind_Some in Hst as ([args k] & -> & Hst).
    apply bind_Some in Hst as (ca & Hk & Hst). destruct (ca_phase ca) as [| | |err]; try done.
    destruct (after_call_ok s c ck (Some (args, k)) args k ca (Some err) Hmax Hs Hc Hk) as [? E].
    by rewrite E in Hst.
  - apply bind_Some in Hst as ([ck d] & Hc & Hst). apply bind_Some in Hst as ([args k] & -> & Hst).
    apply bind_Some in Hst as (ca & Hk & Hst).
    destruct (after_call_ok s c ck (Some (args, k)) args k ca None Hmax Hs Hc Hk) as [? E].
    by rewrite E in Hst.
Qed.
End theorems.
