(* ===== verification/LockConfig.v ===== *)
(** * raft-lock/config.go: the tester of the lock service

    Servers are connected to and disconnected from lists of servers, shut
    down and started again; clients get an end per server in random order,
    and a server of their own that the lock servers call back.  Pointers are
    indices into heaps; random numbers and strings are arguments. *)

From Stdlib Require Import ZArith Lia.
From stdpp Require Import base numbers strings gmap list.
From S2P Require Import Prelude Persister RaftNode LockStore LockServer LockTheorems LockClerk.
From S2P Require Import Labrpc Harness RaftConfig RaftConfigLinks.
Local Open Scope Z_scope.

(** [sa[i], sa[j] = sa[j], sa[i]] *)
Definition swap {A} (sa : list A) (i j : nat) : result (list A) :=
  x ← at_ sa i; y ← at_ sa j; sa ← put_at sa i y; put_at sa j x.

(** [rnd i]: the value of [rand.Intn(i + 1)] in round [i]. *)
Definition random_handles {A} (kvh : list A) (rnd : nat -> nat) : result (list A) :=
  for_each (fun i sa => swap sa i (rnd i)) (seq 0 (length kvh)) kvh.

(** What [reflect] finds of a [*Clerk] and of a [*LockServer]. *)
Definition clerk_service : Service :=
  MakeService "Clerk"
    [mkMethod "Lock" "" [true; false] 0;
     mkMethod "ReceiveLock" "" [true; true; true] 0;
     mkMethod "SendMutex" "" [true; false; false] 0;
     mkMethod "Unlock" "" [true; false] 0].

Definition lock_service : Service :=
  MakeService "LockServer"
    [mkMethod "Kill" "" [true] 0; mkMethod "Mutex" "" [true; true; true] 0].

(** One run of [StartLockServer]. *)
Record LockInstance := mkLockInstance {
  li_server : LockServer;
  li_raft : Raft Op;
  li_persister : nat;
  li_dead : bool;
}.

Record config := mkConfig {
  net : Net;
  srv_heap : list Server;
  n : nat;
  ps_heap : list Persister;
  instances : list LockInstance;
  lockServers : list (option nat);
  saved : list (option nat);
  endnames : list (option (list string));
  clerk_heap : list Clerk;
  clerks : gmap nat (list string);
  clerkEnds : gset Z;
  nextClientId : Z;
  rpcs0 : Z;
  ops : Z;
}.

Definition set_net (rn : Net) (cfg : config) : config :=
  mkConfig rn (srv_heap cfg) (n cfg) (ps_heap cfg) (instances cfg) (lockServers cfg) (saved cfg)
    (endnames cfg) (clerk_heap cfg) (clerks cfg) (clerkEnds cfg) (nextClientId cfg) (rpcs0 cfg) (ops cfg).

(** ** Connections between servers *)

Definition connectUnlocked (en : list (option (list string))) (i : nat) (to : list nat) (rn : Net)
    : result Net :=
  rn ← enable_each (fun j => e ← end_at en i j; Ok (Some e)) true to rn;
  enable_each (fun j => e ← end_at en j i; Ok (Some e)) true to rn.

(** The second loop tests row [j], the position in the list, where it means
    row [from[j]]. *)
Definition disconnectUnlocked (en : list (option (list string))) (i : nat) (from : list nat) (rn : Net)
    : result Net :=
  rn ← enable_each (fun j => if_started en i j) false from rn;
  enable_each (fun p =>
    r ← at_ en p;
    match r with
    | Some _ => k ← at_ from p; e ← end_at en k i; Ok (Some e)
    | None => Ok None
    end) false (seq 0 (length from)) rn.

Definition connect (i : nat) (to : list nat) (cfg : config) : result config :=
  rn ← connectUnlocked (endnames cfg) i to (net cfg); Ok (set_net rn cfg).

Definition disconnect (i : nat) (from : list nat) (cfg : config) : result config :=
  rn ← disconnectUnlocked (endnames cfg) i from (net cfg); Ok (set_net rn cfg).

Definition All (cfg : config) : list nat := seq 0 (n cfg).

Definition ConnectAll (cfg : config) : result config :=
  for_each (fun i => connect i (All cfg)) (seq 0 (n cfg)) cfg.

(** ** Clients *)

Definition add_server (x : netName) (svcs : list Service) (cfg : config) : config :=
  let srv := foldl AddService MakeServer svcs in
  mkConfig (AddServer (net cfg) x (length (srv_heap cfg))) (srv_heap cfg ++ [srv]) (n cfg)
    (ps_heap cfg) (instances cfg) (lockServers cfg) (saved cfg) (endnames cfg) (clerk_heap cfg)
    (clerks cfg) (clerkEnds cfg) (nextClientId cfg) (rpcs0 cfg) (ops cfg).

Definition addClerkToNetwork (clerk : Clerk) (cfg : config) : config :=
  let x := Client (ClientID clerk) in
  let cfg := set_net (Enable (Connect (net cfg) x x) x true) cfg in
  add_server x [clerk_service] cfg.

(** [ck]: the pointer to the clerk; a missing key reads as the nil slice. *)
Definition set_client_ends (ck : nat) (b : bool) (js : list nat) (cfg : config) : result config :=
  let names := default [] (clerks cfg !! ck) in
  rn ← enable_each (fun j => s ← at_ names j; Ok (Some s)) b js (net cfg);
  Ok (set_net rn cfg).

Definition ConnectClientUnlocked (ck : nat) (to : list nat) (cfg : config) : result config :=
  clerk ← deref (clerk_heap cfg) (Some ck);
  set_client_ends ck true to (addClerkToNetwork clerk cfg).

Definition DisconnectClientUnlocked (ck : nat) (from : list nat) (cfg : config) : result config :=
  set_client_ends ck false from cfg.

(** [clientID]: what [nrand] returned; [rnd j]: the j-th random string.  The
    clerk uses its ends only through their number; the order of its ends is
    that of [random_handles]. *)
Definition makeClient (clientID : Z) (rnd : nat -> string) (to : list nat) (cfg : config)
    : result (nat * config) :=
  rn ← MakeEnd (net cfg) (Client clientID);
  let names := rnd <$> seq 0 (n cfg) in
  rn ← make_ends names rn;
  let ck := length (clerk_heap cfg) in
  let cfg := mkConfig rn (srv_heap cfg) (n cfg) (ps_heap cfg) (instances cfg) (lockServers cfg)
    (saved cfg) (endnames cfg) (clerk_heap cfg ++ [MakeClerk (n cfg) clientID])
    (<[ck := names]> (clerks cfg)) ({[clientID]} ∪ clerkEnds cfg) (nextClientId cfg + 1)
    (rpcs0 cfg) (ops cfg) in
  cfg ← ConnectClientUnlocked ck to cfg;
  Ok (ck, cfg).

Definition deleteClient (ck : nat) (cfg : config) : result config :=
  clerk ← deref (clerk_heap cfg) (Some ck);
  Ok (mkConfig (net cfg) (srv_heap cfg) (n cfg) (ps_heap cfg) (instances cfg) (lockServers cfg)
    (saved cfg) (endnames cfg) (clerk_heap cfg) (delete ck (clerks cfg))
    (clerkEnds cfg ∖ {[ClientID clerk]}) (nextClientId cfg) (rpcs0 cfg) (ops cfg)).

(** ** Shutting down and starting servers *)

Definition set_saved (i : nat) (ps : Persister) (cfg : config) : result config :=
  sv ← put_at (saved cfg) i (Some (length (ps_heap cfg)));
  Ok (mkConfig (net cfg) (srv_heap cfg) (n cfg) (ps_heap cfg ++ [ps]) (instances cfg) (lockServers cfg)
    sv (endnames cfg) (clerk_heap cfg) (clerks cfg) (clerkEnds cfg) (nextClientId cfg) (rpcs0 cfg) (ops cfg)).

Definition set_instances (l : list LockInstance) (ls : list (option nat)) (cfg : config) : config :=
  mkConfig (net cfg) (srv_heap cfg) (n cfg) (ps_heap cfg) l ls (saved cfg) (endnames cfg)
    (clerk_heap cfg) (clerks cfg) (clerkEnds cfg) (nextClientId cfg) (rpcs0 cfg) (ops cfg).

(** [cfg.saved[i] = cfg.saved[i].Copy()], or the persister [other]. *)
Definition copy_saved (i : nat) (other : option Persister) (cfg : config) : result config :=
  p ← at_ (saved cfg) i;
  match p with
  | Some _ => ps ← deref (ps_heap cfg) p; set_saved i (Copy ps) cfg
  | None => match other with Some ps => set_saved i ps cfg | None => Ok cfg end
  end.

(** [kv.Kill()] *)
Definition kill_instance (kv : LockInstance) : LockInstance :=
  mkLockInstance (li_server kv) (Kill (li_raft kv)) (li_persister kv) true.

Definition ShutdownServer (i : nat) (cfg : config) : result config :=
  cfg ← disconnect i (All cfg) cfg;
  let cfg := set_net (DeleteServer (net cfg) (Peer i)) cfg in
  cfg ← copy_saved i None cfg;
  r ← at_ (lockServers cfg) i;
  match r with
  | None => Ok cfg
  | Some k =>
    kv ← deref (instances cfg) (Some k);
    ls ← put_at (lockServers cfg) i None;
    Ok (set_instances (<[k := kill_instance kv]> (instances cfg)) ls cfg)
  end.

Section start.
Context `{Gob Op}.

Definition StartServer (i : nat) (rnd : nat -> string) (cfg : config) : result config :=
  let names := rnd <$> seq 0 (n cfg) in
  en ← put_at (endnames cfg) i (Some names);
  rn ← make_ends names (net cfg);
  let cfg := mkConfig rn (srv_heap cfg) (n cfg) (ps_heap cfg) (instances cfg) (lockServers cfg)
    (saved cfg) en (clerk_heap cfg) (clerks cfg) (clerkEnds cfg) (nextClientId cfg) (rpcs0 cfg) (ops cfg) in
  cfg ← copy_saved i (Some MakePersister) cfg;
  p ← at_ (saved cfg) i;
  ps ← deref (ps_heap cfg) p;
  rf ← Make (n cfg) i ps;
  let k := length (instances cfg) in
  ls ← put_at (lockServers cfg) i (Some k);
  let kv := mkLockInstance (StartLockServer (clerkEnds cfg)) rf (default 0%nat p) false in
  let cfg := set_instances (instances cfg ++ [kv]) ls cfg in
  Ok (add_server (Peer i) [lock_service; raft_service] cfg).

(** [cfg.events] is a channel; the tester reads it, and it is not part of
    the state here. *)
Definition make_config (n : nat) (unreliable : bool) (rnd : nat -> nat -> string) : result config :=
  let cfg := mkConfig MakeNetwork [] n [] [] (replicate n None) (replicate n None) (replicate n None)
    [] ∅ ∅ (Z.of_nat n + 1000) 0 0 in
  cfg ← for_each (fun i => StartServer i (rnd i)) (seq 0 n) cfg;
  cfg ← ConnectAll cfg;
  Ok (set_net (Reliable (net cfg) (negb unreliable)) cfg).
End start.

(** The first server whose instance says it leads; a nil server panics.
    [leads k]: what [rf.GetState()] of instance [k] answers. *)
Definition Leader (leads : nat -> bool) (cfg : config) : result (bool * Z) :=
  (fix loop (l : list nat) : result (bool * Z) :=
     match l with
     | [] => Ok (false, 0)
     | i :: l =>
       r ← at_ (lockServers cfg) i;
       match r with
       | None => Panic NilDereference
       | Some k => if leads k then Ok (true, Z.of_nat i) else loop l
       end
     end) (seq 0 (n cfg)).

Definition checkTimeout := RaftConfig.checkTimeout.

Definition cleanup (failed elapsed : bool) (cfg : config) : result config :=
  let l := foldl (fun l r => match r with
             | Some k => alter kill_instance k l
             | None => l
             end) (instances cfg) (lockServers cfg) in
  rn ← Cleanup (net cfg);
  _ ← checkTimeout failed elapsed;
  Ok (set_net rn (set_instances l (lockServers cfg) cfg)).

Definition LogSize (cfg : config) : result Z :=
  for_each (fun i logsize =>
    p ← at_ (saved cfg) i;
    ps ← deref (ps_heap cfg) p;
    let sz := RaftStateSize ps in
    Ok (if logsize <? sz then sz else logsize)) (seq 0 (n cfg)) 0.

Definition rpcTotal (cfg : config) : Z := GetTotalCount (net cfg).

Definition begin_ (cfg : config) : config :=
  mkConfig (net cfg) (srv_heap cfg) (n cfg) (ps_heap cfg) (instances cfg) (lockServers cfg) (saved cfg)
    (endnames cfg) (clerk_heap cfg) (clerks cfg) (clerkEnds cfg) (nextClientId cfg) (rpcTotal cfg) 0.

Definition op (cfg : config) : config :=
  mkConfig (net cfg) (srv_heap cfg) (n cfg) (ps_heap cfg) (instances cfg) (lockServers cfg) (saved cfg)
    (endnames cfg) (clerk_heap cfg) (clerks cfg) (clerkEnds cfg) (nextClientId cfg) (rpcs0 cfg)
    (wrap32 (ops cfg + 1)).

(** Servers, RPCs and clerk calls since [begin]. *)
Definition end_ (failed elapsed : bool) (cfg : config) : result (option (Z * Z * Z)) :=
  _ ← checkTimeout failed elapsed;
  if negb failed then Ok (Some (Z.of_nat (n cfg), wrap64 (rpcTotal cfg - rpcs0 cfg), ops cfg))
  else Ok None.

(** ** Shuffled handles *)

Lemma swap_perm {A} (sa : list A) i j :
  (i < length sa)%nat -> (j < length sa)%nat -> exists sa', swap sa i j = Ok sa' /\ sa' ≡ₚ sa.
Proof.
  intros [x Hx]%lookup_lt_is_Some_2 [y Hy]%lookup_lt_is_Some_2. unfold swap.
  rewrite (proj2 (at_Ok _ _ _) Hx). simpl. rewrite (proj2 (at_Ok _ _ _) Hy). simpl.
  rewrite (proj2 (put_at_Ok _ _ _ _) (conj (lookup_lt_Some _ _ _ Hx) eq_refl)). simpl.
  eexists. split.
  { apply put_at_Ok. split; [rewrite length_insert; by eapply lookup_lt_Some|done]. }
  by apply Permutation_insert_swap.
Qed.

(** The shuffle of a client's ends: whatever the random numbers, every end
    is kept exactly once, and no index is out of range. *)
Lemma random_handles_perm {A} (kvh : list A) rnd :
  (forall i, (rnd i <= i)%nat) -> exists sa, random_handles kvh rnd = Ok sa /\ sa ≡ₚ kvh.
Proof.
  intros Hrnd. unfold random_handles.
  assert (forall l sa, sa ≡ₚ kvh -> Forall (fun i => (i < length kvh)%nat) l ->
    exists sa', for_each (fun i sa => swap sa i (rnd i)) l sa = Ok sa' /\ sa' ≡ₚ kvh) as Hgen.
  { induction l as [|i l IH]; intros sa Hp Hl; simpl; [by exists sa|].
    apply Forall_cons in Hl as [Hi Hl]. pose proof (Permutation_length Hp) as Hlen. specialize (Hrnd i).
    destruct (swap_perm sa i (rnd i)) as (sa' & -> & Hp'); [lia..|]. simpl. apply IH; [by etrans|done]. }
  apply Hgen; [done|]. apply Forall_forall. intros i [_ Hi]%elem_of_seq. lia.
Qed.

(** ** Isolation of a server that is shut down *)

Lemma connection_loops en i from rn rn' :
  disconnectUnlocked en i from rn = Ok rn' ->
  same_links rn rn' /\
  (forall j e, j ∈ from -> end_of en i j = Some e -> is_enabled rn' (End e) = false) /\
  (forall x, is_enabled rn' x = is_enabled rn x \/
     exists j e, j ∈ from /\ x = End e /\ (end_of en i j = Some e \/ end_of en j i = Some e)).
Proof.
  unfold disconnectUnlocked. intros (rn1 & H1 & H2)%result_bind_Ok.
  apply enable_each_spec in H1 as (Hs1 & _ & He1). apply enable_each_spec in H2 as (Hs2 & _ & He2).
  split_and!; [by eapply same_links_trans|..].
  - intros j e Hj He. rewrite He2. case_decide; [done|]. rewrite He1, decide_True; [done|].
    apply elem_of_picked. exists j, e. by rewrite if_started_Some.
  - intros x. rewrite He2. case_decide as D2.
    + right. apply elem_of_picked in D2 as (p & e & _ & Hp & ->).
      apply result_bind_Ok in Hp as (r & _ & Hp). destruct r; [|done].
      apply result_bind_Ok in Hp as (k & Hk%at_Ok & Hp).
      apply result_bind_Ok in Hp as (e' & He%end_at_Ok & [= ->]). exists k, e.
      split_and!; [by eapply list_elem_of_lookup_2|done|by right].
    + rewrite He1. case_decide as D1; [right|by left].
      apply elem_of_picked in D1 as (j & e & Hj & He%if_started_Some & ->). exists j, e. auto.
Qed.

Lemma copy_saved_net i other cfg cfg' :
  copy_saved i other cfg = Ok cfg' ->
  net cfg' = net cfg /\ instances cfg' = instances cfg /\ lockServers cfg' = lockServers cfg.
Proof.
  unfold copy_saved, set_saved. intros (p & _ & Hc)%result_bind_Ok. destruct p.
  - apply result_bind_Ok in Hc as (ps & _ & (sv & _ & [= <-])%result_bind_Ok). done.
  - destruct other; [|by injection Hc as <-]. by apply result_bind_Ok in Hc as (sv & _ & [= <-]).
Qed.

(** Shutting down a lock server isolates it.  Once [ShutdownServer] has
    returned, the network delivers no request to the server and none over the
    ends of the instance that was shut down; that instance is killed and no
    longer the tester's; and the ends between other servers, and the ends of
    clients, are as they were. *)
Theorem shutdown_isolates i cfg cfg' :
  ShutdownServer i cfg = Ok cfg' ->
  (forall req inf, proc_read (net cfg') req = Deciding inf ->
     i_servername inf <> Peer i /\
     (forall j e, (j < n cfg)%nat -> end_of (endnames cfg) i j = Some e -> endname req <> End e)) /\
  (forall k, lockServers cfg !! i = Some (Some k) ->
     lockServers cfg' !! i = Some None /\
     exists kv, instances cfg' !! k = Some kv /\ li_dead kv = true /\ killed (li_raft kv) = true) /\
  (forall x, (forall j e, x = End e -> end_of (endnames cfg) i j <> Some e /\ end_of (endnames cfg) j i <> Some e) ->
     is_enabled (net cfg') x = is_enabled (net cfg) x).
Proof.
  unfold ShutdownServer, disconnect. intros (cfg1 & (rn & Hd & [= <-])%result_bind_Ok & Hs)%result_bind_Ok.
  destruct (connection_loops _ _ _ _ _ Hd) as (_ & Hoff & Hkeep).
  apply result_bind_Ok in Hs as (cfg2 & (En & Ei & El)%copy_saved_net & Hs).
  apply result_bind_Ok in Hs as (r & Hr%at_Ok & Hs).
  assert (net cfg' = DeleteServer rn (Peer i) /\
    (forall k, lockServers cfg !! i = Some (Some k) -> lockServers cfg' !! i = Some None /\
       exists kv, instances cfg' !! k = Some kv /\ li_dead kv = true /\ killed (li_raft kv) = true)) as [En' Hk].
  { rewrite El in Hr. simpl in Hr. destruct r as [k|].
    - apply result_bind_Ok in Hs as (kv & Hkv & (ls & [Hlt ->]%put_at_Ok & [= <-])%result_bind_Ok).
      split; [done|]. intros k' Hk'. rewrite Hr in Hk'. injection Hk' as <-. simpl. split.
      + by apply list_lookup_insert_eq.
      + exists (kill_instance kv). split; [|done]. apply list_lookup_insert_eq.
        unfold deref in Hkv. simpl in Hkv. destruct (instances cfg2 !! k) eqn:E; [|done].
        by eapply lookup_lt_Some.
    - injection Hs as <-. split; [done|]. intros k Hk. congruence. }
  assert (forall x, is_enabled (net cfg') x = is_enabled rn x) as Ee by (intros; by rewrite En').
  split_and!; [|done|].
  - intros req inf. unfold proc_read, readEndnameInfo. rewrite Ee.
    destruct (connection (net cfg') (endname req)) as [sn|]; simpl; [|done].
    destruct (server_of (net cfg') sn) as [s|] eqn:Es; simpl; [|done].
    destruct (is_enabled rn (endname req)) eqn:Een; [|done]. intros [= <-]. simpl. split.
    + intros ->. rewrite En' in Es. unfold server_of, DeleteServer in Es. simpl in Es.
      by rewrite lookup_insert_eq in Es.
    + intros j e Hj He Ex. rewrite Ex, (Hoff j e) in Een; [done| |done]. apply elem_of_seq. lia.
  - intros x Hx. rewrite Ee. destruct (Hkeep x) as [|(j & e & _ & -> & He)]; [done|].
    destruct (Hx j e eq_refl). by destruct He.
Qed.

(** A row that is nil at the position of the list hides a server that is
    started: [disconnect] leaves the link from it enabled. *)
Definition half_started : config :=
  mkConfig (Enable MakeNetwork (End "ba") true) [] 2 [] [] [None; None] [None; None]
    [None; Some ["ba"; "bb"]] [] ∅ ∅ 0 0 0.

Example disconnect_skips_row :
  exists cfg', disconnect 0 [1%nat] half_started = Ok cfg' /\ is_enabled (net cfg') (End "ba") = true.
Proof. eexists. split; vm_compute; reflexivity. Qed.

(** Two servers that are connected, the second of them down. *)
Definition small_config : config :=
  mkConfig
    (Enable (Enable MakeNetwork (End "ab") true) (End "ba") true) [] 2
    [MakePersister] [mkLockInstance (StartLockServer ∅) (mkRaft 2 0 false Follower 0 0 (-1) [] 0 0 [] []) 0 false]
    [Some 0%nat; None] [Some 0%nat; None] [Some ["aa"; "ab"]; Some ["ba"; "bb"]] [] ∅ ∅ 0 0 0.

Lemma shutdown_isolates_witness :
  exists cfg', ShutdownServer 0 small_config = Ok cfg' /\ lockServers cfg' !! 0%nat = Some None.
Proof.
  destruct (ShutdownServer 0 small_config) as [cfg'|] eqn:E.
  - exists cfg'. split; [reflexivity|].
    refine (proj1 (proj1 (proj2 (shutdown_isolates 0 small_config cfg' E)) 0%nat _)). reflexivity.
  - exfalso. assert (is_ok (ShutdownServer 0 small_config) = true) as Hok by (vm_compute; reflexivity).
    rewrite E in Hok. discriminate Hok.
Defined.
