(* ===== verification/RaftReplicas.v ===== *)
(** * raft and its clients: what state machine safety gives them

    The tester of raft/config.go, the lock servers of raft-lock and the peers
    on the simulated network of labrpc.go, each composed with the cluster of
    [RaftStateMachine]: the tester never stops an orderly cluster, a lock
    server that is behind another is a past state of it, and the replicas on
    the simulated network deliver one history. *)

From Stdlib Require Import ZArith Lia.
From stdpp Require Import base numbers strings countable gmap list.
From S2P Require Import Prelude Persister Labrpc LabrpcTheorems LabrpcCalls Harness.
From S2P Require Import RaftNode RaftCluster RaftWf RaftHistory RaftSafety RaftTheorems RaftRuns.
From S2P Require Import RaftCommitPeer RaftCommitInv RaftStateMachine.
From S2P Require Import RaftConfig RaftConfigLinks RaftConfigTally RaftConfigChecks RaftConfigRuns.
From S2P Require Import RaftOverLabrpc RaftOverLabrpcSim RaftOverLabrpcTypes RaftOverLabrpcRuns.
From S2P Require Import LockStore LockServer LockTheorems.
Local Open Scope Z_scope.

Section replicas.
Context {Cmd : Type} `{Gob Cmd}.
Implicit Types (c : RaftCluster.Cluster Cmd).

(** The tester passes.  Fed what the peers of an orderly cluster deliver,
    in any interleaving, the appliers of the tester never stop the test and
    record every command under its index. *)
Theorem orderly_cluster_passes `{EqDecision Cmd} n b c ms :
  RaftCluster.reach n orderly c -> (forall i m, (i, m) ∈ ms -> (i < n)%nat) ->
  (forall i s, RaftCluster.servers c !! i = Some s -> msgs_of i ms `prefix_of` applied s) ->
  exists T, apply_all ms (tally (empty_config n b)) = Ok T /\
    forall i m, (i, m) ∈ ms -> exists l, logs T !! i = Some l /\
      l !! CommandIndex m = Some (mkEntry (CommandValid m) (am_Command m)).
Proof.
  intros Hr Hrng Hpre. destruct (reach_cinv _ _ Hr) as (g & h & Hc & Hap).
  assert (forall i m, (i, m) ∈ ms -> stored n h m) as Hst.
  { intros i m Hm. destruct (lookup_lt_is_Some_2 (RaftCluster.servers c) i) as [s Hs].
    { rewrite (wf_size _ _ (wf_reach _ _ _ Hr)). by eapply Hrng. }
    apply (proj1 (Forall_forall _ _) (Hap _ _ Hs)). eapply elem_of_prefix; [|by eapply Hpre].
    apply list_elem_of_fmap. exists (i, m). split; [done|]. by apply list_elem_of_filter. }
  assert (agree ms) as Hag.
  { intros i j m m' Hm Hm' E. by rewrite (stored_agree _ _ _ _ _ _ _ Hc (Hst _ _ Hm) (Hst _ _ Hm') E). }
  destruct (apply_all_spec n ms _ (tallied_empty n b) (deliveries_in_order n orderly c ms Hr Hrng Hpre))
    as [(T & E & Ht)|[_ Hno]]; [|done].
  exists T. split; [done|]. intros i m Hm.
  destruct (lookup_lt_is_Some_2 (logs T) i) as [l Hl];
    [rewrite (sz_logs _ _ (td_sized _ _ _ Ht)); by eapply Hrng|].
  exists l. split; [done|]. apply (td_logs _ _ _ Ht _ _ _ _ Hl). by exists m.
Qed.

(** C3: one history on the simulated network.  Start the tester's network
    with [make_config] and the peers on it, and let the goroutines of raft.go
    and labrpc.go run in any order, with the tester cutting links, deleting
    servers and making the network lossy as it likes, under the policy
    [InOrder]: no peer crashes, no request is overtaken by a longer one of its
    term, and votes and acknowledgements are used only in the term they
    answer (without it the code fails, see RaftStateMachine).  Then whatever two peers deliver at an index is
    the same command. *)
Theorem one_history_over_labrpc `{EqDecision Cmd, Codec (msg (Cmd := Cmd))} n b rnd
    (cfg : config Cmd) ls s i j si sj m m' :
  (forall v : msg (Cmd := Cmd), is_Some (encode v)) ->
  make_config n b rnd = Ok cfg ->
  sys_run (tester_end cfg) InOrder ls (sys_init n (tester_world cfg)) = Some (Ok s) ->
  nodes s !! i = Some si -> nodes s !! j = Some sj ->
  m ∈ applied si -> m' ∈ applied sj -> CommandIndex m = CommandIndex m' -> m = m'.
Proof.
  intros Hcod Hm HR Hi Hj Hin Hin'. pose proof (make_config_wired _ _ _ _ Hm) as Hwi.
  destruct (sys_init_ok _ _ _ _ Hwi) as (Hw & Hv & E).
  destruct (sys_run_sim _ _ Hcod InOrder n ls _ _ Hw Hv HR) as (_ & _ & cls & Hc). rewrite E in Hc.
  destruct (reach_cinv n (RaftOverLabrpc.abs s)) as (g & h & Hci & Hap); [by eapply run_init_reach|].
  eapply stored_agree; [exact Hci| |].
  - by apply (proj1 (Forall_forall _ _) (Hap i si Hi)).
  - by apply (proj1 (Forall_forall _ _) (Hap j sj Hj)).
Qed.
End replicas.

(** ** The lock service *)

Lemma commands_app ms ms' : commands (ms ++ ms') = commands ms ++ commands ms'.
Proof. apply omap_app. Qed.

Lemma machine_run_app ops ops' :
  machine_run (ops ++ ops') = foldl (fun m op => machine_step op m) (machine_run ops) ops'.
Proof. unfold machine_run. apply foldl_app. Qed.

(** C8: the lock service is one lock table.  Let two lock servers, with any
    handlers running and whoever leads, receive what two peers of a cluster
    deliver in an orderly execution: no crashes, no request overtaken by a
    longer one of its term, votes and acknowledgements used only in the term
    they answer.  The one that received fewer messages is a past state of
    the other: it received the same first messages, and the other's table and
    duplicate filter are its own after the commands that follow; after equally
    many messages they are equal. *)
Theorem lock_replicas_agree `{Gob Op} n (c : RaftCluster.Cluster Op) i j s s' ends ends' rt rt' :
  RaftCluster.reach n orderly c ->
  RaftCluster.servers c !! i = Some s -> RaftCluster.servers c !! j = Some s' ->
  rt_reach ends rt -> rt_reach ends' rt' ->
  rt_applied rt `prefix_of` applied s -> rt_applied rt' `prefix_of` applied s' ->
  (length (rt_applied rt) <= length (rt_applied rt'))%nat ->
  exists later, rt_applied rt' = rt_applied rt ++ later /\
    machine_of (rt_ls rt') =
      foldl (fun m op => machine_step op m) (machine_of (rt_ls rt)) (commands later).
Proof.
  intros Hr Hi Hj Hrt%rt_reach_inv Hrt'%rt_reach_inv Hp Hp' Hlen.
  destruct (orderly_history _ _ _ _ _ _ _ _ Hr Hi Hj Hp Hp' Hlen) as [later E].
  exists later. split; [done|].
  by rewrite (rt_machine _ Hrt), (rt_machine _ Hrt'), E, commands_app, machine_run_app.
Qed.

(** ** Witnesses *)

Lemma orderly_cluster_passes_witness :
  is_ok (apply_all (delivered_by orderly_run) (tally (empty_config 3 true))) = true.
Proof.
  destruct (orderly_cluster_passes 3 true orderly_run (delivered_by orderly_run) orderly_run_reach)
    as (T & E & _).
  - intros i m Hin. assert (Forall (fun x => (x.1 < 3)%nat) (delivered_by orderly_run)) as Hall
      by (vm_compute; repeat constructor).
    exact (proj1 (Forall_forall _ _) Hall (i, m) Hin).
  - intros i s Hs. destruct i as [|[|[|i]]];
      [vm_compute in Hs; injection Hs as <-; vm_compute; exists []; reflexivity..|].
    vm_compute in Hs. discriminate Hs.
  - rewrite E. reflexivity.
Defined.

(** A command is replicated and committed, call by call, on the network of
    [elect]: peer 1 acknowledges, and learns from the next heartbeat that the
    entry is committed. *)
Definition replicate_call (k : nat) : list Zlabel :=
  [SRead 0; STimeout 0; SRead 1] ++ arrive k ++ [SWake 1 k] ++ return_ k.

Definition commit_7 : list Zlabel :=
  elect ++ [SClient 0 7] ++ replicate_call 4 ++ replicate_call 6.

Definition history_of (i : nat) (s : ZSys) : list (ApplyMsg Z) :=
  match nodes s !! i with Some sv => applied sv | None => [] end.

Definition in_order_after : ZSys :=
  match sys_run (tester_end demo_config) InOrder commit_7 sys_demo with
  | Some (Ok s) => s
  | _ => sys_demo
  end.

Lemma in_order_run :
  sys_run (tester_end demo_config) InOrder commit_7 sys_demo = Some (Ok in_order_after).
Proof.
  assert (match sys_run (tester_end demo_config) InOrder commit_7 sys_demo with
    | Some (Ok _) => true | _ => false end = true) as Hok by (vm_compute; reflexivity).
  unfold in_order_after. by destruct (sys_run _ _ _ _) as [[]|].
Qed.

Lemma history_node i s m :
  m ∈ history_of i s -> exists sv, nodes s !! i = Some sv /\ m ∈ applied sv.
Proof.
  unfold history_of. destruct (nodes s !! i) as [sv|]; [by exists sv|by intros ?%elem_of_nil].
Qed.

Lemma one_history_over_labrpc_witness :
  exists m m', m ∈ history_of 0 in_order_after /\ m' ∈ history_of 1 in_order_after /\ m = m'.
Proof.
  assert (history_of 0 in_order_after = [mkApplyMsg true (Some 7) 1]) as E0
    by (vm_compute; reflexivity).
  assert (history_of 1 in_order_after = [mkApplyMsg true (Some 7) 1]) as E1
    by (vm_compute; reflexivity).
  assert (mkApplyMsg true (Some 7) 1 ∈ history_of 0 in_order_after) as H0
    by (rewrite E0; apply list_elem_of_singleton; reflexivity).
  assert (mkApplyMsg true (Some 7) 1 ∈ history_of 1 in_order_after) as H1
    by (rewrite E1; apply list_elem_of_singleton; reflexivity).
  eexists _, _. split; [exact H0|]. split; [exact H1|].
  destruct (history_node _ _ _ H0) as (si & Hi & Hin).
  destruct (history_node _ _ _ H1) as (sj & Hj & Hin').
  exact (one_history_over_labrpc 3 true (demo_names 65) demo_config commit_7 in_order_after
    0 1 si sj _ _ codec_all demo_make in_order_run Hi Hj Hin Hin' eq_refl).
Defined.

#[export] Instance Op_countable : Countable Op :=
  inj_countable' (fun o => (op_Type o, op_Key o, op_ClientId o, op_RequestId o))
    (fun '(t, k, c, r) => mkOp t k c r) (fun o => match o with mkOp _ _ _ _ => eq_refl end).

(** The uneventful run of [RaftRuns] with a lock request for its command. *)
Definition with_command {A B} (x : B) (l : label A) : label B :=
  match l with
  | TickRead i => TickRead i
  | TickTimeout i => TickTimeout i
  | TickWake i k => TickWake i k
  | HandleRequest k => HandleRequest k
  | HandleReply k => HandleReply k
  | Drop k => Drop k
  | ClientStart i _ => ClientStart i x
  | Restart i => Restart i
  end.

Definition lock_k : Op := mkOp LockOp "k" 7 1.

(** The lock server of peer 0 has received the command, that of peer 1 has
    not yet: it is one step of the machine behind. *)
Lemma lock_replicas_agree_witness :
  let behind := rt_after {[7]} [] in
  let ahead := rt_after {[7]} [Apply true true (msg_of 1 lock_k)] in
  machine_of (rt_ls ahead) = machine_step lock_k (machine_of (rt_ls behind)) /\
  fst (machine_of (rt_ls ahead)) !! "k"%string = Some [7].
Proof.
  intros behind ahead.
  destruct (run orderly (with_command lock_k <$> normal_schedule) (init 3)) as [[c|]|] eqn:E;
    [|vm_compute in E; discriminate E..].
  pose proof (run_init_reach 3 orderly _ _ E) as Hr. vm_compute in E. injection E as <-.
  destruct (lock_replicas_agree 3 _ 1 0 _ _ {[7]} {[7]} behind ahead Hr eq_refl eq_refl
    (rt_after_reach _ _) (rt_after_reach _ _)) as (later & El & Em);
    [eexists; reflexivity|vm_compute; exists []; reflexivity|vm_compute; lia|].
  assert (rt_applied ahead = [msg_of 1 lock_k]) as Ea by (vm_compute; reflexivity).
  assert (rt_applied behind = []) as Eb by reflexivity.
  rewrite Ea, Eb in El. simpl in El. subst later.
  split; [exact Em|]. vm_compute. reflexivity.
Defined.
