(* ===== verification/LockSystemRuns.v ===== *)
(** * raft-lock: runs of the whole lock service

    Three servers and two clerks: the first locks a key while its request is
    retried and a copy comes late, the second waits for the lock and gets it
    when the first unlocks. *)

From Stdlib Require Import ZArith Lia.
From stdpp Require Import base numbers strings gmap list.
From S2P Require Import Prelude RaftNode RaftCluster RaftRuns RaftReplicas.
From S2P Require Import LockStore LockServer LockTheorems LockClerk LockSystem LockSystemTheorems.
Local Open Scope Z_scope.

(** Peer 0 is elected by peer 1. *)
Definition elect : list sys_label :=
  Peers <$> [TickRead 0; TickTimeout 0; HandleRequest 0; TickRead 1; TickWake 1 0; HandleReply 0;
             Drop 0; Drop 0; Drop 0].

(** A heartbeat of peer 0 reaches peer 1, and the reply comes back. *)
Definition heartbeat : list sys_label :=
  Peers <$> [TickRead 0; TickTimeout 0; Drop 1; HandleRequest 0; TickRead 1; TickWake 1 0; HandleReply 0].

Definition service_schedule : list sys_label :=
  elect ++
  [CallMutex 7 "k" LockOp; CallMutex 9 "k" LockOp;
   Deliver 0; RegisterChannel 0; CallFails 7;       (* 7 gives up and asks server 1 *)
   Deliver 2; CallReturns 7;                        (* which is no leader: server 2 *)
   Deliver 3; CallReturns 7;                        (* nor is that: server 0 again *)
   Deliver 4; RegisterChannel 4; Deliver 1; RegisterChannel 1] ++
  heartbeat ++ heartbeat ++
  [Take 0 true true; ReceiveOp 0; Take 0 true true; ReceiveOp 4; CallReturns 7;
   Take 0 true true; ReceiveOp 1; CallReturns 9;
   CallMutex 7 "k" UnlockOp; Deliver 5; RegisterChannel 5] ++
  heartbeat ++ heartbeat ++
  [Take 0 true true; ReceiveOp 5; CallReturns 7; Take 1 false false; Take 1 false false].

Definition service_start : System := sys_init 3 {[7; 9]}.
Definition service_end : System :=
  match sys_run service_schedule service_start with Some (Ok s) => s | _ => service_start end.

Lemma service_runs : sys_run service_schedule service_start = Some (Ok service_end).
Proof.
  unfold service_end. destruct (sys_run service_schedule service_start) as [[s|p]|] eqn:E; [done|..];
    vm_compute in E; discriminate E.
Qed.

Lemma service_reached : sys_reach 3 {[7; 9]} service_end.
Proof. eapply sys_run_reach; [constructor|apply service_runs]. Qed.

(** The first request of client 7 is twice in the log, and once in the order. *)
Lemma service_order :
  history (cluster service_end) =
    [mkOp LockOp "k" 7 1; mkOp LockOp "k" 7 1; mkOp LockOp "k" 9 1; mkOp UnlockOp "k" 7 2] /\
  order service_end = [mkOp LockOp "k" 7 1; mkOp LockOp "k" 9 1; mkOp UnlockOp "k" 7 2] /\
  grants service_end = [mkGrant 1 7 "k"; mkGrant 4 9 "k"].
Proof. vm_compute. done. Qed.

Lemma lock_service_linearizable_witness :
  linearization (trace service_end) (order service_end) /\
  exists r k, replicas service_end !! 1%nat = Some r /\ store (rep r) = plain_run (take k (order service_end)).
Proof.
  assert (0 < 3)%nat as Hn by lia.
  destruct (lock_service_linearizable 3 {[7; 9]} service_end Hn service_reached) as [Hl Hr].
  split; [exact Hl|]. destruct (replicas service_end !! 1%nat) as [r|] eqn:E.
  - destruct (Hr 1%nat r E) as [k Hk]. exists r, k. split; [reflexivity|exact Hk].
  - exfalso. vm_compute in E. discriminate E.
Defined.

Lemma locks_go_to_owners_witness :
  lock_owner (plain_run (first_requests [] (take 4 (history (cluster service_end))))) "k" = Some 9.
Proof.
  assert (0 < 3)%nat as Hn by lia.
  assert (mkGrant 4 9 "k" ∈ grants service_end) as Hg.
  { rewrite (proj2 (proj2 service_order)). right. left. }
  destruct (proj2 (locks_go_to_owners 3 {[7; 9]} service_end (mkGrant 4 9 "k") Hn service_reached Hg))
    as [Ho|[E _]]; [exact Ho|discriminate E].
Defined.

Lemma lock_order_grows_witness :
  order service_start `prefix_of` order service_end /\ order service_start = [].
Proof.
  assert (0 < 3)%nat as Hn by lia. split; [|vm_compute; reflexivity].
  exact (lock_order_grows 3 {[7; 9]} service_start service_schedule service_end Hn
    (sys_reach_init 3 {[7; 9]}) service_runs).
Defined.

Lemma lock_service_no_panic_witness : sys_step (Take 2 true true) service_end <> Some (Panic TypeAssertion).
Proof.
  assert (0 < 3)%nat as Hn by lia. assert (Z.of_nat 3 < 2 ^ 31) as Hm by lia.
  exact (lock_service_no_panic 3 {[7; 9]} service_end (Take 2 true true) TypeAssertion Hn Hm service_reached).
Defined.

(** ** Client 0

    [getLockOwner] returns 0 for a lock that nobody has: when the owner
    unlocks, a client with that number is told that the lock is its own. *)
Theorem free_lock_told_to_client_zero :
  exists ls, applyToStateMachine (mkLockServer {[0; 5]} {["k"%string := [5]]} ∅ ∅) true true (mkOp UnlockOp "k" 5 1)
    = Ok (ls, [SendEvent (mkEvent UnlockOp ServerEvent "k" 5); CallReceiveLock 0 "k"]) /\
  lock_owner (store ls) "k" = None.
Proof. eexists. split; vm_compute; reflexivity. Qed.

(** ** A lost hand-over

    [isLeader()] is what the peer says when its lock server applies the
    command. *)
Definition truthful (l : sys_label) (s : System) : bool :=
  match l with
  | Take j lead lead' =>
    match servers (cluster s) !! j with
    | Some p => let leads := bool_decide (state (rf p) = Leader) in Bool.eqb lead leads && Bool.eqb lead' leads
    | None => true
    end
  | _ => true
  end.

Fixpoint truthful_run (ls : list sys_label) (s : System) : option System :=
  match ls with
  | [] => Some s
  | l :: ls =>
    if truthful l s && sys_orderly l s then match sys_step l s with Some (Ok s) => truthful_run ls s | _ => None end else None
  end.

Lemma truthful_reach n ids ls s s' :
  sys_reach n ids s -> truthful_run ls s = Some s' -> sys_reach n ids s'.
Proof.
  revert s. induction ls as [|l ls IH]; intros s Hs; simpl; [by intros [= <-]|].
  destruct (truthful l s && sys_orderly l s) eqn:Ho; [|done].
  apply andb_true_iff in Ho as [_ Ho]. destruct (sys_step l s) as [[s1|]|] eqn:E; [|done..].
  apply IH. by eapply sys_reach_step.
Qed.

(** A heartbeat that reaches both followers. *)
Definition heartbeat_all : list sys_label :=
  Peers <$> [TickRead 0; TickTimeout 0; HandleRequest 0; HandleRequest 1; TickRead 1; TickWake 1 0;
             TickRead 2; TickWake 2 1; HandleReply 0; HandleReply 0].

(** Client 7 holds the lock and client 9 waits for it.  7 unlocks; the
    followers apply the command as followers, and before the lock server of
    the leader does, peer 1 is elected. *)
Definition lost_schedule : list sys_label :=
  elect ++
  [CallMutex 7 "k" LockOp; CallMutex 9 "k" LockOp;
   Deliver 0; RegisterChannel 0; Deliver 1; RegisterChannel 1] ++
  heartbeat_all ++ heartbeat_all ++
  [Take 0 true true; ReceiveOp 0; Take 0 true true; ReceiveOp 1; CallReturns 7; CallReturns 9;
   CallMutex 7 "k" UnlockOp; Deliver 2; RegisterChannel 2] ++
  heartbeat_all ++ heartbeat_all ++
  replicate 3 (Take 1 false false) ++ replicate 3 (Take 2 false false) ++
  (Peers <$> [TickRead 1; TickTimeout 1; HandleRequest 0; HandleRequest 1;
              TickRead 0; TickWake 0 0; HandleReply 0]) ++
  [Take 0 false false; ReceiveOp 2; CallReturns 7].

(** The new owner is never told: every server has applied everything in the
    logs, every table gives the key to client 9, whose [Lock] has returned,
    and nobody called its [ReceiveLock]; no server will, because a command is
    applied once. *)
Theorem hand_over_lost : exists s,
  truthful_run lost_schedule service_start = Some s /\ sys_reach 3 {[7; 9]} s /\
  Completed (mkOp LockOp "k" 9 1) ∈ trace s /\
  Forall (fun p => length (log (rf p)) = 4%nat) (servers (cluster s)) /\
  Forall (fun r => length (taken r) = 3%nat /\ owner_of (store (rep r)) "k" = 9) (replicas s) /\
  Forall (fun g => gr_client g <> 9) (grants s).
Proof.
  destruct (truthful_run lost_schedule service_start) as [s|] eqn:E; [|vm_compute in E; discriminate E].
  exists s. split; [done|].
  split; [eapply truthful_reach; [apply (sys_reach_init 3 {[7; 9]})|exact E]|].
  vm_compute in E. injection E as <-. cbn [trace cluster servers replicas grants].
  split; [apply list_elem_of_In; vm_compute; tauto|].
  split_and!; repeat constructor; vm_compute; congruence.
Qed.
