(* ===== verification/ApplyPipeline.v ===== *)
(** * raft.go and server.go: the channel between Raft and the lock server

    The goroutine that commits entries sends them on [applyCh] (capacity 1,
    [StartLockServer]) while it holds [rf.mu]; the receiver, [applyOpsLoop],
    asks [rf.GetState()], which takes [rf.mu], before it receives the next
    message.  [pipe_step] is the interleaving of the two. *)

From Stdlib Require Import ZArith Lia.
From stdpp Require Import base numbers strings gmap list.
From S2P Require Import Prelude RaftNode RaftNodeFacts LockStore LockServer LockTheorems.
Local Open Scope Z_scope.

(** The receiver: at [<-ls.applyCh], or at [ls.isLeader()] with a new command. *)
Inductive Receiver := Idle | Asking (msg : ApplyMsg Op).

(** [todo]: what the committing goroutine has yet to send; [rf_mu]: it holds
    [rf.mu]; [chan]: the buffer of [applyCh]. *)
Record Pipe := mkPipe {
  todo : list (ApplyMsg Op);
  rf_mu : bool;
  chan : list (ApplyMsg Op);
  receiver : Receiver;
  server : LockServer;
}.

Inductive pipe_label :=
| Send                          (* rf.applyCh <- ApplyMsg{...} *)
| Release                       (* the loop is over: rf.mu.Unlock() *)
| Receive                       (* msg := <-ls.applyCh *)
| Answer (lead lead' : bool).   (* GetState() returns; the iteration completes *)

(** Whether the iteration for [msg] calls [rf.GetState()]. *)
Definition asks_state (ls : LockServer) (msg : ApplyMsg Op) : bool :=
  CommandValid msg &&
  match am_Command msg with Some op => is_fresh ls op | None => false end.

Definition finish (p : Pipe) (c : list (ApplyMsg Op)) (lead lead' : bool) (msg : ApplyMsg Op)
    : option (result Pipe) :=
  match applyOp (server p) lead lead' msg with
  | Panic e => Some (Panic e)
  | Ok None => None
  | Ok (Some (ls, _)) => Some (Ok (mkPipe (todo p) (rf_mu p) c Idle ls))
  end.

Definition pipe_step (l : pipe_label) (p : Pipe) : option (result Pipe) :=
  match l with
  | Send =>
    match todo p with
    | m :: t =>
      if decide (rf_mu p = true /\ len (chan p) < 1) then
        Some (Ok (mkPipe t true (chan p ++ [m]) (receiver p) (server p)))
      else None
    | [] => None
    end
  | Release =>
    match todo p with
    | [] => if rf_mu p then Some (Ok (mkPipe [] false (chan p) (receiver p) (server p))) else None
    | _ :: _ => None
    end
  | Receive =>
    match receiver p, chan p with
    | Idle, m :: c =>
      if asks_state (server p) m then Some (Ok (mkPipe (todo p) (rf_mu p) c (Asking m) (server p)))
      else finish p c false false m
    | _, _ => None
    end
  | Answer lead lead' =>
    match receiver p with
    | Asking m => if rf_mu p then None else finish p (chan p) lead lead' m
    | Idle => None
    end
  end.

Fixpoint pipe_run (ls : list pipe_label) (p : Pipe) : option (result Pipe) :=
  match ls with
  | [] => Some (Ok p)
  | l :: ls =>
    r ← pipe_step l p;
    match r with Ok p => pipe_run ls p | Panic e => Some (Panic e) end
  end.

Definition stuck (p : Pipe) : Prop := forall l, pipe_step l p = None.

(** A goroutine that holds [rf.mu] is about to send [msgs]. *)
Definition pipe_start (ls : LockServer) (msgs : list (ApplyMsg Op)) : Pipe :=
  mkPipe msgs true [] Idle ls.

(** ** Three new commands in a row *)

(** The states between the start and the deadlock, by number of steps. *)
Definition filling (ls : LockServer) (m1 m2 m3 : ApplyMsg Op) rest (k : nat) : Pipe :=
  match k with
  | 0%nat => mkPipe (m1 :: m2 :: m3 :: rest) true [] Idle ls
  | 1%nat => mkPipe (m2 :: m3 :: rest) true [m1] Idle ls
  | 2%nat => mkPipe (m2 :: m3 :: rest) true [] (Asking m1) ls
  | _ => mkPipe (m3 :: rest) true [m2] (Asking m1) ls
  end.

Lemma filling_step ls m1 m2 m3 rest k l r :
  asks_state ls m1 = true -> (k <= 3)%nat ->
  pipe_step l (filling ls m1 m2 m3 rest k) = Some r ->
  (k < 3)%nat /\ r = Ok (filling ls m1 m2 m3 rest (S k)).
Proof.
  intros Hask Hk Hst.
  destruct k as [|[|[|k]]]; destruct l; simpl in Hst; try done;
    rewrite ?Hask in Hst; injection Hst as <-; by split; [lia|].
Qed.

Lemma filling_enabled ls m1 m2 m3 rest k :
  asks_state ls m1 = true -> (k < 3)%nat -> ~ stuck (filling ls m1 m2 m3 rest k).
Proof.
  intros Hask Hk Hstuck. destruct k as [|[|[|k]]]; [| | |lia].
  - by specialize (Hstuck Send).
  - specialize (Hstuck Receive). simpl in Hstuck. by rewrite Hask in Hstuck.
  - by specialize (Hstuck Send).
Qed.

Lemma filling_run ls m1 m2 m3 rest labels k r :
  asks_state ls m1 = true -> (k <= 3)%nat ->
  pipe_run labels (filling ls m1 m2 m3 rest k) = Some r ->
  (k + length labels <= 3)%nat /\ r = Ok (filling ls m1 m2 m3 rest (k + length labels)).
Proof.
  intros Hask. revert k. induction labels as [|l labels IH]; intros k Hk Hrun; simpl in *.
  { injection Hrun as <-. rewrite Nat.add_0_r. split; [lia|done]. }
  apply bind_Some in Hrun as (q & Hst & Hrun).
  apply (filling_step ls m1 m2 m3 rest k) in Hst as [Hlt ->]; [|done|done].
  replace (k + S (length labels))%nat with (S k + length labels)%nat by lia.
  apply IH; [lia|done].
Qed.

(** C37: catching up deadlocks.  When a follower learns in one AppendEntries
    that three or more entries are committed and the first is a command its
    lock server has not applied, then after exactly three steps of the two
    goroutines, in every interleaving, neither can ever move again, and
    [rf.mu] is held: the replica is dead. *)
Theorem catching_up_deadlocks r args r' reply m1 m2 m3 rest op ls labels q :
  AppendEntries r args = Ok (r', reply, m1 :: m2 :: m3 :: rest) ->
  am_Command m1 = Some op -> is_fresh ls op = true ->
  pipe_run labels (pipe_start ls (m1 :: m2 :: m3 :: rest)) = Some q ->
  exists p, q = Ok p /\ rf_mu p = true /\ (length labels <= 3)%nat /\
    (stuck p <-> length labels = 3%nat).
Proof.
  intros [Hv _]%AppendEntries_valid%Forall_cons Hc Hf Hrun.
  assert (asks_state ls m1 = true) as Hask by (unfold asks_state; by rewrite Hv, Hc).
  apply (filling_run ls m1 m2 m3 rest labels 0) in Hrun as [Hle ->]; [|done|lia].
  simpl in *. eexists. split; [done|].
  assert (rf_mu (filling ls m1 m2 m3 rest (length labels)) = true) as ->
    by (destruct (length labels) as [|[|[|?]]]; done).
  split; [done|]. split; [done|]. split.
  - intros Hs. destruct (decide (length labels < 3)%nat) as [Hlt|]; [|lia].
    by apply filling_enabled in Hs.
  - intros ->. intros l. destruct (pipe_step l _) as [x|] eqn:E; [|done].
    apply (filling_step ls m1 m2 m3 rest 3) in E as [? _]; [lia|done|lia].
Qed.

(** A follower one heartbeat away from committing three commands. *)
Definition late_follower : Raft Op :=
  mkRaft 3 1 false Follower 0 1 0 [mkLogEntry 0 None] 0 0 [] [].

Definition late_ops : list Op := [mkOp LockOp "k" 7 1; mkOp LockOp "k" 8 1; mkOp LockOp "k" 9 1].

Definition late_args : AppendEntriesArgs Op :=
  mkAppendEntriesArgs 1 0 0 0 ((fun o => mkLogEntry 1 (Some o)) <$> late_ops) 3.

Definition late_msgs : list (ApplyMsg Op) :=
  [msg_of 1 (mkOp LockOp "k" 7 1); msg_of 2 (mkOp LockOp "k" 8 1); msg_of 3 (mkOp LockOp "k" 9 1)].

Lemma catching_up_deadlocks_witness :
  exists p, pipe_run [Send; Receive; Send] (pipe_start (StartLockServer ∅) late_msgs) = Some (Ok p) /\
    stuck p.
Proof.
  destruct (pipe_run [Send; Receive; Send] (pipe_start (StartLockServer ∅) late_msgs)) as [q|] eqn:E;
    [|discriminate].
  destruct (AppendEntries late_follower late_args) as [[[r' reply] ms]|] eqn:HA; [|discriminate].
  assert (ms = late_msgs) as -> by (vm_compute in HA; injection HA as <- <- <-; reflexivity).
  destruct (catching_up_deadlocks late_follower late_args r' reply
    (msg_of 1 (mkOp LockOp "k" 7 1)) (msg_of 2 (mkOp LockOp "k" 8 1))
    (msg_of 3 (mkOp LockOp "k" 9 1)) [] (mkOp LockOp "k" 7 1) (StartLockServer ∅)
    [Send; Receive; Send] q) as (p & -> & _ & _ & Hs);
    [exact HA|reflexivity|reflexivity|exact E|].
  exists p. split; [reflexivity|]. apply Hs. reflexivity.
Defined.

(** ** At most two commands *)

(** The lock server can take [msgs]: each carries a command, and the channel
    of its index is empty. *)
Definition takes (ls : LockServer) (msgs : list (ApplyMsg Op)) : Prop :=
  wf_store (store ls) /\ NoDup (CommandIndex <$> msgs) /\
  Forall (fun m => CommandValid m = true /\ is_Some (am_Command m) /\
    default [] (results ls !! CommandIndex m) = []) msgs.

Lemma takes_first ls m msgs lead lead' :
  takes ls (m :: msgs) ->
  exists ls' out, applyOp ls lead lead' m = Ok (Some (ls', out)) /\ takes ls' msgs.
Proof.
  intros (Hw & Hnd & Hall). apply NoDup_cons in Hnd as [Hni Hnd].
  apply Forall_cons in Hall as [(Hv & [op Hc] & Hch) Hall].
  destruct (applyOp_spec ls lead lead' m op Hw Hv Hc) as (out & ->). rewrite Hch. simpl.
  eexists _, _. split; [done|]. split; [by apply machine_step_wf|]. split; [done|].
  apply Forall_forall. intros x Hx. apply (proj1 (Forall_forall _ _) Hall) in Hx as Hx'.
  destruct Hx' as (? & ? & ?). split_and!; [done|done|]. simpl.
  rewrite lookup_insert_ne; [done|]. intros E. apply Hni. rewrite E. by apply list_elem_of_fmap_2.
Qed.

(** What is still to be taken, in order. *)
Definition in_flight (p : Pipe) : list (ApplyMsg Op) :=
  match receiver p with Asking m => [m] | Idle => [] end ++ chan p ++ todo p.

Record pipe_ok (p : Pipe) : Prop := {
  po_takes : takes (server p) (in_flight p);
  po_short : (length (in_flight p) <= 2)%nat;
  po_mu : rf_mu p = false -> todo p = [];
  po_chan : (length (chan p) <= 1 \/ rf_mu p = false)%nat;
}.

Lemma finish_ok p c lead lead' m :
  takes (server p) (m :: c ++ todo p) ->
  exists p', finish p c lead lead' m = Some (Ok p') /\
    todo p' = todo p /\ rf_mu p' = rf_mu p /\ chan p' = c /\ receiver p' = Idle /\
    takes (server p') (c ++ todo p).
Proof.
  intros Ht. unfold finish. destruct (takes_first _ _ _ lead lead' Ht) as (ls & out & -> & Ht').
  by eexists.
Qed.

(** Steps left: two for a message not yet sent, and so on. *)
Definition pipe_measure (p : Pipe) : nat :=
  3 * length (todo p) + 2 * length (chan p) +
  (match receiver p with Asking _ => 1 | Idle => 0 end) + (if rf_mu p then 1 else 0).

Lemma pipe_ok_step l p r :
  pipe_ok p -> pipe_step l p = Some r ->
  exists p', r = Ok p' /\ pipe_ok p' /\ (pipe_measure p' < pipe_measure p)%nat.
Proof.
  intros [Ht Hs Hm Hc] Hst. destruct p as [t mu c rc ls]. unfold in_flight in *. simpl in *.
  destruct l as [| | |lead lead']; simpl in Hst.
  - destruct t as [|m t]; [done|]. case_decide as Hd; [|done]. destruct Hd as [-> Hlen].
    injection Hst as <-. eexists. split; [done|]. split.
    + constructor; unfold in_flight; simpl; rewrite <- ?app_assoc; try done.
      left. destruct c; [simpl; lia|]. rewrite len_cons in Hlen. pose proof (len_nonneg c). lia.
    + unfold pipe_measure. simpl. rewrite length_app. simpl. lia.
  - destruct t; [|done]. destruct mu; [|done]. injection Hst as <-. eexists. split; [done|]. split.
    + constructor; unfold in_flight; simpl; try done. by right.
    + unfold pipe_measure. simpl. lia.
  - destruct rc; [|done]. destruct c as [|m c]; [done|].
    destruct (asks_state ls m).
    + injection Hst as <-. eexists. split; [done|]. split.
      * constructor; unfold in_flight; simpl; try done. simpl in Hc. destruct Hc; [left; lia|by right].
      * unfold pipe_measure. simpl. lia.
    + destruct (finish_ok (mkPipe t mu (m :: c) Idle ls) c false false m Ht)
        as (p' & E & Et & Em & Ec & Er & Htk).
      rewrite E in Hst. injection Hst as <-. eexists. split; [done|]. simpl in *. split.
      * constructor; unfold in_flight; rewrite ?Et, ?Em, ?Ec, ?Er; simpl; try done; try lia.
        destruct Hc; [left; lia|by right].
      * unfold pipe_measure. rewrite Et, Em, Ec, Er. simpl. lia.
  - destruct rc as [|m]; [done|]. destruct mu; [done|].
    destruct (finish_ok (mkPipe t false c (Asking m) ls) c lead lead' m Ht)
      as (p' & E & Et & Em & Ec & Er & Htk).
    rewrite E in Hst. injection Hst as <-. eexists. split; [done|]. simpl in *. split.
    + constructor; unfold in_flight; rewrite ?Et, ?Em, ?Ec, ?Er; simpl; try done; try lia.
    + unfold pipe_measure. rewrite Et, Em, Ec, Er. simpl. lia.
Qed.

Lemma pipe_ok_stuck p :
  pipe_ok p -> stuck p -> in_flight p = [] /\ rf_mu p = false.
Proof.
  intros [Ht Hs Hm Hc] Hst. destruct p as [t mu c rc ls]. unfold in_flight in *. simpl in *.
  destruct mu.
  - destruct t as [|m t]; [by specialize (Hst Release)|]. exfalso.
    destruct c as [|x c]; [by specialize (Hst Send)|].
    destruct rc as [|y]; [|simpl in Hs; rewrite length_app in Hs; simpl in Hs; lia].
    specialize (Hst Receive). simpl in Hst. destruct (asks_state ls x); [done|].
    by destruct (finish_ok (mkPipe (m :: t) true (x :: c) Idle ls) c false false x Ht)
      as (p' & E & _); rewrite E in Hst.
  - rewrite Hm in * by done. destruct rc as [|m].
    + destruct c as [|x c]; [done|]. exfalso. specialize (Hst Receive). simpl in Hst.
      destruct (asks_state ls x); [done|].
      by destruct (finish_ok (mkPipe [] false (x :: c) Idle ls) c false false x Ht)
        as (p' & E & _); rewrite E in Hst.
    + exfalso. specialize (Hst (Answer false false)). simpl in Hst.
      by destruct (finish_ok (mkPipe [] false c (Asking m) ls) c false false m Ht)
        as (p' & E & _); rewrite E in Hst.
Qed.

Lemma pipe_ok_run labels p r :
  pipe_ok p -> pipe_run labels p = Some r ->
  exists p', r = Ok p' /\ pipe_ok p' /\ (pipe_measure p' + length labels <= pipe_measure p)%nat.
Proof.
  revert p. induction labels as [|l labels IH]; intros p Hp Hrun; simpl in *.
  { injection Hrun as <-. exists p. split; [done|]. split; [done|lia]. }
  apply bind_Some in Hrun as (x & Hst & Hrun).
  destruct (pipe_ok_step l p x Hp Hst) as (p1 & -> & Hp1 & Hlt).
  destruct (IH p1 Hp1 Hrun) as (p' & -> & ? & ?). exists p'. split; [done|]. split; [done|lia].
Qed.

(** Up to two commands are delivered.  When Raft commits at most two
    commands at a time, no interleaving panics, every interleaving ends
    within seven steps, and where it ends the lock server has applied them
    all and [rf.mu] is free. *)
Theorem short_batch_delivered ls msgs labels q :
  takes ls msgs -> (length msgs <= 2)%nat ->
  pipe_run labels (pipe_start ls msgs) = Some q ->
  exists p, q = Ok p /\ (length labels <= 7)%nat /\
    (stuck p -> in_flight p = [] /\ rf_mu p = false).
Proof.
  intros Ht Hlen Hrun.
  assert (pipe_ok (pipe_start ls msgs)) as Hok by (constructor; simpl; try done; left; lia).
  destruct (pipe_ok_run labels _ q Hok Hrun) as (p & -> & Hp & Hm). exists p.
  split; [done|]. split; [unfold pipe_measure in Hm; simpl in Hm; lia|]. by apply pipe_ok_stuck.
Qed.

Definition two_schedule : list pipe_label :=
  [Send; Receive; Send; Release; Answer true true; Receive; Answer true true].

Lemma short_batch_delivered_witness :
  exists p, pipe_run two_schedule (pipe_start (StartLockServer ∅) (take 2 late_msgs))
    = Some (Ok p) /\ in_flight p = [].
Proof.
  destruct (pipe_run two_schedule (pipe_start (StartLockServer ∅) (take 2 late_msgs)))
    as [q|] eqn:E; [|discriminate].
  destruct (short_batch_delivered (StartLockServer ∅) (take 2 late_msgs) two_schedule q)
    as (p & -> & _ & Hs).
  - split; [apply map_Forall_empty|]. split.
    + repeat constructor; set_solver.
    + repeat constructor; by eexists.
  - simpl. lia.
  - exact E.
  - exists p. split; [reflexivity|]. apply Hs. vm_compute in E. injection E as <-.
    intros []; reflexivity.
Defined.
