(* ===== verification/Bank.v ===== *)
(** * bank/bank.go: a bank with one lock per account

    Each method is a [prog]: the sequence of its accesses to shared memory
    (the two kinds of mutexes, the map of accounts, the balances), with the
    computation in between as ordinary functions.  [pstep] executes one
    access; [cstep] interleaves goroutines, each running one method.  An
    account is never removed from the map, so its id stands for the pointer
    [b.accounts[id]]; using the nil pointer of a missing account panics.
    [DPrintf] is off ([Debug = false]) and the notification methods are
    empty, so they have no access.

    [seq_call] is what each method promises: its effect on the balances when
    it runs alone. *)

From Stdlib Require Import ZArith Lia.
From stdpp Require Import base numbers strings gmap list.
From S2P Require Import Prelude.
Local Open Scope Z_scope.

Record Account := mkAccount { balance : Z; acc_lock : bool }.

Record Bank := mkBank { bankLock : bool; accounts : gmap Z Account }.

Definition BankInit : Bank := mkBank false ∅.

Inductive value := VUnit | VBool (b : bool) | VInt (z : Z).

#[export] Instance value_eq_dec : EqDecision value.
Proof. solve_decision. Defined.

Inductive prog :=
| Return (v : value)
| PanicWith (e : panic)
| LockBank (k : prog)
| UnlockBank (k : prog)
| Find (id : Z) (k : bool -> prog)       (* b.accounts[id] != nil *)
| Insert (id : Z) (k : prog)             (* b.accounts[id] = &Account{0, ...} *)
| LockAcc (id : Z) (k : prog)
| UnlockAcc (id : Z) (k : prog)
| Load (id : Z) (k : Z -> prog)          (* account.balance *)
| Store (id : Z) (z : Z) (k : prog).     (* account.balance = z *)

(** Calls one method after another. *)
Fixpoint andThen (p : prog) (f : value -> prog) : prog :=
  match p with
  | Return v => f v
  | PanicWith e => PanicWith e
  | LockBank k => LockBank (andThen k f)
  | UnlockBank k => UnlockBank (andThen k f)
  | Find id k => Find id (fun b => andThen (k b) f)
  | Insert id k => Insert id (andThen k f)
  | LockAcc id k => LockAcc id (andThen k f)
  | UnlockAcc id k => UnlockAcc id (andThen k f)
  | Load id k => Load id (fun z => andThen (k z) f)
  | Store id z k => Store id z (andThen k f)
  end.

(** ** The methods *)

Definition CreateAccount (accountID : Z) : prog :=
  LockBank (
  Find accountID (fun exists_ =>
  if exists_ then PanicWith (PanicMsg "Account already exists")
  else
  Insert accountID (
  UnlockBank (
  Return VUnit)))).

Definition Deposit (accountID amount : Z) : prog :=
  LockBank (
  Find accountID (fun found =>
  LockAcc accountID (
  if negb found then PanicWith (PanicMsg "Account does not exist")
  else
  UnlockBank (
  Load accountID (fun balance =>
  let newBalance := wrap64 (balance + amount) in
  Store accountID newBalance (
  UnlockAcc accountID (
  Return VUnit))))))).

Definition Withdraw (accountID amount : Z) : prog :=
  LockBank (
  Find accountID (fun found =>
  if negb found then PanicWith (PanicMsg "Account does not exist")
  else
  UnlockBank (
  LockAcc accountID (
  Load accountID (fun balance =>
  if amount <=? balance then
    Load accountID (fun balance =>
    let newBalance := wrap64 (balance - amount) in
    Store accountID newBalance (
    UnlockAcc accountID (
    Return (VBool true))))
  else
    UnlockAcc accountID (
    Return (VBool false))))))).

Definition Transfer (sender receiver amount : Z) (allowOverdraw : bool) : prog :=
  LockBank (
  Find sender (fun found =>
  if negb found then PanicWith (PanicMsg "Sender account does not exist")
  else
  Find receiver (fun found =>
  if negb found then PanicWith (PanicMsg "Receiver account does not exist")
  else
  LockAcc sender (
  LockAcc receiver (
  UnlockBank (
  Load sender (fun balance =>
  if (amount <=? balance) || allowOverdraw then
    Load sender (fun balance =>
    Store sender (wrap64 (balance - amount)) (
    Load receiver (fun balance =>
    Store receiver (wrap64 (balance + amount)) (
    UnlockAcc sender (
    UnlockAcc receiver (
    Return (VBool true)))))))
  else
    UnlockAcc sender (
    UnlockAcc receiver (
    Return (VBool false)))))))))).

Definition GetBalance (accountID : Z) : prog :=
  Find accountID (fun _ =>
  LockAcc accountID (
  Load accountID (fun balance =>
  UnlockAcc accountID (
  Return (VInt balance))))).

Definition DepositAndCompare (accountId amount compareThreshold : Z) : prog :=
  andThen (Deposit accountId amount) (fun _ =>
  andThen (GetBalance accountId) (fun v =>
  match v with
  | VInt balance => Return (VBool (compareThreshold <=? balance))
  | _ => Return v
  end)).

(** ** Execution *)

Definition with_account (b : Bank) (id : Z)
    (f : Account -> option (result (Bank * prog))) : option (result (Bank * prog)) :=
  match accounts b !! id with
  | Some a => f a
  | None => Some (Panic NilDereference)
  end.

Definition set_account (b : Bank) (id : Z) (a : Account) : Bank :=
  mkBank (bankLock b) (<[id := a]> (accounts b)).

(** [None]: blocked, or finished. *)
Definition pstep (b : Bank) (p : prog) : option (result (Bank * prog)) :=
  match p with
  | Return _ => None
  | PanicWith e => Some (Panic e)
  | LockBank k => if bankLock b then None else Some (Ok (mkBank true (accounts b), k))
  | UnlockBank k =>
    if bankLock b then Some (Ok (mkBank false (accounts b), k))
    else Some (Panic (LogFatal "sync: unlock of unlocked mutex"))
  | Find id k => Some (Ok (b, k (bool_decide (is_Some (accounts b !! id)))))
  | Insert id k => Some (Ok (set_account b id (mkAccount 0 false), k))
  | LockAcc id k => with_account b id (fun a =>
      if acc_lock a then None else Some (Ok (set_account b id (mkAccount (balance a) true), k)))
  | UnlockAcc id k => with_account b id (fun a =>
      if acc_lock a then Some (Ok (set_account b id (mkAccount (balance a) false), k))
      else Some (Panic (LogFatal "sync: unlock of unlocked mutex")))
  | Load id k => with_account b id (fun a => Some (Ok (b, k (balance a))))
  | Store id z k => with_account b id (fun a =>
      Some (Ok (set_account b id (mkAccount z (acc_lock a)), k)))
  end.

Record Config := mkConfig { bank : Bank; threads : list prog }.

Definition cstep (t : nat) (c : Config) : option (result Config) :=
  p ← threads c !! t;
  r ← pstep (bank c) p;
  Some ('(b, p) ← r; Ok (mkConfig b (<[t := p]> (threads c)))).

(** A schedule; a panic ends the process. *)
Fixpoint crun (ts : list nat) (c : Config) : option (result Config) :=
  match ts with
  | [] => Some (Ok c)
  | t :: ts =>
    r ← cstep t c;
    match r with
    | Ok c => crun ts c
    | Panic e => match ts with [] => Some (Panic e) | _ :: _ => None end
    end
  end.

(** ** What the methods promise *)

Inductive call :=
| CCreate (id : Z)
| CDeposit (id amount : Z)
| CWithdraw (id amount : Z)
| CTransfer (sender receiver amount : Z) (allowOverdraw : bool)
| CBalance (id : Z).

Definition body (c : call) : prog :=
  match c with
  | CCreate id => CreateAccount id
  | CDeposit id amount => Deposit id amount
  | CWithdraw id amount => Withdraw id amount
  | CTransfer s r amount o => Transfer s r amount o
  | CBalance id => GetBalance id
  end.

(** The effect of a method on the balances, as one atomic action. *)
Definition seq_call (c : call) (B : gmap Z Z) : option (value * gmap Z Z) :=
  match c with
  | CCreate id =>
    match B !! id with Some _ => None | None => Some (VUnit, <[id := 0]> B) end
  | CDeposit id amount =>
    b ← B !! id; Some (VUnit, <[id := wrap64 (b + amount)]> B)
  | CWithdraw id amount =>
    b ← B !! id;
    if amount <=? b then Some (VBool true, <[id := wrap64 (b - amount)]> B)
    else Some (VBool false, B)
  | CTransfer s r amount o =>
    bs ← B !! s;
    br ← B !! r;
    if (amount <=? bs) || o then
      Some (VBool true, <[r := wrap64 (br + amount)]> (<[s := wrap64 (bs - amount)]> B))
    else Some (VBool false, B)
  | CBalance id => b ← B !! id; Some (VInt b, B)
  end.

(** A sequence of atomic calls, each with the value it returned. *)
Fixpoint seq_run (h : list (call * value)) (B : gmap Z Z) : option (gmap Z Z) :=
  match h with
  | [] => Some B
  | (c, v) :: h =>
    '(v', B') ← seq_call c B;
    if decide (v' = v) then seq_run h B' else None
  end.

Lemma seq_run_snoc h c v B B' B'' :
  seq_run h B = Some B' -> seq_call c B' = Some (v, B'') ->
  seq_run (h ++ [(c, v)]) B = Some B''.
Proof.
  revert B. induction h as [|[c' v'] h IH]; intros B; simpl.
  - intros [= ->] ->. simpl. by rewrite decide_True.
  - destruct (seq_call c' B) as [[v1 B1]|]; simpl; [|done]. case_decide; [|done]. apply IH.
Qed.

(** The balances of a bank. *)
Definition balances (b : Bank) : gmap Z Z := balance <$> accounts b.

(** The calls the theorems speak about: on accounts of [D], and a transfer
    between two different accounts. *)
Definition valid_call (D : gset Z) (c : call) : Prop :=
  match c with
  | CCreate _ => True
  | CDeposit id _ | CWithdraw id _ | CBalance id => id ∈ D
  | CTransfer s r _ _ => s ∈ D /\ r ∈ D /\ s <> r
  end.

(** Only the creation of an account can panic. *)
Definition creates (c : call) : bool := match c with CCreate _ => true | _ => false end.
