(* ===== verification/BankLogic.v ===== *)
(** * bank/bank.go: the atomicity argument

    Every method takes its locks in the order bank, accounts, and accesses
    balances only while it holds the locks of their accounts; it takes
    effect when it takes its last lock.  [pre] and [post] say so of the rest
    of a method's execution, before and after that moment; [core] relates
    the bank to the threads' locks and to the balances that the calls that
    have taken effect leave when executed one after another. *)

From Stdlib Require Import ZArith Lia.
From stdpp Require Import base numbers strings gmap list.
From S2P Require Import Prelude Bank.
Local Open Scope Z_scope.

(** What a thread that holds the bank lock knows about which accounts exist. *)
Abbreviation facts := (gmap Z bool).

(** ** The rest of a method *)

(** After it took effect: with [view] the balances of the accounts it holds
    and [fin] what they will be when it releases them, returning [v]. *)
Fixpoint post (bk : option facts) (view fin : gmap Z Z) (v : value) (p : prog) : Prop :=
  match p with
  | Return v' => bk = None /\ view = ∅ /\ v' = v
  | UnlockBank k => is_Some bk /\ post None view fin v k
  | UnlockAcc id k => is_Some (view !! id) /\ view !! id = fin !! id /\
      post bk (delete id view) (delete id fin) v k
  | Load id k => exists z, view !! id = Some z /\ post bk view fin v (k z)
  | Store id z k => is_Some (view !! id) /\ post bk (<[id := z]> view) fin v k
  | _ => False
  end.

(** The moment it takes effect: its effect on the accounts it holds is the
    promised one. *)
Definition commits (c : call) (bk : option facts) (view : gmap Z Z) (p : prog) : Prop :=
  exists fin v, dom fin = dom view /\ post bk view fin v p /\
    forall B, view ⊆ B -> seq_call c B = Some (v, fin ∪ B).

Section logic.
Context (mp : bool) (D : gset Z).

(** Before it takes effect. *)
Fixpoint pre (c : call) (bk : option facts) (view : gmap Z Z) (p : prog) : Prop :=
  match p with
  | LockBank k => bk = None /\ view = ∅ /\ pre c (Some ∅) view k
  | UnlockBank k => is_Some bk /\ pre c None view k
  | Find id k => forall b, (id ∈ D -> b = true) -> pre c ((<[id := b]>) <$> bk) view (k b)
  | LockAcc id k => id ∈ D /\ view !! id = None /\ (view = ∅ \/ is_Some bk) /\
      ((forall z, pre c bk (<[id := z]> view) k) \/
       (forall z, commits c bk (<[id := z]> view) k))
  | Insert id k => view = ∅ /\ post bk ∅ ∅ VUnit k /\ (exists F, bk = Some F /\ F !! id = Some false) /\
      forall B, B !! id = None -> seq_call c B = Some (VUnit, <[id := 0]> B)
  | PanicWith _ => mp = true
  | _ => False
  end.

Inductive ghost :=
| Pending (bk : option facts) (view : gmap Z Z)
| Committed (bk : option facts) (view fin : gmap Z Z) (v : value).

Definition gbk (g : ghost) : option facts :=
  match g with Pending bk _ => bk | Committed bk _ _ _ => bk end.
Definition gview (g : ghost) : gmap Z Z :=
  match g with Pending _ w => w | Committed _ w _ _ => w end.
Definition gfin (g : ghost) : gmap Z Z :=
  match g with Pending _ w => w | Committed _ _ f _ => f end.
Definition gval (g : ghost) : option value :=
  match g with Pending _ _ => None | Committed _ _ _ v => Some v end.

Definition good (c : call) (g : ghost) (p : prog) : Prop :=
  match g with
  | Pending bk view => pre c bk view p
  | Committed bk view fin v => post bk view fin v p
  end.

(** ** The methods follow the protocol *)

Lemma commits_1 c bk id z fin v p :
  post bk {[id := z]} {[id := fin]} v p ->
  (forall B, B !! id = Some z -> seq_call c B = Some (v, <[id := fin]> B)) ->
  commits c bk (<[id := z]> ∅) p.
Proof.
  intros Hp Hc. exists {[id := fin]}, v. rewrite insert_empty.
  split; [by rewrite !dom_singleton_L|]. split; [done|].
  intros B HB. rewrite Hc by (eapply lookup_weaken; [apply lookup_singleton_eq|done]).
  by rewrite <- insert_union_singleton_l.
Qed.

(** Evaluate the accesses of [post] in a view with known accounts. *)
Ltac walk :=
  repeat first
    [ done
    | by eexists
    | match goal with
      | |- _ /\ _ => split
      | |- exists z, _ !! _ = Some z /\ _ => eexists; split;
          [by rewrite ?lookup_insert_ne, ?lookup_insert_eq, ?lookup_singleton_eq by done|]
      end
    | progress simpl
    | progress rewrite ?lookup_insert_ne, ?lookup_insert_eq, ?lookup_singleton_eq,
        ?insert_singleton_eq, ?delete_insert_ne, ?delete_insert_eq, ?delete_singleton_eq by done ].

Lemma pre_Deposit id amount : id ∈ D -> pre (CDeposit id amount) None ∅ (Deposit id amount).
Proof.
  intros Hid. simpl. split_and!; [done|done|]. intros b ->; [|done]. simpl.
  split_and!; [done|done|by left|]. right. intros z.
  apply (commits_1 _ _ _ _ (wrap64 (z + amount)) VUnit).
  - walk.
  - intros B HB. simpl. by rewrite HB.
Qed.

Lemma pre_Withdraw id amount : id ∈ D -> pre (CWithdraw id amount) None ∅ (Withdraw id amount).
Proof.
  intros Hid. simpl. split_and!; [done|done|]. intros b ->; [|done]. simpl.
  split; [by eexists|]. split_and!; [done|done|by left|]. right. intros z.
  apply (commits_1 _ _ _ _ (if amount <=? z then wrap64 (z - amount) else z)
    (VBool (amount <=? z))).
  - simpl. eexists. split; [apply lookup_singleton_eq|]. destruct (amount <=? z); walk.
  - intros B HB. simpl. rewrite HB. simpl. destruct (amount <=? z); [done|]. by rewrite insert_id.
Qed.

Lemma pre_Balance id : id ∈ D -> pre (CBalance id) None ∅ (GetBalance id).
Proof.
  intros Hid. simpl. intros b _. split_and!; [done|done|by left|]. right. intros z.
  apply (commits_1 _ _ _ _ z (VInt z)).
  - walk.
  - intros B HB. simpl. rewrite HB. simpl. by rewrite insert_id.
Qed.

Lemma pre_Create id : mp = true -> pre (CCreate id) None ∅ (CreateAccount id).
Proof.
  intros Hmp. simpl. split_and!; [done|done|]. intros [|] _; simpl; [done|].
  split_and!; [done|by eexists|done|done|done| |].
  - eexists. split; [done|]. by rewrite lookup_insert_eq.
  - intros B HB. by rewrite HB.
Qed.

Lemma commits_2 c bk s r zs zr fs fr v p :
  s <> r ->
  post bk (<[r := zr]> {[s := zs]}) (<[r := fr]> {[s := fs]}) v p ->
  (forall B, B !! s = Some zs -> B !! r = Some zr ->
     seq_call c B = Some (v, <[r := fr]> (<[s := fs]> B))) ->
  commits c bk (<[r := zr]> (<[s := zs]> ∅)) p.
Proof.
  intros Hne Hp Hc. exists (<[r := fr]> {[s := fs]}), v. rewrite insert_empty.
  split; [by rewrite !dom_insert_L, !dom_singleton_L|]. split; [done|].
  intros B HB.
  rewrite Hc.
  - by rewrite <- insert_union_l, <- insert_union_singleton_l.
  - eapply lookup_weaken; [|done]. rewrite lookup_insert_ne by done. apply lookup_singleton_eq.
  - eapply lookup_weaken; [|done]. apply lookup_insert_eq.
Qed.

Lemma pre_Transfer s r amount o :
  s ∈ D -> r ∈ D -> s <> r -> pre (CTransfer s r amount o) None ∅ (Transfer s r amount o).
Proof.
  intros Hs Hr Hne. simpl. split_and!; [done|done|]. intros b ->; [|done]. simpl.
  intros b' ->; [|done]. simpl. split_and!; [done|done|by left|]. left. intros zs.
  split_and!; [done|by rewrite lookup_insert_ne|right; by eexists|]. right. intros zr.
  pose proof (not_eq_sym Hne) as Hne'.
  set (ok := (amount <=? zs) || o).
  apply (commits_2 _ _ _ _ _ _ (if ok then wrap64 (zs - amount) else zs)
    (if ok then wrap64 (zr + amount) else zr) (VBool ok)); [done| |].
  - simpl. split; [by eexists|]. eexists.
    split; [by rewrite lookup_insert_ne, lookup_singleton_eq|]. fold ok.
    destruct ok; rewrite ?(insert_insert_ne _ s r) by done; walk.
  - intros B HB HB'. simpl. rewrite HB, HB'. simpl. fold ok. destruct ok; [done|].
    by rewrite (insert_id B s), (insert_id B r).
Qed.
End logic.
