(* ===== verification/BankTheorems.v ===== *)
(** * bank/bank.go: properties of the bank

    Concurrent calls never deadlock, always return, and leave the balances
    that some one-after-another execution of the same calls leaves; and the
    cases in which the code departs from that. *)

From Stdlib Require Import ZArith Lia.
From stdpp Require Import base numbers strings gmap list.
From S2P Require Import Prelude Bank BankLogic.
Local Open Scope Z_scope.

Section concurrent.
Context (mp : bool) (D : gset Z) (calls : list call) (B0 : gmap Z Z).
Implicit Types (b : Bank) (g : ghost) (gs : list ghost) (B : gmap Z Z).
Abbreviation history := (list (nat * (call * value))).

(** ** The bank lock *)

Record bank_ok b gs : Prop := {
  b_held : bankLock b = true -> exists t g, gs !! t = Some g /\ is_Some (gbk g);
  b_holder : forall t g, gs !! t = Some g -> is_Some (gbk g) -> bankLock b = true;
  b_one : forall t t' g g', gs !! t = Some g -> gs !! t' = Some g' ->
    is_Some (gbk g) -> is_Some (gbk g') -> t = t';
  b_facts : forall t g F id x, gs !! t = Some g -> gbk g = Some F -> F !! id = Some x ->
    x = bool_decide (is_Some (accounts b !! id));
}.

(** One thread takes, keeps or releases the bank lock. *)
Record bank_change b b' g g' : Prop := {
  bc_lock : bankLock b' = match gbk g', gbk g with
                          | Some _, _ => true | None, Some _ => false | None, None => bankLock b
                          end;
  bc_take : gbk g = None -> is_Some (gbk g') -> bankLock b = false;
  bc_facts : forall F id x, gbk g' = Some F -> F !! id = Some x ->
    x = bool_decide (is_Some (accounts b' !! id));
  bc_dom : is_Some (gbk g) \/ forall id, is_Some (accounts b' !! id) <-> is_Some (accounts b !! id);
}.

(** No other thread holds the bank lock when this one takes or has it. *)
Lemma bank_others b b' gs t g g' t1 g1 :
  bank_ok b gs -> gs !! t = Some g -> bank_change b b' g g' -> gs !! t1 = Some g1 -> t1 <> t ->
  is_Some (gbk g1) -> gbk g = None /\ gbk g' = None.
Proof.
  intros [] Hg [] H1 Hne Hs.
  assert (gbk g = None) as E.
  { destruct (gbk g) eqn:E; [|done]. exfalso. apply Hne. eapply b_one0; try done; by rewrite E. }
  split; [done|]. destruct (gbk g') eqn:E'; [|done]. exfalso.
  assert (bankLock b = true) by (by eapply b_holder0).
  assert (bankLock b = false) by (apply bc_take0; [done|by eexists]). congruence.
Qed.

Lemma bank_ok_update b b' gs t g g' :
  bank_ok b gs -> gs !! t = Some g -> bank_change b b' g g' -> bank_ok b' (<[t := g']> gs).
Proof.
  intros Hok Hg Hch. pose proof Hok as []. pose proof Hch as [].
  pose proof (lookup_updated gs t g g' Hg) as Hg'. constructor.
  - rewrite bc_lock0. destruct (gbk g') eqn:E'; [intros _; exists t, g'; by rewrite E'|].
    destruct (gbk g) eqn:E; [done|]. intros Hl. destruct (b_held0 Hl) as (t1 & g1 & H1 & Hs).
    exists t1, g1. split; [|done]. apply lookup_kept; [|done]. intros ->. simplify_eq.
    rewrite E in Hs. by destruct Hs.
  - intros t1 g1 H1 Hs. destruct (lookup_update _ _ _ _ _ _ Hg H1) as [[-> ->]|[Hne H1']].
    + rewrite bc_lock0. by destruct Hs as [F ->].
    + destruct (bank_others b b' gs t g g' t1 g1) as [E E']; [done..|].
      rewrite bc_lock0, E, E'. by eapply b_holder0.
  - intros t1 t2 g1 g2 H1 H2 Hs1 Hs2.
    destruct (lookup_update _ _ _ _ _ _ Hg H1) as [[-> ->]|[Hne1 H1']],
      (lookup_update _ _ _ _ _ _ Hg H2) as [[-> ->]|[Hne2 H2']]; [done| | |by eapply b_one0].
    + destruct (bank_others b b' gs t g g' t2 g2) as [_ E']; [done..|].
      rewrite E' in Hs1. by destruct Hs1.
    + destruct (bank_others b b' gs t g g' t1 g1) as [_ E']; [done..|].
      rewrite E' in Hs2. by destruct Hs2.
  - intros t1 g1 F id x H1 HF Hx.
    destruct (lookup_update _ _ _ _ _ _ Hg H1) as [[-> ->]|[Hne H1']]; [by eauto|].
    destruct (bank_others b b' gs t g g' t1 g1) as [E _]; [done..|by rewrite HF|].
    destruct bc_dom0 as [Hs|Hdom]; [rewrite E in Hs; by destruct Hs|].
    rewrite (b_facts0 _ _ _ _ _ H1' HF Hx). by apply bool_decide_ext.
Qed.

(** ** The accounts *)

Record view_ok b gs B : Prop := {
  v_locked : forall id a, accounts b !! id = Some a -> acc_lock a = true ->
    exists t g, gs !! t = Some g /\ is_Some (gview g !! id);
  v_view : forall t g id z, gs !! t = Some g -> gview g !! id = Some z ->
    accounts b !! id = Some (mkAccount z true);
  v_disj : forall t t' g g' id, gs !! t = Some g -> gs !! t' = Some g' ->
    is_Some (gview g !! id) -> is_Some (gview g' !! id) -> t = t';
  v_dom : forall t g, gs !! t = Some g -> dom (gfin g) = dom (gview g);
  v_fin : forall t g id z, gs !! t = Some g -> gfin g !! id = Some z -> B !! id = Some z;
  v_free : forall id a, accounts b !! id = Some a -> acc_lock a = false ->
    B !! id = Some (balance a);
  v_none : forall id, accounts b !! id = None -> B !! id = None;
}.

(** One thread changes accounts it holds, takes or releases, or adds one. *)
Record view_change b b' g g' B B' : Prop := {
  vc_view : forall id z, gview g' !! id = Some z -> accounts b' !! id = Some (mkAccount z true);
  vc_take : forall id, gview g !! id = None -> is_Some (gview g' !! id) ->
    exists a, accounts b !! id = Some a /\ acc_lock a = false;
  vc_drop : forall id z, gview g !! id = Some z -> gview g' !! id = None ->
    accounts b' !! id = Some (mkAccount z false) /\ B' !! id = Some z;
  vc_fin : forall id z, gfin g' !! id = Some z -> B' !! id = Some z;
  vc_dom : dom (gfin g') = dom (gview g');
  vc_rest : forall id, gview g !! id = None -> gview g' !! id = None ->
    (accounts b' !! id = accounts b !! id /\ B' !! id = B !! id) \/
    (accounts b !! id = None /\ accounts b' !! id = Some (mkAccount 0 false) /\
     B' !! id = Some 0);
}.

(** An account held by another thread is not touched. *)
Lemma view_others b b' gs t g g' B B' t1 g1 id z :
  view_ok b gs B -> gs !! t = Some g -> view_change b b' g g' B B' ->
  gs !! t1 = Some g1 -> t1 <> t -> gview g1 !! id = Some z ->
  gview g' !! id = None /\ accounts b' !! id = accounts b !! id /\ B' !! id = B !! id.
Proof.
  intros [] Hg [] H1 Hne Hz. pose proof (v_view0 _ _ _ _ H1 Hz) as Ha.
  assert (gview g !! id = None) as E.
  { destruct (gview g !! id) eqn:E; [|done]. exfalso. apply Hne.
    eapply (v_disj0 _ _ _ _ id); [done|done|by eexists|by eexists]. }
  assert (gview g' !! id = None) as E'.
  { destruct (gview g' !! id) eqn:E'; [|done]. exfalso.
    destruct (vc_take0 id E) as (a & ? & ?); [by eexists|]. by simplify_eq. }
  split; [done|]. destruct (vc_rest0 id E E') as [?|[? _]]; [done|congruence].
Qed.

(** What becomes of an account in a step. *)
Lemma view_account b b' gs t g g' B B' id :
  view_ok b gs B -> gs !! t = Some g -> view_change b b' g g' B B' ->
  (exists z, gview g' !! id = Some z /\ accounts b' !! id = Some (mkAccount z true)) \/
  (gview g' !! id = None /\
   ((exists z, accounts b' !! id = Some (mkAccount z false) /\ B' !! id = Some z) \/
    (gview g !! id = None /\ accounts b' !! id = accounts b !! id /\ B' !! id = B !! id))).
Proof.
  intros _ Hg []. destruct (gview g' !! id) as [z|] eqn:E'; [left; eauto|right].
  split; [done|]. destruct (gview g !! id) as [z|] eqn:E; [left; eauto|].
  destruct (vc_rest0 id E E') as [?|(? & ? & ?)]; [by right|left; eauto].
Qed.

Lemma view_ok_update b b' gs t g g' B B' :
  view_ok b gs B -> gs !! t = Some g -> view_change b b' g g' B B' ->
  view_ok b' (<[t := g']> gs) B'.
Proof.
  intros Hok Hg Hch. pose proof Hok as []. pose proof Hch as [].
  pose proof (lookup_updated gs t g g' Hg) as Hg'. constructor.
  - intros id a Ha Hl.
    destruct (view_account _ _ _ _ _ _ _ _ id Hok Hg Hch)
      as [(z & Hz & _)|(Hn & [(z & Hz & _)|(Hn' & E & _)])]; [by eauto|by simplify_eq|].
    rewrite E in Ha. destruct (v_locked0 id a Ha Hl) as (t1 & g1 & H1 & Hs). exists t1, g1.
    split; [|done]. apply lookup_kept; [|done]. intros ->. simplify_eq. rewrite Hn' in Hs.
    by destruct Hs.
  - intros t1 g1 id z H1 Hz.
    destruct (lookup_update _ _ _ _ _ _ Hg H1) as [[-> ->]|[Hne H1']]; [by eauto|].
    destruct (view_others b b' gs t g g' B B' t1 g1 id z) as (_ & -> & _); [done..|by eauto].
  - intros t1 t2 g1 g2 id H1 H2 [z1 Hz1] [z2 Hz2].
    destruct (lookup_update _ _ _ _ _ _ Hg H1) as [[-> ->]|[Hne1 H1']],
      (lookup_update _ _ _ _ _ _ Hg H2) as [[-> ->]|[Hne2 H2']]; [done| | |by eapply v_disj0].
    + destruct (view_others b b' gs t g g' B B' t2 g2 id z2) as (? & _); [done..|congruence].
    + destruct (view_others b b' gs t g g' B B' t1 g1 id z1) as (? & _); [done..|congruence].
  - intros t1 g1 H1. destruct (lookup_update _ _ _ _ _ _ Hg H1) as [[-> ->]|[Hne H1']]; by eauto.
  - intros t1 g1 id z H1 Hz.
    destruct (lookup_update _ _ _ _ _ _ Hg H1) as [[-> ->]|[Hne H1']]; [by eauto|].
    assert (is_Some (gview g1 !! id)) as [z' Hz'].
    { apply elem_of_dom. rewrite <- (v_dom0 _ _ H1'). by eapply elem_of_dom_2. }
    destruct (view_others b b' gs t g g' B B' t1 g1 id z') as (_ & _ & ->); [done..|by eauto].
  - intros id a Ha Hl.
    destruct (view_account _ _ _ _ _ _ _ _ id Hok Hg Hch)
      as [(z & _ & Hz)|(Hn & [(z & Hz & ?)|(Hn' & E & EB)])]; [by simplify_eq|by simplify_eq/=|].
    rewrite EB. apply v_free0; [congruence|done].
  - intros id Ha. destruct (view_account _ _ _ _ _ _ _ _ id Hok Hg Hch)
      as [(z & _ & Hz)|(Hn & [(z & Hz & ?)|(Hn' & E & EB)])]; [congruence|congruence|].
    rewrite EB. apply v_none0. congruence.
Qed.

(** ** The calls that have taken effect *)

Record hist_ok gs (hist : history) B : Prop := {
  h_hist : forall t c v, (t, (c, v)) ∈ hist <->
    calls !! t = Some c /\ exists g, gs !! t = Some g /\ gval g = Some v;
  h_nodup : NoDup (hist.*1);
  h_run : seq_run (hist.*2) B0 = Some B;
}.

Lemma hist_ok_same gs hist B t g g' :
  hist_ok gs hist B -> gs !! t = Some g -> gval g' = gval g -> hist_ok (<[t := g']> gs) hist B.
Proof.
  intros [] Hg Hv. constructor; [|done|done]. intros t1 c v. rewrite h_hist0. f_equiv. split.
  - intros (g1 & H1 & E). destruct (decide (t1 = t)) as [->|Hne].
    + exists g'. split; [by eapply lookup_updated|]. congruence.
    + exists g1. split; [by apply lookup_kept|done].
  - intros (g1 & H1 & E). destruct (lookup_update _ _ _ _ _ _ Hg H1) as [[-> ->]|[? ?]]; eauto.
    exists g. by rewrite <- Hv.
Qed.

Lemma hist_ok_commit gs hist B B' t g g' c v :
  hist_ok gs hist B -> gs !! t = Some g -> calls !! t = Some c -> gval g = None ->
  gval g' = Some v -> seq_call c B = Some (v, B') ->
  hist_ok (<[t := g']> gs) (hist ++ [(t, (c, v))]) B'.
Proof.
  intros [] Hg Hc Hn Hv Hs.
  assert (t ∉ hist.*1) as Hni.
  { intros ([t1 [c1 v1]] & -> & Hin)%list_elem_of_fmap_1.
    apply h_hist0 in Hin as (_ & g1 & ? & ?). simpl in *. congruence. }
  constructor.
  - intros t1 c1 v1. rewrite elem_of_app, list_elem_of_singleton, h_hist0. split.
    + intros [(? & g1 & H1 & E)|[= -> -> ->]].
      * split; [done|]. exists g1. split; [|done]. apply lookup_kept; [|done]. congruence.
      * split; [done|]. exists g'. split; [by eapply lookup_updated|done].
    + intros (? & g1 & H1 & E).
      destruct (lookup_update _ _ _ _ _ _ Hg H1) as [[-> ->]|[? ?]]; [right; congruence|left; eauto].
  - rewrite fmap_app. apply NoDup_app. split_and!; [done| |apply NoDup_singleton].
    intros x Hx ->%list_elem_of_singleton. done.
  - rewrite fmap_app. by eapply seq_run_snoc.
Qed.

(** ** The invariant of an execution *)

Record inv (c : Config) gs (hist : history) B : Prop := {
  i_bank : bank_ok (bank c) gs;
  i_view : view_ok (bank c) gs B;
  i_hist : hist_ok gs hist B;
  i_D : forall id, id ∈ D -> is_Some (accounts (bank c) !! id);
  i_len : length gs = length (threads c);
  i_good : forall t p, threads c !! t = Some p ->
    exists cl g, calls !! t = Some cl /\ gs !! t = Some g /\ good mp D cl g p;
}.

Lemma inv_update c gs hist B t p g cl b' p' g' hist' B' :
  inv c gs hist B -> threads c !! t = Some p -> gs !! t = Some g -> calls !! t = Some cl ->
  bank_change (bank c) b' g g' -> view_change (bank c) b' g g' B B' ->
  hist_ok (<[t := g']> gs) hist' B' -> good mp D cl g' p' ->
  inv (mkConfig b' (<[t := p']> (threads c))) (<[t := g']> gs) hist' B'.
Proof.
  intros [] Hp Hg Hc Hb Hv Hh Hgd.
  constructor; simpl; [| |done| |by rewrite !length_insert|].
  - by eapply bank_ok_update.
  - by eapply view_ok_update.
  - intros id Hid. destruct (view_account _ _ _ _ _ _ _ _ id i_view0 Hg Hv)
      as [(z & _ & ->)|(_ & [(z & -> & _)|(_ & -> & _)])]; by eauto.
  - intros t1 p1 H1. destruct (lookup_update _ _ _ _ _ _ Hp H1) as [[-> ->]|[Hne H1']].
    + exists cl, g'. split; [done|]. split; [by eapply lookup_updated|done].
    + destruct (i_good0 _ _ H1') as (cl1 & g1 & ? & ? & ?). exists cl1, g1.
      split; [done|]. split; [by apply lookup_kept|done].
Qed.

(** ** Changes of the bank lock *)

Lemma bank_change_none b b' g g' :
  bankLock b' = bankLock b -> gbk g = gbk g' ->
  (forall F id x, gbk g' = Some F -> F !! id = Some x ->
     x = bool_decide (is_Some (accounts b' !! id))) ->
  (is_Some (gbk g) -> bankLock b = true) ->
  (is_Some (gbk g) \/ forall id, is_Some (accounts b' !! id) <-> is_Some (accounts b !! id)) ->
  bank_change b b' g g'.
Proof.
  intros El E HF Hl Hd. constructor; [|intros E'; rewrite <- E, E'; by intros [? ?]|done|done].
  rewrite El, <- E. destruct (gbk g); [|done]. apply Hl. by eexists.
Qed.

(** Accesses to an account that exists. *)
Lemma bank_change_account c gs hist B t g g' id a a' :
  inv c gs hist B -> gs !! t = Some g -> gbk g' = gbk g -> accounts (bank c) !! id = Some a ->
  bank_change (bank c) (set_account (bank c) id a') g g'.
Proof.
  intros [] Hg E Ha.
  assert (forall x, is_Some (accounts (set_account (bank c) id a') !! x) <->
    is_Some (accounts (bank c) !! x)) as Hdom.
  { intros x. simpl. destruct (decide (x = id)) as [->|].
    - rewrite lookup_insert_eq, Ha. split; by eexists.
    - by rewrite lookup_insert_ne. }
  apply bank_change_none; [done|done| | |by right].
  - intros F x y HF Hy. rewrite E in HF. rewrite (b_facts _ _ i_bank0 _ _ _ _ _ Hg HF Hy).
    by apply bool_decide_ext.
  - intros Hs. by eapply (b_holder _ _ i_bank0).
Qed.

(** ** Changes of the accounts *)

Lemma view_change_none c gs hist B t g b' g' :
  inv c gs hist B -> gs !! t = Some g ->
  accounts b' = accounts (bank c) -> gview g' = gview g -> gfin g' = gfin g ->
  view_change (bank c) b' g g' B B.
Proof.
  intros [] Hg Ea Ev Ef. destruct i_view0. constructor; rewrite ?Ea, ?Ev, ?Ef; try done.
  - by eauto.
  - intros id -> [? ?]. done.
  - intros id z -> ?. done.
  - by eauto.
  - by eauto.
  - by left.
Qed.

Lemma view_change_lock c gs hist B B' t g g' id a :
  inv c gs hist B -> gs !! t = Some g -> accounts (bank c) !! id = Some a -> acc_lock a = false ->
  gview g' = <[id := balance a]> (gview g) -> dom (gfin g') = dom (gview g') ->
  (forall x z, gfin g' !! x = Some z -> B' !! x = Some z) ->
  (forall x, gview g' !! x = None -> B' !! x = B !! x) ->
  view_change (bank c) (set_account (bank c) id (mkAccount (balance a) true)) g g' B B'.
Proof.
  intros [] Hg Ha Hl Ev Ed Hf Hr. destruct i_view0. constructor; simpl; try done.
  - intros x z. rewrite Ev. destruct (decide (x = id)) as [->|].
    + rewrite !lookup_insert_eq. by intros [= ->].
    + rewrite !lookup_insert_ne by done. by eauto.
  - intros x Hx. rewrite Ev. destruct (decide (x = id)) as [->|]; [by eauto|].
    rewrite lookup_insert_ne, Hx by done. by intros [? ?].
  - intros x z Hx. rewrite Ev. intros [? _]%lookup_insert_None. congruence.
  - intros x Hx Hx'. left. split; [|by apply Hr].
    rewrite Ev in Hx'. apply lookup_insert_None in Hx' as [_ ?]. by rewrite lookup_insert_ne.
Qed.

Lemma view_change_store c gs hist B t bk view fin v id z z' :
  inv c gs hist B -> gs !! t = Some (Committed bk view fin v) -> view !! id = Some z ->
  view_change (bank c) (set_account (bank c) id (mkAccount z' true))
    (Committed bk view fin v) (Committed bk (<[id := z']> view) fin v) B B.
Proof.
  intros [] Hg Hz. destruct i_view0. constructor; simpl.
  - intros x y. destruct (decide (x = id)) as [->|].
    + rewrite !lookup_insert_eq. by intros [= ->].
    + rewrite !lookup_insert_ne by done. intros. by eapply (v_view0 _ _ _ _ Hg).
  - intros x Hx [y [[-> _]|[_ ?]]%lookup_insert_Some]; congruence.
  - intros x y Hx [? ?]%lookup_insert_None. congruence.
  - intros x y. apply (v_fin0 _ _ _ _ Hg).
  - rewrite dom_insert_L. pose proof (v_dom0 _ _ Hg) as E. simpl in E. rewrite E.
    apply elem_of_dom_2 in Hz. set_solver.
  - intros x Hx [? ?]%lookup_insert_None. left. by rewrite lookup_insert_ne.
Qed.

Lemma view_change_unlock c gs hist B t bk view fin v id z :
  inv c gs hist B -> gs !! t = Some (Committed bk view fin v) ->
  view !! id = Some z -> fin !! id = Some z ->
  view_change (bank c) (set_account (bank c) id (mkAccount z false))
    (Committed bk view fin v) (Committed bk (delete id view) (delete id fin) v) B B.
Proof.
  intros [] Hg Hz Hf. destruct i_view0. constructor; simpl.
  - intros x y [? ?]%lookup_delete_Some. rewrite lookup_insert_ne by done.
    by eapply (v_view0 _ _ _ _ Hg).
  - intros x Hx [y [? ?]%lookup_delete_Some]. congruence.
  - intros x y Hx [->|?]%lookup_delete_None; [|congruence]. rewrite lookup_insert_eq.
    split; [congruence|]. rewrite Hx in Hz. simplify_eq. by eapply (v_fin0 _ _ _ _ Hg).
  - intros x y [? ?]%lookup_delete_Some. by eapply (v_fin0 _ _ _ _ Hg).
  - rewrite !dom_delete_L. pose proof (v_dom0 _ _ Hg) as E. simpl in E. by rewrite E.
  - intros x Hx _. left. rewrite lookup_insert_ne; [done|congruence].
Qed.

Lemma view_change_insert c gs hist B t F v id :
  inv c gs hist B -> gs !! t = Some (Pending (Some F) ∅) -> accounts (bank c) !! id = None ->
  view_change (bank c) (set_account (bank c) id (mkAccount 0 false))
    (Pending (Some F) ∅) (Committed (Some (<[id := true]> F)) ∅ ∅ v) B (<[id := 0]> B).
Proof.
  intros _ Hg Hn. constructor; simpl.
  - by intros x z ?%lookup_empty_Some.
  - by intros x _ [y ?%lookup_empty_Some].
  - by intros x z ?%lookup_empty_Some.
  - by intros x z ?%lookup_empty_Some.
  - done.
  - intros x _ _. destruct (decide (x = id)) as [->|].
    + right. by rewrite !lookup_insert_eq.
    + left. by rewrite !lookup_insert_ne.
Qed.

(** ** Steps *)

Definition keeps_inv (c : Config) (t : nat) (r : result (Bank * prog)) : Prop :=
  exists b' p' gs' hist' B', r = Ok (b', p') /\
    inv (mkConfig b' (<[t := p']> (threads c))) gs' hist' B'.

(** The two ways [pstep] uses an account. *)
Lemma with_account_Some b id a f :
  accounts b !! id = Some a -> with_account b id f = f a.
Proof. unfold with_account. by intros ->. Qed.

Lemma step_LockBank c gs hist B t g cl k r bk view g' :
  inv c gs hist B -> threads c !! t = Some (LockBank k) -> gs !! t = Some g ->
  calls !! t = Some cl -> g = Pending bk view -> bk = None ->
  g' = Pending (Some ∅) view -> pre mp D cl (Some ∅) view k ->
  pstep (bank c) (LockBank k) = Some r -> keeps_inv c t r.
Proof.
  intros Hi Hp Hg Hc -> -> -> Hk. cbn [pstep].
  destruct (bankLock (bank c)) eqn:El; [done|]. intros [= <-].
  eexists _, _, _, _, _. split; [done|].
  eapply (inv_update _ _ _ _ _ _ _ _ _ _ (Pending (Some ∅) view));
    [done|done|done|done| | | |done].
  - constructor; simpl; try done. + by intros F id x [= <-] ?%lookup_empty_Some. + by right.
  - by eapply view_change_none.
  - eapply hist_ok_same; [by destruct Hi|done|done].
Qed.

(** Before and after it takes effect a method may release the bank lock. *)
Lemma step_UnlockBank c gs hist B t g cl k r g' :
  inv c gs hist B -> threads c !! t = Some (UnlockBank k) -> gs !! t = Some g ->
  calls !! t = Some cl -> is_Some (gbk g) -> gbk g' = None -> gview g' = gview g ->
  gfin g' = gfin g -> gval g' = gval g -> good mp D cl g' k ->
  pstep (bank c) (UnlockBank k) = Some r -> keeps_inv c t r.
Proof.
  intros Hi Hp Hg Hc Hs E Ev Ef El Hk. cbn [pstep].
  rewrite (b_holder _ _ (i_bank _ _ _ _ Hi) _ _ Hg Hs). intros [= <-].
  eexists _, _, _, _, _. split; [done|].
  eapply (inv_update _ _ _ _ _ _ _ _ _ _ g'); [done|done|done|done| | | |done].
  - constructor; simpl; rewrite ?E; [by destruct Hs as [? ->]|by intros _ [? ?]|done|by left].
  - by eapply view_change_none.
  - eapply hist_ok_same; [by destruct Hi|done|done].
Qed.

Lemma step_Find c gs hist B t cl k r bk view id :
  inv c gs hist B -> threads c !! t = Some (Find id k) -> gs !! t = Some (Pending bk view) ->
  calls !! t = Some cl -> pre mp D cl bk view (Find id k) ->
  pstep (bank c) (Find id k) = Some r -> keeps_inv c t r.
Proof.
  intros Hi Hp Hg Hc Hk. cbn [pstep]. intros [= <-]. set (x := bool_decide _).
  exists (bank c), (k x), (<[t := Pending ((<[id := x]>) <$> bk) view]> gs), hist, B.
  split; [done|]. eapply inv_update; [done|done|done|done| | | |].
  - constructor; simpl.
    + destruct bk; [|done]. eapply (b_holder _ _ (i_bank _ _ _ _ Hi)); [done|by eexists].
    + intros ->. by intros [? ?].
    + destruct bk as [F|]; [|done]. intros F' y z [= <-] [[<- <-]|[_ ?]]%lookup_insert_Some; [done|].
      by eapply (b_facts _ _ (i_bank _ _ _ _ Hi)).
    + by right.
  - by eapply view_change_none.
  - eapply hist_ok_same; [by destruct Hi|done|done].
  - simpl in *. apply Hk. intros Hid. apply bool_decide_eq_true. by eapply i_D.
Qed.

Lemma step_LockAcc c gs hist B t cl k r bk view id :
  inv c gs hist B -> threads c !! t = Some (LockAcc id k) -> gs !! t = Some (Pending bk view) ->
  calls !! t = Some cl -> pre mp D cl bk view (LockAcc id k) ->
  pstep (bank c) (LockAcc id k) = Some r -> keeps_inv c t r.
Proof.
  intros Hi Hp Hg Hc (Hid & Hv & _ & Hk). cbn [pstep].
  destruct (i_D _ _ _ _ Hi id Hid) as [a Ha]. rewrite (with_account_Some _ _ a) by done.
  destruct (acc_lock a) eqn:El; [done|]. intros [= <-].
  pose proof (v_free _ _ _ (i_view _ _ _ _ Hi) _ _ Ha El) as Hfree.
  assert (forall x z, <[id := balance a]> view !! x = Some z -> B !! x = Some z) as Hsub.
  { intros x z [[<- <-]|[_ ?]]%lookup_insert_Some; [done|].
    by eapply (v_fin _ _ _ (i_view _ _ _ _ Hi) _ _ _ _ Hg). }
  destruct Hk as [Hk|Hk].
  - eexists _, _, (<[t := Pending bk (<[id := balance a]> view)]> gs), hist, B.
    split; [done|]. eapply inv_update; [done|done|done|done| | | |simpl; by apply Hk].
    + by eapply bank_change_account.
    + by eapply view_change_lock.
    + eapply hist_ok_same; [by destruct Hi|done|done].
  - destruct (Hk (balance a)) as (fin & v & Hdom & Hpost & Hseq).
    specialize (Hseq B (proj2 (map_subseteq_spec _ _) Hsub)).
    eexists _, _, (<[t := Committed bk (<[id := balance a]> view) fin v]> gs), _, (fin ∪ B).
    split; [done|]. eapply inv_update; [done|done|done|done| | | |done].
    + by eapply bank_change_account.
    + eapply view_change_lock; [done|done|done|done|done|done| |].
      * intros x z Hx. by apply lookup_union_Some_l.
      * intros x Hx. apply lookup_union_r. apply not_elem_of_dom. rewrite Hdom.
        by apply not_elem_of_dom.
    + eapply hist_ok_commit; [by destruct Hi|done|done|done|done|done].
Qed.

Lemma step_Insert c gs hist B t cl k r bk view id :
  inv c gs hist B -> threads c !! t = Some (Insert id k) -> gs !! t = Some (Pending bk view) ->
  calls !! t = Some cl -> pre mp D cl bk view (Insert id k) ->
  (forall F, post bk ∅ ∅ VUnit k -> post (Some F) ∅ ∅ VUnit k) ->
  pstep (bank c) (Insert id k) = Some r -> keeps_inv c t r.
Proof.
  intros Hi Hp Hg Hc (-> & Hpost & (F & -> & HF) & Hseq) Hbk. cbn [pstep]. intros [= <-].
  assert (accounts (bank c) !! id = None) as Hn.
  { pose proof (b_facts _ _ (i_bank _ _ _ _ Hi) _ _ _ _ _ Hg eq_refl HF) as E.
    symmetry in E. apply bool_decide_eq_false in E. by apply eq_None_not_Some. }
  assert (B !! id = None) as HB by (by apply (v_none _ _ _ (i_view _ _ _ _ Hi))).
  eexists _, _, (<[t := Committed (Some (<[id := true]> F)) ∅ ∅ VUnit]> gs), _, (<[id := 0]> B).
  split; [done|]. eapply inv_update; [done|done|done|done| | | |simpl; by apply Hbk].
  - constructor; simpl; [|done| |left; by eexists].
    + eapply (b_holder _ _ (i_bank _ _ _ _ Hi)); [done|by eexists].
    + intros F' x y [= <-] [[<- <-]|[Hne Hx]]%lookup_insert_Some.
      * symmetry. apply bool_decide_eq_true. rewrite lookup_insert_eq. by eexists.
      * rewrite lookup_insert_ne by done. by eapply (b_facts _ _ (i_bank _ _ _ _ Hi)).
  - by eapply view_change_insert.
  - eapply hist_ok_commit; [by destruct Hi|done|done|done|done|by apply Hseq].
Qed.

(** The facts a thread has learned do not matter to [post]. *)
Lemma post_facts F F' view fin v p :
  post (Some F) view fin v p -> post (Some F') view fin v p.
Proof.
  revert F F' view fin. induction p; intros F F' view fin; simpl; try done.
  - intros (? & _). done.
  - intros [_ ?]. split; [by eexists|done].
  - intros (? & ? & ?). split_and!; eauto.
  - intros (z & ? & ?). exists z. split; eauto.
  - intros (? & ?). split; eauto.
Qed.

Lemma pending_step c gs hist B t p bk view cl r :
  inv c gs hist B -> threads c !! t = Some p -> gs !! t = Some (Pending bk view) ->
  calls !! t = Some cl -> pre mp D cl bk view p -> pstep (bank c) p = Some r ->
  keeps_inv c t r \/ (mp = true /\ exists e, r = Panic e).
Proof.
  intros Hi Hp Hg Hc Hpre Hst.
  destruct p as [v|e|k|k|id k|id k|id k|id k|id k|id z k]; try done.
  - right. split; [done|]. injection Hst as <-. by eexists.
  - left. destruct Hpre as (E & _ & Hk). by eapply step_LockBank.
  - left. destruct Hpre as (Hs & Hk). by eapply (step_UnlockBank _ _ _ _ _ _ _ _ _ (Pending None view)).
  - left. by eapply step_Find.
  - left. eapply step_Insert; [done|done|done|done|done| |done]. intros F'.
    destruct Hpre as (_ & _ & (F & -> & _) & _). apply post_facts.
  - left. by eapply step_LockAcc.
Qed.

Lemma committed_step c gs hist B t p bk view fin v cl r :
  inv c gs hist B -> threads c !! t = Some p -> gs !! t = Some (Committed bk view fin v) ->
  calls !! t = Some cl -> post bk view fin v p -> pstep (bank c) p = Some r ->
  keeps_inv c t r.
Proof.
  intros Hi Hp Hg Hc Hpost Hst.
  assert (forall x z, view !! x = Some z -> accounts (bank c) !! x = Some (mkAccount z true))
    as Hvw by (intros x z ?; by eapply (v_view _ _ _ (i_view _ _ _ _ Hi) _ _ _ _ Hg)).
  assert (forall g', gval g' = Some v -> hist_ok (<[t := g']> gs) hist B) as Hh
    by (intros g' ?; eapply hist_ok_same; [by destruct Hi|done|done]).
  destruct p as [v'|e|k|k|id k|id k|id k|id k|id k|id z' k]; try done; cbn [pstep] in Hst.
  - destruct Hpost as (Hs & Hk).
    by eapply (step_UnlockBank _ _ _ _ _ _ _ _ _ (Committed None view fin v)).
  - destruct Hpost as ([z Hz] & E & Hk). rewrite (with_account_Some _ _ _ _ (Hvw _ _ Hz)) in Hst.
    injection Hst as <-. eexists _, _, _, _, _. split; [done|].
    eapply (inv_update _ _ _ _ _ _ _ _ _ _ (Committed bk (delete id view) (delete id fin) v));
      [done|done|done|done| | |by apply Hh|done].
    + by eapply bank_change_account; eauto.
    + eapply view_change_unlock; [done|done|done|congruence].
  - destruct Hpost as (z & Hz & Hk). rewrite (with_account_Some _ _ _ _ (Hvw _ _ Hz)) in Hst.
    injection Hst as <-. eexists _, _, _, _, _. split; [done|].
    eapply (inv_update _ _ _ _ _ _ _ _ _ _ (Committed bk view fin v));
      [done|done|done|done| | |by apply Hh|done].
    + apply bank_change_none; [done|done| | |by right].
      * intros F x y HF. by eapply (b_facts _ _ (i_bank _ _ _ _ Hi)).
      * by eapply (b_holder _ _ (i_bank _ _ _ _ Hi)).
    + by eapply view_change_none.
  - destruct Hpost as ([z Hz] & Hk). rewrite (with_account_Some _ _ _ _ (Hvw _ _ Hz)) in Hst.
    injection Hst as <-. eexists _, _, _, _, _. split; [done|].
    eapply (inv_update _ _ _ _ _ _ _ _ _ _ (Committed bk (<[id := z']> view) fin v));
      [done|done|done|done| | |by apply Hh|done].
    + by eapply bank_change_account; eauto.
    + by eapply view_change_store.
Qed.

Lemma step_inv c gs hist B t r :
  inv c gs hist B -> cstep t c = Some r ->
  (exists c' gs' hist' B', r = Ok c' /\ inv c' gs' hist' B') \/
  (mp = true /\ exists e, r = Panic e).
Proof.
  intros Hi Hst. unfold cstep in Hst. apply bind_Some in Hst as (p & Hp & Hst).
  apply bind_Some in Hst as (x & Hx & [= <-]).
  destruct (i_good _ _ _ _ Hi t p Hp) as (cl & g & Hc & Hg & Hgd).
  assert (keeps_inv c t x \/ (mp = true /\ exists e, x = Panic e))
    as [(b' & p' & gs' & hist' & B' & -> & Hi')|(? & e & ->)].
  - destruct g; [by eapply pending_step|left; by eapply committed_step].
  - left. go_run. by eexists _, _, _, _.
  - right. split; [done|]. by eexists.
Qed.

(** ** Progress *)

(** A thread that is not at a held lock can take its next step. *)
Lemma enabled c p :
  (forall v, p <> Return v) ->
  (forall k, p = LockBank k -> bankLock (bank c) = false) ->
  (forall id k a, p = LockAcc id k -> accounts (bank c) !! id = Some a -> acc_lock a = false) ->
  is_Some (pstep (bank c) p).
Proof.
  intros Hr Hb Ha.
  destruct p as [v|e|k|k|id k|id k|id k|id k|id k|id z k]; cbn [pstep]; try by eexists.
  - by destruct (Hr v).
  - rewrite (Hb k) by done. by eexists.
  - destruct (bankLock (bank c)); by eexists.
  - unfold with_account. destruct (accounts (bank c) !! id) as [a|] eqn:E; [|by eexists].
    rewrite (Ha id k a) by done. by eexists.
  - unfold with_account. destruct (accounts (bank c) !! id) as [a|]; [|by eexists].
    destruct (acc_lock a); by eexists.
  - unfold with_account. destruct (accounts (bank c) !! id); by eexists.
  - unfold with_account. destruct (accounts (bank c) !! id); by eexists.
Qed.

(** A thread at a lock holds no other, or takes an account lock while it
    holds the bank lock. *)
Lemma good_at_lock cl g p :
  good mp D cl g p ->
  (forall k, p = LockBank k -> gbk g = None /\ gview g = ∅) /\
  (forall id k, p = LockAcc id k -> gview g !! id = None /\ (gview g = ∅ \/ is_Some (gbk g))) /\
  (forall v, p = Return v -> gbk g = None /\ gview g = ∅ /\ gval g = Some v).
Proof.
  destruct g as [bk view|bk view fin v]; destruct p; simpl; intros Hgd;
    split_and!; intros; simplify_eq; try done; naive_solver.
Qed.

Lemma thread_of c gs hist B t g :
  inv c gs hist B -> gs !! t = Some g ->
  exists p cl, threads c !! t = Some p /\ calls !! t = Some cl /\ good mp D cl g p.
Proof.
  intros Hi Hg. destruct (threads c !! t) as [p|] eqn:Hp.
  - destruct (i_good _ _ _ _ Hi t p Hp) as (cl & g' & ? & ? & ?). simplify_eq. by exists p, cl.
  - apply lookup_ge_None in Hp. apply lookup_lt_Some in Hg. pose proof (i_len _ _ _ _ Hi). lia.
Qed.

(** A locked account has a holder. *)
Lemma account_holder c gs hist B id a :
  inv c gs hist B -> accounts (bank c) !! id = Some a -> acc_lock a = true ->
  exists t g, gs !! t = Some g /\ is_Some (gview g !! id) /\ gview g <> ∅.
Proof.
  intros Hi Ha Hl. destruct (v_locked _ _ _ (i_view _ _ _ _ Hi) id a Ha Hl) as (t & g & Hg & Hs).
  exists t, g. split; [done|]. split; [done|]. intros E. rewrite E in Hs. by destruct Hs.
Qed.

Lemma can_step c gs hist B t g p cl :
  inv c gs hist B -> gs !! t = Some g -> threads c !! t = Some p -> good mp D cl g p ->
  (forall v, p <> Return v) ->
  (forall k, p = LockBank k -> bankLock (bank c) = false) ->
  (forall id k a, p = LockAcc id k -> accounts (bank c) !! id = Some a -> acc_lock a = false) ->
  exists t, is_Some (cstep t c).
Proof.
  intros Hi Hg Hp Hgd Hr Hb Ha. exists t. unfold cstep. rewrite Hp. simpl.
  destruct (enabled c p) as [x ->]; [done..|]. by eexists.
Qed.

(** Some thread can move unless all have returned. *)
Lemma progress c gs hist B t p :
  inv c gs hist B -> threads c !! t = Some p -> (forall v, p <> Return v) ->
  exists t, is_Some (cstep t c).
Proof.
  intros Hi Hp Hr.
  destruct (decide (Exists (fun g => gview g <> ∅ /\ gbk g = None) gs)) as [Hex|Hno].
  { (* a thread past its last lock *)
    apply Exists_exists in Hex as (g & [t1 Hg]%list_elem_of_lookup & Hne & Hbk).
    destruct (thread_of _ _ _ _ _ _ Hi Hg) as (p1 & cl & Hp1 & _ & Hgd).
    destruct (good_at_lock _ _ _ Hgd) as (H1 & H2 & H3).
    eapply (can_step c gs hist B t1 g p1 cl); try done.
    - intros v ->. by destruct (H3 v eq_refl) as (_ & ? & _).
    - intros k ->. by destruct (H1 k eq_refl) as (_ & ?).
    - intros id k a ->. destruct (H2 id k eq_refl) as [_ [?|[? ?]]]; congruence. }
  assert (forall t g, gs !! t = Some g -> gview g <> ∅ -> is_Some (gbk g)) as Hall.
  { intros t1 g Hg Hne. destruct (gbk g) eqn:E; [by eexists|]. exfalso. apply Hno.
    apply Exists_exists. exists g. split; [by eapply list_elem_of_lookup_2|done]. }
  destruct (bankLock (bank c)) eqn:El.
  - (* the holder of the bank lock *)
    destruct (b_held _ _ (i_bank _ _ _ _ Hi) El) as (t1 & g & Hg & Hs).
    destruct (thread_of _ _ _ _ _ _ Hi Hg) as (p1 & cl & Hp1 & _ & Hgd).
    destruct (good_at_lock _ _ _ Hgd) as (H1 & H2 & H3).
    eapply (can_step c gs hist B t1 g p1 cl); try done.
    + intros v ->. destruct (H3 v) as [E _]; [done|]. rewrite E in Hs. by destruct Hs.
    + intros k ->. destruct (H1 k) as [E _]; [done|]. rewrite E in Hs. by destruct Hs.
    + intros id k a -> Ha. destruct (acc_lock a) eqn:Ela; [|done]. exfalso.
      destruct (account_holder _ _ _ _ _ _ Hi Ha Ela) as (t2 & g2 & Hg2 & Hs2 & Hne2).
      assert (t2 = t1) as -> by (eapply (b_one _ _ (i_bank _ _ _ _ Hi)); by eauto).
      simplify_eq. destruct (H2 id k) as [E _]; [done|]. rewrite E in Hs2. by destruct Hs2.
  - (* nobody holds any lock *)
    destruct (i_good _ _ _ _ Hi t p Hp) as (cl & g & _ & Hg & Hgd).
    eapply (can_step c gs hist B t g p cl); try done. intros id k a _ Ha.
    destruct (acc_lock a) eqn:Ela; [|done]. exfalso.
    destruct (account_holder _ _ _ _ _ _ Hi Ha Ela) as (t2 & g2 & Hg2 & Hs2 & Hne2).
    specialize (Hall _ _ Hg2 Hne2). pose proof (b_holder _ _ (i_bank _ _ _ _ Hi) _ _ Hg2 Hall).
    congruence.
Qed.

(** Where all threads have returned, the accounts hold what the calls leave
    when executed one after another. *)
Lemma finished_balances c gs hist B :
  inv c gs hist B -> (forall t p, threads c !! t = Some p -> exists v, p = Return v) ->
  B = balances (bank c).
Proof.
  intros Hi Hr. apply map_eq. intros id. unfold balances. rewrite lookup_fmap.
  destruct (accounts (bank c) !! id) as [a|] eqn:Ha; simpl.
  - apply (v_free _ _ _ (i_view _ _ _ _ Hi)); [done|]. destruct (acc_lock a) eqn:El; [|done].
    exfalso. destruct (account_holder _ _ _ _ _ _ Hi Ha El) as (t & g & Hg & _ & Hne).
    destruct (thread_of _ _ _ _ _ _ Hi Hg) as (p & cl & Hp & _ & Hgd).
    destruct (Hr t p Hp) as [v ->]. destruct (good_at_lock _ _ _ Hgd) as (_ & _ & H3).
    by destruct (H3 v eq_refl) as (_ & ? & _).
  - by apply (v_none _ _ _ (i_view _ _ _ _ Hi)).
Qed.

Lemma finished_history c gs hist B t cl v :
  inv c gs hist B -> (forall t p, threads c !! t = Some p -> exists v, p = Return v) ->
  (t, (cl, v)) ∈ hist <-> calls !! t = Some cl /\ threads c !! t = Some (Return v).
Proof.
  intros Hi Hr. rewrite (h_hist _ _ _ (i_hist _ _ _ _ Hi)). f_equiv. split.
  - intros (g & Hg & Hv). destruct (thread_of _ _ _ _ _ _ Hi Hg) as (p & cl' & Hp & _ & Hgd).
    destruct (Hr t p Hp) as [v' ->]. destruct (good_at_lock _ _ _ Hgd) as (_ & _ & H3).
    destruct (H3 v') as (_ & _ & E); [done|]. congruence.
  - intros Hp. destruct (i_good _ _ _ _ Hi t _ Hp) as (cl' & g & _ & Hg & Hgd). exists g.
    split; [done|]. destruct (good_at_lock _ _ _ Hgd) as (_ & _ & H3).
    by destruct (H3 v eq_refl) as (_ & _ & ?).
Qed.

(** ** From the start *)

(** No thread holds anything and the accounts of [D] exist. *)
Definition idle (b : Bank) : Prop :=
  bankLock b = false /\ map_Forall (fun _ a => acc_lock a = false) (accounts b) /\
  forall id, id ∈ D -> is_Some (accounts b !! id).

Definition start (b : Bank) : Config := mkConfig b (body <$> calls).

Lemma good_body cl :
  valid_call D cl -> (creates cl = true -> mp = true) -> pre mp D cl None ∅ (body cl).
Proof.
  destruct cl; simpl; intros Hv Hc.
  - apply pre_Create. by apply Hc.
  - by apply pre_Deposit.
  - by apply pre_Withdraw.
  - destruct Hv as (? & ? & ?). by apply pre_Transfer.
  - by apply pre_Balance.
Qed.

Lemma inv_start b :
  Forall (valid_call D) calls -> (existsb creates calls = true -> mp = true) ->
  idle b -> B0 = balances b ->
  inv (start b) (replicate (length calls) (Pending None ∅)) [] B0.
Proof.
  intros Hv Hmp (Hb & Hl & HD) HB.
  assert (forall t g, replicate (length calls) (Pending None ∅) !! t = Some g -> g = Pending None ∅)
    as Hgs by (by intros t g [? _]%lookup_replicate).
  assert (forall id, B0 !! id = balance <$> accounts b !! id) as EB
    by (intros id; rewrite HB; apply lookup_fmap).
  constructor; simpl.
  - constructor; simpl; try congruence.
    + by intros t g ->%Hgs [? ?].
    + by intros t t' g g' ->%Hgs _ [? ?].
    + by intros t g F id x ->%Hgs.
  - constructor; simpl.
    + intros id a Ha El. specialize (Hl id a Ha). simpl in Hl. congruence.
    + intros t g id z ->%Hgs. simpl. by intros ?%lookup_empty_Some.
    + intros t t' g g' id ->%Hgs _. simpl. by intros [? ?%lookup_empty_Some].
    + by intros t g ->%Hgs.
    + intros t g id z ->%Hgs. simpl. by intros ?%lookup_empty_Some.
    + intros id a Ha _. by rewrite EB, Ha.
    + intros id Ha. by rewrite EB, Ha.
  - constructor; [|constructor|done]. intros t cl v. rewrite elem_of_nil. split; [done|].
    by intros (_ & g & ->%Hgs & ?).
  - done.
  - by rewrite length_replicate, length_fmap.
  - intros t p. rewrite list_lookup_fmap. destruct (calls !! t) as [cl|] eqn:Hc; [|done].
    intros [= <-]. exists cl, (Pending None ∅). split; [done|].
    split; [apply lookup_replicate; split; [done|by eapply lookup_lt_Some]|].
    simpl. apply good_body; [by eapply Forall_lookup_1|]. intros Hcr. apply Hmp.
    apply existsb_exists. exists cl. split; [|done].
    by eapply list_elem_of_In, list_elem_of_lookup_2.
Qed.

Lemma run_inv ts c gs hist B r :
  inv c gs hist B -> crun ts c = Some r ->
  (exists c' gs' hist' B', r = Ok c' /\ inv c' gs' hist' B') \/
  (mp = true /\ exists e, r = Panic e).
Proof.
  revert c gs hist B. induction ts as [|t ts IH]; intros c gs hist B Hi Hrun; simpl in Hrun.
  - injection Hrun as <-. left. by eexists _, _, _, _.
  - apply bind_Some in Hrun as (x & Hst & Hrun).
    destruct (step_inv c gs hist B t x Hi Hst) as [(c1 & gs1 & h1 & B1 & -> & Hi1)|(? & e & ->)].
    + by eapply IH.
    + destruct ts; [|done]. injection Hrun as <-. right. split; [done|]. by eexists.
Qed.
End concurrent.

(** ** Every method ends *)

(** At most [n] more accesses. *)
Fixpoint bounded (p : prog) (n : nat) : Prop :=
  match p with
  | Return _ => True
  | PanicWith _ => (0 < n)%nat
  | LockBank k | UnlockBank k | Insert _ k | LockAcc _ k | UnlockAcc _ k | Store _ _ k =>
    match n with O => False | S n => bounded k n end
  | Find _ k => match n with O => False | S n => forall b, bounded (k b) n end
  | Load _ k => match n with O => False | S n => forall z, bounded (k z) n end
  end.

Lemma bounded_body cl : bounded (body cl) 13.
Proof.
  destruct cl; simpl; try done.
  - intros []; simpl; [lia|done].
  - intros []; simpl; [done|lia].
  - intros []; simpl; [|lia]. intros z. by destruct (amount <=? z).
  - intros []; simpl; [|lia]. intros []; simpl; [|lia].
    intros z. by destruct ((amount <=? z) || allowOverdraw).
Qed.

Lemma bounded_step b p n x :
  bounded p n -> pstep b p = Some x ->
  (0 < n)%nat /\ (forall b' p', x = Ok (b', p') -> bounded p' (n - 1)).
Proof.
  intros Hn Hst.
  destruct p as [v|e|k|k|id k|id k|id k|id k|id k|id z k]; simpl in Hst; [done| |..].
  { injection Hst as <-. split; [done|]. by intros b' p' [=]. }
  all: destruct n as [|n]; [done|]; simpl in Hn; rewrite Nat.sub_succ, Nat.sub_0_r;
    unfold with_account in Hst; repeat case_match; simplify_eq; (split; [lia|]);
    intros; simplify_eq; auto.
Qed.

Lemma sum_list_update (l : list nat) i x y :
  l !! i = Some x -> (sum_list (<[i := y]> l) + x = sum_list l + y)%nat.
Proof.
  revert i. induction l as [|z l IH]; intros [|i]; simpl; try done.
  - intros [= ->]. lia.
  - intros Hi. specialize (IH i Hi). lia.
Qed.

Lemma run_bounded ts c ns r :
  Forall2 bounded (threads c) ns -> crun ts c = Some r -> (length ts <= sum_list ns)%nat.
Proof.
  revert c ns. induction ts as [|t ts IH]; intros c ns Hns Hrun; simpl in *; [lia|].
  apply bind_Some in Hrun as (x & Hst & Hrun). unfold cstep in Hst.
  apply bind_Some in Hst as (p & Hp & Hst). apply bind_Some in Hst as (y & Hy & [= <-]).
  destruct (Forall2_lookup_l _ _ _ _ _ Hns Hp) as (n & Hn & Hb).
  destruct (bounded_step (bank c) p n y Hb Hy) as [Hpos Hdec].
  destruct y as [[b' p']|e]; simpl in Hrun.
  - specialize (IH (mkConfig b' (<[t := p']> (threads c))) (<[t := (n - 1)%nat]> ns)).
    pose proof (sum_list_update ns t n (n - 1) Hn).
    assert (length ts <= sum_list (<[t := n - 1]> ns))%nat; [|lia].
    apply IH; [|done]. simpl. apply Forall2_insert; [done|]. by eapply Hdec.
  - pose proof (sum_list_update ns t n 0 Hn). destruct ts; [simpl; lia|done].
Qed.

(** ** The theorems *)

Definition finished (p : prog) : bool := match p with Return _ => true | _ => false end.

Definition returned (c : Config) : Prop :=
  forall t p, threads c !! t = Some p -> exists v, p = Return v.

(** C32: no deadlock, and every call returns.  Concurrent calls on existing
    accounts, with transfers between two different accounts, make at most
    13 accesses each; as long as one has not returned, some thread can move;
    and only the creation of an account can panic. *)
Theorem bank_calls_return D calls b ts r :
  Forall (valid_call D) calls -> idle D b -> crun ts (start calls b) = Some r ->
  (length ts <= 13 * length calls)%nat /\
  match r with
  | Panic _ => existsb creates calls = true
  | Ok c => returned c \/ exists t, is_Some (cstep t c)
  end.
Proof.
  intros Hv Hidle Hrun. split.
  - assert (Forall2 bounded (threads (start calls b)) (replicate (length calls) 13%nat)) as Hb.
    { simpl. clear. induction calls; simpl; constructor; [apply bounded_body|done]. }
    pose proof (run_bounded _ _ _ _ Hb Hrun). rewrite sum_list_replicate in *. lia.
  - pose proof (inv_start (existsb creates calls) D calls (balances b) b Hv (fun H => H) Hidle
      eq_refl) as Hi.
    destruct (run_inv _ _ _ _ ts _ _ _ _ r Hi Hrun)
      as [(c & gs & hist & B & -> & Hc)|(? & e & ->)]; [|done].
    destruct (decide (Exists (fun p => finished p = false) (threads c)))
      as [Hex|Hno].
    + right. apply Exists_exists in Hex as (p & [t Hp]%list_elem_of_lookup & Hr).
      eapply progress; [done|done|]. by intros v ->.
    + left. intros t p Hp. destruct p as [v| | | | | | | | |]; [by exists v|..];
        exfalso; apply Hno; apply Exists_exists; eexists;
        (split; [by eapply list_elem_of_lookup_2|done]).
Qed.

(** The history lists each call once, with the value it returned. *)
Lemma history_perm (calls : list call) (vals : list value) (hist : list (nat * (call * value))) :
  NoDup (hist.*1) ->
  (forall t cl v, (t, (cl, v)) ∈ hist <-> calls !! t = Some cl /\ vals !! t = Some v) ->
  hist.*2 ≡ₚ zip calls vals.
Proof.
  intros Hnd Hin.
  assert (hist ≡ₚ imap (fun t x => (t, x)) (zip calls vals)) as ->.
  { apply NoDup_Permutation; [by eapply NoDup_fmap_1| |].
    - apply (NoDup_fmap_1 fst). rewrite fmap_imap. apply NoDup_alt. intros i j x.
      rewrite !list_lookup_imap. intros Hi Hj.
      destruct (zip calls vals !! i), (zip calls vals !! j); simplify_eq/=; done.
    - intros [t [cl v]]. rewrite Hin, elem_of_lookup_imap. split.
      + intros [Hc Hv]. exists t, (cl, v). split; [done|]. rewrite lookup_zip_Some. done.
      + intros (t' & x & [= <- <-] & Hx). by apply lookup_zip_Some in Hx. }
  rewrite fmap_imap. simpl. apply reflexive_eq. apply list_eq. intros i.
  rewrite list_lookup_imap. by destruct (zip calls vals !! i).
Qed.

Lemma run_serial D calls b ts c vals :
  Forall (valid_call D) calls -> idle D b -> crun ts (start calls b) = Some (Ok c) ->
  threads c = Return <$> vals ->
  exists order, order ≡ₚ zip calls vals /\
    seq_run order (balances b) = Some (balances (bank c)).
Proof.
  intros Hv Hidle Hrun Hret.
  assert (returned c) as Hr.
  { intros t p. rewrite Hret, list_lookup_fmap. destruct (vals !! t); [|done].
    intros [= <-]. by eexists. }
  pose proof (inv_start true D calls (balances b) b Hv (fun _ => eq_refl) Hidle eq_refl) as Hi.
  destruct (run_inv _ _ _ _ ts _ _ _ _ _ Hi Hrun)
    as [(c' & gs & hist & B & [= <-] & Hc)|(_ & e & ?)]; [|done].
  exists (hist.*2). destruct (i_hist _ _ _ _ _ _ _ _ Hc) as [_ Hnd Hseq]. split.
  - apply history_perm; [done|]. intros t cl v. rewrite (finished_history _ _ _ _ _ _ _ _ _ _ _ Hc Hr).
    f_equiv. rewrite Hret, list_lookup_fmap. destruct (vals !! t); simpl; naive_solver.
  - by rewrite <- (finished_balances _ _ _ _ _ _ _ _ Hc Hr).
Qed.

(** C5: calls are atomic.  When concurrent calls of the five operations, on
    existing accounts and with transfers between two different accounts, have
    all returned, there is
    an order of the calls, each with the value it returned, such that
    executing them one after another, as [seq_call] describes each, gives
    those values and the balances the accounts have. *)
Theorem bank_serializable D calls b ts c vals :
  Forall (valid_call D) calls -> idle D b -> crun ts (start calls b) = Some (Ok c) ->
  threads c = Return <$> vals ->
  exists order, order ≡ₚ zip calls vals /\
    seq_run order (balances b) = Some (balances (bank c)).
Proof. apply run_serial. Qed.

(** ** Money *)

Definition total (B : gmap Z Z) : Z := map_fold (fun _ z acc => z + acc) 0 B.

Lemma total_insert_new B id z : B !! id = None -> total (<[id := z]> B) = z + total B.
Proof. intros Hn. unfold total. rewrite map_fold_insert_L; [done|intros; lia|done]. Qed.

Lemma total_insert B id z z' : B !! id = Some z -> total (<[id := z']> B) = total B - z + z'.
Proof.
  intros Hz. rewrite <- (insert_delete_id B id z Hz) at 2. rewrite <- insert_delete_eq.
  rewrite !total_insert_new by apply lookup_delete_eq. lia.
Qed.

(** What a call that returned [v] adds to the total. *)
Definition effect (c : call) (v : value) : Z :=
  match c, v with
  | CDeposit _ amount, _ => amount
  | CWithdraw _ amount, VBool true => - amount
  | _, _ => 0
  end.

Definition effects (h : list (call * value)) : Z := foldr (fun x acc => effect x.1 x.2 + acc) 0 h.

(** Equality of Go's 64-bit integers. *)
Definition eq64 (x y : Z) : Prop := x mod 2 ^ 64 = y mod 2 ^ 64.

#[local] Instance eq64_equiv : Equivalence eq64.
Proof. unfold eq64. split; [by intros x|by intros x y ->|by intros x y z -> ->]. Qed.

#[local] Instance eq64_add : Proper (eq64 ==> eq64 ==> eq64) Z.add.
Proof.
  unfold eq64. intros x x' Ex y y' Ey. rewrite (Zplus_mod x y), (Zplus_mod x' y'). by rewrite Ex, Ey.
Qed.

Lemma eq64_wrap z : eq64 (wrap64 z) z.
Proof. apply wrap64_mod. Qed.

#[local] Opaque eq64.

Lemma seq_call_total D c v B B' :
  valid_call D c -> seq_call c B = Some (v, B') -> eq64 (total B') (total B + effect c v).
Proof.
  intros Hv Hs. destruct c as [id|id a|id a|s r a o|id]; simpl in Hs.
  - destruct (B !! id) eqn:E; [done|]. injection Hs as <- <-.
    rewrite total_insert_new by done. simpl. by rewrite Z.add_0_r.
  - apply bind_Some in Hs as (z & Hz & [= <- <-]). rewrite (total_insert _ _ z) by done.
    rewrite eq64_wrap. simpl. apply reflexive_eq. lia.
  - apply bind_Some in Hs as (z & Hz & Hs). destruct (a <=? z); injection Hs as <- <-; simpl.
    + rewrite (total_insert _ _ z) by done. rewrite eq64_wrap. apply reflexive_eq. lia.
    + by rewrite Z.add_0_r.
  - apply bind_Some in Hs as (zs & Hzs & Hs). apply bind_Some in Hs as (zr & Hzr & Hs).
    destruct Hv as (_ & _ & Hne). simpl. rewrite Z.add_0_r.
    destruct ((a <=? zs) || o); injection Hs as <- <-; [|done].
    rewrite (total_insert _ _ zr) by (by rewrite lookup_insert_ne).
    rewrite (total_insert _ _ zs) by done. rewrite <- (Z.add_opp_r _ zr).
    rewrite (eq64_wrap (zr + a)), (eq64_wrap (zs - a)). apply reflexive_eq. lia.
  - apply bind_Some in Hs as (z & Hz & [= <- <-]). simpl. by rewrite Z.add_0_r.
Qed.

Lemma seq_run_total D h B B' :
  Forall (fun x => valid_call D x.1) h -> seq_run h B = Some B' ->
  eq64 (total B') (total B + effects h).
Proof.
  revert B. induction h as [|[c v] h IH]; intros B Hv Hs; simpl in *.
  { injection Hs as ->. by rewrite Z.add_0_r. }
  apply Forall_cons in Hv as [Hc Hv].
  apply bind_Some in Hs as ([v' B1] & Hs1 & Hs). case_decide; [subst v'|done].
  rewrite (IH B1 Hv Hs), (seq_call_total D c v B B1 Hc Hs1). apply reflexive_eq. simpl. lia.
Qed.

Lemma effects_perm h h' : h ≡ₚ h' -> effects h = effects h'.
Proof. induction 1; simpl; lia. Qed.

(** C33: money is conserved.  When concurrent calls have all returned, the sum
    of the balances is, in 64-bit arithmetic, the sum before plus what was
    deposited minus what was successfully withdrawn; transfers and queries
    add nothing. *)
Theorem bank_conserves_money D calls b ts c vals :
  Forall (valid_call D) calls -> idle D b -> crun ts (start calls b) = Some (Ok c) ->
  threads c = Return <$> vals ->
  eq64 (total (balances (bank c))) (total (balances b) + effects (zip calls vals)).
Proof.
  intros Hv Hidle Hrun Hret.
  destruct (run_serial D calls b ts c vals Hv Hidle Hrun Hret) as (order & Hp & Hs).
  rewrite <- (effects_perm _ _ Hp). apply (seq_run_total D); [|done].
  rewrite Hp. apply Forall_forall. intros [cl v] [i [Hcl _]%lookup_zip_Some]%list_elem_of_lookup.
  by eapply Forall_lookup_1.
Qed.

(** ** Where the code departs from it *)

(** A transfer from an account to itself never returns.  It waits for the
    lock of the account it already holds, with the bank lock held, and so
    does every later call but a balance query: nothing can move any more. *)
Theorem self_transfer_deadlocks D calls b id amount o :
  idle D b -> id ∈ D -> Forall (fun c => forall i, c <> CBalance i) calls ->
  exists c, crun [0; 0; 0; 0]%nat (start (CTransfer id id amount o :: calls) b) = Some (Ok c) /\
    bankLock (bank c) = true /\ forall t, cstep t c = None.
Proof.
  intros (Hb & Hl & HD) Hid Hcs. destruct (HD id Hid) as [a Ha].
  pose proof (Hl id a Ha) as Hla. simpl in Hla.
  exists (mkConfig (mkBank true (<[id := mkAccount (balance a) true]> (accounts b)))
    (LockAcc id (UnlockBank (Load id (fun balance =>
       if (amount <=? balance) || o then
         Load id (fun balance => Store id (wrap64 (balance - amount)) (
         Load id (fun balance => Store id (wrap64 (balance + amount)) (
         UnlockAcc id (UnlockAcc id (Return (VBool true)))))))
       else UnlockAcc id (UnlockAcc id (Return (VBool false)))))) :: (body <$> calls))).
  split; [|split; [done|]].
  - unfold start. cbn [crun]. unfold cstep. simpl. rewrite Hb. simpl. rewrite Ha. simpl.
    rewrite Ha. simpl. unfold with_account. simpl. rewrite Ha. simpl. by rewrite Hla.
  - intros [|t]; unfold cstep; simpl.
    + unfold with_account. simpl. by rewrite lookup_insert_eq.
    + rewrite list_lookup_fmap. destruct (calls !! t) as [cl|] eqn:Hc; [|done]. simpl.
      pose proof (Forall_lookup_1 _ _ _ _ Hcs Hc) as Hn. simpl in Hn.
      destruct cl as [|?|?|?|i]; try done. by destruct (Hn i).
Qed.

(** C40: depositing to a missing account.  [Deposit] locks the account before
    it checks that it exists, so a missing account is a nil dereference, and
    the message of the check is never used. *)
Theorem deposit_to_missing_account b id amount :
  bankLock b = false -> accounts b !! id = None ->
  crun [0; 0; 0]%nat (mkConfig b [Deposit id amount]) = Some (Panic NilDereference).
Proof.
  intros Hb Hn. cbn [crun]. unfold cstep. simpl. rewrite Hb. simpl. rewrite Hn. simpl.
  unfold with_account. simpl. by rewrite Hn.
Qed.

(** A bank with one account of balance 0. *)
Definition one_account : Bank := mkBank false {[1 := mkAccount 0 false]}.

(** [DepositAndCompare] is not atomic.  Of two concurrent calls that each
    deposit 100 into an empty account and compare with 200, exactly one
    finds the threshold reached when they run one after the other, and both
    do when the second deposit comes between the first one's deposit and
    its query. *)
Theorem deposit_and_compare_not_atomic :
  let start := mkConfig one_account [DepositAndCompare 1 100 200; DepositAndCompare 1 100 200] in
  (exists c, crun (replicate 11 0 ++ replicate 11 1)%nat start = Some (Ok c) /\
     threads c = [Return (VBool false); Return (VBool true)]) /\
  (exists c, crun (replicate 7 0 ++ replicate 11 1 ++ replicate 4 0)%nat start = Some (Ok c) /\
     threads c = [Return (VBool true); Return (VBool true)]).
Proof. split; eexists; split; vm_compute; reflexivity. Qed.

(** ** Witnesses *)

Definition two_accounts : Bank := mkBank false {[1 := mkAccount 100 false; 2 := mkAccount 50 false]}.
Definition demo_calls : list call := [CTransfer 1 2 30 false; CTransfer 2 1 10 false; CWithdraw 2 500].
Definition demo_ts : list nat :=
  ([0; 0; 0; 0; 0; 0; 1; 0; 1; 1; 0; 0; 0; 0; 0; 0] ++ replicate 10 1 ++ replicate 6 2)%nat.

Lemma demo_idle : idle {[1; 2]} two_accounts.
Proof.
  split; [reflexivity|]. split.
  - intros id a. unfold two_accounts. simpl.
    intros [[<- <-]|[_ [<- <-]%lookup_singleton_Some]]%lookup_insert_Some; reflexivity.
  - intros id [->%elem_of_singleton| ->%elem_of_singleton]%elem_of_union; vm_compute; by eexists.
Qed.

Lemma demo_valid : Forall (valid_call {[1; 2]}) demo_calls.
Proof. repeat constructor; set_solver. Qed.

Definition demo_vals : list value := [VBool true; VBool true; VBool false].

(** Where the demonstration ends. *)
Definition demo_end : Config :=
  mkConfig (mkBank false {[1 := mkAccount 80 false; 2 := mkAccount 70 false]}) (Return <$> demo_vals).

Lemma demo_run : crun demo_ts (start demo_calls two_accounts) = Some (Ok demo_end).
Proof. vm_compute. reflexivity. Qed.

Lemma bank_calls_return_witness : returned demo_end \/ exists t, is_Some (cstep t demo_end).
Proof.
  exact (proj2 (bank_calls_return {[1; 2]} demo_calls two_accounts demo_ts (Ok demo_end)
    demo_valid demo_idle demo_run)).
Defined.

Lemma bank_serializable_witness :
  exists order, order ≡ₚ zip demo_calls demo_vals /\
    seq_run order (balances two_accounts) = Some (balances (bank demo_end)).
Proof.
  exact (bank_serializable {[1; 2]} demo_calls two_accounts demo_ts demo_end demo_vals
    demo_valid demo_idle demo_run eq_refl).
Defined.

Lemma bank_conserves_money_witness :
  eq64 (total (balances (bank demo_end)))
    (total (balances two_accounts) + effects (zip demo_calls demo_vals)).
Proof.
  exact (bank_conserves_money {[1; 2]} demo_calls two_accounts demo_ts demo_end demo_vals
    demo_valid demo_idle demo_run eq_refl).
Defined.

Lemma self_transfer_deadlocks_witness :
  exists c, crun [0; 0; 0; 0]%nat (start [CTransfer 1 1 5 false; CDeposit 2 7] two_accounts)
      = Some (Ok c) /\ forall t, cstep t c = None.
Proof.
  destruct (self_transfer_deadlocks {[1; 2]} [CDeposit 2 7] two_accounts 1 5 false demo_idle)
    as (c & E & _ & H); [set_solver|by repeat constructor|]. by exists c.
Defined.

Lemma deposit_to_missing_account_witness :
  crun [0; 0; 0]%nat (mkConfig BankInit [Deposit 9 100]) = Some (Panic NilDereference).
Proof. apply (deposit_to_missing_account BankInit 9 100); reflexivity. Defined.
