(* ===== verification/MRCoordinator.v ===== *)
(** * mr/coordinator.go and mr/rpc.go: the MapReduce coordinator

    The coordinator's tables of tasks and its RPC handlers.  Every handler
    holds [c.mu] from its first line to its return, so each is one atomic
    definition; [go c.DetectStraggler(...)] is a timer the definition
    returns. *)

From Stdlib Require Import ZArith Lia.
From stdpp Require Import base numbers strings gmap list.
From S2P Require Import Prelude.
Local Open Scope Z_scope.

Record Task := mkTask { num : Z; status : string; filename : string }.

Record Coordinator := mkCoordinator {
  mapTasks : list Task;
  reduceTasks : list Task;
  mapsLeft : Z;
  reducesLeft : Z;
  nReduce : Z;
}.

Record GetTaskReply := mkGetTaskReply {
  FileName : string;
  TaskType : string;
  NReduce : Z;
  Id : Z;
  NMap : Z;
  Done_ : bool;
}.

Record MarkCompleteArgs := mkMarkCompleteArgs { mc_Id : Z; mc_TaskType : string }.

(** The zero value of the reply. *)
Definition emptyReply : GetTaskReply := mkGetTaskReply "" "" 0 0 0 false.

Definition set_status (s : string) (t : Task) : Task := mkTask (num t) s (filename t).

(** [for i, task := range tasks { if task.status == "unstarted" {
      tasks[i].status = "in progress"; ...; break } }] *)
Fixpoint takeUnstarted (tasks : list Task) : option (list Task * Task) :=
  match tasks with
  | [] => None
  | task :: rest =>
    if bool_decide (status task = "unstarted")
    then Some (set_status "in progress" task :: rest, task)
    else '(rest, t) ← takeUnstarted rest; Some (task :: rest, t)
  end.

(** The new state, the reply, and the stragglers' timers it starts. *)
Definition GetTask (c : Coordinator) : Coordinator * GetTaskReply * list (Z * string) :=
  if negb (mapsLeft c =? 0) then
    match takeUnstarted (mapTasks c) with
    | Some (tasks, task) =>
      (mkCoordinator tasks (reduceTasks c) (mapsLeft c) (reducesLeft c) (nReduce c),
       mkGetTaskReply (filename task) "map" (nReduce c) (num task) 0 false,
       [(num task, "map"%string)])
    | None => (c, emptyReply, [])
    end
  else if reducesLeft c =? 0 then (c, mkGetTaskReply "" "" 0 0 0 true, [])
  else
    match takeUnstarted (reduceTasks c) with
    | Some (tasks, task) =>
      (mkCoordinator (mapTasks c) tasks (mapsLeft c) (reducesLeft c) (nReduce c),
       mkGetTaskReply "" "reduce" 0 (num task) (len (mapTasks c)) false,
       [(num task, "reduce"%string)])
    | None => (c, emptyReply, [])
    end.

(** [tasks[idx].status == "in progress"], evaluated after the test of the
    type; the assignment that follows it when it holds. *)
Definition ifInProgress (tasks : list Task) (idx : Z) (s : string) : result (option (list Task)) :=
  t ← index tasks idx;
  if bool_decide (status t = "in progress") then
    tasks ← assign tasks idx (set_status s t);
    Ok (Some tasks)
  else Ok None.

Definition DetectStraggler (c : Coordinator) (idx : Z) (taskType : string) : result Coordinator :=
  if bool_decide (taskType = "map") then
    r ← ifInProgress (mapTasks c) idx "unstarted";
    match r with
    | Some tasks => Ok (mkCoordinator tasks (reduceTasks c) (mapsLeft c) (reducesLeft c) (nReduce c))
    | None => Ok c
    end
  else if bool_decide (taskType = "reduce") then
    r ← ifInProgress (reduceTasks c) idx "unstarted";
    match r with
    | Some tasks => Ok (mkCoordinator (mapTasks c) tasks (mapsLeft c) (reducesLeft c) (nReduce c))
    | None => Ok c
    end
  else Ok c.

Definition MarkComplete (c : Coordinator) (args : MarkCompleteArgs) : result Coordinator :=
  if bool_decide (mc_TaskType args = "map") then
    r ← ifInProgress (mapTasks c) (mc_Id args) "completed";
    match r with
    | Some tasks =>
      Ok (mkCoordinator tasks (reduceTasks c) (mapsLeft c - 1) (reducesLeft c) (nReduce c))
    | None => Ok c
    end
  else if bool_decide (mc_TaskType args = "reduce") then
    r ← ifInProgress (reduceTasks c) (mc_Id args) "completed";
    match r with
    | Some tasks =>
      Ok (mkCoordinator (mapTasks c) tasks (mapsLeft c) (reducesLeft c - 1) (nReduce c))
    | None => Ok c
    end
  else Ok c.

Definition Done (c : Coordinator) : bool := reducesLeft c =? 0.

Definition MakeCoordinator (files : list string) (nReduce : Z) : Coordinator :=
  mkCoordinator
    (imap (fun i file => mkTask (Z.of_nat i) "unstarted" file) files)
    ((fun i => mkTask i "unstarted" "") <$> seqZ 0 nReduce)
    (len files) nReduce nReduce.

(** ** The invariant of the tables *)

(** How many tasks are not completed. *)
Definition unfinished (tasks : list Task) : Z :=
  len (filter (fun t => status t <> "completed"%string) tasks).

Record wf_tasks (files : list string) (tasks : list Task) (left : Z) : Prop := {
  wt_files : filename <$> tasks = files;
  wt_nums : num <$> tasks = seqZ 0 (len tasks);
  wt_status : Forall (fun t => status t ∈ ["unstarted"; "in progress"; "completed"]%string) tasks;
  wt_left : left = unfinished tasks;
}.

Definition untouched (tasks : list Task) : Prop :=
  Forall (fun t => status t = "unstarted"%string) tasks.

Definition all_completed (tasks : list Task) : Prop :=
  Forall (fun t => status t = "completed"%string) tasks.

Record wf_coordinator (files : list string) (n : Z) (c : Coordinator) : Prop := {
  wc_maps : wf_tasks files (mapTasks c) (mapsLeft c);
  wc_reduces : wf_tasks (replicate (Z.to_nat n) ""%string) (reduceTasks c) (reducesLeft c);
  wc_n : nReduce c = n;
  wc_phase : mapsLeft c <> 0 -> untouched (reduceTasks c);
}.

(** ** Tables *)

Lemma unfinished_cons t ts :
  unfinished (t :: ts) = (if decide (status t = "completed"%string) then 0 else 1) + unfinished ts.
Proof.
  unfold unfinished. rewrite filter_cons.
  destruct (decide (status t = "completed"%string)) as [E|E].
  - by rewrite decide_False by (intros Hn; by apply Hn).
  - rewrite decide_True by done. rewrite len_cons. lia.
Qed.

Lemma unfinished_nonneg ts : 0 <= unfinished ts.
Proof. apply len_nonneg. Qed.

Lemma unfinished_0 ts : unfinished ts = 0 <-> all_completed ts.
Proof.
  unfold all_completed. induction ts as [|t ts IH]; [by split|].
  rewrite unfinished_cons, Forall_cons. pose proof (unfinished_nonneg ts).
  case_decide; [rewrite <- IH; split; [intros; split; [done|lia]|intros [_ ?]; lia]|].
  split; [lia|by intros [? _]].
Qed.

Lemma unfinished_untouched ts : untouched ts -> unfinished ts = len ts.
Proof.
  induction 1 as [|t ts E _ IH]; [done|]. rewrite unfinished_cons, len_cons, IH.
  rewrite decide_False; [lia|]. by rewrite E.
Qed.

(** Replacing the status of one task. *)
Lemma unfinished_update ts i t s :
  ts !! i = Some t ->
  unfinished (<[i := set_status s t]> ts) =
  unfinished ts - (if decide (status t = "completed"%string) then 0 else 1)
    + (if decide (s = "completed"%string) then 0 else 1).
Proof.
  revert i. induction ts as [|t' ts IH]; intros [|i]; simpl; try done.
  - intros [= ->]. rewrite !unfinished_cons. simpl. lia.
  - intros Hi. rewrite !unfinished_cons, (IH i Hi). lia.
Qed.

Lemma wf_tasks_update files ts left i t s :
  wf_tasks files ts left -> ts !! i = Some t ->
  s ∈ ["unstarted"; "in progress"; "completed"]%string ->
  wf_tasks files (<[i := set_status s t]> ts)
    (left - (if decide (status t = "completed"%string) then 0 else 1)
       + (if decide (s = "completed"%string) then 0 else 1)).
Proof.
  intros [] Hi Hs. constructor.
  - rewrite list_fmap_insert. simpl. rewrite list_insert_id; [done|]. by rewrite list_lookup_fmap, Hi.
  - rewrite list_fmap_insert, len_insert. simpl. rewrite list_insert_id; [done|].
    by rewrite list_lookup_fmap, Hi.
  - by apply Forall_insert.
  - by rewrite unfinished_update, wt_left0.
Qed.

Lemma wf_tasks_num files ts left i t :
  wf_tasks files ts left -> ts !! i = Some t -> num t = Z.of_nat i /\ (i < length ts)%nat.
Proof.
  intros [] Hi. split; [|by eapply lookup_lt_Some].
  assert ((num <$> ts) !! i = Some (num t)) as E by (by rewrite list_lookup_fmap, Hi).
  rewrite wt_nums0 in E. apply lookup_seqZ in E. lia.
Qed.

(** [takeUnstarted] takes the first unstarted task. *)
Lemma takeUnstarted_spec ts :
  match takeUnstarted ts with
  | Some (ts', t) => exists i, ts !! i = Some t /\ status t = "unstarted"%string /\
      ts' = <[i := set_status "in progress" t]> ts /\
      forall j t', (j < i)%nat -> ts !! j = Some t' -> status t' <> "unstarted"%string
  | None => Forall (fun t => status t <> "unstarted"%string) ts
  end.
Proof.
  induction ts as [|t ts IH]; simpl; [constructor|].
  case_bool_decide as E.
  - exists 0%nat. split_and!; try done. intros; lia.
  - destruct (takeUnstarted ts) as [[ts' t']|]; simpl; [|by constructor].
    destruct IH as (i & Hi & Hs & -> & Hfirst). exists (S i). split_and!; try done.
    intros [|j] x Hj; simpl; [by intros [= <-]|]. apply Hfirst. lia.
Qed.

Lemma ifInProgress_spec ts idx t s :
  0 <= idx -> ts !! Z.to_nat idx = Some t ->
  ifInProgress ts idx s =
  Ok (if decide (status t = "in progress"%string)
      then Some (<[Z.to_nat idx := set_status s t]> ts) else None).
Proof.
  intros Hidx Hi. unfold ifInProgress.
  assert (index ts idx = Ok t) as -> by (by apply index_Ok).
  go_run. case_bool_decide; [|by rewrite decide_False].
  rewrite decide_True by done. apply lookup_lt_Some in Hi.
  rewrite assign_in_range by (unfold len; lia). done.
Qed.

(** ** The handlers on a well-formed coordinator *)

Lemma wf_MakeCoordinator files n :
  0 <= n -> wf_coordinator files n (MakeCoordinator files n).
Proof.
  intros Hn. unfold MakeCoordinator.
  assert (forall ts : list Task, untouched ts ->
    Forall (fun t => status t ∈ ["unstarted"; "in progress"; "completed"]%string) ts) as Hst.
  { intros ts Hts. apply (Forall_impl _ _ _ Hts). intros t ->. left. }
  assert (untouched (imap (fun i file => mkTask (Z.of_nat i) "unstarted" file) files)) as Hm.
  { apply Forall_forall. intros t (i & f & -> & _)%elem_of_lookup_imap_1. done. }
  assert (untouched ((fun i => mkTask i "unstarted" "") <$> seqZ 0 n)) as Hr.
  { apply Forall_forall. intros t (i & -> & _)%list_elem_of_fmap_1. done. }
  constructor; simpl; [| |done|done].
  - constructor.
    + rewrite fmap_imap. apply list_eq. intros i. rewrite list_lookup_imap.
      by destruct (files !! i).
    + rewrite fmap_imap. apply list_eq. intros i. rewrite list_lookup_imap.
      unfold len. rewrite length_imap.
      destruct (files !! i) eqn:E; simpl; symmetry.
      * apply lookup_lt_Some in E. rewrite lookup_seqZ_lt by lia. done.
      * apply lookup_ge_None in E. by rewrite lookup_seqZ_ge by lia.
    + by apply Hst.
    + rewrite unfinished_untouched by done. unfold len. by rewrite length_imap.
  - constructor.
    + rewrite <- list_fmap_compose. apply list_eq. intros i. rewrite list_lookup_fmap.
      destruct (decide (Z.of_nat i < n)).
      * rewrite lookup_seqZ_lt by lia. simpl. symmetry. apply lookup_replicate. split; [done|lia].
      * rewrite lookup_seqZ_ge by lia. simpl. symmetry. apply lookup_replicate_None. lia.
    + rewrite <- list_fmap_compose, list_fmap_id. f_equal. unfold len.
      rewrite length_fmap, length_seqZ. lia.
    + by apply Hst.
    + rewrite unfinished_untouched by done. unfold len. rewrite length_fmap, length_seqZ. lia.
Qed.

(** What [GetTask] does, case by case. *)
Inductive get_outcome (c : Coordinator) : Coordinator -> GetTaskReply -> list (Z * string) -> Prop :=
| GetMap i t :
    mapsLeft c <> 0 -> mapTasks c !! i = Some t -> status t = "unstarted"%string ->
    (forall j t', (j < i)%nat -> mapTasks c !! j = Some t' -> status t' <> "unstarted"%string) ->
    get_outcome c
      (mkCoordinator (<[i := set_status "in progress" t]> (mapTasks c)) (reduceTasks c)
         (mapsLeft c) (reducesLeft c) (nReduce c))
      (mkGetTaskReply (filename t) "map" (nReduce c) (num t) 0 false) [(num t, "map"%string)]
| GetReduce i t :
    mapsLeft c = 0 -> reducesLeft c <> 0 ->
    reduceTasks c !! i = Some t -> status t = "unstarted"%string ->
    (forall j t', (j < i)%nat -> reduceTasks c !! j = Some t' -> status t' <> "unstarted"%string) ->
    get_outcome c
      (mkCoordinator (mapTasks c) (<[i := set_status "in progress" t]> (reduceTasks c))
         (mapsLeft c) (reducesLeft c) (nReduce c))
      (mkGetTaskReply "" "reduce" 0 (num t) (len (mapTasks c)) false) [(num t, "reduce"%string)]
| GetDone :
    mapsLeft c = 0 -> reducesLeft c = 0 ->
    get_outcome c c (mkGetTaskReply "" "" 0 0 0 true) []
| GetWait :
    (mapsLeft c <> 0 /\ Forall (fun t => status t <> "unstarted"%string) (mapTasks c)) \/
    (mapsLeft c = 0 /\ reducesLeft c <> 0 /\
     Forall (fun t => status t <> "unstarted"%string) (reduceTasks c)) ->
    get_outcome c c emptyReply [].

Lemma GetTask_outcome c c' reply ts :
  GetTask c = (c', reply, ts) -> get_outcome c c' reply ts.
Proof.
  unfold GetTask. destruct (Z.eqb_spec (mapsLeft c) 0) as [Hm|Hm]; simpl.
  - destruct (Z.eqb_spec (reducesLeft c) 0) as [Hr|Hr]; [intros [= <- <- <-]; by constructor|].
    pose proof (takeUnstarted_spec (reduceTasks c)) as Ht.
    destruct (takeUnstarted (reduceTasks c)) as [[ts' t]|]; intros [= <- <- <-].
    + destruct Ht as (i & ? & ? & -> & ?). by eapply GetReduce.
    + apply GetWait. by right.
  - pose proof (takeUnstarted_spec (mapTasks c)) as Ht.
    destruct (takeUnstarted (mapTasks c)) as [[ts' t]|]; intros [= <- <- <-].
    + destruct Ht as (i & ? & ? & -> & ?). by eapply GetMap.
    + apply GetWait. by left.
Qed.

(** One task's status changes; [d] is what that adds to what is left. *)
Lemma wf_tasks_status files ts left i t s d :
  wf_tasks files ts left -> ts !! i = Some t -> status t <> "completed"%string ->
  s ∈ ["unstarted"; "in progress"; "completed"]%string ->
  d = (if decide (s = "completed"%string) then 1 else 0) ->
  wf_tasks files (<[i := set_status s t]> ts) (left - d).
Proof.
  intros Hw Hi Hne Hs ->. pose proof (wf_tasks_update _ _ _ _ _ s Hw Hi Hs) as H.
  rewrite decide_False in H by done. case_decide; [by rewrite Z.add_0_r in H|].
  by rewrite Z.sub_add in H; rewrite Z.sub_0_r.
Qed.

Lemma wf_GetTask files n c c' reply ts :
  wf_coordinator files n c -> GetTask c = (c', reply, ts) -> wf_coordinator files n c'.
Proof.
  intros [Hm Hr Hn Hp] HG%GetTask_outcome.
  destruct HG as [i t Hml Hi Hs _|i t Hml Hrl Hi Hs _| |]; try done; constructor; simpl; try done.
  - rewrite <- (Z.sub_0_r (mapsLeft c)). eapply wf_tasks_status; [done|done|by rewrite Hs|set_solver|done].
  - rewrite <- (Z.sub_0_r (reducesLeft c)).
    eapply wf_tasks_status; [done|done|by rewrite Hs|set_solver|done].
Qed.

(** A task the coordinator knows, by number and type. *)
Definition known (c : Coordinator) (idx : Z) (ty : string) (t : Task) : Prop :=
  (ty = "map"%string /\ 0 <= idx /\ mapTasks c !! Z.to_nat idx = Some t) \/
  (ty = "reduce"%string /\ 0 <= idx /\ reduceTasks c !! Z.to_nat idx = Some t).

(** The coordinator after a task's status became [s]. *)
Definition with_status (c : Coordinator) (idx : Z) (ty : string) (t : Task) (s : string) (d : Z)
    : Coordinator :=
  if bool_decide (ty = "map"%string) then
    mkCoordinator (<[Z.to_nat idx := set_status s t]> (mapTasks c)) (reduceTasks c)
      (mapsLeft c - d) (reducesLeft c) (nReduce c)
  else
    mkCoordinator (mapTasks c) (<[Z.to_nat idx := set_status s t]> (reduceTasks c))
      (mapsLeft c) (reducesLeft c - d) (nReduce c).

Lemma DetectStraggler_spec c idx ty t :
  known c idx ty t ->
  DetectStraggler c idx ty =
  Ok (if decide (status t = "in progress"%string) then with_status c idx ty t "unstarted" 0 else c).
Proof.
  intros [(-> & Hi & Ht)|(-> & Hi & Ht)]; unfold DetectStraggler, with_status;
    simpl; rewrite (ifInProgress_spec _ _ t) by done; go_run;
    case_decide; rewrite ?Z.sub_0_r; done.
Qed.

Lemma MarkComplete_spec c idx ty t :
  known c idx ty t ->
  MarkComplete c (mkMarkCompleteArgs idx ty) =
  Ok (if decide (status t = "in progress"%string) then with_status c idx ty t "completed" 1 else c).
Proof.
  intros [(-> & Hi & Ht)|(-> & Hi & Ht)]; unfold MarkComplete, with_status; simpl;
    rewrite (ifInProgress_spec _ _ t) by done; go_run; by case_decide.
Qed.

(** A task in progress, and the phase of the job. *)
Lemma wf_with_status files n c idx ty t s d :
  wf_coordinator files n c -> known c idx ty t -> status t = "in progress"%string ->
  s ∈ ["unstarted"; "completed"]%string ->
  d = (if decide (s = "completed"%string) then 1 else 0) ->
  wf_coordinator files n (with_status c idx ty t s d).
Proof.
  intros [Hm Hr Hn Hp] Hk Hs Hin Hd.
  assert (s ∈ ["unstarted"; "in progress"; "completed"]%string) as Hin' by set_solver.
  destruct Hk as [(-> & Hi & Ht)|(-> & Hi & Ht)]; unfold with_status; simpl;
    constructor; simpl; try done.
  - eapply wf_tasks_status; [done|done|by rewrite Hs|done|done].
  - intros _. apply Hp. rewrite (wt_left _ _ _ Hm). intros Hz%unfinished_0.
    pose proof (Forall_lookup_1 _ _ _ _ Hz Ht). simpl in *. congruence.
  - eapply wf_tasks_status; [done|done|by rewrite Hs|done|done].
  - intros Hml. specialize (Hp Hml). pose proof (Forall_lookup_1 _ _ _ _ Hp Ht). simpl in *.
    congruence.
Qed.

Lemma maps_left_0 files n c : wf_coordinator files n c -> mapsLeft c = 0 <-> all_completed (mapTasks c).
Proof. intros [Hm _ _ _]. rewrite (wt_left _ _ _ Hm). apply unfinished_0. Qed.

Lemma reduces_left_0 files n c :
  wf_coordinator files n c -> reducesLeft c = 0 <-> all_completed (reduceTasks c).
Proof. intros [_ Hr _ _]. rewrite (wt_left _ _ _ Hr). apply unfinished_0. Qed.
