(* ===== verification/MRWorker.v ===== *)
(** * mr/worker.go and mr-main/mrsequential.go: map and reduce tasks

    The work of one task on the shared directory (a [gmap] from file names
    to contents), and the sequential program the distributed one is compared
    with.  Two parts of Go's standard library appear through what the code
    uses of them: [encoding/json] writes one line per key/value pair and
    reads the pairs back ([JsonStream]), and [sort.Sort] permutes a slice
    into key order, in no particular order among equal keys ([GoSort]). *)

From Stdlib Require Import ZArith Lia Ascii.
From stdpp Require Import base numbers strings pretty gmap list sorting.
From S2P Require Import Prelude.
Local Open Scope Z_scope.

Record KeyValue := mkKeyValue { Key : string; Value : string }.

#[export] Instance KeyValue_eq_dec : EqDecision KeyValue.
Proof. solve_decision. Defined.

(** [a[i].Key < a[j].Key] or equal, on bytes. *)
Definition key_le (a b : KeyValue) : Prop := String.le (Key a) (Key b).

Definition newline : string := String (ascii_of_nat 10) EmptyString.

(** The contents of a file written piece by piece. *)
Definition concat_str (l : list string) : string := foldr String.append ""%string l.

(** [json.NewEncoder(f).Encode(&kv)] appends a line; the loop around
    [json.NewDecoder(f).Decode(&kv)] reads pairs until it fails.  Pairs whose
    strings are valid UTF-8 come back unchanged. *)
Class JsonStream := {
  json_line : KeyValue -> string;
  json_read : string -> list KeyValue;
  json_ok : KeyValue -> Prop;
  json_stream kvs : Forall json_ok kvs -> json_read (concat_str (json_line <$> kvs)) = kvs;
}.

Class GoSort := {
  go_sort : list KeyValue -> list KeyValue;
  go_sort_perm l : go_sort l ≡ₚ l;
  go_sort_sorted l : StronglySorted key_le (go_sort l);
}.

(** ** Partitioning *)

(** FNV-1a on 32 bits. *)
Fixpoint fnv32a (h : Z) (key : string) : Z :=
  match key with
  | EmptyString => h
  | String c key => fnv32a ((Z.lxor h (Z.of_nat (nat_of_ascii c)) * 16777619) mod 2 ^ 32) key
  end.

Definition ihash (key : string) : Z := Z.land (fnv32a 2166136261 key) 0x7fffffff.

(** [ihash(key) % NReduce] *)
Definition partition (NReduce : Z) (key : string) : result Z :=
  if NReduce =? 0 then Panic DivideByZero else Ok (Z.rem (ihash key) NReduce).

Abbreviation FS := (gmap string string).

Definition interName (Id p : Z) : string := "mr-" +:+ pretty Id +:+ "-" +:+ pretty p.
Definition outName (Id : Z) : string := "mr-out-" +:+ pretty Id.

Definition mapFun := string -> string -> list KeyValue.
Definition reduceFun := string -> list string -> string.

(** ** A map task *)

Lemma elem_of_concat {A} (x : A) (ls : list (list A)) :
  x ∈ concat ls <-> exists l, x ∈ l /\ l ∈ ls.
Proof.
  induction ls as [|l ls IH]; simpl.
  - split; [by intros ?%elem_of_nil|by intros (? & _ & ?%elem_of_nil)].
  - rewrite elem_of_app, IH. setoid_rewrite elem_of_cons. split.
    + intros [?|(l' & ? & ?)]; eauto.
    + intros (l' & ? & [->|?]); eauto.
Qed.

Section tasks.
Context `{JsonStream} `{GoSort}.

(** [os.Open] and [io.ReadAll] *)
Definition readFile (fs : FS) (name : string) : result string :=
  match fs !! name with
  | Some content => Ok content
  | None => Panic (LogFatal ("cannot open " +:+ name))
  end.

(** [for i := 0; i < NReduce; i++ { os.Create("mr-Id-i") }] *)
Definition createAll (Id NReduce : Z) (fs : FS) : FS :=
  foldl (fun fs i => <[interName Id i := ""%string]> fs) fs (seqZ 0 NReduce).

(** One pair appended to the file of its partition (created if missing). *)
Definition writePair (Id NReduce : Z) (fs : FS) (kv : KeyValue) : result FS :=
  p ← partition NReduce (Key kv);
  let name := interName Id p in
  Ok (<[name := default "" (fs !! name) +:+ json_line kv]> fs).

Fixpoint writeAll (Id NReduce : Z) (fs : FS) (kva : list KeyValue) : result FS :=
  match kva with
  | [] => Ok fs
  | kv :: kva => fs ← writePair Id NReduce fs kv; writeAll Id NReduce fs kva
  end.

Definition DoMap (mapf : mapFun) (fs : FS) (FileName : string) (NReduce Id : Z) : result FS :=
  content ← readFile fs FileName;
  let kva := mapf FileName content in
  writeAll Id NReduce (createAll Id NReduce fs) kva.

(** ** A reduce task *)

(** The pairs at the front with the key, and the rest: the scan of [j]. *)
Fixpoint sameKey (key : string) (l : list KeyValue) : list KeyValue * list KeyValue :=
  match l with
  | [] => ([], [])
  | kv :: rest =>
    if bool_decide (Key kv = key) then
      let '(same, rest) := sameKey key rest in (kv :: same, rest)
    else ([], l)
  end.

(** [fmt.Fprintf(ofile, "%v %v\n", key, output)] *)
Definition outputLine (key output : string) : string := key +:+ " " +:+ output +:+ newline.

(** The lines written by the loop over [i]; each round consumes at least one
    pair, so [length l] rounds are enough. *)
Fixpoint reduceLoop (reducef : reduceFun) (fuel : nat) (l : list KeyValue) : result (list string) :=
  match l with
  | [] => Ok []
  | kv :: tail =>
    match fuel with
    | O => Panic OutOfFuel
    | S fuel =>
      let '(same, rest) := sameKey (Key kv) tail in
      let values := Value <$> (kv :: same) in
      let output := reducef (Key kv) values in
      lines ← reduceLoop reducef fuel rest;
      Ok (outputLine (Key kv) output :: lines)
    end
  end.

Definition reduceLines (reducef : reduceFun) (l : list KeyValue) : result (list string) :=
  reduceLoop reducef (length l) l.

(** [for i := 0; i < NMap; i++ { ... intermediate = append(...) }] *)
Fixpoint readIntermediate (fs : FS) (Id : Z) (ids : list Z) : result (list KeyValue) :=
  match ids with
  | [] => Ok []
  | i :: ids =>
    content ← match fs !! interName i Id with
              | Some content => Ok content
              | None => Panic (LogFatal "error opening file reduce ")
              end;
    rest ← readIntermediate fs Id ids;
    Ok (json_read content ++ rest)
  end.

Definition DoReduce (reducef : reduceFun) (fs : FS) (Id NMap : Z) : result FS :=
  intermediate ← readIntermediate fs Id (seqZ 0 NMap);
  lines ← reduceLines reducef (go_sort intermediate);
  Ok (<[outName Id := concat_str lines]> fs).

(** ** mrsequential.go *)

Fixpoint mapAll (mapf : mapFun) (fs : FS) (files : list string) : result (list KeyValue) :=
  match files with
  | [] => Ok []
  | filename :: files =>
    content ← readFile fs filename;
    rest ← mapAll mapf fs files;
    Ok (mapf filename content ++ rest)
  end.

Definition sequential (mapf : mapFun) (reducef : reduceFun) (fs : FS) (files : list string)
    : result FS :=
  intermediate ← mapAll mapf fs files;
  lines ← reduceLines reducef (go_sort intermediate);
  Ok (<[outName 0 := concat_str lines]> fs).

(** ** Reduce: one line per key *)

Definition values_of (key : string) (l : list KeyValue) : list string :=
  Value <$> filter (fun kv => Key kv = key) l.

Lemma sameKey_spec key l :
  let '(same, rest) := sameKey key l in
  l = same ++ rest /\ Forall (fun kv => Key kv = key) same /\
  (forall kv rest', rest = kv :: rest' -> Key kv <> key).
Proof.
  induction l as [|kv l IH]; simpl; [by split_and!|].
  case_bool_decide as E.
  - destruct (sameKey key l) as [same rest]. destruct IH as (-> & ? & ?).
    split_and!; [done|by constructor|done].
  - split_and!; [done|constructor|]. intros ? ? [= <- _]. done.
Qed.

(** In a sorted list, the rest of a run has no pair with its key. *)
Lemma sorted_rest kv same rest :
  StronglySorted key_le (kv :: same ++ rest) ->
  (forall x rest', rest = x :: rest' -> Key x <> Key kv) ->
  Forall (fun x => Key x <> Key kv) rest.
Proof.
  intros [Hs Hle]%StronglySorted_inv Hrest. destruct rest as [|x rest]; [constructor|].
  specialize (Hrest x rest eq_refl). constructor; [done|].
  apply StronglySorted_app_1_r, StronglySorted_inv in Hs as [_ Hx].
  apply Forall_app in Hle as [_ [Hkx _]%Forall_cons].
  apply (Forall_impl _ _ _ Hx). intros y Hy E. apply Hrest.
  unfold key_le in *. rewrite E in Hy. by apply (anti_symm String.le).
Qed.

Lemma values_of_app key l1 l2 : values_of key (l1 ++ l2) = values_of key l1 ++ values_of key l2.
Proof. unfold values_of. by rewrite filter_app, fmap_app. Qed.

Lemma values_of_all key l : Forall (fun kv => Key kv = key) l -> values_of key l = Value <$> l.
Proof.
  unfold values_of. intros Hl. f_equal. induction Hl as [|x l Hx _ IH]; [done|].
  rewrite filter_cons, decide_True by done. by rewrite IH.
Qed.

Lemma values_of_none key l : Forall (fun kv => Key kv <> key) l -> values_of key l = [].
Proof.
  unfold values_of. induction 1 as [|x l Hx _ IH]; [done|].
  by rewrite filter_cons, decide_False.
Qed.

Lemma values_of_perm key l l' : l ≡ₚ l' -> values_of key l ≡ₚ values_of key l'.
Proof. intros E. unfold values_of. by rewrite E. Qed.

(** The line of a key. *)
Definition line (reducef : reduceFun) (l : list KeyValue) (key : string) : string :=
  outputLine key (reducef key (values_of key l)).

(** On a sorted slice the loop writes one line per key, with all its values. *)
Lemma reduceLoop_spec reducef fuel l :
  StronglySorted key_le l -> (length l <= fuel)%nat ->
  exists ks, NoDup ks /\ (forall k, k ∈ ks <-> k ∈ Key <$> l) /\
    reduceLoop reducef fuel l = Ok (line reducef l <$> ks).
Proof.
  revert l. induction fuel as [|fuel IH]; intros [|kv tail] Hs Hlen; simpl in *; try lia.
  1,2: exists []; split_and!; [constructor|done|done].
  pose proof (sameKey_spec (Key kv) tail) as Hspec.
  destruct (sameKey (Key kv) tail) as [same rest]. destruct Hspec as (-> & Hsame & Hrest).
  pose proof (sorted_rest kv same rest Hs Hrest) as Hnone.
  destruct (IH rest) as (ks & Hnd & Hks & E).
  { apply StronglySorted_inv in Hs as [Hs _]. by apply StronglySorted_app_1_r in Hs. }
  { rewrite length_app in Hlen. lia. }
  assert (Key kv ∉ ks) as Hkv.
  { rewrite Hks. intros (x & Ex & Hx)%list_elem_of_fmap_1.
    by apply (proj1 (Forall_forall _ _) Hnone) in Hx. }
  exists (Key kv :: ks). split; [by constructor|]. split.
  - intros k. rewrite fmap_app, !elem_of_cons, elem_of_app, Hks. split; [naive_solver|].
    intros [?|[(x & -> & Hx)%list_elem_of_fmap_1|?]]; [by left| |by right].
    left. by apply (proj1 (Forall_forall _ _) Hsame) in Hx.
  - rewrite E. go_run. f_equal. change (kv :: same ++ rest) with ((kv :: same) ++ rest).
    set (l := (kv :: same) ++ rest). rewrite fmap_cons. f_equal; subst l.
    + unfold line. rewrite values_of_app, (values_of_none _ rest), app_nil_r by done.
      by rewrite (values_of_all _ (kv :: same)) by (by constructor).
    + apply list_fmap_ext. intros i k Hk. unfold line. rewrite values_of_app.
      rewrite (values_of_none k (kv :: same)); [done|].
      assert (Key kv <> k) by (intros <-; by apply Hkv; eapply list_elem_of_lookup_2).
      constructor; [done|]. apply (Forall_impl _ _ _ Hsame). by intros x ->.
Qed.

Lemma reduceLines_spec reducef l :
  exists ks, NoDup ks /\ (forall k, k ∈ ks <-> k ∈ Key <$> l) /\
    reduceLines reducef (go_sort l) = Ok (line reducef (go_sort l) <$> ks).
Proof.
  destruct (reduceLoop_spec reducef (length (go_sort l)) (go_sort l)) as (ks & Hnd & Hks & E);
    [apply go_sort_sorted|done|].
  exists ks. split; [done|]. split; [|done]. intros k. by rewrite Hks, (go_sort_perm l).
Qed.

End tasks.
