(* ===== verification/MRFiles.v ===== *)
(** * mr/worker.go: the files of a job

    The names of intermediate and output files do not clash, and what a map
    task leaves in them. *)

From Stdlib Require Import ZArith Lia Ascii.
From stdpp Require Import base numbers strings pretty gmap list.
From S2P Require Import Prelude MRWorker.
Local Open Scope Z_scope.

(** ** Decimal numbers contain digits only *)

Definition is_digit (c : ascii) : bool :=
  (48 <=? nat_of_ascii c)%nat && (nat_of_ascii c <=? 57)%nat.

Fixpoint all_digits (s : string) : bool :=
  match s with EmptyString => true | String c s => is_digit c && all_digits s end.

Lemma pretty_N_char_digit x : is_digit (pretty_N_char x) = true.
Proof. unfold pretty_N_char. repeat case_match; reflexivity. Qed.

Lemma pretty_N_go_digits x s : all_digits s = true -> all_digits (pretty_N_go x s) = true.
Proof.
  revert s. induction (N.lt_wf_0 x) as [x _ IH]; intros s Hs.
  assert (x = 0 \/ 0 < x)%N as [->|Hx] by lia; [by rewrite pretty_N_go_0|].
  rewrite pretty_N_go_step by done. apply IH; [by apply N.div_lt|].
  simpl. by rewrite pretty_N_char_digit, Hs.
Qed.

Lemma pretty_digits z : 0 <= z -> all_digits (pretty z) = true.
Proof.
  intros Hz. destruct z as [|p|p]; [reflexivity| |lia].
  change (pretty (Z.pos p)) with (pretty (N.pos p)). unfold pretty, pretty_N.
  case_decide; [done|]. by apply pretty_N_go_digits.
Qed.

(** The text before the first dash. *)
Lemma digits_dash s s' t t' :
  all_digits s = true -> all_digits s' = true ->
  s +:+ String "-" t = s' +:+ String "-" t' -> s = s' /\ t = t'.
Proof.
  revert s'. induction s as [|c s IH]; intros [|c' s']; simpl; intros Hs Hs' E.
  - by injection E.
  - injection E as <- _. done.
  - injection E as -> _. done.
  - injection E as <- E. apply andb_true_iff in Hs as [_ Hs]. apply andb_true_iff in Hs' as [_ Hs'].
    by destruct (IH s' Hs Hs' E) as [-> ->].
Qed.

Lemma interName_inj a p a' p' :
  0 <= a -> 0 <= a' -> interName a p = interName a' p' -> a = a' /\ p = p'.
Proof.
  intros Ha Ha' E. unfold interName in E. simpl in E. injection E as E.
  apply digits_dash in E as [Ea Ep]; [|by apply pretty_digits..].
  split; by apply (inj pretty).
Qed.

Lemma outName_inj p p' : outName p = outName p' -> p = p'.
Proof. unfold outName. simpl. intros [= E]. by apply (inj pretty). Qed.

Lemma interName_outName a p q : 0 <= a -> interName a p <> outName q.
Proof.
  intros Ha E. unfold interName, outName in E. simpl in E. injection E as E.
  pose proof (pretty_digits a Ha) as Hd. destruct (pretty a) as [|c s]; [done|].
  simpl in *. injection E as -> _. done.
Qed.

(** ** What a map task writes *)

Section files.
Context `{JsonStream}.

(** The pairs of partition [p]. *)
Definition bucket (n p : Z) (l : list KeyValue) : list KeyValue :=
  filter (fun kv => Z.rem (ihash (Key kv)) n = p) l.

Definition inter_content (n p : Z) (l : list KeyValue) : string :=
  concat_str (json_line <$> bucket n p l).

Lemma ihash_range key : 0 <= ihash key.
Proof. unfold ihash. apply Z.land_nonneg. right. lia. Qed.

Lemma partition_Ok n key :
  0 < n -> partition n key = Ok (Z.rem (ihash key) n) /\ 0 <= Z.rem (ihash key) n < n.
Proof.
  intros Hn. unfold partition. destruct (Z.eqb_spec n 0); [lia|]. split; [done|].
  apply Z.rem_bound_pos; [apply ihash_range|done].
Qed.

Lemma concat_str_cons s l : concat_str (s :: l) = s +:+ concat_str l.
Proof. reflexivity. Qed.

Lemma string_app_assoc s1 s2 s3 : (s1 +:+ s2) +:+ s3 = s1 +:+ (s2 +:+ s3).
Proof. induction s1 as [|c s1 IH]; [done|]. exact (f_equal (String c) IH). Qed.

Lemma string_app_nil s : s +:+ "" = s.
Proof. induction s as [|c s IH]; [done|]. exact (f_equal (String c) IH). Qed.

(** Appending pairs to files that exist. *)
Lemma writeAll_spec m n f fs l :
  0 <= m -> 0 < n -> (forall p, 0 <= p < n -> fs !! interName m p = Some (f p)) ->
  exists fs', writeAll m n fs l = Ok fs' /\
    (forall p, 0 <= p < n -> fs' !! interName m p = Some (f p +:+ inter_content n p l)) /\
    (forall name, (forall p, 0 <= p < n -> name <> interName m p) -> fs' !! name = fs !! name).
Proof.
  intros Hm Hn. revert f fs. induction l as [|kv l IH]; intros f fs Hf.
  { exists fs. split; [done|]. split; [|done]. intros p Hp.
    unfold inter_content. simpl. rewrite string_app_nil. by apply Hf. }
  cbn [writeAll]. unfold writePair. destruct (partition_Ok n (Key kv) Hn) as [-> Hq]. go_run.
  set (q := Z.rem (ihash (Key kv)) n) in *. rewrite (Hf q Hq). simpl.
  destruct (IH (fun p => if decide (p = q) then f p +:+ json_line kv else f p)
    (<[interName m q := f q +:+ json_line kv]> fs)) as (fs' & -> & Hin & Hout).
  - intros p Hp. case_decide as Epq; [subst p; by rewrite lookup_insert_eq|].
    rewrite lookup_insert_ne; [by apply Hf|].
    intros E. apply interName_inj in E as [_ ?]; [done|done|done].
  - exists fs'. split; [done|]. split.
    + intros p Hp. rewrite (Hin p Hp). unfold inter_content, bucket. rewrite filter_cons. fold q.
      destruct (decide (p = q)) as [->|Hne].
      * rewrite decide_True by done. rewrite fmap_cons, concat_str_cons. by rewrite string_app_assoc.
      * by rewrite decide_False.
    + intros name Hname. rewrite (Hout name Hname). apply lookup_insert_ne.
      intros <-. by apply (Hname q).
Qed.

Lemma createAll_fold m (fs : FS) (l : list Z) :
  (forall p, p ∈ l -> foldl (fun (fs : FS) i => <[interName m i := ""%string]> fs) fs l !! interName m p
     = Some ""%string) /\
  (forall name, (forall p, p ∈ l -> name <> interName m p) ->
     foldl (fun (fs : FS) i => <[interName m i := ""%string]> fs) fs l !! name = fs !! name).
Proof.
  induction l as [|q l [IHin IHout]] using rev_ind.
  { split; [by intros p ?%elem_of_nil|done]. }
  rewrite foldl_app. simpl. split.
  - intros p Hp. destruct (decide (interName m p = interName m q)) as [->|Hne].
    + apply lookup_insert_eq.
    + rewrite lookup_insert_ne by done. apply IHin.
      apply elem_of_app in Hp as [| ->%list_elem_of_singleton]; done.
  - intros name Hname. rewrite lookup_insert_ne.
    + apply IHout. intros p Hp. apply Hname. apply elem_of_app. by left.
    + intros <-. apply (Hname q); [|done]. apply elem_of_app. right. by apply list_elem_of_singleton.
Qed.

(** A map task fills the intermediate files of its own and changes no other
    file. *)
Lemma DoMap_spec mapf fs name content n m :
  fs !! name = Some content -> 0 < n -> 0 <= m ->
  exists fs', DoMap mapf fs name n m = Ok fs' /\
    (forall p, 0 <= p < n ->
       fs' !! interName m p = Some (inter_content n p (mapf name content))) /\
    (forall name', (forall p, 0 <= p < n -> name' <> interName m p) -> fs' !! name' = fs !! name').
Proof.
  intros Hname Hn Hm. unfold DoMap, readFile. rewrite Hname. go_run.
  destruct (createAll_fold m fs (seqZ 0 n)) as [Hin Hout].
  destruct (writeAll_spec m n (fun _ => ""%string) (createAll m n fs) (mapf name content) Hm Hn)
    as (fs' & -> & Hin' & Hout').
  - intros p Hp. apply Hin. apply elem_of_seqZ. lia.
  - exists fs'. split; [done|]. split.
    + intros p Hp. by rewrite (Hin' p Hp).
    + intros name' Hn'. rewrite (Hout' name' Hn'). apply Hout.
      intros p Hp%elem_of_seqZ. apply Hn'. lia.
Qed.
End files.
