(* ===== verification/MRJob.v ===== *)
(** * mr: a whole job, with tasks as single steps

    An abstraction of a job: the coordinator of [MRCoordinator], the shared
    directory, and workers that ask for tasks, run them and report them;
    timers of stragglers fire; workers die.  A task is one atomic step, which
    in the code it is not: MRJobSteps takes the tasks apart, and shows that
    with no live worker slower than its timer the invariant of this file
    still holds.  The invariant says which files are complete for which
    statuses of the tasks. *)

From Stdlib Require Import ZArith Lia.
From stdpp Require Import base numbers strings pretty gmap list.
From S2P Require Import Prelude MRCoordinator MRWorker MRFiles.
Local Open Scope Z_scope.

Section job.
Context `{JsonStream} `{GoSort}.
Context (mapf : mapFun) (reducef : reduceFun) (files : list string) (n : Z) (fs0 : FS).

(** The body of the loop of [Worker] for one reply, but for its report, at
    once. *)
Definition runTask (fs : FS) (reply : GetTaskReply) : result FS :=
  fs ← (if bool_decide (TaskType reply = "map") then
          DoMap mapf fs (FileName reply) (NReduce reply) (Id reply)
        else Ok fs);
  if bool_decide (TaskType reply = "reduce") then DoReduce reducef fs (Id reply) (NMap reply)
  else Ok fs.

(** [assigned]: replies whose tasks run; [reports]: tasks done, about to be
    reported with [MarkComplete]. *)
Record Job := mkJob {
  co : Coordinator;
  timers : list (Z * string);
  assigned : list GetTaskReply;
  reports : list MarkCompleteArgs;
  dir : FS;
}.

Inductive job_label :=
| JGet               (* a worker calls GetTask *)
| JRun (k : nat)     (* the worker with the k-th assigned reply does its task *)
| JReport (k : nat)  (* the k-th report reaches the coordinator *)
| JTimer (k : nat)   (* the k-th timer fires *)
| JDie (k : nat)     (* the worker with the k-th assigned reply dies *)
| JLose (k : nat).   (* the worker with the k-th report dies before it reports *)

(** A reply with neither task type makes the worker sleep or leave. *)
Definition is_task (reply : GetTaskReply) : bool :=
  bool_decide (TaskType reply = "map"%string) || bool_decide (TaskType reply = "reduce"%string).

Definition job_step (l : job_label) (j : Job) : option (result Job) :=
  match l with
  | JGet =>
    let '(c, reply, ts) := GetTask (co j) in
    Some (Ok (mkJob c (timers j ++ ts)
      (assigned j ++ (if is_task reply then [reply] else [])) (reports j) (dir j)))
  | JRun k =>
    reply ← assigned j !! k;
    Some (fs ← runTask (dir j) reply;
          Ok (mkJob (co j) (timers j) (delete k (assigned j))
                (reports j ++ [mkMarkCompleteArgs (Id reply) (TaskType reply)]) fs))
  | JReport k =>
    args ← reports j !! k;
    Some (c ← MarkComplete (co j) args;
          Ok (mkJob c (timers j) (assigned j) (delete k (reports j)) (dir j)))
  | JTimer k =>
    '(idx, ty) ← timers j !! k;
    Some (c ← DetectStraggler (co j) idx ty;
          Ok (mkJob c (delete k (timers j)) (assigned j) (reports j) (dir j)))
  | JDie k =>
    _ ← assigned j !! k;
    Some (Ok (mkJob (co j) (timers j) (delete k (assigned j)) (reports j) (dir j)))
  | JLose k =>
    _ ← reports j !! k;
    Some (Ok (mkJob (co j) (timers j) (assigned j) (delete k (reports j)) (dir j)))
  end.

Definition job_init : Job := mkJob (MakeCoordinator files n) [] [] [] fs0.

Inductive job_reach : Job -> Prop :=
| job_reach_init : job_reach job_init
| job_reach_step j l j' : job_reach j -> job_step l j = Some (Ok j') -> job_reach j'.

Fixpoint job_run (ls : list job_label) (j : Job) : option (result Job) :=
  match ls with
  | [] => Some (Ok j)
  | l :: ls =>
    r ← job_step l j;
    match r with Ok j => job_run ls j | Panic e => Some (Panic e) end
  end.

(** ** What the files should hold *)

Definition content_of (name : string) : string := default ""%string (fs0 !! name).

(** The pairs the map task of the i-th file emits. *)
Definition pairs_of (i : Z) : list KeyValue :=
  match files !! Z.to_nat i with
  | Some name => mapf name (content_of name)
  | None => []
  end.

Definition all_pairs : list KeyValue := concat ((fun name => mapf name (content_of name)) <$> files).

(** The job can be run: there is at least one reduce task, the input files
    exist, none has the name of a file the job writes, and the keys and
    values survive JSON. *)
Record runnable : Prop := {
  ru_n : 0 < n;
  ru_files : Forall (fun name => is_Some (fs0 !! name)) files;
  ru_inter : forall name i p, name ∈ files -> 0 <= i -> name <> interName i p;
  ru_out : forall name p, name ∈ files -> name <> outName p;
  ru_json : Forall json_ok all_pairs;
}.

Definition map_done (fs : FS) (i : Z) : Prop :=
  forall p, 0 <= p < n -> fs !! interName i p = Some (inter_content n p (pairs_of i)).

(** The lines reduce task [p] should write. *)
Definition lines_of (p : Z) : result (list string) :=
  reduceLines reducef (go_sort (bucket n p all_pairs)).

Definition reduce_done (fs : FS) (p : Z) : Prop :=
  exists lines, lines_of p = Ok lines /\ fs !! outName p = Some (concat_str lines).

Definition inputs_kept (fs : FS) : Prop := forall name, name ∈ files -> fs !! name = fs0 !! name.

Definition nmap : Z := len files.

(** ** Tasks on the directory *)

Context (Hrun : runnable).

Lemma pairs_of_lookup i name :
  files !! Z.to_nat i = Some name -> pairs_of i = mapf name (content_of name).
Proof. unfold pairs_of. by intros ->. Qed.

Lemma all_pairs_concat : all_pairs = concat (pairs_of <$> seqZ 0 nmap).
Proof.
  unfold all_pairs. f_equal. apply list_eq. intros i. rewrite !list_lookup_fmap.
  unfold nmap, len. destruct (files !! i) as [name|] eqn:E; simpl; symmetry.
  - rewrite lookup_seqZ_lt by (apply lookup_lt_Some in E; lia). simpl. f_equal.
    apply pairs_of_lookup. by rewrite Z.add_0_l, Nat2Z.id.
  - apply lookup_ge_None in E. by rewrite lookup_seqZ_ge by lia.
Qed.

Lemma bucket_concat p (l : list (list KeyValue)) : bucket n p (concat l) = concat (bucket n p <$> l).
Proof.
  induction l as [|x l IH]; [done|]. simpl. unfold bucket in *. by rewrite filter_app, IH.
Qed.

Lemma input_content name : name ∈ files -> fs0 !! name = Some (content_of name).
Proof.
  intros Hin. destruct (proj1 (Forall_forall _ _) (ru_files Hrun) name Hin) as [c Hc].
  unfold content_of. by rewrite Hc.
Qed.

(** A map task, run or run again, leaves all other work alone. *)
Lemma run_map fs i name :
  inputs_kept fs -> 0 <= i -> files !! Z.to_nat i = Some name ->
  exists fs', DoMap mapf fs name n i = Ok fs' /\ inputs_kept fs' /\ map_done fs' i /\
    (forall i', 0 <= i' -> map_done fs i' -> map_done fs' i') /\
    (forall p, reduce_done fs p -> reduce_done fs' p).
Proof.
  intros Hk Hi Hname. pose proof (list_elem_of_lookup_2 _ _ _ Hname) as Hin.
  destruct (DoMap_spec mapf fs name (content_of name) n i) as (fs' & E & Hinter & Hrest).
  - rewrite Hk by done. by apply input_content.
  - apply Hrun.
  - done.
  - assert (map_done fs' i) as Hd.
    { intros p Hp. rewrite (pairs_of_lookup i name Hname). by apply Hinter. }
    exists fs'. split_and!; [done| |done| |].
    + intros name' Hin'. rewrite Hrest; [by apply Hk|]. intros p _. by apply (ru_inter Hrun).
    + intros i' Hi' Hd' p Hp. destruct (decide (i' = i)) as [->|Hne]; [by apply Hd|].
      rewrite Hrest; [by apply Hd'|]. intros q _ Eq. apply interName_inj in Eq as [? _]; done.
    + intros p (lines & El & Ef). exists lines. split; [done|]. rewrite Hrest; [done|].
      intros q _ Eq. symmetry in Eq. by apply interName_outName in Eq.
Qed.

Lemma readIntermediate_spec fs p ids :
  0 <= p < n -> (forall i, i ∈ ids -> 0 <= i < nmap /\ map_done fs i) ->
  readIntermediate fs p ids = Ok (concat ((fun i => bucket n p (pairs_of i)) <$> ids)).
Proof.
  intros Hp. induction ids as [|i ids IH]; intros Hids; [done|]. cbn [readIntermediate].
  destruct (Hids i) as [Hi Hd]; [left|]. rewrite (Hd p Hp). go_run.
  rewrite IH by (intros x Hx; apply Hids; by right). go_run. simpl. do 2 f_equal.
  unfold inter_content. apply json_stream. apply Forall_forall.
  intros kv [_ Hkv]%list_elem_of_filter.
  apply (proj1 (Forall_forall _ _) (ru_json Hrun)). rewrite all_pairs_concat.
  apply elem_of_concat. eexists. split; [done|]. apply list_elem_of_fmap_2.
  by apply elem_of_seqZ.
Qed.

Lemma run_reduce fs p :
  inputs_kept fs -> 0 <= p < n -> (forall i, 0 <= i < nmap -> map_done fs i) ->
  exists fs', DoReduce reducef fs p nmap = Ok fs' /\ inputs_kept fs' /\ reduce_done fs' p /\
    (forall i, 0 <= i -> map_done fs i -> map_done fs' i) /\
    (forall p', reduce_done fs p' -> reduce_done fs' p').
Proof.
  intros Hk Hp Hm. unfold DoReduce.
  rewrite readIntermediate_spec; [|done|intros i Hi%elem_of_seqZ; split; [lia|apply Hm; lia]].
  go_run.
  replace (concat ((fun i => bucket n p (pairs_of i)) <$> seqZ 0 nmap)) with (bucket n p all_pairs)
    by (rewrite all_pairs_concat, bucket_concat, <- list_fmap_compose; done).
  destruct (reduceLines_spec reducef (bucket n p all_pairs)) as (ks & _ & _ & E).
  rewrite E. go_run. eexists. split; [done|].
  assert (forall name, name <> outName p ->
    <[outName p := concat_str (line reducef (go_sort (bucket n p all_pairs)) <$> ks)]> fs !! name
    = fs !! name) as Hother by (intros name Hne; by apply lookup_insert_ne).
  assert (reduce_done (<[outName p := concat_str (line reducef
    (go_sort (bucket n p all_pairs)) <$> ks)]> fs) p) as Hd.
  { eexists. split; [exact E|]. apply lookup_insert_eq. }
  split_and!; [|done| |].
  - intros name Hin. rewrite Hother; [by apply Hk|by apply (ru_out Hrun)].
  - intros i Hi Hd' q Hq. rewrite Hother; [by apply Hd'|by apply interName_outName].
  - intros p' Hd'. destruct (decide (p' = p)) as [->|Hne]; [done|].
    destruct Hd' as (lines & El & Ef). exists lines. split; [done|].
    rewrite Hother; [done|]. intros Eq. by apply outName_inj in Eq.
Qed.

(** ** The invariant of a job *)

(** A task that exists, by number and type. *)
Definition task_id (idx : Z) (ty : string) : Prop :=
  (ty = "map"%string /\ 0 <= idx < nmap) \/ (ty = "reduce"%string /\ 0 <= idx < n).

(** The directory has the results of a task. *)
Definition task_done (fs : FS) (idx : Z) (ty : string) : Prop :=
  if bool_decide (ty = "map"%string) then map_done fs idx else reduce_done fs idx.

(** A reply that hands out a task: a map task of an input file, or a reduce
    task once every map task is completed. *)
Definition good_reply (c : Coordinator) (r : GetTaskReply) : Prop :=
  (TaskType r = "map"%string /\ 0 <= Id r /\ files !! Z.to_nat (Id r) = Some (FileName r) /\
     NReduce r = n) \/
  (TaskType r = "reduce"%string /\ 0 <= Id r < n /\ NMap r = nmap /\ all_completed (mapTasks c)).

Record job_inv (j : Job) : Prop := {
  ji_co : wf_coordinator files n (co j);
  ji_timers : Forall (fun x => task_id x.1 x.2) (timers j);
  ji_armed : forall idx ty t, known (co j) idx ty t -> status t = "in progress"%string ->
    (idx, ty) ∈ timers j;
  ji_assigned : Forall (good_reply (co j)) (assigned j);
  ji_reports : Forall (fun a => task_id (mc_Id a) (mc_TaskType a) /\
    task_done (dir j) (mc_Id a) (mc_TaskType a)) (reports j);
  ji_done : forall idx ty t, known (co j) idx ty t -> status t = "completed"%string ->
    task_done (dir j) idx ty;
  ji_inputs : inputs_kept (dir j);
}.

Lemma known_exists c idx ty :
  wf_coordinator files n c -> task_id idx ty -> exists t, known c idx ty t.
Proof.
  intros [Hm Hr _ _] [[-> Hi]|[-> Hi]].
  - destruct (lookup_lt_is_Some_2 (mapTasks c) (Z.to_nat idx)) as [t Ht].
    { rewrite <- (length_fmap filename), (wt_files _ _ _ Hm). unfold nmap, len in Hi. lia. }
    exists t. left. split_and!; [done|lia|done].
  - destruct (lookup_lt_is_Some_2 (reduceTasks c) (Z.to_nat idx)) as [t Ht].
    { rewrite <- (length_fmap filename), (wt_files _ _ _ Hr), length_replicate. lia. }
    exists t. right. split_and!; [done|lia|done].
Qed.

Lemma known_id c idx ty t : wf_coordinator files n c -> known c idx ty t -> task_id idx ty.
Proof.
  intros [Hm Hr _ _] [(-> & Hi & Ht)|(-> & Hi & Ht)].
  - left. split; [done|]. apply lookup_lt_Some in Ht.
    rewrite <- (length_fmap filename), (wt_files _ _ _ Hm) in Ht. unfold nmap, len. lia.
  - right. split; [done|]. apply lookup_lt_Some in Ht.
    rewrite <- (length_fmap filename), (wt_files _ _ _ Hr), length_replicate in Ht. lia.
Qed.

(** A task after another one's status changed. *)
Lemma known_with_status c idx ty t s d idx' ty' t' :
  known c idx ty t -> known (with_status c idx ty t s d) idx' ty' t' ->
  (idx' = idx /\ ty' = ty /\ t' = set_status s t) \/
  ((idx', ty') <> (idx, ty) /\ known c idx' ty' t').
Proof.
  intros Hk Hk'. unfold with_status in Hk'.
  destruct Hk as [(-> & Hi & Ht)|(-> & Hi & Ht)]; simpl in Hk';
    destruct Hk' as [(-> & Hi' & Ht')|(-> & Hi' & Ht')]; simpl in Ht'.
  - destruct (lookup_update _ _ _ _ _ _ Ht Ht') as [[E ->]|[Hne Ht2]].
    + left. split_and!; [lia|done|done].
    + right. split; [congruence|]. left. done.
  - right. split; [congruence|]. right. done.
  - right. split; [congruence|]. left. done.
  - destruct (lookup_update _ _ _ _ _ _ Ht Ht') as [[E ->]|[Hne Ht2]].
    + left. split_and!; [lia|done|done].
    + right. split; [congruence|]. right. done.
Qed.

(** Completed map tasks stay completed. *)
Lemma with_status_completed c idx ty t s d :
  known c idx ty t -> status t = "in progress"%string -> all_completed (mapTasks c) ->
  all_completed (mapTasks (with_status c idx ty t s d)).
Proof.
  intros Hk Hs Hall. unfold with_status. case_bool_decide as Ety; [|done]. exfalso.
  destruct Hk as [(_ & _ & Ht)|(-> & _ & _)]; [|done].
  pose proof (Forall_lookup_1 _ _ _ _ Hall Ht). simpl in *. congruence.
Qed.

Lemma good_reply_mono c c' r :
  (all_completed (mapTasks c) -> all_completed (mapTasks c')) -> good_reply c r -> good_reply c' r.
Proof. intros Hc [?|(? & ? & ? & ?)]; [by left|right; auto]. Qed.

Lemma job_inv_init : job_inv job_init.
Proof.
  assert (wf_coordinator files n (MakeCoordinator files n)) as Hw
    by (apply wf_MakeCoordinator; destruct Hrun; lia).
  assert (forall idx ty t, known (MakeCoordinator files n) idx ty t ->
    status t = "unstarted"%string) as Hun.
  { intros idx ty t [(_ & _ & Ht)|(_ & _ & Ht)]; simpl in Ht.
    - rewrite list_lookup_imap in Ht. destruct (files !! _); [|done]. by injection Ht as <-.
    - rewrite list_lookup_fmap in Ht. destruct (seqZ 0 n !! _); [|done]. by injection Ht as <-. }
  constructor; simpl; try done; try constructor.
  - intros idx ty t Hk Hs. rewrite (Hun _ _ _ Hk) in Hs. done.
  - intros idx ty t Hk Hs. rewrite (Hun _ _ _ Hk) in Hs. done.
Qed.

(** A handed-out task is recorded as in progress, in the right phase. *)
Lemma GetTask_task c c' r ts :
  wf_coordinator files n c -> GetTask c = (c', r, ts) ->
  (is_task r = false /\ c' = c /\ ts = []) \/
  (exists t, is_task r = true /\ known c (Id r) (TaskType r) t /\ status t = "unstarted"%string /\
     c' = with_status c (Id r) (TaskType r) t "in progress" 0 /\ ts = [(Id r, TaskType r)] /\
     good_reply c' r).
Proof.
  intros Hw HG%GetTask_outcome. pose proof Hw as [Hm Hr Hn _].
  destruct HG as [i t Hml Hi Hs _|i t Hml Hrl Hi Hs _| |]; [right|right|left|left]; try done.
  - destruct (wf_tasks_num _ _ _ _ _ Hm Hi) as [En Hlt]. exists t. simpl. rewrite En.
    split_and!; [done|left; split_and!; [done|lia|by rewrite Nat2Z.id]|done| |done|].
    + unfold with_status. simpl. by rewrite Nat2Z.id, Z.sub_0_r.
    + left. simpl. split_and!; [done|lia| |done]. rewrite Nat2Z.id.
      rewrite <- (wt_files _ _ _ Hm), list_lookup_fmap, Hi. done.
  - destruct (wf_tasks_num _ _ _ _ _ Hr Hi) as [En Hlt]. exists t. simpl. rewrite En.
    assert (length (mapTasks c) = length files) as El
      by (by rewrite <- (wt_files _ _ _ Hm), length_fmap).
    assert (0 <= Z.of_nat i < n).
    { rewrite <- (length_fmap filename), (wt_files _ _ _ Hr), length_replicate in Hlt. lia. }
    split_and!; [done|right; split_and!; [done|lia|by rewrite Nat2Z.id]|done| |done|].
    + unfold with_status. simpl. by rewrite Nat2Z.id, Z.sub_0_r.
    + right. simpl. split_and!; [done|lia|lia|unfold nmap, len; lia|].
      by apply (maps_left_0 _ _ _ Hw).
Qed.

Lemma job_inv_get j c r ts :
  job_inv j -> GetTask (co j) = (c, r, ts) ->
  job_inv (mkJob c (timers j ++ ts) (assigned j ++ (if is_task r then [r] else []))
             (reports j) (dir j)).
Proof.
  intros [] HG. pose proof (wf_GetTask _ _ _ _ _ _ ji_co0 HG) as Hw.
  destruct (GetTask_task _ _ _ _ ji_co0 HG)
    as [(-> & -> & ->)|(t & -> & Hk & Hs & -> & -> & Hgood)].
  { rewrite !app_nil_r. by constructor. }
  pose proof (known_id _ _ _ _ ji_co0 Hk) as Hid.
  constructor; simpl; try done.
  - apply Forall_app. split; [done|]. by apply Forall_singleton.
  - intros idx ty t' Hk' Hs'. apply elem_of_app.
    destruct (known_with_status _ _ _ _ _ _ _ _ _ Hk Hk') as [(-> & -> & _)|[_ Hk2]].
    + right. by apply list_elem_of_singleton.
    + left. by eapply ji_armed0.
  - apply Forall_app. split; [|by apply Forall_singleton].
    eapply Forall_impl; [done|]. intros r' Hr'. eapply good_reply_mono; [|done].
    intros Hall. unfold with_status. case_bool_decide as Ety; [|done]. exfalso.
    destruct Hk as [(_ & _ & Ht)|(Er & _ & _)]; [|congruence].
    pose proof (Forall_lookup_1 _ _ _ _ Hall Ht). simpl in *. congruence.
  - intros idx ty t' Hk' Hs'.
    destruct (known_with_status _ _ _ _ _ _ _ _ _ Hk Hk') as [(-> & -> & ->)|[_ Hk2]].
    + done.
    + by eapply ji_done0.
Qed.

(** All map tasks completed: all intermediate files are there. *)
Lemma completed_maps j :
  job_inv j -> all_completed (mapTasks (co j)) -> forall i, 0 <= i < nmap -> map_done (dir j) i.
Proof.
  intros [] Hall i Hi. destruct (known_exists (co j) i "map" ji_co0) as [t Hk]; [by left|].
  assert (status t = "completed"%string) as Hs.
  { destruct Hk as [(_ & _ & Ht)|(? & _)]; [|done]. exact (Forall_lookup_1 _ _ _ _ Hall Ht). }
  exact (ji_done0 _ _ _ Hk Hs).
Qed.

(** A worker does its task: the results are there, and no others are lost. *)
Lemma run_task j r :
  job_inv j -> good_reply (co j) r ->
  exists fs, runTask (dir j) r = Ok fs /\ inputs_kept fs /\ task_id (Id r) (TaskType r) /\
    task_done fs (Id r) (TaskType r) /\
    forall idx ty, task_id idx ty -> task_done (dir j) idx ty -> task_done fs idx ty.
Proof.
  intros Hi Hg. pose proof (ji_inputs _ Hi) as Hk. unfold runTask.
  destruct Hg as [(Et & Hid & Hname & En)|(Et & Hid & En & Hall)]; rewrite Et, En; simpl.
  - destruct (run_map (dir j) (Id r) _ Hk Hid Hname) as (fs & -> & Hk' & Hd & Hm & Hr). go_run.
    exists fs. split_and!; [done|done| |done|].
    + left. split; [done|]. apply lookup_lt_Some in Hname. unfold nmap, len. lia.
    + intros idx ty [[-> ?]|[-> ?]]; unfold task_done; simpl; [apply Hm; lia|by apply Hr].
  - go_run. destruct (run_reduce (dir j) (Id r) Hk Hid (completed_maps j Hi Hall))
      as (fs & -> & Hk' & Hd & Hm & Hr).
    exists fs. split_and!; [done|done|by right|done|].
    intros idx ty [[-> ?]|[-> ?]]; unfold task_done; simpl; [apply Hm; lia|by apply Hr].
Qed.

Lemma job_inv_run j k r fs :
  job_inv j -> assigned j !! k = Some r -> runTask (dir j) r = Ok fs ->
  job_inv (mkJob (co j) (timers j) (delete k (assigned j))
             (reports j ++ [mkMarkCompleteArgs (Id r) (TaskType r)]) fs).
Proof.
  intros Hi Hr HR. pose proof (Forall_lookup_1 _ _ _ _ (ji_assigned _ Hi) Hr) as Hg.
  destruct (run_task j r Hi Hg) as (fs' & E & Hk & Hid & Hd & Hmono).
  rewrite HR in E. injection E as <-. destruct Hi. constructor; simpl; try done.
  - by apply Forall_delete.
  - apply Forall_app. split; [|by apply Forall_singleton].
    eapply Forall_impl; [done|]. intros a [? ?]. split; [done|by apply Hmono].
  - intros idx ty t Hkn Hs. apply Hmono; [by eapply known_id|by eapply ji_done0].
Qed.

(** A task that was in progress gets another status. *)
Lemma job_inv_status j idx ty t s d ts rs :
  job_inv j -> known (co j) idx ty t -> status t = "in progress"%string ->
  s ∈ ["unstarted"; "completed"]%string ->
  d = (if decide (s = "completed"%string) then 1 else 0) ->
  (s = "completed"%string -> task_done (dir j) idx ty) ->
  Forall (fun x => task_id x.1 x.2) ts ->
  (forall x, x ∈ timers j -> x <> (idx, ty) -> x ∈ ts) ->
  Forall (fun a => task_id (mc_Id a) (mc_TaskType a) /\
    task_done (dir j) (mc_Id a) (mc_TaskType a)) rs ->
  job_inv (mkJob (with_status (co j) idx ty t s d) ts (assigned j) rs (dir j)).
Proof.
  intros [] Hk Hs Hin Hd Hdone Hts Hsub Hrs. constructor; simpl; try done.
  - by eapply wf_with_status.
  - intros idx' ty' t' Hk' Hs'.
    destruct (known_with_status _ _ _ _ _ _ _ _ _ Hk Hk') as [(-> & -> & ->)|[Hne Hk2]].
    + simpl in Hs'. subst s. set_solver.
    + apply Hsub; [by eapply ji_armed0|done].
  - eapply Forall_impl; [done|]. intros r Hr. eapply good_reply_mono; [|done].
    by eapply with_status_completed.
  - intros idx' ty' t' Hk' Hs'.
    destruct (known_with_status _ _ _ _ _ _ _ _ _ Hk Hk') as [(-> & -> & ->)|[Hne Hk2]].
    + by apply Hdone.
    + by eapply ji_done0.
Qed.

Lemma elem_of_delete {A} (l : list A) k x y : l !! k = Some y -> x ∈ l -> x <> y -> x ∈ delete k l.
Proof.
  intros Hk Hx Hne. rewrite (delete_take_drop l k).
  rewrite <- (take_drop_middle l k y Hk) in Hx. set_solver.
Qed.

(** The timer of a task that is not in progress any more does nothing. *)
Lemma job_inv_timer j k idx ty :
  job_inv j -> timers j !! k = Some (idx, ty) ->
  exists c, DetectStraggler (co j) idx ty = Ok c /\
    job_inv (mkJob c (delete k (timers j)) (assigned j) (reports j) (dir j)).
Proof.
  intros Hi Hk. pose proof (Forall_lookup_1 _ _ _ _ (ji_timers _ Hi) Hk) as Hid. simpl in Hid.
  destruct (known_exists (co j) idx ty (ji_co _ Hi) Hid) as [t Hkn].
  rewrite (DetectStraggler_spec _ _ _ _ Hkn). eexists. split; [done|].
  case_decide as Hs.
  - apply job_inv_status; try done; [set_solver| | |by apply (ji_reports _ Hi)].
    + apply Forall_delete. by apply (ji_timers _ Hi).
    + intros x Hx Hne. by eapply elem_of_delete.
  - destruct Hi. constructor; simpl; try done; [by apply Forall_delete|].
    intros idx' ty' t' Hk' Hs'. eapply elem_of_delete; [done|by eapply ji_armed0|].
    intros [= -> ->]. apply Hs.
    destruct Hkn as [(-> & _ & E)|(-> & _ & E)], Hk' as [(? & _ & E')|(? & _ & E')];
      try done; congruence.
Qed.

Lemma job_inv_report j k a :
  job_inv j -> reports j !! k = Some a ->
  exists c, MarkComplete (co j) a = Ok c /\
    job_inv (mkJob c (timers j) (assigned j) (delete k (reports j)) (dir j)).
Proof.
  intros Hi Hk. destruct a as [idx ty].
  pose proof (Forall_lookup_1 _ _ _ _ (ji_reports _ Hi) Hk) as [Hid Hd]. simpl in *.
  destruct (known_exists (co j) idx ty (ji_co _ Hi) Hid) as [t Hkn].
  rewrite (MarkComplete_spec _ _ _ _ Hkn). eexists. split; [done|].
  case_decide as Hs.
  - apply job_inv_status; try done; [set_solver|by apply (ji_timers _ Hi)|].
    apply Forall_delete. by apply (ji_reports _ Hi).
  - destruct Hi. constructor; simpl; try done. by apply Forall_delete.
Qed.

Lemma job_step_inv l j r :
  job_inv j -> job_step l j = Some r -> exists j', r = Ok j' /\ job_inv j'.
Proof.
  intros Hi Hst. destruct l as [|k|k|k|k|k]; cbn [job_step] in Hst.
  - destruct (GetTask (co j)) as [[c reply] ts] eqn:E. injection Hst as <-. eexists.
    split; [done|]. by apply job_inv_get.
  - apply bind_Some in Hst as (reply & Hk & [= <-]).
    pose proof (Forall_lookup_1 _ _ _ _ (ji_assigned _ Hi) Hk) as Hg.
    destruct (run_task j reply Hi Hg) as (fs & E & _). rewrite E. go_run. eexists.
    split; [done|]. by apply job_inv_run.
  - apply bind_Some in Hst as (a & Hk & [= <-]).
    destruct (job_inv_report j k a Hi Hk) as (c & -> & Hi'). go_run. by eexists.
  - apply bind_Some in Hst as ([idx ty] & Hk & [= <-]).
    destruct (job_inv_timer j k idx ty Hi Hk) as (c & -> & Hi'). go_run. by eexists.
  - apply bind_Some in Hst as (reply & Hk & [= <-]). eexists. split; [done|].
    destruct Hi. constructor; simpl; try done. by apply Forall_delete.
  - apply bind_Some in Hst as (a & Hk & [= <-]). eexists. split; [done|].
    destruct Hi. constructor; simpl; try done. by apply Forall_delete.
Qed.

Lemma job_reach_inv j : job_reach j -> job_inv j.
Proof.
  induction 1 as [|j l j' _ IH Hst]; [by apply job_inv_init|].
  by destruct (job_step_inv _ _ _ IH Hst) as (j'' & [= <-] & ?).
Qed.

(** ** Finishing *)

Definition crash_label (l : job_label) : bool :=
  match l with JDie _ | JLose _ => true | _ => false end.

Lemma job_run_app ls1 ls2 j j1 :
  job_run ls1 j = Some (Ok j1) -> job_run (ls1 ++ ls2) j = job_run ls2 j1.
Proof.
  revert j. induction ls1 as [|l ls1 IH]; intros j; simpl; [by intros [= ->]|].
  destruct (job_step l j) as [[j2|e]|]; simpl; [|done|done]. apply IH.
Qed.

Lemma job_run_inv ls j r :
  job_inv j -> job_run ls j = Some r -> exists j', r = Ok j' /\ job_inv j'.
Proof.
  revert j. induction ls as [|l ls IH]; intros j Hi HR; simpl in HR.
  { injection HR as <-. by exists j. }
  apply bind_Some in HR as (x & Hst & HR). destruct (job_step_inv l j x Hi Hst) as (j1 & -> & Hi1).
  by apply (IH j1).
Qed.

Definition left (c : Coordinator) : Z := mapsLeft c + reducesLeft c.

Definition none_in_progress (c : Coordinator) : Prop :=
  forall idx ty t, known c idx ty t -> status t <> "in progress"%string.

Lemma left_with_status c idx ty t s d : left (with_status c idx ty t s d) = left c - d.
Proof. unfold left, with_status. case_bool_decide; simpl; lia. Qed.

(** All timers fire. *)
Lemma timers_fire k j :
  job_inv j -> length (timers j) = k ->
  exists j', job_run (replicate k (JTimer 0)) j = Some (Ok j') /\ job_inv j' /\
    none_in_progress (co j') /\ left (co j') = left (co j).
Proof.
  revert j. induction k as [|k IH]; intros j Hi Hlen; simpl.
  - exists j. split_and!; try done. intros idx ty t Hk Hs.
    pose proof (ji_armed _ Hi _ _ _ Hk Hs) as Hin. apply nil_length_inv in Hlen.
    rewrite Hlen in Hin. by apply elem_of_nil in Hin.
  - destruct (timers j) as [|[idx ty] ts] eqn:Et; [done|]. simpl.
    destruct (job_inv_timer j 0 idx ty Hi) as (c & E & Hi'); [by rewrite Et|].
    rewrite Et in Hi'. simpl in Hi', Hlen.
    rewrite E. go_run. destruct (IH _ Hi') as (j' & -> & Hi2 & Hn & Hl); [simpl; lia|].
    exists j'. split_and!; try done. rewrite Hl. simpl.
    pose proof (ji_timers _ Hi) as Hts. rewrite Et in Hts. apply Forall_cons in Hts as [Hid _].
    destruct (known_exists (co j) idx ty (ji_co _ Hi) Hid) as [t Hkn].
    rewrite (DetectStraggler_spec _ _ _ _ Hkn) in E. injection E as <-.
    case_decide; [|done]. rewrite left_with_status. lia.
Qed.

(** With nothing in progress, a coordinator that is not done has work. *)
Lemma work_available c c' r ts :
  wf_coordinator files n c -> none_in_progress c -> left c <> 0 ->
  GetTask c = (c', r, ts) -> is_task r = true.
Proof.
  intros Hw Hn Hl HG. destruct (is_task r) eqn:Er; [done|]. exfalso.
  pose proof Hw as [Hm Hr _ _]. apply GetTask_outcome in HG.
  assert (forall tasks fs l, wf_tasks fs tasks l ->
    (forall i t, tasks !! i = Some t -> status t <> "in progress"%string) ->
    Forall (fun t => status t <> "unstarted"%string) tasks -> l = 0) as Hall.
  { intros tasks fs l Hwt Hnp Hnu. rewrite (wt_left _ _ _ Hwt). apply unfinished_0.
    apply Forall_lookup. intros i t Ht.
    pose proof (Forall_lookup_1 _ _ _ _ (wt_status _ _ _ Hwt) Ht) as Hst.
    pose proof (Forall_lookup_1 _ _ _ _ Hnu Ht). specialize (Hnp i t Ht). set_solver. }
  assert (forall i t, mapTasks c !! i = Some t -> status t <> "in progress"%string) as Hnm.
  { intros i t Ht. apply (Hn (Z.of_nat i) "map"). left. rewrite Nat2Z.id. split_and!; [done|lia|done]. }
  assert (forall i t, reduceTasks c !! i = Some t -> status t <> "in progress"%string) as Hnr.
  { intros i t Ht. apply (Hn (Z.of_nat i) "reduce"). right. rewrite Nat2Z.id.
    split_and!; [done|lia|done]. }
  unfold left in Hl. destruct HG as [| |Hml Hrl|[[Hml Hu]|(Hml & Hrl & Hu)]]; try done.
  - lia.
  - by eapply Hml, Hall.
  - by eapply Hrl, Hall.
Qed.

Lemma known_kept c idx ty t s d : known c idx ty t -> known (with_status c idx ty t s d) idx ty (set_status s t).
Proof.
  intros [(-> & Hi & Ht)|(-> & Hi & Ht)]; unfold with_status; simpl; [left|right];
    (split_and!; [done|done|]); simpl; by eapply lookup_updated.
Qed.

(** A worker gets a task, does it and reports it. *)
Lemma one_round j :
  job_inv j -> none_in_progress (co j) -> left (co j) <> 0 ->
  exists j', job_run [JGet; JRun (length (assigned j)); JReport (length (reports j))] j = Some (Ok j') /\
    job_inv j' /\ none_in_progress (co j') /\ left (co j') = left (co j) - 1.
Proof.
  intros Hi Hn Hl. destruct (GetTask (co j)) as [[c r] ts] eqn:EG.
  pose proof (work_available _ _ _ _ (ji_co _ Hi) Hn Hl EG) as Hr.
  pose proof (job_inv_get j c r ts Hi EG) as Hi1. rewrite Hr in Hi1.
  destruct (GetTask_task _ _ _ _ (ji_co _ Hi) EG) as [(? & _)|(t & _ & Hk & Hs & Ec & -> & Hg)];
    [congruence|].
  set (j1 := mkJob c _ _ _ _) in Hi1.
  destruct (run_task j1 r Hi1 Hg) as (fs & Efs & _ & Hid & _).
  assert (assigned j1 !! length (assigned j) = Some r) as Hlast
    by (simpl; by rewrite lookup_app_r, Nat.sub_diag by lia).
  pose proof (job_inv_run j1 _ r fs Hi1 Hlast Efs) as Hi2.
  set (j2 := mkJob (co j1) _ _ _ fs) in Hi2.
  assert (reports j2 !! length (reports j) = Some (mkMarkCompleteArgs (Id r) (TaskType r))) as Hrep
    by (simpl; by rewrite lookup_app_r, Nat.sub_diag by lia).
  destruct (job_inv_report j2 _ _ Hi2 Hrep) as (c3 & Ec3 & Hi3).
  pose proof (known_kept (co j) (Id r) (TaskType r) t "in progress" 0 Hk) as Hk2.
  rewrite <- Ec in Hk2. simpl in Ec3. rewrite (MarkComplete_spec _ _ _ _ Hk2) in Ec3.
  rewrite decide_True in Ec3 by done. injection Ec3 as <-.
  eexists. split; [|split; [exact Hi3|]].
  - assert (job_step JGet j = Some (Ok j1)) as E1 by (cbn [job_step]; by rewrite EG, Hr).
    assert (job_step (JRun (length (assigned j))) j1 = Some (Ok j2)) as E2
      by (cbn [job_step]; rewrite Hlast; cbn [mbind option_bind]; by rewrite Efs).
    cbn [job_run]. rewrite E1. cbn [mbind option_bind]. rewrite E2. cbn [mbind option_bind].
    cbn [job_step]. rewrite Hrep. cbn [mbind option_bind]. simpl (co j2).
    by rewrite (MarkComplete_spec _ _ _ _ Hk2), decide_True.
  - cbn [co]. split.
    + intros idx ty t' Hk' Hs'.
      destruct (known_with_status _ _ _ _ _ _ _ _ _ Hk2 Hk') as [(-> & -> & ->)|[Hne Hk3]]; [done|].
      rewrite Ec in Hk3.
      destruct (known_with_status _ _ _ _ _ _ _ _ _ Hk Hk3) as [(-> & -> & _)|[_ Hk4]]; [done|].
      by apply (Hn _ _ _ Hk4).
    + rewrite left_with_status, Ec, left_with_status. lia.
Qed.

Lemma rounds_finish k j :
  job_inv j -> none_in_progress (co j) -> left (co j) = Z.of_nat k ->
  exists ls j', job_run ls j = Some (Ok j') /\ length ls = (3 * k)%nat /\
    Forall (fun l => crash_label l = false) ls /\ left (co j') = 0.
Proof.
  revert j. induction k as [|k IH]; intros j Hi Hn Hl.
  { exists [], j. by split_and!. }
  destruct (one_round j Hi Hn) as (j1 & E1 & Hi1 & Hn1 & Hl1); [lia|].
  destruct (IH j1 Hi1 Hn1) as (ls & j' & E & Hlen & Hc & Hz); [lia|].
  eexists ([_; _; _] ++ ls), j'. rewrite (job_run_app _ _ _ _ E1). split_and!; try done.
  - rewrite length_app, Hlen. simpl. lia.
  - apply Forall_app. split; [|done]. by repeat constructor.
Qed.

Lemma left_nonneg c : wf_coordinator files n c -> 0 <= mapsLeft c /\ 0 <= reducesLeft c.
Proof.
  intros [Hm Hr _ _]. rewrite (wt_left _ _ _ Hm), (wt_left _ _ _ Hr).
  split; apply unfinished_nonneg.
Qed.

(** ** Completed tasks *)

Lemma known_other c idx ty t s d idx' ty' t' :
  known c idx ty t -> known c idx' ty' t' -> (idx', ty') <> (idx, ty) ->
  known (with_status c idx ty t s d) idx' ty' t'.
Proof.
  intros [(-> & Hi & Ht)|(-> & Hi & Ht)] [(-> & Hi' & Ht')|(-> & Hi' & Ht')] Hne;
    unfold with_status; simpl; [left|right|left|right]; (split_and!; [done|done|]);
    simpl; try done.
  all: rewrite list_lookup_insert_ne; [done|]; intros E; apply Hne; f_equal; lia.
Qed.

Lemma known_fun c idx ty t t' : known c idx ty t -> known c idx ty t' -> t = t'.
Proof.
  intros [(-> & _ & Ht)|(-> & _ & Ht)] [(? & _ & Ht')|(? & _ & Ht')]; try done; congruence.
Qed.

(** A task that is not completed gets another status: completed ones keep theirs. *)
Lemma known_completed c idx ty t s d idx' ty' t' :
  known c idx ty t -> status t <> "completed"%string ->
  known c idx' ty' t' -> status t' = "completed"%string ->
  known (with_status c idx ty t s d) idx' ty' t'.
Proof.
  intros Hk Hs Hk' Hs'. apply known_other; [done|done|]. intros [= -> ->].
  by rewrite (known_fun _ _ _ _ _ Hk Hk') in Hs.
Qed.

Lemma completed_step l j j' idx ty t :
  job_inv j -> job_step l j = Some (Ok j') -> known (co j) idx ty t ->
  status t = "completed"%string -> known (co j') idx ty t.
Proof.
  intros Hi Hst Hk Hs. destruct l as [|k|k|k|k|k]; cbn [job_step] in Hst.
  - destruct (GetTask (co j)) as [[c reply] ts] eqn:E. injection Hst as <-. simpl.
    destruct (GetTask_task _ _ _ _ (ji_co _ Hi) E) as [(_ & -> & _)|(t' & _ & Hk' & Hs' & -> & _)];
      [done|]. apply known_completed; [done|by rewrite Hs'|done|done].
  - apply bind_Some in Hst as (reply & _ & [= Hst]).
    apply result_bind_Ok in Hst as (fs & _ & [= <-]). done.
  - apply bind_Some in Hst as ([idx' ty'] & Ha & [= Hst]).
    apply result_bind_Ok in Hst as (c & Hc & [= <-]). simpl.
    pose proof (Forall_lookup_1 _ _ _ _ (ji_reports _ Hi) Ha) as [Hid _].
    destruct (known_exists (co j) idx' ty' (ji_co _ Hi) Hid) as [t' Hk'].
    rewrite (MarkComplete_spec _ _ _ _ Hk') in Hc. injection Hc as <-.
    case_decide as Hp; [|done]. apply known_completed; [done|by rewrite Hp|done|done].
  - apply bind_Some in Hst as ([idx' ty'] & Ha & [= Hst]).
    apply result_bind_Ok in Hst as (c & Hc & [= <-]). simpl.
    pose proof (Forall_lookup_1 _ _ _ _ (ji_timers _ Hi) Ha) as Hid.
    destruct (known_exists (co j) idx' ty' (ji_co _ Hi) Hid) as [t' Hk'].
    rewrite (DetectStraggler_spec _ _ _ _ Hk') in Hc. injection Hc as <-.
    case_decide as Hp; [|done]. apply known_completed; [done|by rewrite Hp|done|done].
  - apply bind_Some in Hst as (reply & _ & [= <-]). done.
  - apply bind_Some in Hst as (a & _ & [= <-]). done.
Qed.
End job.
