(* ===== verification/Json.v ===== *)
(** * encoding/json, as mr/worker.go uses it

    [enc.Encode(&kv)] and [dec.Decode(&kv)] on the struct [KeyValue]: the
    encoder's escaping of strings (HTML escaping on, as for every
    [json.Encoder]), and a decoder for the lines it writes.  Bytes that are
    not valid UTF-8 are replaced by U+FFFD; all other strings come back
    unchanged, which is what [JsonStream] asks for.  The decoder covers what
    the encoder writes, not all of JSON.  At the end, what this means for the
    intermediate files of worker.go. *)

From Stdlib Require Import ZArith Lia Ascii.
From stdpp Require Import base numbers strings gmap list sorting.
From S2P Require Import Prelude MRWorker MRFiles.
Local Open Scope nat_scope.

Definition code (c : ascii) : nat := nat_of_ascii c.
Definition chr (n : nat) : ascii := ascii_of_nat n.

Definition between (lo hi x : nat) : bool := (lo <=? x) && (x <=? hi).

(** ** UTF-8 (utf8.DecodeRuneInString) *)

Definition cont (c : ascii) : bool := between 128 191 (code c).

Definition valid2 (c1 c2 : ascii) : bool := between 194 223 (code c1) && cont c2.

Definition valid3 (c1 c2 c3 : ascii) : bool :=
  ((code c1 =? 224) && between 160 191 (code c2) ||
   (between 225 236 (code c1) || between 238 239 (code c1)) && cont c2 ||
   (code c1 =? 237) && between 128 159 (code c2)) && cont c3.

Definition valid4 (c1 c2 c3 c4 : ascii) : bool :=
  ((code c1 =? 240) && between 144 191 (code c2) ||
   between 241 243 (code c1) && cont c2 ||
   (code c1 =? 244) && between 128 143 (code c2)) && cont c3 && cont c4.

Fixpoint valid_utf8 (s : string) : bool :=
  match s with
  | EmptyString => true
  | String c1 s1 =>
    if code c1 <? 128 then valid_utf8 s1
    else match s1 with
    | EmptyString => false
    | String c2 s2 =>
      if valid2 c1 c2 then valid_utf8 s2
      else match s2 with
      | EmptyString => false
      | String c3 s3 =>
        if valid3 c1 c2 c3 then valid_utf8 s3
        else match s3 with
        | EmptyString => false
        | String c4 s4 => if valid4 c1 c2 c3 c4 then valid_utf8 s4 else false
        end
      end
    end
  end.

(** ** Strings *)

Definition quote : ascii := chr 34.
Definition backslash : ascii := chr 92.

Definition hex (n : nat) : ascii := if n <? 10 then chr (48 + n) else chr (87 + n).

(** [\u00XX] *)
Definition escape_hex (n : nat) : string :=
  String backslash (String "u" (String "0" (String "0"
    (String (hex (n / 16)) (String (hex (n mod 16)) EmptyString))))).

(** One byte below 0x80. *)
Definition escape (c : ascii) : string :=
  let n := code c in
  if (n =? 34) || (n =? 92) then String backslash (String c EmptyString)
  else if n =? 10 then String backslash (String "n" EmptyString)
  else if n =? 13 then String backslash (String "r" EmptyString)
  else if n =? 9 then String backslash (String "t" EmptyString)
  else if (n <? 32) || (n =? 60) || (n =? 62) || (n =? 38) then escape_hex n
  else String c EmptyString.

Definition replacement : string := String backslash "ufffd".

(** U+2028 and U+2029, the bytes E2 80 A8 and E2 80 A9. *)
Definition line_sep (c1 c2 c3 : ascii) : bool :=
  (code c1 =? 226) && (code c2 =? 128) && between 168 169 (code c3).

Definition escape_sep (c3 : ascii) : string :=
  String backslash ("u202" +:+ String (hex (code c3 - 160)) EmptyString).

Fixpoint enc_string (s : string) : string :=
  match s with
  | EmptyString => EmptyString
  | String c1 s1 =>
    if code c1 <? 128 then escape c1 +:+ enc_string s1
    else match s1 with
    | EmptyString => replacement
    | String c2 s2 =>
      if valid2 c1 c2 then String c1 (String c2 (enc_string s2))
      else match s2 with
      | EmptyString => replacement +:+ enc_string s1
      | String c3 s3 =>
        if valid3 c1 c2 c3 then
          (if line_sep c1 c2 c3 then escape_sep c3
           else String c1 (String c2 (String c3 EmptyString))) +:+ enc_string s3
        else match s3 with
        | EmptyString => replacement +:+ enc_string s1
        | String c4 s4 =>
          if valid4 c1 c2 c3 c4 then String c1 (String c2 (String c3 (String c4 (enc_string s4))))
          else replacement +:+ enc_string s1
        end
      end
    end
  end.

(** ** Decoding *)

Definition unhex (c : ascii) : option nat :=
  let n := code c in
  if between 48 57 n then Some (n - 48)
  else if between 97 102 n then Some (n - 87)
  else if between 65 70 n then Some (n - 55)
  else None.

(** The UTF-8 bytes of a code point below 0x10000. *)
Definition utf8_bytes (n : nat) : string :=
  if n <? 128 then String (chr n) EmptyString
  else if n <? 2048 then String (chr (192 + n / 64)) (String (chr (128 + n mod 64)) EmptyString)
  else String (chr (224 + n / 4096))
         (String (chr (128 + n / 64 mod 64)) (String (chr (128 + n mod 64)) EmptyString)).

Definition unescape (c : ascii) : option ascii :=
  let n := code c in
  if (n =? 34) || (n =? 92) || (n =? 47) then Some c
  else if n =? 98 then Some (chr 8)
  else if n =? 102 then Some (chr 12)
  else if n =? 110 then Some (chr 10)
  else if n =? 114 then Some (chr 13)
  else if n =? 116 then Some (chr 9)
  else None.

Definition prepend (p : string) (r : option (string * string)) : option (string * string) :=
  match r with Some (s, rest) => Some (p +:+ s, rest) | None => None end.

(** The string up to its closing quote, and what follows it. *)
Fixpoint dec_string (s : string) : option (string * string) :=
  match s with
  | EmptyString => None
  | String c1 s1 =>
    if code c1 =? 34 then Some (EmptyString, s1)
    else if code c1 =? 92 then
      match s1 with
      | EmptyString => None
      | String c2 s2 =>
        if code c2 =? 117 then
          match s2 with
          | String h1 (String h2 (String h3 (String h4 s6))) =>
            match unhex h1, unhex h2, unhex h3, unhex h4 with
            | Some a, Some b, Some c, Some d =>
              prepend (utf8_bytes (((a * 16 + b) * 16 + c) * 16 + d)) (dec_string s6)
            | _, _, _, _ => None
            end
          | _ => None
          end
        else
          match unescape c2 with
          | Some x => prepend (String x EmptyString) (dec_string s2)
          | None => None
          end
      end
    else if code c1 <? 32 then None
    else prepend (String c1 EmptyString) (dec_string s1)
  end.

(** ** The struct *)

Definition key_prefix : string :=
  String "{" (String quote ("Key" +:+ String quote (String ":" (String quote EmptyString)))).
Definition value_prefix : string :=
  String "," (String quote ("Value" +:+ String quote (String ":" (String quote EmptyString)))).
Definition line_end : string := String "}" newline.

Definition enc_line (kv : KeyValue) : string :=
  key_prefix +:+ enc_string (Key kv) +:+ String quote
    (value_prefix +:+ enc_string (Value kv) +:+ String quote line_end).

Definition dec_line (s : string) : option (KeyValue * string) :=
  s ← strip key_prefix s;
  '(k, s) ← dec_string s;
  s ← strip value_prefix s;
  '(v, s) ← dec_string s;
  s ← strip line_end s;
  Some (mkKeyValue k v, s).

(** Decode until it fails; every line consumes input. *)
Fixpoint dec_lines (fuel : nat) (s : string) : list KeyValue :=
  match fuel with
  | O => []
  | S fuel =>
    match dec_line s with
    | Some (kv, s) => kv :: dec_lines fuel s
    | None => []
    end
  end.

Definition dec_file (s : string) : list KeyValue := dec_lines (String.length s) s.

Definition utf8_pair (kv : KeyValue) : Prop :=
  valid_utf8 (Key kv) = true /\ valid_utf8 (Value kv) = true.

(** ** Round trips *)

Lemma prepend_prepend p q r : prepend p (prepend q r) = prepend (p +:+ q) r.
Proof.
  destruct r as [[s rest]|]; [|done]. simpl. do 2 f_equal.
  induction p as [|c p IH]; [done|]. exact (f_equal (String c) IH).
Qed.

Lemma prepend_nil r : prepend "" r = r.
Proof. by destruct r as [[? ?]|]. Qed.

(** One escaped byte. *)
Lemma dec_escape c X :
  (code c <? 128) = true -> dec_string (escape c +:+ X) = prepend (String c EmptyString) (dec_string X).
Proof.
  destruct c as [[] [] [] [] [] [] [] []]; intros Hc; try discriminate Hc;
    simpl; reflexivity.
Qed.

(** One byte of a longer encoding. *)
Lemma dec_copy c X :
  (code c <? 128) = false -> dec_string (String c X) = prepend (String c EmptyString) (dec_string X).
Proof.
  intros Hc%Nat.ltb_ge. cbn [dec_string].
  destruct (Nat.eqb_spec (code c) 34); [lia|]. destruct (Nat.eqb_spec (code c) 92); [lia|].
  destruct (Nat.ltb_spec (code c) 32); [lia|done].
Qed.

Lemma cont_high c : cont c = true -> (code c <? 128) = false.
Proof.
  unfold cont, between. intros [Hc _]%andb_true_iff. apply Nat.leb_le in Hc. by apply Nat.ltb_ge.
Qed.

Lemma between_high lo hi c : between lo hi (code c) = true -> 128 <= lo -> (code c <? 128) = false.
Proof.
  unfold between. intros [Hc _]%andb_true_iff ?. apply Nat.leb_le in Hc. apply Nat.ltb_ge. lia.
Qed.

Lemma eqb_code c n : (code c =? n) = true -> c = chr n.
Proof. intros <-%Nat.eqb_eq. symmetry. apply ascii_nat_embedding. Qed.

Lemma valid3_high c1 c2 c3 :
  valid3 c1 c2 c3 = true -> (code c2 <? 128) = false /\ (code c3 <? 128) = false.
Proof.
  unfold valid3. intros [Hc H3]%andb_true_iff. split; [|by apply cont_high].
  rewrite !orb_true_iff, !andb_true_iff in Hc.
  destruct Hc as [[[_ Hb]|[_ Hb]]|[_ Hb]]; [|by apply cont_high|];
    eapply between_high; (exact Hb || lia).
Qed.

Lemma valid4_high c1 c2 c3 c4 :
  valid4 c1 c2 c3 c4 = true ->
  (code c2 <? 128) = false /\ (code c3 <? 128) = false /\ (code c4 <? 128) = false.
Proof.
  unfold valid4. intros [[Hc H3]%andb_true_iff H4]%andb_true_iff.
  split; [|split; by apply cont_high].
  rewrite !orb_true_iff, !andb_true_iff in Hc.
  destruct Hc as [[[_ Hb]|[_ Hb]]|[_ Hb]]; [|by apply cont_high|];
    eapply between_high; (exact Hb || lia).
Qed.

Lemma dec_sep c1 c2 c3 X :
  line_sep c1 c2 c3 = true ->
  dec_string (escape_sep c3 +:+ X)
  = prepend (String c1 (String c2 (String c3 EmptyString))) (dec_string X).
Proof.
  unfold line_sep. intros [[E1 E2]%andb_true_iff E3]%andb_true_iff.
  apply eqb_code in E1 as ->. apply eqb_code in E2 as ->.
  assert (c3 = chr 168 \/ c3 = chr 169) as [->| ->]; [|reflexivity..].
  unfold between in E3. apply andb_true_iff in E3 as [Hl%Nat.leb_le Hh%Nat.leb_le].
  destruct (decide (code c3 = 168)); [left|right]; apply eqb_code, Nat.eqb_eq; lia.
Qed.

Lemma app_assoc_s a b c : (a +:+ b) +:+ c = a +:+ (b +:+ c).
Proof. induction a as [|x a IH]; [done|]. exact (f_equal (String x) IH). Qed.

Lemma dec_enc_string s rest :
  valid_utf8 s = true -> dec_string (enc_string s +:+ String quote rest) = Some (s, rest).
Proof.
  remember (String.length s) as k eqn:Hk. assert (String.length s <= k) as Hle by lia. clear Hk.
  revert s Hle. induction k as [|k IH]; intros [|c1 s1] Hle Hv; simpl in Hle; try done; try lia.
  cbn [valid_utf8] in Hv. cbn [enc_string].
  destruct (code c1 <? 128) eqn:H1.
  { rewrite app_assoc_s, dec_escape, IH by (done || lia). done. }
  destruct s1 as [|c2 s2]; [done|]. simpl in Hle. destruct (valid2 c1 c2) eqn:H2.
  { apply andb_true_iff in H2 as [_ Hc2%cont_high].
    change (dec_string (String c1 (String c2 (enc_string s2 +:+ String quote rest)))
      = Some (String c1 (String c2 s2), rest)).
    rewrite dec_copy, dec_copy, IH by (done || lia). done. }
  destruct s2 as [|c3 s3]; [done|]. simpl in Hle. destruct (valid3 c1 c2 c3) eqn:H3.
  { rewrite app_assoc_s. destruct (line_sep c1 c2 c3) eqn:Hs.
    - rewrite (dec_sep c1 c2 c3), IH by (done || lia). done.
    - apply valid3_high in H3 as [Hc2 Hc3].
      change (dec_string (String c1 (String c2 (String c3 (enc_string s3 +:+ String quote rest))))
        = Some (String c1 (String c2 (String c3 s3)), rest)).
      rewrite dec_copy, dec_copy, dec_copy, IH by (done || lia). done. }
  destruct s3 as [|c4 s4]; [done|]. simpl in Hle. destruct (valid4 c1 c2 c3 c4) eqn:H4; [|done].
  apply valid4_high in H4 as (Hc2 & Hc3 & Hc4).
  change (dec_string (String c1 (String c2 (String c3 (String c4
    (enc_string s4 +:+ String quote rest))))) = Some (String c1 (String c2 (String c3 (String c4 s4))), rest)).
  rewrite dec_copy, dec_copy, dec_copy, dec_copy, IH by (done || lia). done.
Qed.

Lemma dec_enc_line kv rest :
  utf8_pair kv -> dec_line (enc_line kv +:+ rest) = Some (kv, rest).
Proof.
  intros [Hk Hv]. unfold dec_line, enc_line. rewrite !app_assoc_s, strip_app. cbn [mbind option_bind].
  match goal with |- context [String quote ?a +:+ ?b] =>
    change (String quote a +:+ b) with (String quote (a +:+ b)) end.
  rewrite dec_enc_string by done. cbn [mbind option_bind]. rewrite !app_assoc_s, strip_app.
  cbn [mbind option_bind].
  match goal with |- context [String quote ?a +:+ ?b] =>
    change (String quote a +:+ b) with (String quote (a +:+ b)) end.
  rewrite dec_enc_string by done. cbn [mbind option_bind]. rewrite strip_app.
  by destruct kv.
Qed.

Lemma length_app_s a b : String.length (a +:+ b) = String.length a + String.length b.
Proof. induction a as [|x a IH]; [done|]. exact (f_equal S IH). Qed.

Lemma dec_enc_lines kvs fuel :
  Forall utf8_pair kvs -> length kvs <= fuel ->
  dec_lines fuel (concat_str (enc_line <$> kvs)) = kvs.
Proof.
  intros Hall. revert fuel. induction Hall as [|kv kvs Hkv _ IH]; intros [|fuel] Hf;
    simpl in Hf; try lia; try done.
  change (concat_str (enc_line <$> kv :: kvs)) with (enc_line kv +:+ concat_str (enc_line <$> kvs)).
  cbn [dec_lines]. rewrite dec_enc_line by done. f_equal. apply IH. lia.
Qed.

Lemma concat_str_length kvs : length kvs <= String.length (concat_str (enc_line <$> kvs)).
Proof.
  induction kvs as [|kv kvs IH]; [done|].
  change (concat_str (enc_line <$> kv :: kvs)) with (enc_line kv +:+ concat_str (enc_line <$> kvs)).
  rewrite length_app_s. simpl. lia.
Qed.

(** A file that holds encoded pairs of valid UTF-8 strings. *)
Lemma dec_file_lines kvs :
  Forall utf8_pair kvs -> dec_file (concat_str (enc_line <$> kvs)) = kvs.
Proof. intros Hall. apply dec_enc_lines; [done|]. apply concat_str_length. Qed.

#[export] Instance go_json : JsonStream :=
  {| json_line := enc_line; json_read := dec_file; json_ok := utf8_pair;
     json_stream := dec_file_lines |}.

(** ** A concrete sort *)

#[export] Instance key_le_dec a b : Decision (key_le a b).
Proof. unfold key_le. apply _. Defined.

Lemma merge_sort_strongly l : StronglySorted key_le (merge_sort key_le l).
Proof.
  apply StronglySorted_merge_sort; [intros a b c|intros a b]; unfold key_le.
  - by transitivity (Key b).
  - apply total. apply _.
Qed.

Definition merge_go_sort : GoSort :=
  {| go_sort := merge_sort key_le; go_sort_perm := merge_sort_Permutation key_le;
     go_sort_sorted := merge_sort_strongly |}.

(** ** Intermediate files *)

Local Open Scope Z_scope.

(** C38: intermediate files.  Let a map task run on an input file, in a
    directory that may hold intermediate files of earlier attempts, and let
    the keys and values it emits be valid UTF-8 (other bytes become U+FFFD).
    Then what a reduce task reads from the task's file are exactly the pairs
    of its partition, in order, whatever quotes, controls, line separators or
    HTML characters they contain; and what it reads of other map tasks is as
    before. *)
Theorem intermediate_roundtrip mapf fs name content n i p :
  fs !! name = Some content -> 0 <= i -> 0 <= p < n -> Forall utf8_pair (mapf name content) ->
  exists fs', DoMap mapf fs name n i = Ok fs' /\
    readIntermediate fs' p [i] = Ok (filter (fun kv => Z.rem (ihash (Key kv)) n = p) (mapf name content)) /\
    forall i' q, 0 <= i' -> i' <> i -> 0 <= q -> readIntermediate fs' q [i'] = readIntermediate fs q [i'].
Proof.
  intros Hf Hi Hp Hutf. destruct (DoMap_spec mapf fs name content n i Hf) as (fs' & E & Hin & Hout); [lia|done|].
  exists fs'. split; [done|]. split.
  - cbn [readIntermediate]. rewrite (Hin p Hp). unfold inter_content. go_run.
    rewrite json_stream; [by rewrite app_nil_r|].
    apply Forall_forall. intros kv [_ Hkv]%list_elem_of_filter. by apply (proj1 (Forall_forall _ _) Hutf).
  - intros i' q Hi' Hne Hq. cbn [readIntermediate]. rewrite Hout; [done|].
    intros p' Hp' [? _]%interName_inj; try done; lia.
Qed.

(** An attempt that left garbage, and pairs that need escapes. *)
Definition tricky_map : mapFun := fun _ _ =>
  [mkKeyValue "a<b" (String quote newline); mkKeyValue "b" ""; mkKeyValue "a<b" "&"].

Definition tricky_fs : FS := {["in"%string := ""%string; "mr-0-0"%string := "garbage"%string]}.

Lemma intermediate_roundtrip_witness :
  exists fs', DoMap tricky_map tricky_fs "in" 2 0 = Ok fs' /\
    fs' !! "mr-0-0"%string <> Some "garbage"%string /\
    readIntermediate fs' (Z.rem (ihash "a<b") 2) [0]
      = Ok [mkKeyValue "a<b" (String quote newline); mkKeyValue "a<b" "&"].
Proof.
  destruct (intermediate_roundtrip tricky_map tricky_fs "in" "" 2 0 (Z.rem (ihash "a<b") 2))
    as (fs' & E & Hr & _);
    [reflexivity|lia|split; [vm_compute; discriminate|vm_compute; reflexivity]|repeat constructor|].
  exists fs'. split; [exact E|]. split; [|rewrite Hr; vm_compute; reflexivity].
  vm_compute in E. injection E as <-. vm_compute. discriminate.
Defined.
