(* ===== verification/MRApps.v ===== *)
(** * mr-main/mrapps: applications of MapReduce

    The map and reduce functions of credit.go, nocrash.go (crash.go without
    its crashes, which are the steps of a job in which a worker dies) and
    early_exit.go, with what they use of Go's [strings] and [strconv]. *)

From Stdlib Require Import ZArith Lia Ascii.
From stdpp Require Import base numbers strings pretty gmap list sorting.
From S2P Require Import Prelude MRWorker.
Local Open Scope Z_scope.

(** ** strings *)

(** [strings.Split(s, sep)] for a separator of one byte. *)
Fixpoint Split (sep : ascii) (s : string) : list string :=
  match s with
  | EmptyString => [""%string]
  | String c s =>
    if Ascii.eqb c sep then ""%string :: Split sep s
    else match Split sep s with
         | [] => []
         | part :: parts => String c part :: parts
         end
  end.

(** The UTF-8 encodings of the runes [unicode.IsSpace] accepts. *)
Definition spaces : list (list nat) :=
  [[9]; [10]; [11]; [12]; [13]; [32]; [194; 133]; [194; 160]; [225; 154; 128];
   [226; 128; 128]; [226; 128; 129]; [226; 128; 130]; [226; 128; 131]; [226; 128; 132];
   [226; 128; 133]; [226; 128; 134]; [226; 128; 135]; [226; 128; 136]; [226; 128; 137];
   [226; 128; 138]; [226; 128; 168]; [226; 128; 169]; [226; 128; 175]; [226; 129; 159];
   [227; 128; 128]]%nat.

Fixpoint strip_prefix (p s : list nat) : option (list nat) :=
  match p, s with
  | [], _ => Some s
  | a :: p, b :: s => if (a =? b)%nat then strip_prefix p s else None
  | _ :: _, [] => None
  end.

Fixpoint first_some {A B} (f : A -> option B) (l : list A) : option B :=
  match l with
  | [] => None
  | x :: l => match f x with Some y => Some y | None => first_some f l end
  end.

(** Runes at the front are dropped while they are spaces; every rune has at
    least one byte, so [length s] rounds are enough. *)
Fixpoint trim_front (runes : list (list nat)) (fuel : nat) (s : list nat) : list nat :=
  match fuel with
  | O => s
  | S fuel =>
    match first_some (fun p => strip_prefix p s) runes with
    | Some s => trim_front runes fuel s
    | None => s
    end
  end.

(** [strings.TrimSpace]: both ends; the last rune of a string is the one
    whose encoding it ends with. *)
Definition TrimSpace (s : string) : string :=
  let bytes := nat_of_ascii <$> String.list_ascii_of_string s in
  let front := trim_front spaces (length bytes) bytes in
  let back := trim_front (reverse <$> spaces) (length front) (reverse front) in
  String.string_of_list_ascii (ascii_of_nat <$> reverse back).

(** [strings.Join] *)
Fixpoint Join (sep : string) (l : list string) : string :=
  match l with
  | [] => ""
  | [s] => s
  | s :: l => s +:+ sep +:+ Join sep l
  end.

(** [sort.Strings] *)
Definition sort_strings (l : list string) : list string := merge_sort String.le l.

(** ** strconv *)

(** [ParseUint]'s loop in base 10 on 64 bits: [None] on a byte that is no
    digit, the largest value as soon as the number is out of range. *)
Fixpoint parse_digits (n : Z) (s : string) : option Z :=
  match s with
  | EmptyString => Some n
  | String c s =>
    let d := Z.of_nat (nat_of_ascii c) - 48 in
    if (0 <=? d) && (d <=? 9) then
      if (2 ^ 64 - 1) / 10 + 1 <=? n then Some (2 ^ 64 - 1)
      else if 2 ^ 64 - 1 <? n * 10 + d then Some (2 ^ 64 - 1)
      else parse_digits (n * 10 + d) s
    else None
  end.

Definition parse_unsigned (s : string) : option Z :=
  match s with EmptyString => None | _ => parse_digits 0 s end.

(** The value [strconv.Atoi] returns, its error dropped as the code does:
    zero for what is no number, the nearest int for one out of range. *)
Definition Atoi (s : string) : Z :=
  match s with
  | String c rest =>
    if Ascii.eqb c "-" then
      match parse_unsigned rest with Some un => Z.max (- un) (- 2 ^ 63) | None => 0 end
    else
      match parse_unsigned (if Ascii.eqb c "+" then rest else s) with
      | Some un => Z.min un (2 ^ 63 - 1)
      | None => 0
      end
  | EmptyString => 0
  end.

(** ** credit.go *)

Module Credit.
(** The body of the loop over the lines. *)
Definition mapLine (line : string) : list KeyValue :=
  let words := Split "," line in
  if len words <? 4 then []
  else
    let agency := default ""%string (words !! 1%nat) in
    let year := default ""%string (words !! 2%nat) in
    let cScore := TrimSpace (default ""%string (words !! 3%nat)) in
    let creditScore := Atoi cScore in
    if negb (bool_decide (year = "2023"%string)) || (creditScore <=? 400) then []
    else [mkKeyValue agency "1"].

Definition Map (filename contents : string) : list KeyValue :=
  let lines := Split (ascii_of_nat 10) contents in
  concat (mapLine <$> drop 1 lines).

Definition Reduce (key : string) (values : list string) : string :=
  let sum := foldl (fun sum value => wrap64 (sum + Atoi value)) 0 values in
  pretty sum.
End Credit.

(** ** nocrash.go *)

Module NoCrash.
Definition Map (filename contents : string) : list KeyValue :=
  [mkKeyValue "a" filename; mkKeyValue "b" (pretty (Z.of_nat (String.length filename)));
   mkKeyValue "c" (pretty (Z.of_nat (String.length contents))); mkKeyValue "d" "xyzzy"].

Definition Reduce (key : string) (values : list string) : string :=
  Join " " (sort_strings values).
End NoCrash.

(** ** early_exit.go *)

Module EarlyExit.
Definition Map (filename contents : string) : list KeyValue := [mkKeyValue filename "1"].
Definition Reduce (key : string) (values : list string) : string := pretty (len values).
End EarlyExit.

(** ** Lemmas *)

Lemma Split_nonempty sep s : Split sep s <> [].
Proof.
  induction s as [|c s IH]; [done|]. simpl. destruct (Ascii.eqb c sep); [done|].
  by destruct (Split sep s).
Qed.

Lemma wrap64_add x y : wrap64 (wrap64 x + y) = wrap64 (x + y).
Proof.
  unfold wrap64. f_equal.
  replace ((x + 2 ^ 63) mod 2 ^ 64 - 2 ^ 63 + y + 2 ^ 63) with ((x + 2 ^ 63) mod 2 ^ 64 + y) by lia.
  rewrite Zplus_mod_idemp_l. f_equal. lia.
Qed.

(** The sum modulo 2^64. *)
Lemma sum_values s values :
  foldl (fun sum value => wrap64 (sum + Atoi value)) (wrap64 s) values
  = wrap64 (s + foldr (fun value sum => Atoi value + sum) 0 values).
Proof.
  revert s. induction values as [|v values IH]; intros s; simpl; [f_equal; lia|].
  rewrite wrap64_add, IH. f_equal. lia.
Qed.

Lemma Credit_Reduce_sum key values :
  Credit.Reduce key values = pretty (wrap64 (foldr (fun value sum => Atoi value + sum) 0 values)).
Proof. unfold Credit.Reduce. by rewrite (sum_values 0). Qed.

Lemma sort_strings_perm l l' : l ≡ₚ l' -> sort_strings l = sort_strings l'.
Proof.
  intros E. unfold sort_strings. apply (StronglySorted_unique String.le).
  - apply StronglySorted_merge_sort; apply _.
  - apply StronglySorted_merge_sort; apply _.
  - by rewrite !merge_sort_Permutation.
Qed.
