(* ===== verification/MRSystem.v ===== *)
(** * mr-main/mrapps: applications that use the operating system

    mtiming.go, rtiming.go, jobcount.go and crash.go look at the processes of
    a job, at its directory and at random numbers.  Their functions are
    programs: trees of system calls, each with what follows every answer.
    Processes run such programs in a shared directory; a label says which
    process makes its next call and how it is answered, so that calls of
    different processes interleave in every order, fail, or never come back
    because the process died. *)

From Stdlib Require Import ZArith Lia Ascii.
From stdpp Require Import base numbers strings pretty gmap list.
From S2P Require Import Prelude MRWorker MRApps.
Local Open Scope Z_scope.

(** What a task returns: [Map] pairs, [Reduce] a line. *)
Inductive output := Pairs (kva : list KeyValue) | Line (s : string).

#[export] Instance output_eq_dec : EqDecision output.
Proof. solve_decision. Defined.

(** ** Programs *)

(** The calls, each with what follows; a boolean answer is [err == nil].
    [LoadCount] and [StoreCount] access the variable [count] of jobcount.go,
    one per process. *)
Inductive prog : Type :=
| Return (r : output)
| Exit
| Getpid (k : Z -> prog)
| LoadCount (k : Z -> prog)
| StoreCount (z : Z) (k : prog)
| WriteFile (name contents : string) (k : bool -> prog)
| OpenDir (k : bool -> prog)
| Readdirnames (limit : option Z) (k : option (list string) -> prog)
| SendSignal0 (pid : Z) (k : bool -> prog)
| Remove (name : string) (k : bool -> prog)
| RandInt (bound : Z) (k : Z -> prog)
| Sleep (k : prog).

(** ** Processes *)

Record proc := mkProc { count : Z; code : prog }.

(** Live processes are in [procs]; [dead] are the pids of those that ended. *)
Record World := mkWorld { files : FS; procs : gmap Z proc; dead : gset Z }.

Inductive response := Success | Failure | Listed (names : list string) | Drawn (z : Z).

(** At most [limit] names of the directory, each once, in any order. *)
Definition lists_dir (fs : FS) (limit : option Z) (names : list string) : bool :=
  bool_decide (NoDup names) && forallb (fun name => bool_decide (is_Some (fs !! name))) names &&
  (len names =? match limit with
                | Some n => Z.min n (Z.of_nat (size fs))
                | None => Z.of_nat (size fs)
                end).

(** The next call of process [pid]: the directory and the process after it.
    [None] when the answer is not one of the call.  Signal 0 reaches a
    positive pid exactly when it is a live process; other pids are groups of
    processes, about which nothing is assumed. *)
Definition exec (w : World) (pid : Z) (p : proc) (r : response) : option (FS * proc) :=
  let go fs m := Some (fs, mkProc (count p) m) in
  match code p, r with
  | Getpid k, Success => go (files w) (k pid)
  | LoadCount k, Success => go (files w) (k (count p))
  | StoreCount z k, Success => Some (files w, mkProc z k)
  | WriteFile name contents k, Success => go (<[name := contents]> (files w)) (k true)
  | WriteFile _ _ k, Failure => go (files w) (k false)
  | OpenDir k, Success => go (files w) (k true)
  | OpenDir k, Failure => go (files w) (k false)
  | Readdirnames limit k, Listed names =>
    if lists_dir (files w) limit names then go (files w) (k (Some names)) else None
  | Readdirnames _ k, Failure => go (files w) (k None)
  | SendSignal0 xpid k, Success =>
    if bool_decide (0 < xpid /\ procs w !! xpid = None) then None else go (files w) (k true)
  | SendSignal0 xpid k, Failure =>
    if bool_decide (0 < xpid /\ is_Some (procs w !! xpid)) then None else go (files w) (k false)
  | Remove name k, Success =>
    if bool_decide (is_Some (files w !! name)) then go (delete name (files w)) (k true) else None
  | Remove _ k, Failure => go (files w) (k false)
  | RandInt bound k, Drawn z => if (0 <=? z) && (z <? bound) then go (files w) (k z) else None
  | Sleep k, Success => go (files w) k
  | _, _ => None
  end.

Inductive label :=
| Begin (pid : Z) (m : prog)
| Run (pid : Z) (r : response)
| Die (pid : Z).

Definition exited (m : prog) : bool := match m with Exit => true | _ => false end.

(** A pid is a positive [pid_t] and is not given to a second process. *)
Definition fresh_pid (w : World) (pid : Z) : bool :=
  (0 <? pid) && (pid <? 2 ^ 31) && bool_decide (pid ∉ dead w).

Definition kill (pid : Z) (w : World) : World :=
  mkWorld (files w) (delete pid (procs w)) ({[pid]} ∪ dead w).

(** [Begin]: a new process starts a task, or a process that finished one
    starts its next. *)
Definition step (l : label) (w : World) : option World :=
  match l with
  | Begin pid m =>
    match procs w !! pid with
    | None => if fresh_pid w pid
              then Some (mkWorld (files w) (<[pid := mkProc 0 m]> (procs w)) (dead w)) else None
    | Some p => match code p with
                | Return _ => Some (mkWorld (files w) (<[pid := mkProc (count p) m]> (procs w)) (dead w))
                | _ => None
                end
    end
  | Run pid r =>
    p ← procs w !! pid;
    '(fs, p) ← exec w pid p r;
    let w := mkWorld fs (<[pid := p]> (procs w)) (dead w) in
    Some (if exited (code p) then kill pid w else w)
  | Die pid => _ ← procs w !! pid; Some (kill pid w)
  end.

Fixpoint run (ls : list label) (w : World) : option World :=
  match ls with
  | [] => Some w
  | l :: ls => w ← step l w; run ls w
  end.

Definition boot (fs : FS) : World := mkWorld fs ∅ ∅.

(** The tasks that were begun. *)
Definition begins (P : prog -> Prop) (l : label) : Prop :=
  match l with Begin _ m => P m | _ => True end.

(** The file a process will remove, following its program up to the next
    file it writes. *)
Fixpoint pending (m : prog) : option string :=
  match m with
  | Return _ | Exit | Getpid _ | WriteFile _ _ _ => None
  | LoadCount k => pending (k 0)
  | StoreCount _ k | Sleep k => pending k
  | OpenDir k => pending (k true)
  | Readdirnames _ k => pending (k (Some []))
  | SendSignal0 _ k => pending (k false)
  | Remove name _ => Some name
  | RandInt _ k => pending (k 0)
  end.

(** What a program can return, whatever its calls answer. *)
Inductive may_return : prog -> output -> Prop :=
| MayReturn r : may_return (Return r) r
| MayGetpid k pid r : may_return (k pid) r -> may_return (Getpid k) r
| MayLoad k z r : may_return (k z) r -> may_return (LoadCount k) r
| MayStore z k r : may_return k r -> may_return (StoreCount z k) r
| MayWrite name contents k b r : may_return (k b) r -> may_return (WriteFile name contents k) r
| MayOpen k b r : may_return (k b) r -> may_return (OpenDir k) r
| MayRead limit k o r : may_return (k o) r -> may_return (Readdirnames limit k) r
| MaySignal pid k b r : may_return (k b) r -> may_return (SendSignal0 pid k) r
| MayRemove name k b r : may_return (k b) r -> may_return (Remove name k) r
| MayRand bound k z r : 0 <= z < bound -> may_return (k z) r -> may_return (RandInt bound k) r
| MaySleep k r : may_return k r -> may_return (Sleep k) r.

(** ** Runs *)

Lemma is_Some_default {A} (d : A) (o : option A) :
  match o with Some _ => true | None => false end = true -> o = Some (default d o).
Proof. by destruct o. Qed.

Lemma world_run_app ls ls' w : run (ls ++ ls') w = (w ← run ls w; run ls' w).
Proof.
  revert w. induction ls as [|l ls IH]; intros w; [done|]. simpl.
  destruct (step l w); [apply IH|done].
Qed.

(** Induction over a run, with what holds of every task that was begun. *)
Lemma world_run_inv (I : World -> Prop) (P : prog -> Prop) ls w w' :
  (forall l w w', I w -> begins P l -> step l w = Some w' -> I w') ->
  Forall (begins P) ls -> I w -> run ls w = Some w' -> I w'.
Proof.
  intros Hs Hls. revert w. induction Hls as [|l ls Hl _ IH]; intros w Hw E; simpl in E.
  - by injection E as <-.
  - destruct (step l w) as [w1|] eqn:E1; [|done]. eapply IH; [by eapply Hs|exact E].
Qed.

Lemma step_run_inv pid r w w' :
  step (Run pid r) w = Some w' -> exists p fs p',
    procs w !! pid = Some p /\ exec w pid p r = Some (fs, p') /\
    ((exited (code p') = false /\ w' = mkWorld fs (<[pid := p']> (procs w)) (dead w)) \/
     (code p' = Exit /\ w' = mkWorld fs (delete pid (procs w)) ({[pid]} ∪ dead w))).
Proof.
  simpl. destruct (procs w !! pid) as [p|]; [|done]. simpl.
  destruct (exec w pid p r) as [[fs p']|] eqn:E; [|done]. simpl. intros [= <-].
  exists p, fs, p'. split; [done|]. split; [done|].
  destruct (code p'); try (left; split; reflexivity).
  right. split; [done|]. unfold kill. simpl. by rewrite delete_insert_eq.
Qed.

(** Processes that ended stay ended. *)
Definition known (w : World) : gset Z := dom (procs w) ∪ dead w.

Record procs_ok (w : World) : Prop := {
  po_range q : q ∈ known w -> 0 < q < 2 ^ 31;
  po_apart q : q ∈ dead w -> procs w !! q = None;
}.

Lemma known_step l w w' : step l w = Some w' -> known w ⊆ known w' /\ dead w ⊆ dead w'.
Proof.
  unfold known. destruct l as [pid m|pid r|pid].
  - simpl. destruct (procs w !! pid) as [p|]; [destruct (code p)|destruct (fresh_pid w pid)];
      intros E; simplify_eq; simpl; set_solver.
  - intros (p & fs & p' & Hp & _ & [[_ ->]|[_ ->]])%step_run_inv; simpl;
      rewrite ?dom_insert_L, ?dom_delete_L; [set_solver|].
    split; [|set_solver]. intros q Hq. destruct (decide (q = pid)); set_solver.
  - simpl. destruct (procs w !! pid) as [p|]; intros E; simplify_eq/=.
    rewrite dom_delete_L. split; [|set_solver]. intros q Hq. destruct (decide (q = pid)); set_solver.
Qed.

Lemma procs_ok_boot fs : procs_ok (boot fs).
Proof. split; [|done]. intros q. unfold known, boot. simpl. set_solver. Qed.

Lemma procs_ok_step l w w' : procs_ok w -> step l w = Some w' -> procs_ok w'.
Proof.
  intros [Hr Ha]. assert (forall pid, is_Some (procs w !! pid) -> 0 < pid < 2 ^ 31) as Hlive.
  { intros pid Hp. apply Hr. unfold known. apply elem_of_union_l. by apply elem_of_dom. }
  assert (forall pid fs, is_Some (procs w !! pid) ->
    procs_ok (mkWorld fs (delete pid (procs w)) ({[pid]} ∪ dead w))) as Hkill.
  { intros pid fs Hp. split; unfold known; simpl.
    - intros q. rewrite dom_delete_L. destruct (decide (q = pid)) as [->|]; [by intros _; apply Hlive|].
      intros Hq. apply Hr. unfold known. set_solver.
    - intros q Hq. destruct (decide (q = pid)) as [->|]; [apply lookup_delete_eq|].
      rewrite lookup_delete_ne by done. apply Ha. set_solver. }
  assert (forall pid fs p, (is_Some (procs w !! pid) \/ fresh_pid w pid = true) -> pid ∉ dead w ->
    procs_ok (mkWorld fs (<[pid := p]> (procs w)) (dead w))) as Hins.
  { intros pid fs p Hp Hd. split; unfold known; simpl.
    - intros q. rewrite dom_insert_L. destruct (decide (q = pid)) as [->|].
      + intros _. destruct Hp as [?|Hf]; [by apply Hlive|].
        unfold fresh_pid in Hf. apply andb_true_iff in Hf as [Hf _]. lia.
      + intros Hq. apply Hr. unfold known. set_solver.
    - intros q Hq. rewrite lookup_insert_ne; [by apply Ha|]. by intros <-. }
  assert (forall pid, is_Some (procs w !! pid) -> pid ∉ dead w) as Hnd.
  { intros pid [p Hp] Hd%Ha. congruence. }
  destruct l as [pid m|pid r|pid].
  - simpl. destruct (procs w !! pid) as [p|] eqn:Hp.
    + destruct (code p); intros E; simplify_eq. apply Hins; eauto.
    + destruct (fresh_pid w pid) eqn:Hf; intros E; simplify_eq. apply Hins; [by right|].
      unfold fresh_pid in Hf. by apply andb_true_iff in Hf as [_ Hf%bool_decide_eq_true].
  - intros (p & fs & p' & Hp & _ & [[_ ->]|[_ ->]])%step_run_inv; [apply Hins|apply Hkill]; eauto.
  - simpl. destruct (procs w !! pid) as [p|] eqn:Hp; intros E; simplify_eq/=. apply Hkill; eauto.
Qed.

(** A process that was known and lives has lived all along. *)
Lemma live_before l w w' q :
  procs_ok w -> step l w = Some w' -> q ∈ known w -> is_Some (procs w' !! q) -> is_Some (procs w !! q).
Proof.
  intros Hw E Hq [p' Hp']. pose proof (procs_ok_step _ _ _ Hw E) as Hw'.
  apply known_step in E as [_ Hd]. apply elem_of_union in Hq as [Hq|Hq]; [by apply elem_of_dom|].
  apply Hd, (po_apart _ Hw') in Hq. congruence.
Qed.
