(* ===== verification/MRWords.v ===== *)
(** * mr-main/mrapps: the applications on words

    wc.go and indexer.go, with what they use of Go's [strings] and
    [unicode/utf8]: a string is a sequence of bytes, a [range] over it goes
    from rune to rune. *)

From Stdlib Require Import ZArith Lia Ascii.
From stdpp Require Import base numbers strings pretty gmap list.
From S2P Require Import Prelude MRWorker MRApps.
Local Open Scope Z_scope.

(** ** Runes *)

(** A continuation byte in the range [lo..hi]: its six bits. *)
Definition continuation (lo hi : N) (s : string) : option (N * string) :=
  match s with
  | EmptyString => None
  | String c s =>
    let x := N_of_ascii c in
    if ((lo <=? x) && (x <=? hi))%N then Some (x - 128, s)%N else None
  end.

(** [utf8.DecodeRuneInString]: the rune and its width; U+FFFD with width one
    for what is no encoding of a rune (surrogates, overlong forms, numbers
    above 10FFFF). *)
Definition decodeRune (c : ascii) (s : string) : N * nat :=
  let x := N_of_ascii c in
  let two lo hi k := match continuation lo hi s with Some (y, s) => k y s | None => None end in
  let rune :=
    (if x <? 128 then Some (x, 1%nat)
     else if x <? 194 then None
     else if x <? 224 then two 128 191 (fun y _ => Some (64 * (x - 192) + y, 2%nat))
     else if x <? 240 then
       two (if x =? 224 then 160 else 128) (if x =? 237 then 159 else 191) (fun y s =>
       match continuation 128 191 s with
       | Some (z, _) => Some (4096 * (x - 224) + 64 * y + z, 3%nat)
       | None => None
       end)
     else if x <? 245 then
       two (if x =? 240 then 144 else 128) (if x =? 244 then 143 else 191) (fun y s =>
       match continuation 128 191 s with
       | Some (z, s) =>
         match continuation 128 191 s with
         | Some (t, _) => Some (262144 * (x - 240) + 4096 * y + 64 * z + t, 4%nat)
         | None => None
         end
       | None => None
       end)
     else None)%N in
  default (65533%N, 1%nat) rune.

(** [for _, rune := range s]: the runes with their bytes; [skip]: the bytes
    of the current rune that are still to come. *)
Fixpoint runes (skip : nat) (s : string) : list (N * string) :=
  match s with
  | EmptyString => []
  | String c rest =>
    match skip with
    | S skip => runes skip rest
    | O =>
      let '(rune, width) := decodeRune c rest in
      (rune, String.substring 0 width s) :: runes (pred width) rest
    end
  end.

(** ** strings.FieldsFunc *)

(** [field]: the bytes of the field that has been started. *)
Fixpoint fields (f : N -> bool) (field : string) (rs : list (N * string)) : list string :=
  let ended := if decide (field = "")%string then [] else [field] in
  match rs with
  | [] => ended
  | (rune, bytes) :: rs =>
    if f rune then ended ++ fields f "" rs else fields f (field +:+ bytes) rs
  end.

Definition FieldsFunc (s : string) (f : N -> bool) : list string := fields f "" (runes 0 s).

(** The words of a text.  [unicode.IsLetter] is the ASCII letters and, above
    them, a table. *)
Section words.
Variable wideLetter : N -> bool.

Definition IsLetter (r : N) : bool :=
  if (r <? 128)%N then ((65 <=? r) && (r <=? 90) || (97 <=? r) && (r <=? 122))%N else wideLetter r.

Definition words (contents : string) : list string := FieldsFunc contents (fun r => negb (IsLetter r)).
End words.

(** ** wc.go *)

Module WC.
Definition Map (wideLetter : N -> bool) (filename contents : string) : list KeyValue :=
  (fun w => mkKeyValue w "1") <$> words wideLetter contents.

Definition Reduce (key : string) (values : list string) : string := pretty (len values).
End WC.

(** ** indexer.go *)

Module Indexer.
(** [order]: the order in which the loop over the map [m] meets its keys. *)
Definition Map (wideLetter : N -> bool) (order : list string -> list string) (document value : string)
    : list KeyValue :=
  let m : gset string := foldl (fun m w => {[w]} ∪ m) ∅ (words wideLetter value) in
  (fun w => mkKeyValue w document) <$> order (elements m).

Definition Reduce (key : string) (values : list string) : string :=
  pretty (len values) +:+ " " +:+ Join "," (sort_strings values).
End Indexer.

(** ** The runes of a text are its bytes *)

Fixpoint drop_str (k : nat) (s : string) : string :=
  match k, s with S k, String _ s => drop_str k s | _, _ => s end.

Lemma runes_skip k s : runes k s = runes 0 (drop_str k s).
Proof. revert k. induction s as [|c s IH]; intros [|k]; simpl; try done; apply IH. Qed.

Lemma substring_drop w s : String.substring 0 w s +:+ drop_str w s = s.
Proof. revert w. induction s as [|c s IH]; intros [|w]; simpl; try done.
  change (String c (String.substring 0 w s +:+ drop_str w s) = String c s). by rewrite IH.
Qed.

Lemma length_drop_str w s : (String.length (drop_str w s) <= String.length s)%nat.
Proof. revert w. induction s as [|c s IH]; intros [|w]; simpl; try lia. specialize (IH w). lia. Qed.

Lemma decodeRune_width c s : exists w, (decodeRune c s).2 = S w.
Proof.
  unfold decodeRune, continuation. repeat case_match; simplify_eq/=; by eexists.
Qed.

(** The decoder goes through every byte once. *)
Lemma runes_concat s : concat_str (snd <$> runes 0 s) = s.
Proof.
  assert (forall m s, (String.length s <= m)%nat -> concat_str (snd <$> runes 0 s) = s) as Hgen; [|by eapply Hgen].
  clear s. induction m as [|m IH]; intros [|c s] Hm; simpl in *; try done; [lia|].
  destruct (decodeRune_width c s) as [w Ew]. destruct (decodeRune c s) as [r w']. simpl in Ew. subst w'.
  rewrite fmap_cons, runes_skip. cbn [snd pred].
  change (String c (String.substring 0 w s +:+ concat_str (snd <$> runes 0 (drop_str w s))) = String c s).
  rewrite IH; [by rewrite substring_drop|]. pose proof (length_drop_str w s). lia.
Qed.

Lemma append_assoc (x y z : string) : (x +:+ y) +:+ z = x +:+ (y +:+ z).
Proof.
  induction x as [|c x IH]; [done|].
  change (String c ((x +:+ y) +:+ z) = String c (x +:+ (y +:+ z))). by rewrite IH.
Qed.

(** The fields are the text without its separators. *)
Lemma fields_concat f field rs :
  concat_str (fields f field rs) = field +:+ concat_str (snd <$> filter (fun r => f r.1 = false) rs).
Proof.
  assert (forall x (l : list string),
    concat_str ((if decide (x = ""%string) then [] else [x]) ++ l) = x +:+ concat_str l) as Hended
    by (intros x l; case_decide; [by subst|done]).
  revert field. induction rs as [|[r b] rs IH]; intros field; cbn [fields].
  - rewrite <- (app_nil_r (if decide _ then _ else _)). apply Hended.
  - rewrite filter_cons. cbn [fst]. destruct (f r).
    + by rewrite Hended, IH, decide_False.
    + rewrite IH, decide_True, fmap_cons by done. by rewrite append_assoc.
Qed.

Lemma fields_nonempty f field rs : Forall (fun w => w <> ""%string) (fields f field rs).
Proof.
  assert (forall x : string, Forall (fun w => w <> ""%string) (if decide (x = ""%string) then [] else [x]))
    as Hended by (intros x; case_decide; by repeat constructor).
  revert field. induction rs as [|[r b] rs IH]; intros field; cbn [fields]; [done|].
  destruct (f r); [|done]. by apply Forall_app.
Qed.
