(* ===== verification/MRTheorems.v ===== *)
(** * mr: the properties of a MapReduce job

    What a job of MRJob guarantees, whatever the interleaving of requests,
    tasks, reports, timers and crashes: tasks are single steps here, and
    MRJobStepsTheorems has the job with tasks taken apart. *)

From Stdlib Require Import ZArith Lia Ascii.
From stdpp Require Import base numbers strings pretty gmap list sorting.
From S2P Require Import Prelude MRCoordinator MRWorker MRFiles MRJob.
From S2P Require Import Json MRApps MRWords.
Local Open Scope Z_scope.

(** ** Distributed and sequential output *)

Section output.
Context `{JsonStream} `{GoSort}.
Context (mapf : mapFun) (reducef : reduceFun) (files : list string) (n : Z) (fs0 : FS).

(** The reduce function does not depend on the order of the values. *)
Definition order_free : Prop := forall key vs vs', vs ≡ₚ vs' -> reducef key vs = reducef key vs'.

Context (Hfree : order_free).

Lemma line_perm l l' key : values_of key l ≡ₚ values_of key l' -> line reducef l key = line reducef l' key.
Proof using Hfree. intros E. unfold line. by rewrite (Hfree _ _ _ E). Qed.

Lemma values_of_bucket p key l :
  Z.rem (ihash key) n = p -> values_of key (bucket n p l) = values_of key l.
Proof.
  intros E. unfold values_of, bucket. f_equal. induction l as [|kv l IH]; [done|].
  rewrite !filter_cons. destruct (decide (Key kv = key)) as [Ek|Ek].
  - rewrite decide_True by (by rewrite Ek). rewrite filter_cons, decide_True by done. by f_equal.
  - case_decide; [|done]. by rewrite filter_cons, decide_False.
Qed.

(** The keys of partition [p], with the lines of the reduce task. *)
Lemma partition_lines p l :
  exists ks, NoDup ks /\ (forall k, k ∈ ks <-> k ∈ Key <$> l /\ Z.rem (ihash k) n = p) /\
    reduceLines reducef (go_sort (bucket n p l)) = Ok (line reducef (go_sort l) <$> ks).
Proof using Hfree.
  destruct (reduceLines_spec reducef (bucket n p l)) as (ks & Hnd & Hks & E).
  assert (forall k, k ∈ ks <-> k ∈ Key <$> l /\ Z.rem (ihash k) n = p) as Hks'.
  { intros k. rewrite Hks, !list_elem_of_fmap. unfold bucket.
    setoid_rewrite list_elem_of_filter. naive_solver. }
  exists ks. split_and!; [done|done|]. rewrite E. f_equal.
  apply list_fmap_ext. intros i k Hk%list_elem_of_lookup_2. apply Hks' in Hk as [_ Hp].
  apply line_perm. rewrite (values_of_perm k _ _ (go_sort_perm (bucket n p l))).
  by rewrite values_of_bucket, (values_of_perm k _ _ (go_sort_perm l)).
Qed.

(** All partitions together have every key once. *)
Lemma partitions_lines l ps :
  NoDup ps ->
  exists kss, NoDup (concat kss) /\
    (forall k, k ∈ concat kss <-> k ∈ Key <$> l /\ Z.rem (ihash k) n ∈ ps) /\
    Forall2 (fun p ks => reduceLines reducef (go_sort (bucket n p l))
      = Ok (line reducef (go_sort l) <$> ks)) ps kss.
Proof using Hfree.
  induction 1 as [|p ps Hp _ (kss & Hnd & Hks & Hall)].
  { exists []. split_and!; [constructor| |constructor]. simpl. set_solver. }
  destruct (partition_lines p l) as (ks & Hnd' & Hks' & E).
  exists (ks :: kss). split_and!; [| |by constructor].
  - simpl. apply NoDup_app. split_and!; try done. intros k Hk Hk'.
    apply Hks' in Hk as [_ Hk]. apply Hks in Hk' as [_ Hk']. congruence.
  - intros k. simpl. rewrite elem_of_app, Hks, Hks', elem_of_cons. naive_solver.
Qed.

Lemma concat_fmap_fmap {A B} (f : A -> B) (ls : list (list A)) : 
  concat ((fmap f : list A -> list B) <$> ls) = f <$> (concat ls : list A).
Proof. induction ls as [|l ls IH]; [done|]. simpl. by rewrite fmap_app, <- IH. Qed.

Lemma mapAll_spec fs fls :
  Forall (fun name => is_Some (fs !! name)) fls ->
  mapAll mapf fs fls = Ok (concat ((fun name => mapf name (content_of fs name)) <$> fls)).
Proof.
  induction 1 as [|name fls [c Hc] _ IH]; [done|]. cbn [mapAll]. unfold readFile.
  rewrite Hc. go_run. rewrite IH. go_run. simpl. unfold content_of. by rewrite Hc.
Qed.

(** The lines of the sequential program, one per key, are those of all
    reduce tasks. *)
Lemma sequential_lines :
  runnable mapf files n fs0 ->
  exists ks outs, NoDup ks /\ (forall k, k ∈ ks <-> k ∈ Key <$> all_pairs mapf files fs0) /\
    sequential mapf reducef fs0 files = Ok (<[outName 0 :=
      concat_str (line reducef (go_sort (all_pairs mapf files fs0)) <$> ks)]> fs0) /\
    Forall2 (fun p out => lines_of mapf reducef files n fs0 p = Ok out) (seqZ 0 n) outs /\
    concat outs ≡ₚ line reducef (go_sort (all_pairs mapf files fs0)) <$> ks.
Proof using Hfree.
  intros Hrun. unfold sequential. rewrite mapAll_spec by apply Hrun.
  fold (all_pairs mapf files fs0). set (l := all_pairs mapf files fs0). go_run.
  destruct (reduceLines_spec reducef l) as (ks & Hnd & Hks & E). rewrite E. go_run.
  destruct (partitions_lines l (seqZ 0 n) (NoDup_seqZ 0 n)) as (kss & Hnd' & Hks' & Hall).
  exists ks, ((fmap (line reducef (go_sort l)) : list string -> list string) <$> kss).
  split_and!; [done|done|done| |].
  - unfold lines_of. fold l. apply Forall2_fmap_r. apply (Forall2_impl _ _ _ _ Hall). done.
  - rewrite concat_fmap_fmap. apply fmap_Permutation, NoDup_Permutation; [done|done|].
    intros k. rewrite Hks, Hks', elem_of_seqZ.
    pose proof (proj2 (partition_Ok n k (ru_n _ _ _ _ Hrun))). naive_solver lia.
Qed.

Lemma done_reduces j :
  runnable mapf files n fs0 -> job_inv mapf reducef files n fs0 j -> Done (co j) = true ->
  forall p, 0 <= p < n -> reduce_done mapf reducef files n fs0 (dir j) p.
Proof.
  intros Hrun [] Hd p Hp. apply Z.eqb_eq, (reduces_left_0 _ _ _ ji_co) in Hd.
  destruct (known_exists files n (co j) p "reduce" ji_co) as [t Hk]; [by right|].
  assert (status t = "completed"%string) as Hs.
  { destruct Hk as [(? & _)|(_ & _ & Ht)]; [done|]. exact (Forall_lookup_1 _ _ _ _ Hd Ht). }
  exact (ji_done _ _ _ Hk Hs).
Qed.

(** A finished job has the output files of all reduce tasks. *)
Lemma inv_outputs j outs :
  runnable mapf files n fs0 -> job_inv mapf reducef files n fs0 j -> Done (co j) = true ->
  Forall2 (fun p out => lines_of mapf reducef files n fs0 p = Ok out) (seqZ 0 n) outs ->
  len outs = n /\
  (forall p out, outs !! p = Some out -> dir j !! outName (Z.of_nat p) = Some (concat_str out)).
Proof.
  intros Hrun Hj Hd Hall. pose proof (ru_n _ _ _ _ Hrun). split.
  - unfold len. rewrite <- (Forall2_length _ _ _ Hall), length_seqZ. lia.
  - intros p out Hout. destruct (Forall2_lookup_r _ _ _ _ _ Hall Hout) as (q & Hq & El).
    apply lookup_seqZ in Hq as [-> Hq].
    destruct (done_reduces j Hrun Hj Hd (0 + Z.of_nat p)) as (out' & El' & Ef); [lia|].
    rewrite El in El'. injection El' as <-. by rewrite Z.add_0_l in Ef.
Qed.

(** One line per key of the input, over all output files. *)
Lemma job_lines j :
  runnable mapf files n fs0 -> job_inv mapf reducef files n fs0 j -> Done (co j) = true ->
  exists ks outs, NoDup ks /\ (forall k, k ∈ ks <-> k ∈ Key <$> all_pairs mapf files fs0) /\
    len outs = n /\
    (forall p out, outs !! p = Some out -> dir j !! outName (Z.of_nat p) = Some (concat_str out)) /\
    concat outs ≡ₚ
      (fun k => outputLine k (reducef k (values_of k (all_pairs mapf files fs0)))) <$> ks.
Proof using Hfree.
  intros Hrun Hj Hd. destruct (sequential_lines Hrun) as (ks & outs & Hnd & Hks & _ & Hall & Hp).
  destruct (inv_outputs j outs Hrun Hj Hd Hall) as [Hlen Hout].
  exists ks, outs. split_and!; try done. rewrite Hp. apply reflexive_eq, list_fmap_ext. intros i k _.
  unfold line. f_equal. exact (Hfree k _ _ (values_of_perm k _ _ (go_sort_perm _))).
Qed.
End output.

(** Sums do not depend on the order. *)
Lemma Credit_order_free : order_free Credit.Reduce.
Proof.
  intros key vs vs' E. rewrite !Credit_Reduce_sum. f_equal. f_equal.
  induction E; simpl; lia.
Qed.

(** ** The properties *)

Section theorems.
Context `{JsonStream} `{GoSort}.
Context (mapf : mapFun) (reducef : reduceFun) (files : list string) (n : Z) (fs0 : FS).

Lemma job_run_reach ls j j' :
  job_reach mapf reducef files n fs0 j -> job_run mapf reducef ls j = Some (Ok j') ->
  job_reach mapf reducef files n fs0 j'.
Proof.
  revert j. induction ls as [|l ls IH]; intros j Hj HR; simpl in HR; [by injection HR as <-|].
  apply bind_Some in HR as (r & Hst & HR). destruct r as [j1|]; [|done].
  apply (IH j1); [by eapply job_reach_step|done].
Qed.

(** No panic.  In every reachable state of a job, whatever happens next
    (a request, a task run, even one whose task was given to another worker
    as well, a report, a timer, a crash), no index is out of range and no
    file a worker opens is missing: reduce tasks find all intermediate files
    because they are handed out only after every map task. *)
Theorem job_never_panics j l e :
  runnable mapf files n fs0 -> job_reach mapf reducef files n fs0 j ->
  job_step mapf reducef l j <> Some (Panic e).
Proof.
  intros Hrun Hj Hst. apply job_reach_inv in Hj; [|done].
  by destruct (job_step_inv _ _ _ _ _ Hrun _ _ _ Hj Hst) as (? & ? & _).
Qed.


(** Completed tasks.  Once a task is completed nothing undoes it: late
    reports and timers of other attempts leave it and the counters alone,
    and the counters equal the numbers of tasks not completed. *)
Theorem completed_forever j l j' idx ty t :
  runnable mapf files n fs0 -> job_reach mapf reducef files n fs0 j ->
  job_step mapf reducef l j = Some (Ok j') ->
  known (co j) idx ty t -> status t = "completed"%string ->
  known (co j') idx ty t /\ task_done mapf reducef files n fs0 (dir j') idx ty /\
  mapsLeft (co j') = unfinished (mapTasks (co j')) /\
  reducesLeft (co j') = unfinished (reduceTasks (co j')).
Proof.
  intros Hrun Hj Hst Hk Hs. apply job_reach_inv in Hj; [|done].
  destruct (job_step_inv _ _ _ _ _ Hrun _ _ _ Hj Hst) as (j2 & [= <-] & Hi').
  assert (known (co j') idx ty t) as Hk'.
  { eapply completed_step; [exact Hj|exact Hst|exact Hk|exact Hs]. }
  split_and!; [done|by eapply (ji_done _ _ _ _ _ _ Hi')| |]; apply Hi'.
Qed.
End theorems.

(** The first unstarted task of a table. *)
Definition first_unstarted (tasks : list Task) (i : nat) (t : Task) : Prop :=
  tasks !! i = Some t /\ status t = "unstarted"%string /\
  forall j t', (j < i)%nat -> tasks !! j = Some t' -> status t' <> "unstarted"%string.

(** Nothing to hand out: some task is in progress, none is unstarted. *)
Definition all_taken (tasks : list Task) : Prop :=
  Forall (fun t => status t <> "unstarted"%string) tasks /\
  Exists (fun t => status t = "in progress"%string) tasks.

Lemma taken_in_progress files tasks left :
  wf_tasks files tasks left -> left <> 0 ->
  Forall (fun t => status t <> "unstarted"%string) tasks -> all_taken tasks.
Proof.
  intros [_ _ Hst Hl] Hne Hu. split; [done|].
  destruct (decide (Exists (fun t => status t = "in progress"%string) tasks)) as [|Hn]; [done|].
  apply not_Exists_Forall in Hn; [|intros ?; apply _]. exfalso. apply Hne. rewrite Hl.
  apply unfinished_0. apply Forall_forall. intros t Ht.
  rewrite Forall_forall in Hst. rewrite Forall_forall in Hu. rewrite Forall_forall in Hn.
  specialize (Hst t Ht). specialize (Hu t Ht). specialize (Hn t Ht). simpl in *. set_solver.
Qed.

(** Scheduling.  On a well-formed coordinator (kept by every call)
    [GetTask] answers one of four ways: the first unstarted map task with its
    input file; the first unstarted reduce task, but only once every map task
    is completed; wait, when all tasks of the current phase are taken and
    some is still in progress; or done, exactly when all tasks are completed.
    A handed-out task becomes in progress and gets a timer, nothing else
    changes. *)
Theorem get_task_schedules files n c c' r ts :
  wf_coordinator files n c -> GetTask c = (c', r, ts) ->
  wf_coordinator files n c' /\
  ((exists i t, first_unstarted (mapTasks c) i t /\ ~ all_completed (mapTasks c) /\
      files !! i = Some (FileName r) /\
      r = mkGetTaskReply (FileName r) "map" n (Z.of_nat i) 0 false /\
      ts = [(Z.of_nat i, "map"%string)] /\
      c' = with_status c (Z.of_nat i) "map" t "in progress" 0) \/
   (exists i t, first_unstarted (reduceTasks c) i t /\ all_completed (mapTasks c) /\
      0 <= Z.of_nat i < n /\
      r = mkGetTaskReply "" "reduce" 0 (Z.of_nat i) (len files) false /\
      ts = [(Z.of_nat i, "reduce"%string)] /\
      c' = with_status c (Z.of_nat i) "reduce" t "in progress" 0) \/
   (c' = c /\ ts = [] /\ r = emptyReply /\
      (all_taken (mapTasks c) \/ all_completed (mapTasks c) /\ all_taken (reduceTasks c))) \/
   (c' = c /\ ts = [] /\ r = mkGetTaskReply "" "" 0 0 0 true /\
      all_completed (mapTasks c) /\ all_completed (reduceTasks c))).
Proof.
  intros Hw HG. split; [by eapply wf_GetTask|]. apply GetTask_outcome in HG.
  pose proof (maps_left_0 _ _ _ Hw) as Hm0. pose proof (reduces_left_0 _ _ _ Hw) as Hr0.
  pose proof Hw as [Hm Hr Hn _].
  assert (len (mapTasks c) = len files) as Elen.
  { unfold len. by rewrite <- (wt_files _ _ _ Hm), length_fmap. }
  destruct HG as [i t Hl Hi Hs Hf|i t Hl Hl' Hi Hs Hf|Hl Hl'|[[Hl Hu]|(Hl & Hl' & Hu)]].
  - left. exists i, t. destruct (wf_tasks_num _ _ _ _ _ Hm Hi) as [En _]. simpl. rewrite En, Hn.
    split_and!; try done; [by rewrite <- Hm0| |].
    + by rewrite <- (wt_files _ _ _ Hm), list_lookup_fmap, Hi.
    + unfold with_status. simpl. by rewrite Nat2Z.id, Z.sub_0_r, Hn.
  - right; left. exists i, t. destruct (wf_tasks_num _ _ _ _ _ Hr Hi) as [En Hlt].
    rewrite En, Elen.
    rewrite <- (length_fmap filename), (wt_files _ _ _ Hr), length_replicate in Hlt.
    split_and!; try done; [by apply Hm0|lia|lia|].
    unfold with_status. simpl. by rewrite Nat2Z.id, Z.sub_0_r.
  - do 3 right. split_and!; try done; [by apply Hm0|by apply Hr0].
  - do 2 right. left. split_and!; try done. left. by eapply taken_in_progress.
  - do 2 right. left. split_and!; try done. right.
    split; [by apply Hm0|by eapply taken_in_progress].
Qed.

(** ** The applications *)

(** The applications' reduce functions do not depend on the order in
    which the values of a key arrive, so [interleaved_job_matches_sequential] applies to
    them: credit.go adds modulo 2^64, nocrash.go sorts first, wc.go and
    early_exit.go only count. *)
Theorem reduces_order_free :
  order_free Credit.Reduce /\ order_free NoCrash.Reduce /\
  order_free EarlyExit.Reduce /\ order_free WC.Reduce.
Proof.
  split_and!; intros key vs vs' E.
  - by apply Credit_order_free.
  - unfold NoCrash.Reduce. by rewrite (sort_strings_perm _ _ E).
  - unfold EarlyExit.Reduce, len. by rewrite (Permutation_length E).
  - unfold WC.Reduce, len. by rewrite (Permutation_length E).
Qed.

Section credit.
Context `{JsonStream} `{GoSort}.
Context (files : list string) (n : Z) (fs0 : FS).

(** The agency of a row that counts: at least four columns, the year 2023
    and a score above 400. *)
Definition row_agency (row : string) : option string :=
  match Split "," row with
  | _ :: agency :: year :: score :: _ =>
    if bool_decide (year = "2023"%string) && (400 <? Atoi (TrimSpace score)) then Some agency
    else None
  | _ => None
  end.

(** The rows of a file, without its first line. *)
Definition rows (name : string) : list string :=
  tail (Split (ascii_of_nat 10) (content_of fs0 name)).

Definition row_count (agency : string) : Z :=
  len (filter (fun row => row_agency row = Some agency) (concat (rows <$> files))).

Lemma mapLine_row row :
  Credit.mapLine row = match row_agency row with Some a => [mkKeyValue a "1"] | None => [] end.
Proof.
  unfold Credit.mapLine, row_agency.
  destruct (Split "," row) as [|w0 [|a [|y [|s rest]]]]; try done. cbn [lookup list_lookup default].
  assert ((len (w0 :: a :: y :: s :: rest) <? 4) = false) as ->
    by (apply Z.ltb_ge; unfold len; simpl; lia).
  simpl. destruct (bool_decide (y = "2023"%string)); simpl; [|done].
  destruct (Z.leb_spec (Atoi (TrimSpace s)) 400), (Z.ltb_spec 400 (Atoi (TrimSpace s))); (done || lia).
Qed.

Lemma values_of_rows agency rs :
  values_of agency (concat (Credit.mapLine <$> rs)) =
  replicate (length (filter (fun row => row_agency row = Some agency) rs)) "1"%string.
Proof.
  induction rs as [|row rs IH]; [done|]. rewrite fmap_cons. simpl concat.
  rewrite values_of_app, IH, mapLine_row, filter_cons. unfold values_of at 1.
  destruct (row_agency row) as [a|]; [|by rewrite decide_False].
  rewrite filter_cons. simpl. destruct (decide (a = agency)) as [->|Hne].
  - by rewrite (decide_True (P := Some agency = Some agency)) by done.
  - rewrite (decide_False (P := Some a = Some agency)) by congruence. done.
Qed.

Lemma values_of_pairs agency :
  values_of agency (all_pairs Credit.Map files fs0) = replicate (Z.to_nat (row_count agency)) "1"%string.
Proof.
  unfold row_count, len. rewrite Nat2Z.id. unfold all_pairs, rows.
  induction files as [|name fls IH]; [done|]. rewrite !fmap_cons. simpl concat.
  rewrite values_of_app, IH, filter_app, length_app, replicate_add. f_equal.
  unfold Credit.Map. rewrite values_of_rows.
  by destruct (Split (ascii_of_nat 10) (content_of fs0 name)).
Qed.

Lemma key_counted agency : agency ∈ Key <$> all_pairs Credit.Map files fs0 <-> 0 < row_count agency.
Proof.
  pose proof (values_of_pairs agency) as E.
  assert (0 <= row_count agency) by apply len_nonneg. split.
  - intros (kv & -> & Hin)%list_elem_of_fmap_1.
    destruct (decide (0 < row_count (Key kv))); [done|].
    replace (Z.to_nat (row_count (Key kv))) with 0%nat in E by lia.
    assert (Value kv ∈ values_of (Key kv) (all_pairs Credit.Map files fs0)) as Hv.
    { apply list_elem_of_fmap_2, list_elem_of_filter. done. }
    rewrite E in Hv. by apply elem_of_nil in Hv.
  - intros Hpos. destruct (Z.to_nat (row_count agency)) as [|m] eqn:Em; [lia|].
    assert ("1"%string ∈ values_of agency (all_pairs Credit.Map files fs0)) as Hv
      by (rewrite E; left).
    apply list_elem_of_fmap_1 in Hv as (kv & _ & [<- Hin]%list_elem_of_filter).
    by apply list_elem_of_fmap_2.
Qed.

Lemma reduce_ones agency m :
  Z.of_nat m < 2 ^ 63 -> Credit.Reduce agency (replicate m "1"%string) = pretty (Z.of_nat m).
Proof.
  intros Hm. rewrite Credit_Reduce_sum. f_equal.
  replace (foldr _ 0 (replicate m "1"%string)) with (Z.of_nat m).
  - apply wrap64_id. unfold in_int64. lia.
  - clear Hm. induction m as [|m IH]; [done|]. cbn [replicate foldr]. rewrite <- IH.
    change (Atoi "1") with 1. lia.
Qed.

(** Credit reports.  A finished credit job of MRJob has written, over all its
    output files, one line per agency that has a row of the year 2023 with a
    score above 400, each with the number of such rows in all input files
    (their first lines left out), in decimal; and no other line. *)
Theorem credit_job_counts j :
  runnable Credit.Map files n fs0 -> job_reach Credit.Map Credit.Reduce files n fs0 j ->
  Done (co j) = true -> (forall agency, row_count agency < 2 ^ 63) ->
  exists agencies outs, NoDup agencies /\
    (forall agency, agency ∈ agencies <-> 0 < row_count agency) /\
    len outs = n /\
    (forall p out, outs !! p = Some out -> dir j !! outName (Z.of_nat p) = Some (concat_str out)) /\
    concat outs ≡ₚ (fun agency => outputLine agency (pretty (row_count agency))) <$> agencies.
Proof.
  intros Hrun Hj Hd Hmax.
  destruct (job_lines _ _ files n fs0 Credit_order_free j Hrun (job_reach_inv _ _ _ _ _ Hrun _ Hj) Hd) as (ks & outs & Hnd & Hks & Hlen & Hout & Hp).
  exists ks, outs. split_and!; [done| |done|done|].
  - intros agency. by rewrite Hks, key_counted.
  - rewrite Hp. apply reflexive_eq, list_fmap_ext. intros i k _. f_equal.
    rewrite values_of_pairs, reduce_ones; rewrite Z2Nat.id; try done; apply len_nonneg.
Qed.
End credit.

(** ** A concrete job *)

(** The map function emits the file's name and a common key; the reduce
    function counts. *)
Definition demo_map : mapFun := fun name content =>
  [mkKeyValue name "1"; mkKeyValue "all" content].
Definition demo_reduce : reduceFun := fun key values => pretty (len values).
Definition demo_files : list string := ["x"; "y"]%string.
Definition demo_fs : FS := {["x"%string := "1"%string; "y"%string := "2"%string]}.

#[local] Existing Instance merge_go_sort.

Lemma demo_runnable : runnable demo_map demo_files 2 demo_fs.
Proof.
  constructor; [lia| | | |].
  - repeat constructor; eexists; reflexivity.
  - intros name i p Hin _. unfold interName. simpl.
    apply elem_of_cons in Hin as [->|Hin%list_elem_of_singleton]; [|subst]; discriminate.
  - intros name p Hin. unfold outName. simpl.
    apply elem_of_cons in Hin as [->|Hin%list_elem_of_singleton]; [|subst]; discriminate.
  - vm_compute. repeat constructor.
Qed.

Lemma demo_order_free : order_free demo_reduce.
Proof. intros key vs vs' E. unfold demo_reduce, len. by rewrite (Permutation_length E). Qed.

(** A worker dies with the first task, its timer fires, and two workers
    finish the job. *)
Definition demo_labels : list job_label :=
  [JGet; JDie 0; JTimer 0; JGet; JGet; JRun 0; JReport 0; JRun 0; JReport 0;
   JGet; JGet; JRun 1; JReport 0; JRun 0; JReport 0].

Definition demo_job : Job :=
  match job_run demo_map demo_reduce demo_labels (job_init demo_files 2 demo_fs) with
  | Some (Ok j) => j
  | _ => job_init demo_files 2 demo_fs
  end.

Lemma demo_job_reach : job_reach demo_map demo_reduce demo_files 2 demo_fs demo_job.
Proof.
  unfold demo_job. destruct (job_run _ _ _ _) as [[j|]|] eqn:E; try apply job_reach_init.
  eapply job_run_reach; [apply job_reach_init|exact E].
Qed.

Lemma job_never_panics_witness :
  job_step demo_map demo_reduce JGet demo_job <> Some (Panic NilDereference).
Proof. apply (job_never_panics _ _ demo_files 2 demo_fs); [apply demo_runnable|apply demo_job_reach]. Defined.


Lemma completed_forever_witness :
  exists j', job_step demo_map demo_reduce (JTimer 0) demo_job = Some (Ok j') /\
  known (co j') 0 "map" (mkTask 0 "completed" "x") /\
  task_done demo_map demo_reduce demo_files 2 demo_fs (dir j') 0 "map" /\
  mapsLeft (co j') = unfinished (mapTasks (co j')) /\
  reducesLeft (co j') = unfinished (reduceTasks (co j')).
Proof.
  destruct (job_step demo_map demo_reduce (JTimer 0) demo_job) as [[j'|]|] eqn:E;
    [|vm_compute in E; discriminate..].
  exists j'. split; [reflexivity|].
  apply (completed_forever demo_map demo_reduce demo_files 2 demo_fs demo_job (JTimer 0));
    [apply demo_runnable|apply demo_job_reach|exact E| |reflexivity].
  left. split; [reflexivity|]. split; [lia|]. vm_compute. reflexivity.
Defined.

Lemma get_task_schedules_witness :
  let c := MakeCoordinator ["x"; "y"]%string 2 in
  wf_coordinator ["x"; "y"]%string 2 (GetTask c).1.1.
Proof.
  simpl. eapply (get_task_schedules ["x"; "y"]%string 2 (MakeCoordinator ["x"; "y"]%string 2));
    [apply wf_MakeCoordinator; lia|reflexivity].
Defined.

(** Two files of credit rows, and a run of the job on them. *)
Definition credit_fs : FS :=
  {["d1"%string := "id,agency,year,score" +:+ newline +:+ "1,Equifax,2023,700" +:+ newline +:+
       "2,TransUnion,2022,800" +:+ newline;
    "d2"%string := "id,agency,year,score" +:+ newline +:+ "3,Equifax,2023, 401" +:+ newline +:+
       "4,TransUnion,2023,400" +:+ newline]}.

Definition credit_job : Job :=
  match job_run Credit.Map Credit.Reduce demo_labels (job_init ["d1"; "d2"]%string 2 credit_fs) with
  | Some (Ok j) => j
  | _ => job_init ["d1"; "d2"]%string 2 credit_fs
  end.

Lemma credit_runnable : runnable Credit.Map ["d1"; "d2"]%string 2 credit_fs.
Proof.
  constructor; [lia| | | |].
  - repeat constructor; eexists; reflexivity.
  - intros name i p Hin _. unfold interName. simpl.
    apply elem_of_cons in Hin as [->|Hin%list_elem_of_singleton]; [|subst]; discriminate.
  - intros name p Hin. unfold outName. simpl.
    apply elem_of_cons in Hin as [->|Hin%list_elem_of_singleton]; [|subst]; discriminate.
  - vm_compute. repeat constructor.
Qed.

Lemma credit_job_reach : job_reach Credit.Map Credit.Reduce ["d1"; "d2"]%string 2 credit_fs credit_job.
Proof.
  unfold credit_job. destruct (job_run _ _ _ _) as [[j|]|] eqn:E; try apply job_reach_init.
  eapply job_run_reach; [apply job_reach_init|exact E].
Qed.

Lemma len_filter_le {A} (P : A -> Prop) `{!forall x, Decision (P x)} (l : list A) :
  len (filter P l) <= len l.
Proof. unfold len. pose proof (length_filter P l). lia. Qed.

Lemma credit_job_counts_witness :
  row_count ["d1"; "d2"]%string credit_fs "Equifax" = 2 /\
  exists agencies outs, NoDup agencies /\
    (forall agency, agency ∈ agencies <-> 0 < row_count ["d1"; "d2"]%string credit_fs agency) /\
    len outs = 2 /\
    (forall p out, outs !! p = Some out ->
       dir credit_job !! outName (Z.of_nat p) = Some (concat_str out)) /\
    concat outs ≡ₚ (fun agency => outputLine agency
      (pretty (row_count ["d1"; "d2"]%string credit_fs agency))) <$> agencies.
Proof.
  split; [vm_compute; reflexivity|].
  apply credit_job_counts;
    [apply credit_runnable|apply credit_job_reach|vm_compute; reflexivity|].
  intros agency. unfold row_count. eapply Z.le_lt_trans; [apply len_filter_le|].
  vm_compute. reflexivity.
Defined.
