(* ===== verification/MRTiming.v ===== *)
(** * mr-main/mrapps/mtiming.go and rtiming.go

    Applications that count the workers executing tasks of a phase at the
    same time: each announces itself with a file named after its pid, lists
    the directory and asks the kernel which of the announced processes are
    alive. *)

From Stdlib Require Import ZArith Lia Ascii.
From stdpp Require Import base numbers strings pretty gmap list.
From S2P Require Import Prelude MRWorker MRApps MRFiles MRSystem.
Local Open Scope Z_scope.

(** ** fmt.Sscanf(name, "mr-worker-<phase>-%d", &xpid)

    The literal text has to match; [%d] skips spaces (a new line is no
    space), takes a sign and as many digits as there are, at least one, and
    fails when they are out of the range of an int.  What follows is not
    looked at. *)

Definition skip_space (s : string) : string :=
  let bytes := nat_of_ascii <$> String.list_ascii_of_string s in
  let runes := filter (fun rune => rune <> [10%nat]) spaces in
  String.string_of_list_ascii (ascii_of_nat <$> trim_front runes (length bytes) bytes).

Fixpoint leading_digits (s : string) : string :=
  match s with
  | String c s => if is_digit c then String c (leading_digits s) else EmptyString
  | EmptyString => EmptyString
  end.

Definition scan_int (s : string) : option Z :=
  match skip_space s with
  | String c rest =>
    if Ascii.eqb c "-" then
      un ← parse_unsigned (leading_digits rest); if un <=? 2 ^ 63 then Some (- un) else None
    else
      un ← parse_unsigned (leading_digits (if Ascii.eqb c "+" then rest else String c rest));
      if un <? 2 ^ 63 then Some un else None
  | EmptyString => None
  end.

Definition Sscanf_pid (phase name : string) : option Z :=
  rest ← strip ("mr-worker-" +:+ phase +:+ "-") name; scan_int rest.

(** [fmt.Sprintf("mr-worker-%s-%d", phase, pid)] *)
Definition myfilename (phase : string) (pid : Z) : string :=
  "mr-worker-" +:+ phase +:+ "-" +:+ pretty pid.

(** ** mtiming.go *)

Module MTiming.
(** The loop over the names. *)
Fixpoint countLive (phase : string) (names : list string) (ret : Z) (k : Z -> prog) : prog :=
  match names with
  | [] => k ret
  | name :: names =>
    match Sscanf_pid phase name with
    | Some xpid => SendSignal0 xpid (fun alive =>
                     countLive phase names (if alive then ret + 1 else ret) k)
    | None => countLive phase names ret k
    end
  end.

Definition nparallel (phase : string) (k : Z -> prog) : prog :=
  Getpid (fun pid =>
  WriteFile (myfilename phase pid) "x" (fun ok =>
  if negb ok then Exit else
  OpenDir (fun ok =>
  if negb ok then Exit else
  Readdirnames (Some 1000000) (fun names =>
  match names with
  | None => Exit
  | Some names =>
    countLive phase names 0 (fun ret =>
    Sleep (
    Remove (myfilename phase pid) (fun ok =>
    if negb ok then Exit else k ret)))
  end)))).

(** [ts] is the time of the call as [%.1f] prints it. *)
Definition Map (ts filename contents : string) : prog :=
  Getpid (fun pid =>
  nparallel "map" (fun n =>
  Return (Pairs [mkKeyValue ("times-" +:+ pretty pid) ts;
                 mkKeyValue ("parallel-" +:+ pretty pid) (pretty n)]))).

Definition Reduce (key : string) (values : list string) : string := Join " " (sort_strings values).
End MTiming.

(** ** rtiming.go *)

Module RTiming.
Fixpoint countLive (phase : string) (names : list string) (ret : Z) (k : Z -> prog) : prog :=
  match names with
  | [] => k ret
  | name :: names =>
    match Sscanf_pid phase name with
    | Some xpid => SendSignal0 xpid (fun alive =>
                     countLive phase names (if alive then ret + 1 else ret) k)
    | None => countLive phase names ret k
    end
  end.

Definition nparallel (phase : string) (k : Z -> prog) : prog :=
  Getpid (fun pid =>
  WriteFile (myfilename phase pid) "x" (fun ok =>
  if negb ok then Exit else
  OpenDir (fun ok =>
  if negb ok then Exit else
  Readdirnames (Some 1000000) (fun names =>
  match names with
  | None => Exit
  | Some names =>
    countLive phase names 0 (fun ret =>
    Sleep (
    Remove (myfilename phase pid) (fun ok =>
    if negb ok then Exit else k ret)))
  end)))).

Definition Map (filename contents : string) : list KeyValue :=
  (fun key => mkKeyValue key "1") <$>
  ["a"; "b"; "c"; "d"; "e"; "f"; "g"; "h"; "i"; "j"]%string.

Definition Reduce (key : string) (values : list string) : prog :=
  nparallel "reduce" (fun n => Return (Line (pretty n))).
End RTiming.

(** The two plugins have the same function. *)
Lemma nparallel_same : RTiming.nparallel = MTiming.nparallel.
Proof. reflexivity. Qed.

(** ** Decimal numbers are read back *)

Fixpoint digits_val (n : Z) (s : string) : Z :=
  match s with
  | EmptyString => n
  | String c s => digits_val (n * 10 + (Z.of_nat (nat_of_ascii c) - 48)) s
  end.

Lemma is_digit_range c : is_digit c = true -> 48 <= Z.of_nat (nat_of_ascii c) <= 57.
Proof. unfold is_digit. intros [H1%Nat.leb_le H2%Nat.leb_le]%andb_true_iff. lia. Qed.

Lemma digits_val_le n s : 0 <= n -> all_digits s = true -> n <= digits_val n s.
Proof.
  revert n. induction s as [|c s IH]; intros n Hn; simpl; [lia|].
  intros [Hc%is_digit_range Hs]%andb_true_iff.
  etrans; [|apply IH; [lia|done]]. lia.
Qed.

Lemma parse_digits_val n s :
  0 <= n -> all_digits s = true -> digits_val n s < 2 ^ 63 -> parse_digits n s = Some (digits_val n s).
Proof.
  revert n. induction s as [|c s IH]; intros n Hn; cbn [parse_digits digits_val all_digits]; [done|].
  intros [Hc%is_digit_range Hs]%andb_true_iff Hb.
  set (d := Z.of_nat (nat_of_ascii c) - 48) in *.
  assert (0 <= d <= 9) as Hd by lia.
  pose proof (digits_val_le (n * 10 + d) s ltac:(lia) Hs) as Hle.
  rewrite (proj2 (Z.leb_le 0 d)), (proj2 (Z.leb_le d 9)) by lia. cbn [andb].
  change ((2 ^ 64 - 1) / 10 + 1) with 1844674407370955162.
  rewrite (proj2 (Z.leb_gt _ n)), (proj2 (Z.ltb_ge _ _)) by lia.
  apply IH; [lia|done|done].
Qed.

Lemma pretty_N_char_val x : (x < 10)%N -> Z.of_nat (nat_of_ascii (pretty_N_char x)) - 48 = Z.of_N x.
Proof.
  intros Hx. assert (x = 0 \/ x = 1 \/ x = 2 \/ x = 3 \/ x = 4 \/ x = 5 \/ x = 6 \/ x = 7 \/ x = 8 \/ x = 9)%N
    as H by lia.
  by repeat destruct H as [->|H]; [..|rewrite H].
Qed.

Lemma digits_val_go x s : digits_val 0 (pretty_N_go x s) = digits_val (Z.of_N x) s.
Proof.
  revert s. induction (N.lt_wf_0 x) as [x _ IH]; intros s.
  assert (x = 0 \/ 0 < x)%N as [->|Hx] by lia; [by rewrite pretty_N_go_0|].
  rewrite pretty_N_go_step, IH by (try apply N.div_lt; lia). simpl.
  rewrite pretty_N_char_val by (apply N.mod_lt; lia). f_equal.
  rewrite N2Z.inj_div, N2Z.inj_mod. pose proof (Z.div_mod (Z.of_N x) 10). lia.
Qed.

Lemma digits_val_pretty q : 0 < q -> digits_val 0 (pretty q) = q.
Proof.
  intros Hq. destruct q as [|p|p]; [lia| |lia].
  change (pretty (Z.pos p)) with (pretty (N.pos p)). unfold pretty, pretty_N.
  case_decide; [done|]. by rewrite digits_val_go.
Qed.

Lemma leading_digits_all s : all_digits s = true -> leading_digits s = s.
Proof.
  induction s as [|c s IH]; simpl; [done|]. intros [-> Hs]%andb_true_iff. by rewrite IH.
Qed.

Lemma strip_Some p s rest : strip p s = Some rest -> s = p +:+ rest.
Proof.
  revert s. induction p as [|a p IH]; intros [|b s]; simpl; try done; [by intros [= <-]..|].
  destruct (Ascii.eqb_spec a b) as [<-|]; [|done]. intros E%IH. by rewrite E.
Qed.

Lemma string_list_id s :
  String.string_of_list_ascii (ascii_of_nat <$> (nat_of_ascii <$> String.list_ascii_of_string s)) = s.
Proof.
  induction s as [|c s IH]; [done|]. cbn [String.list_ascii_of_string]. rewrite !fmap_cons.
  cbn [String.string_of_list_ascii]. by rewrite ascii_nat_embedding, IH.
Qed.

(** No space begins with a digit. *)
Lemma skip_space_digit c s : is_digit c = true -> skip_space (String c s) = String c s.
Proof.
  intros Hc. unfold skip_space. cbv zeta.
  set (runes := filter _ spaces). vm_compute in runes.
  set (bytes := nat_of_ascii <$> String.list_ascii_of_string (String c s)).
  replace (trim_front runes (length bytes) bytes) with bytes; [apply string_list_id|].
  subst bytes. cbn [String.list_ascii_of_string fmap list_fmap length trim_front].
  assert (first_some (fun p => strip_prefix p (nat_of_ascii c :: (nat_of_ascii <$> String.list_ascii_of_string s)))
    runes = None) as ->; [|done].
  apply is_digit_range in Hc. revert Hc. generalize (nat_of_ascii c). intros n Hn. subst runes.
  do 58 (destruct n as [|n]; [try lia; reflexivity|]). lia.
Qed.

Inductive phase := MapPhase | ReducePhase.

#[export] Instance phase_eq_dec : EqDecision phase.
Proof. solve_decision. Defined.

Definition phase_name (ph : phase) : string :=
  match ph with MapPhase => "map" | ReducePhase => "reduce" end.

(** The file with which [pid] announces itself. *)
Abbreviation mine ph pid := (myfilename (phase_name ph) pid).

Lemma scan_int_pretty q : 0 < q < 2 ^ 63 -> scan_int (pretty q) = Some q.
Proof.
  intros Hq. unfold scan_int. pose proof (pretty_digits q ltac:(lia)) as Hd.
  pose proof (digits_val_pretty q ltac:(lia)) as Hv.
  pose proof (parse_digits_val 0 (pretty q) ltac:(lia) Hd ltac:(lia)) as Hp. rewrite Hv in Hp.
  destruct (pretty q) as [|c s]; [simpl in Hv; lia|].
  pose proof Hd as [Hc _]%andb_true_iff. rewrite skip_space_digit by done.
  destruct (Ascii.eqb_spec c "-") as [->|_]; [done|].
  destruct (Ascii.eqb_spec c "+") as [->|_]; [done|].
  rewrite leading_digits_all by done. unfold parse_unsigned. rewrite Hp. simpl.
  by destruct (Z.ltb_spec q (2 ^ 63)); [|lia].
Qed.

Lemma Sscanf_mine ph ph' q :
  0 < q < 2 ^ 31 -> Sscanf_pid (phase_name ph) (mine ph' q) = if decide (ph = ph') then Some q else None.
Proof.
  intros Hq. unfold Sscanf_pid, myfilename. destruct ph, ph'; try reflexivity;
    (trans (scan_int (pretty q)); [reflexivity|apply scan_int_pretty; lia]).
Qed.

Definition announces (name : string) : Prop := is_Some (strip "mr-worker-" name).

Lemma Sscanf_announces ph name q : Sscanf_pid (phase_name ph) name = Some q -> announces name.
Proof.
  unfold Sscanf_pid. destruct (strip _ name) as [rest|] eqn:E; [|done]. intros _.
  apply strip_Some in E as ->. rewrite string_app_assoc. unfold announces. rewrite strip_app. by eexists.
Qed.

Lemma mine_inj ph q ph' q' :
  0 < q < 2 ^ 31 -> 0 < q' < 2 ^ 31 -> mine ph q = mine ph' q' -> ph = ph' /\ q = q'.
Proof.
  intros Hq Hq' E. pose proof (Sscanf_mine ph' ph q Hq) as H1. rewrite E, Sscanf_mine in H1 by done.
  rewrite decide_True in H1 by done. case_decide; [|done]. by simplify_eq.
Qed.

(** ** Where a task is *)

(** What the task returns when it counted [n]. *)
Definition report (ph : phase) (ts : string) (pid n : Z) : output :=
  match ph with
  | MapPhase => Pairs [mkKeyValue ("times-" +:+ pretty pid) ts;
                       mkKeyValue ("parallel-" +:+ pretty pid) (pretty n)]
  | ReducePhase => Line (pretty n)
  end.

(** The number in it. *)
Definition reported (r : output) : string :=
  match r with Pairs kva => default "" (Value <$> last kva) | Line s => s end.

Lemma report_inj ph ts pid n ph' ts' n' :
  report ph ts pid n = report ph' ts' pid n' -> ph = ph' /\ n = n'.
Proof.
  intros E. apply (f_equal reported) in E as E'.
  destruct ph, ph'; try discriminate E; (split; [reflexivity|exact (inj pretty _ _ E')]).
Qed.

Inductive timing_task : prog -> Prop :=
| TimingMap ts filename contents : timing_task (MTiming.Map ts filename contents)
| TimingReduce key values : timing_task (RTiming.Reduce key values).

Section stages.
Context (pid : Z) (ph : phase) (ts : string).

Definition removing (ret : Z) : prog :=
  Remove (mine ph pid) (fun ok => if negb ok then Exit else Return (report ph ts pid ret)).
Definition counting (names : list string) (ret : Z) : prog :=
  MTiming.countLive (phase_name ph) names ret (fun ret => Sleep (removing ret)).
Definition reading : prog :=
  Readdirnames (Some 1000000) (fun names =>
    match names with None => Exit | Some names => counting names 0 end).
Definition opening : prog := OpenDir (fun ok => if negb ok then Exit else reading).

Inductive at_task : prog -> Prop :=
| AtReturn r : at_task (Return r)
| AtMap filename contents : ph = MapPhase -> at_task (MTiming.Map ts filename contents)
| AtStart : at_task (MTiming.nparallel (phase_name ph) (fun n => Return (report ph ts pid n)))
| AtWrite : at_task (WriteFile (mine ph pid) "x" (fun ok => if negb ok then Exit else opening))
| AtOpen : at_task opening
| AtRead : at_task reading
| AtCount names ret : at_task (counting names ret)
| AtRemove ret : at_task (removing ret).

Lemma pending_counting names ret : pending (counting names ret) = Some (mine ph pid).
Proof.
  unfold counting. revert ret. induction names as [|name names IH]; intros ret; [done|].
  simpl. destruct (Sscanf_pid _ name); simpl; apply IH.
Qed.

Lemma pending_task m : at_task m -> pending m = None \/ pending m = Some (mine ph pid).
Proof.
  destruct 1; try (left; reflexivity); right; try reflexivity; apply pending_counting.
Qed.

(** One probe of the loop. *)
Lemma counting_cons name names ret :
  counting (name :: names) ret =
  match Sscanf_pid (phase_name ph) name with
  | Some xpid => SendSignal0 xpid (fun alive => counting names (if alive then ret + 1 else ret))
  | None => counting names ret
  end.
Proof. reflexivity. Qed.
End stages.

Lemma timing_task_at pid m : timing_task m -> exists ph ts, at_task pid ph ts m.
Proof.
  destruct 1 as [ts f c|key vs].
  - exists MapPhase, ts. by apply AtMap.
  - exists ReducePhase, ""%string. apply (AtStart pid ReducePhase "").
Qed.
