(* ===== verification/MRTimingTheorems.v ===== *)
(** * What mtiming.go and rtiming.go report

    Workers that run timing tasks in one directory: the files they announce
    themselves with are those of the live workers inside [nparallel] and of
    dead ones, so the number a task reports is the number of workers that
    were executing a task of its phase when it listed the directory, less
    those that died before it asked for them. *)

From Stdlib Require Import ZArith Lia Ascii.
From stdpp Require Import base numbers strings pretty gmap list.
From S2P Require Import Prelude MRWorker MRApps MRFiles MRSystem MRTiming.
Local Open Scope Z_scope.

(** ** One call of a task *)

(** What a call does to the directory and to the file the task will remove:
    nothing, the announcement, or its removal. *)
Inductive effect (pid : Z) (ph : phase) (m m' : prog) (fs fs' : FS) : Prop :=
| Quiet : fs' = fs -> pending m' = pending m -> effect pid ph m m' fs fs'
| Announce : pending m = None -> pending m' = Some (mine ph pid) ->
    fs' = <[mine ph pid := "x"%string]> fs -> effect pid ph m m' fs fs'
| Withdraw : pending m = Some (mine ph pid) -> pending m' = None ->
    fs' = delete (mine ph pid) fs -> effect pid ph m m' fs fs'.

Lemma exec_task w pid ph ts c m r fs' p' :
  at_task pid ph ts m -> exec w pid (mkProc c m) r = Some (fs', p') ->
  (code p' = Exit /\ fs' = files w) \/
  (at_task pid ph ts (code p') /\ effect pid ph m (code p') (files w) fs').
Proof.
  intros Hm. unfold exec. cbn [code count].
  destruct Hm as [r0|f con ->| | | | |names ret|ret].
  - by destruct r.
  - destruct r; try done. intros [= <- <-]. right. split; [apply (AtStart _ MapPhase)|by apply Quiet].
  - destruct r; try done. intros [= <- <-]. right. split; [apply AtWrite|by apply Quiet].
  - destruct r; try done; intros [= <- <-]; [right|by left].
    split; [apply AtOpen|]. by apply Announce.
  - destruct r; try done; intros [= <- <-]; [right|by left]. split; [apply AtRead|by apply Quiet].
  - destruct r as [| |names|]; try done; [intros [= <- <-]; by left|]. cbn [reading].
    case_match; [|done]. intros [= <- <-]. right. split; [apply AtCount|].
    apply Quiet; [done|]. cbn [code]. by rewrite pending_counting.
  - induction names as [|name names IH] in ret |- *.
    + destruct r; try done. intros [= <- <-]. right. split; [apply AtRemove|by apply Quiet].
    + rewrite counting_cons. destruct (Sscanf_pid _ name) as [xpid|] eqn:Es.
      * destruct r; try done; (case_bool_decide; [done|]); intros [= <- <-]; right;
          (split; [apply AtCount|apply Quiet; [done|]; cbn; by rewrite !pending_counting]).
      * intros [?|[Ha He]]%IH; [by left|right]. split; [done|].
        destruct He as [?? |? |?]; [apply Quiet|by apply Announce|apply Withdraw]; done.
  - destruct r; try done; unfold removing; intros E; [|simplify_eq; by left].
    case_bool_decide; [|done]. simplify_eq. right. split; [apply AtReturn|]. by apply Withdraw.
Qed.

Lemma task_not_exit pid ph ts m : at_task pid ph ts m -> m <> Exit.
Proof.
  intros Hm E. assert (pending m = None) as Hp by (by rewrite E).
  destruct Hm; try done. by rewrite pending_counting in Hp.
Qed.

(** ** The directory *)

(** Live workers of the phase between their announcement and its removal. *)
Definition running (ph : phase) (w : World) : gset Z :=
  dom (filter (fun '(pid, p) => pending (code p) = Some (mine ph pid)) (procs w)).

Record timing_inv (w : World) : Prop := {
  ti_procs : procs_ok w;
  ti_task q p : procs w !! q = Some p -> exists ph ts, at_task q ph ts (code p);
  ti_pending q p name :
    procs w !! q = Some p -> pending (code p) = Some name -> is_Some (files w !! name);
  ti_names name : is_Some (files w !! name) -> announces name -> exists ph q,
    name = mine ph q /\ q ∈ known w /\
    (forall p, procs w !! q = Some p -> pending (code p) = Some name);
}.

Lemma elem_of_running ph w q :
  q ∈ running ph w <-> exists p, procs w !! q = Some p /\ pending (code p) = Some (mine ph q).
Proof.
  unfold running. rewrite elem_of_dom. split.
  - intros [p Hp]. apply map_lookup_filter_Some in Hp as [Hp Hq]. eauto.
  - intros (p & Hp & Hq). exists p. by apply map_lookup_filter_Some.
Qed.

Lemma pending_mine w q p name :
  timing_inv w -> procs w !! q = Some p -> pending (code p) = Some name ->
  0 < q < 2 ^ 31 /\ exists ph, name = mine ph q.
Proof.
  intros Hw Hp Hn. split.
  { apply (po_range _ (ti_procs _ Hw)). unfold known. apply elem_of_union_l. by apply elem_of_dom. }
  destruct (ti_task _ Hw q p Hp) as (ph & ts & [E|E]%pending_task); [congruence|].
  exists ph. congruence.
Qed.

Lemma timing_inv_boot fs : (forall name, is_Some (fs !! name) -> ~ announces name) -> timing_inv (boot fs).
Proof.
  intros Hfs.
  split; simpl; [apply procs_ok_boot|intros q p; by rewrite lookup_empty|intros q p n; by rewrite lookup_empty|].
  intros name Hn Ha. by destruct (Hfs name Hn).
Qed.

(** A process ends: its file, if any, is left behind. *)
Lemma timing_inv_kill w q : timing_inv w -> is_Some (procs w !! q) -> timing_inv (kill q w).
Proof.
  intros Hw Hq. split; simpl.
  - apply (procs_ok_step (Die q) w); [apply Hw|]. simpl. by destruct Hq as [p ->].
  - intros q' p' [_ Hp]%lookup_delete_Some. by eapply ti_task.
  - intros q' p' name [_ Hp]%lookup_delete_Some. by eapply ti_pending.
  - intros name Hn Ha. destruct (ti_names _ Hw name Hn Ha) as (ph & q' & E & Hk & Hp).
    exists ph, q'. split; [done|]. split.
    + apply (known_step (Die q) w); [|done]. simpl. by destruct Hq as [p ->].
    + intros p [_ Hp']%lookup_delete_Some. by apply Hp.
Qed.

(** A process without a file to remove starts a task. *)
Lemma timing_inv_begin w q p :
  timing_inv w -> procs_ok (mkWorld (files w) (<[q := p]> (procs w)) (dead w)) ->
  (forall p', procs w !! q = Some p' -> pending (code p') = None) ->
  q ∉ dead w -> timing_task (code p) ->
  timing_inv (mkWorld (files w) (<[q := p]> (procs w)) (dead w)).
Proof.
  intros Hw Hok Hidle Hd Ht. split; simpl; [done| | |].
  - intros q' p' [[<- <-]|[_ Hp]]%lookup_insert_Some; [by apply timing_task_at|by eapply ti_task].
  - intros q' p' name [[<- <-]|[_ Hp]]%lookup_insert_Some; [by destruct Ht|by eapply ti_pending].
  - intros name Hn Ha. destruct (ti_names _ Hw name Hn Ha) as (ph & q' & E & Hk & Hp).
    exists ph, q'. split; [done|]. assert (q' <> q) as Hne.
    { intros ->. apply elem_of_union in Hk as [[p' Hp']%elem_of_dom|]; [|done].
      specialize (Hp _ Hp'). rewrite (Hidle _ Hp') in Hp. done. }
    split; [unfold known in *; simpl; set_solver|].
    intros p'. rewrite lookup_insert_ne by done. apply Hp.
Qed.

Lemma pending_other w q q' p p' name :
  timing_inv w -> procs w !! q = Some p -> procs w !! q' = Some p' ->
  pending (code p) = Some name -> pending (code p') = Some name -> q = q'.
Proof.
  intros Hw Hp Hp' Hn Hn'. destruct (pending_mine _ _ _ _ Hw Hp Hn) as [Hq [ph ->]].
  destruct (pending_mine _ _ _ _ Hw Hp' Hn') as [Hq' [ph' E]]. by apply mine_inj in E as [_ ->].
Qed.

Lemma announces_mine ph q : announces (mine ph q).
Proof. unfold announces, myfilename. rewrite strip_app. by eexists. Qed.

Lemma timing_inv_exec w q p ph ts fs' p' :
  timing_inv w -> procs w !! q = Some p -> at_task q ph ts (code p') ->
  effect q ph (code p) (code p') (files w) fs' ->
  timing_inv (mkWorld fs' (<[q := p']> (procs w)) (dead w)).
Proof.
  intros Hw Hp Ht He.
  assert (0 < q < 2 ^ 31 /\ q ∉ dead w) as [Hq Hnd].
  { split; [|intros E%(po_apart _ (ti_procs _ Hw)); congruence].
    apply (po_range _ (ti_procs _ Hw)). unfold known. apply elem_of_union_l. by apply elem_of_dom. }
  assert (known (mkWorld fs' (<[q := p']> (procs w)) (dead w)) = known w) as Hkn.
  { unfold known. simpl. rewrite dom_insert_lookup_L; [done|by eexists]. }
  split; simpl.
  - split; rewrite ?Hkn; simpl; [apply Hw|]. intros q' Hq'. rewrite lookup_insert_ne by (by intros <-).
    by apply (po_apart _ (ti_procs _ Hw)).
  - intros q' p1 [[<- <-]|[_ Hp1]]%lookup_insert_Some; [eauto|by eapply ti_task].
  - intros q' p1 name Hp1 Hn. apply lookup_insert_Some in Hp1 as [[<- <-]|[Hne Hp1]].
    + destruct He as [-> E|_ E ->|_ E ->]; [|rewrite E in Hn; injection Hn as <-|congruence].
      * rewrite E in Hn. by eapply ti_pending.
      * rewrite lookup_insert_eq. by eexists.
    + pose proof (ti_pending _ Hw _ _ _ Hp1 Hn) as Hf.
      destruct He as [-> E|_ E ->|E _ ->]; [done| |].
      * apply lookup_insert_is_Some'. by right.
      * rewrite lookup_delete_ne; [done|]. intros <-. by apply Hne, (pending_other w q q' p p1 (mine ph q)).
  - intros name Hn Ha. rewrite Hkn. destruct (decide (name = mine ph q)) as [->|Hne].
    + exists ph, q. split; [done|]. split; [unfold known; apply elem_of_union_l; by apply elem_of_dom|].
      intros p1. rewrite lookup_insert_eq. intros [= <-].
      destruct He as [-> E|_ E _|_ _ ->]; [|done|by rewrite lookup_delete_eq in Hn; destruct Hn].
      destruct (ti_names _ Hw _ Hn Ha) as (ph' & q' & Em & Hk & Hpd).
      apply mine_inj in Em as [_ <-]; [|done|by apply (po_range _ (ti_procs _ Hw))].
      rewrite E. by apply Hpd.
    + assert (is_Some (files w !! name)) as Hn0.
      { destruct He as [-> _|_ _ ->|_ _ ->]; [done|by rewrite lookup_insert_ne in Hn|].
        by rewrite lookup_delete_ne in Hn. }
      destruct (ti_names _ Hw _ Hn0 Ha) as (ph' & q' & Em & Hk & Hpd).
      exists ph', q'. split; [done|]. split; [done|].
      intros p1 [[<- <-]|[_ Hp1]]%lookup_insert_Some; [|by apply Hpd].
      specialize (Hpd _ Hp). destruct He as [_ E|E _ _|E _ _]; congruence.
Qed.

Lemma timing_inv_step l w w' : timing_inv w -> begins timing_task l -> step l w = Some w' -> timing_inv w'.
Proof.
  intros Hw Hl E. pose proof (procs_ok_step _ _ _ (ti_procs _ Hw) E) as Hok.
  destruct l as [q m|q r|q].
  - simpl in E. destruct (procs w !! q) as [p|] eqn:Hp.
    + destruct (code p) eqn:Hc; try done. injection E as <-. apply timing_inv_begin; try done.
      * intros p' Hp'. rewrite Hp in Hp'. injection Hp' as <-. by rewrite Hc.
      * intros Hd%(po_apart _ (ti_procs _ Hw)). congruence.
    + destruct (fresh_pid w q) eqn:Hf; [|done]. injection E as <-. apply timing_inv_begin; try done.
      * intros p' Hp'. congruence.
      * unfold fresh_pid in Hf. by apply andb_true_iff in Hf as [_ Hf%bool_decide_eq_true].
  - apply step_run_inv in E as (p & fs' & p' & Hp & He & Hend).
    destruct (ti_task _ Hw _ _ Hp) as (ph & ts & Ht). destruct p as [c m].
    destruct (exec_task _ _ _ _ _ _ _ _ _ Ht He) as [[Hx ->]|[Ht' Hef]];
      destruct Hend as [[Hne ->]|[Hx' ->]].
    + by rewrite Hx in Hne.
    + apply (timing_inv_kill w q); [done|by eexists].
    + by eapply timing_inv_exec.
    + by destruct (task_not_exit _ _ _ _ Ht').
  - simpl in E. destruct (procs w !! q) as [p|] eqn:Hp; [|done]. injection E as <-.
    apply timing_inv_kill; [done|by eexists].
Qed.

(** ** A listing of the directory *)

Definition pids (ph : phase) (names : list string) : list Z := omap (Sscanf_pid (phase_name ph)) names.

(** How many of the processes are alive. *)
Definition live_count (w : World) (l : list Z) : Z :=
  len (filter (fun q => is_Some (procs w !! q)) l).

Lemma live_count_app w l l' : live_count w (l ++ l') = live_count w l + live_count w l'.
Proof. unfold live_count. rewrite filter_app. apply len_app. Qed.

Lemma live_count_mono w w' l :
  (forall q, q ∈ l -> is_Some (procs w' !! q) -> is_Some (procs w !! q)) ->
  live_count w' l <= live_count w l.
Proof.
  unfold live_count, len. induction l as [|q l IH]; intros Hl; [done|].
  rewrite !filter_cons. pose proof (Hl q ltac:(left)) as Hq.
  specialize (IH (fun q' Hq' => Hl q' ltac:(by right))).
  do 2 case_decide; simpl; try lia. tauto.
Qed.

Lemma NoDup_omap {A B} (f : A -> option B) l :
  NoDup l -> (forall a b x, a ∈ l -> b ∈ l -> f a = Some x -> f b = Some x -> a = b) -> NoDup (omap f l).
Proof.
  induction 1 as [|a l Ha _ IH]; intros Hf; [constructor|]. simpl.
  specialize (IH (fun a b x Ha Hb => Hf a b x ltac:(by right) ltac:(by right))).
  destruct (f a) as [x|] eqn:Ex; [|done]. constructor; [|done].
  intros (b & Hb & Eb)%list_elem_of_omap. apply Ha.
  rewrite (Hf a b x ltac:(left) ltac:(by right) Ex Eb). done.
Qed.

Section listing.
Context (w : World) (ph : phase) (names : list string).
Context (Hw : timing_inv w) (Hl : lists_dir (files w) (Some 1000000) names = true).

Lemma listed_nodup : NoDup names.
Proof. unfold lists_dir in Hl. by apply andb_true_iff in Hl as [[?%bool_decide_eq_true _]%andb_true_iff _]. Qed.

Lemma listed_files name : name ∈ names -> is_Some (files w !! name).
Proof.
  unfold lists_dir in Hl. apply andb_true_iff in Hl as [[_ Hf]%andb_true_iff _].
  rewrite forallb_forall in Hf. intros Hn%list_elem_of_In%Hf. by apply bool_decide_eq_true in Hn.
Qed.

Lemma listed_all name : Z.of_nat (size (files w)) <= 1000000 -> is_Some (files w !! name) -> name ∈ names.
Proof.
  intros Hs Hn. assert ((list_to_set names : gset string) = dom (files w)) as E.
  { apply set_subseteq_size_eq.
    - intros n Hn'%elem_of_list_to_set. by apply elem_of_dom, listed_files.
    - rewrite size_list_to_set by apply listed_nodup. rewrite size_dom.
      unfold lists_dir, len in Hl. apply andb_true_iff in Hl as [_ Hlen]. lia. }
  apply elem_of_dom in Hn. rewrite <- E in Hn. by apply elem_of_list_to_set in Hn.
Qed.

Lemma pids_name q : q ∈ pids ph names -> mine ph q ∈ names /\ q ∈ known w /\
  (is_Some (procs w !! q) -> q ∈ running ph w).
Proof.
  intros (name & Hn & Es)%list_elem_of_omap.
  destruct (ti_names _ Hw name (listed_files _ Hn) (Sscanf_announces _ _ _ Es)) as (ph' & q' & -> & Hk & Hp).
  rewrite Sscanf_mine in Es by (by apply (po_range _ (ti_procs _ Hw))).
  case_decide as Eph; [|done]. injection Es as ->. subst ph'. split; [done|]. split; [done|].
  intros [p Hq]. apply elem_of_running. eauto.
Qed.

Lemma pids_nodup : NoDup (pids ph names).
Proof.
  apply NoDup_omap; [apply listed_nodup|]. intros a b x Ha Hb Ea Eb.
  destruct (ti_names _ Hw a (listed_files _ Ha) (Sscanf_announces _ _ _ Ea)) as (pa & qa & -> & Hka & _).
  destruct (ti_names _ Hw b (listed_files _ Hb) (Sscanf_announces _ _ _ Eb)) as (pb & qb & -> & Hkb & _).
  rewrite Sscanf_mine in Ea, Eb by (by apply (po_range _ (ti_procs _ Hw))).
  do 2 (case_decide; [|done]). by simplify_eq.
Qed.

Lemma running_pids q : Z.of_nat (size (files w)) <= 1000000 -> q ∈ running ph w -> q ∈ pids ph names.
Proof.
  intros Hs (p & Hp & Hq)%elem_of_running. apply list_elem_of_omap. exists (mine ph q). split.
  - apply listed_all; [done|]. by eapply ti_pending.
  - rewrite Sscanf_mine; [by rewrite decide_True|]. by destruct (pending_mine _ _ _ _ Hw Hp Hq).
Qed.

(** The number of listed processes that are alive, at the listing and at any
    later state. *)
Lemma live_count_running : live_count w (pids ph names) <= Z.of_nat (size (running ph w)).
Proof.
  unfold live_count, len.
  rewrite <- (size_list_to_set (C := gset Z) (filter _ _)) by apply NoDup_filter, pids_nodup.
  apply Nat2Z.inj_le, subseteq_size. intros q [Hp Hq]%elem_of_list_to_set%list_elem_of_filter.
  by apply pids_name.
Qed.

Lemma live_count_later w' :
  Z.of_nat (size (files w)) <= 1000000 ->
  Z.of_nat (size (running ph w ∩ dom (procs w'))) <= live_count w' (pids ph names).
Proof.
  intros Hs. unfold live_count, len.
  rewrite <- (size_list_to_set (C := gset Z) (filter _ _)) by apply NoDup_filter, pids_nodup.
  apply Nat2Z.inj_le, subseteq_size. intros q [Hq Hp]%elem_of_intersection.
  apply elem_of_list_to_set, list_elem_of_filter. split; [by apply elem_of_dom in Hp|].
  by apply running_pids.
Qed.
End listing.

(** ** Probing the processes listed *)

(** [todo] are the names still to be looked at, [ret] the count so far. *)
Inductive probe (pid : Z) (ph : phase) (ts : string) : list string -> Z -> prog -> Prop :=
| Probing todo ret : probe pid ph ts todo ret (counting pid ph ts todo ret)
| Removing ret : probe pid ph ts [] ret (removing pid ph ts ret)
| Reported ret : probe pid ph ts [] ret (Return (report ph ts pid ret)).

Lemma live_count_one w q :
  live_count w [q] = if decide (is_Some (procs w !! q)) then 1 else 0.
Proof. unfold live_count. rewrite filter_cons. by case_decide. Qed.

Lemma exec_probe w pid ph ts todo ret c m r fs' p' :
  probe pid ph ts todo ret m -> (forall q, q ∈ pids ph todo -> 0 < q) ->
  exec w pid (mkProc c m) r = Some (fs', p') ->
  code p' = Exit \/ exists skipped todo', todo = skipped ++ todo' /\
    probe pid ph ts todo' (ret + live_count w (pids ph skipped)) (code p').
Proof.
  intros Hm Hpos. unfold exec. cbn [code count]. destruct Hm as [todo ret|ret|ret].
  - induction todo as [|name todo IH].
    + destruct r; try done. intros [= <- <-]. right. exists [], []. split; [done|].
      rewrite Z.add_0_r. apply Removing.
    + rewrite counting_cons. unfold pids in Hpos. simpl in Hpos.
      destruct (Sscanf_pid _ name) as [xpid|] eqn:Es.
      * specialize (Hpos xpid ltac:(left)).
        assert (pids ph [name] = [xpid]) as E by (unfold pids; simpl; by rewrite Es).
        destruct r; try done; (case_bool_decide as Hd; [done|]); intros [= <- <-]; right;
          exists [name], todo; (split; [done|]); rewrite E, live_count_one; case_decide as Hs;
          try (apply Probing || (rewrite Z.add_0_r; apply Probing)); destruct Hd; (split; [done|]).
        -- by apply eq_None_not_Some.
        -- done.
      * intros [?|(skipped & todo' & -> & Hp)]%IH; [by left|right|done].
        exists (name :: skipped), todo'. split; [done|]. unfold pids in *. simpl. by rewrite Es.
  - destruct r; try done; unfold removing; intros E; [|simplify_eq; by left].
    case_bool_decide; [|done]. simplify_eq. right. exists [], []. split; [done|].
    rewrite Z.add_0_r. apply Reported.
  - by destruct r.
Qed.

Lemma probe_reported pid ph ts todo ret m :
  probe pid ph ts todo ret m -> forall r, m = Return r -> todo = [] /\ r = report ph ts pid ret.
Proof.
  destruct 1 as [todo ret|ret|ret]; intros r E; [|done|by injection E as <-].
  assert (pending (counting pid ph ts todo ret) = None) as Hp by (by rewrite E).
  by rewrite pending_counting in Hp.
Qed.

(** The task that listed the directory in [w1], at a later state: it died, or
    it has looked at the names before [todo], and counted processes that were
    alive when it asked: at least those that still are, at most those that
    were at the listing. *)
Record listed (w1 : World) (pid : Z) (ph : phase) (ts : string) (names : list string) (w : World) : Prop := {
  ls_procs : procs_ok w;
  ls_known : known w1 ⊆ known w;
  ls_live q : q ∈ known w1 -> is_Some (procs w !! q) -> is_Some (procs w1 !! q);
  ls_probe : pid ∈ dead w \/ exists seen todo ret p,
    names = seen ++ todo /\ procs w !! pid = Some p /\ probe pid ph ts todo ret (code p) /\
    live_count w (pids ph seen) <= ret <= live_count w1 (pids ph seen);
}.

(** The steps that begin no other task in process [pid]. *)
Definition same_task (pid : Z) (l : label) : Prop := match l with Begin q _ => q <> pid | _ => True end.

Lemma pids_app ph l l' : pids ph (l ++ l') = pids ph l ++ pids ph l'.
Proof. apply omap_app. Qed.

(** The counts are kept by a step that leaves the process alone. *)
Lemma listed_frame w1 pid ph ts names w l w' :
  (forall q, q ∈ pids ph names -> q ∈ known w1) ->
  listed w1 pid ph ts names w -> step l w = Some w' ->
  (pid ∈ dead w' \/ procs w' !! pid = procs w !! pid) -> listed w1 pid ph ts names w'.
Proof.
  intros Hk [Hok Hkn Hlive Hp] E Hpid.
  assert (forall q, q ∈ known w1 -> is_Some (procs w' !! q) -> is_Some (procs w !! q)) as Hb.
  { intros q Hq. apply (live_before _ _ _ _ Hok E). by apply Hkn. }
  pose proof (known_step _ _ _ E) as [Hsub Hdead].
  split; [by eapply procs_ok_step|by etrans|by eauto|].
  destruct Hp as [Hp|(seen & todo & ret & p & -> & Hp & Hpr & Hr)]; [left; by apply Hdead|].
  destruct Hpid as [?|Hpid]; [by left|right].
  exists seen, todo, ret, p. split; [done|]. split; [congruence|]. split; [done|].
  split; [|lia]. etrans; [apply (live_count_mono w)|apply Hr].
  intros q Hq. apply Hb, Hk. rewrite pids_app. apply elem_of_app. by left.
Qed.

Lemma step_other pid l w w' :
  same_task pid l -> step l w = Some w' ->
  (exists r, l = Run pid r) \/ (pid ∈ dead w' \/ procs w' !! pid = procs w !! pid).
Proof.
  intros Hl E. destruct l as [q m|q r|q].
  - right. right. simpl in Hl, E. destruct (procs w !! q) as [p|]; [destruct (code p)|destruct (fresh_pid w q)];
      simplify_eq; simpl; by apply lookup_insert_ne.
  - destruct (decide (q = pid)) as [->|Hne]; [left; by eexists|right; right].
    apply step_run_inv in E as (p & fs & p' & _ & _ & [[_ ->]|[_ ->]]); simpl;
      [by apply lookup_insert_ne|by apply lookup_delete_ne].
  - right. simpl in E. destruct (procs w !! q); simplify_eq/=.
    destruct (decide (q = pid)) as [->|Hne]; [left; set_solver|right; by apply lookup_delete_ne].
Qed.

Lemma listed_step w1 pid ph ts names w l w' :
  procs_ok w1 -> (forall q, q ∈ pids ph names -> q ∈ known w1) ->
  listed w1 pid ph ts names w -> same_task pid l -> step l w = Some w' -> listed w1 pid ph ts names w'.
Proof.
  intros Hok1 Hk HL Hl E. destruct (step_other _ _ _ _ Hl E) as [[r ->]|Hf]; [|by eapply listed_frame].
  pose proof (step_run_inv _ _ _ _ E) as (p & fs' & p' & Hp & He & Hend).
  destruct (ls_probe _ _ _ _ _ _ HL) as [Hd|(seen & todo & ret & p0 & Hnames & Hp0 & Hpr & Hr)].
  { apply (po_apart _ (ls_procs _ _ _ _ _ _ HL)) in Hd. congruence. }
  rewrite Hp in Hp0. injection Hp0 as <-.
  destruct Hend as [[Hne Hw']|[_ ->]]; [|eapply listed_frame; [done..|]; left; simpl; set_solver].
  destruct p as [c m].
  destruct (fun H => exec_probe w pid ph ts todo ret c m r fs' p' Hpr H He)
    as [Hx|(skipped & todo' & -> & Hpr')].
  { intros q Hq. apply (po_range _ Hok1), Hk. rewrite Hnames, pids_app. apply elem_of_app. by right. }
  { by rewrite Hx in Hne. }
  assert (forall q, is_Some (procs w' !! q) -> is_Some (procs w !! q)) as Hb.
  { intros q. subst w'. simpl. destruct (decide (q = pid)) as [->|]; [by eexists|by rewrite lookup_insert_ne]. }
  pose proof (known_step _ _ _ E) as [Hsub Hdead]. destruct HL as [Hok Hkn Hlive _].
  split; [by eapply procs_ok_step|by etrans|by eauto|].
  right. exists (seen ++ skipped), todo', (ret + live_count w (pids ph skipped)), p'.
  split; [by rewrite <- app_assoc|]. split; [subst w'; simpl; by rewrite lookup_insert_eq|].
  split; [done|]. rewrite pids_app, !live_count_app.
  pose proof (live_count_mono w w' (pids ph seen) (fun q _ => Hb q)).
  pose proof (live_count_mono w w' (pids ph skipped) (fun q _ => Hb q)).
  enough (live_count w (pids ph skipped) <= live_count w1 (pids ph skipped)) by lia.
  apply live_count_mono. intros q Hq. apply Hlive, Hk. rewrite Hnames, !pids_app. set_solver.
Qed.

Lemma listed_run w1 pid ph ts names ls w w' :
  procs_ok w1 -> (forall q, q ∈ pids ph names -> q ∈ known w1) ->
  listed w1 pid ph ts names w -> Forall (same_task pid) ls -> run ls w = Some w' ->
  listed w1 pid ph ts names w'.
Proof.
  intros Hok Hk HL Hls. revert w HL. induction Hls as [|l ls Hl _ IH]; intros w HL E; simpl in E.
  - by injection E as <-.
  - destruct (step l w) as [w2|] eqn:E2; [|done]. eapply IH; [|exact E]. by eapply listed_step.
Qed.

(** Only a task that is about to list the directory is answered with names. *)
Lemma exec_listed w pid ph ts c m names fs' p' :
  at_task pid ph ts m -> exec w pid (mkProc c m) (Listed names) = Some (fs', p') ->
  lists_dir (files w) (Some 1000000) names = true /\ m = reading pid ph ts /\
  fs' = files w /\ p' = mkProc c (counting pid ph ts names 0).
Proof.
  intros Hm. unfold exec. cbn [code count]. destruct Hm as [r0|f con ->| | | | |l ret|ret]; try done.
  - cbn [reading]. case_match; [|done]. by intros [= <- <-].
  - intros E. exfalso. induction l as [|name l IH] in ret, E |- *; [done|].
    rewrite counting_cons in E. destruct (Sscanf_pid _ name); [done|]. by eapply IH.
Qed.

(** C17: the number of parallel workers.  Let workers run the tasks of mtiming
    and rtiming in a directory without left-over announcements, beginning,
    interleaving, failing and dying in any way.  When a task lists the
    directory (of at most a million files) and goes on to return, the number
    it reports is at most the number of live workers that were executing a
    task of its phase at that moment, itself included, and at least the number
    of those that are still alive when it returns: it is exact when none of
    them dies. *)
Theorem parallel_workers_counted fs ls w1 pid names w2 ls' w3 p ph ts n :
  (forall name, is_Some (fs !! name) -> ~ announces name) ->
  Forall (begins timing_task) ls -> run ls (boot fs) = Some w1 ->
  Z.of_nat (size (files w1)) <= 1000000 ->
  step (Run pid (Listed names)) w1 = Some w2 ->
  Forall (same_task pid) ls' -> run ls' w2 = Some w3 ->
  procs w3 !! pid = Some p -> code p = Return (report ph ts pid n) ->
  pid ∈ running ph w1 /\
  Z.of_nat (size (running ph w1 ∩ dom (procs w3))) <= n <= Z.of_nat (size (running ph w1)).
Proof.
  intros Hfs Hls E1 Hsize E2 Hls' E3 Hp Hc.
  assert (timing_inv w1) as Hw.
  { eapply world_run_inv; [|exact Hls|by apply timing_inv_boot|exact E1]. intros l w w'; apply timing_inv_step. }
  pose proof (step_run_inv _ _ _ _ E2) as (p1 & fs' & p2 & Hp1 & He & Hend). destruct p1 as [c m].
  destruct (ti_task _ Hw _ _ Hp1) as (ph' & ts' & Ht).
  destruct (exec_listed _ _ _ _ _ _ _ _ _ Ht He) as (Hdir & Em & -> & ->). simpl in Em. subst m.
  assert (listed w1 pid ph' ts' names w2) as HL.
  { pose proof (known_step _ _ _ E2) as [Hsub _].
    assert (code (mkProc c (counting pid ph' ts' names 0)) <> Exit) as Hne
      by (eapply task_not_exit, AtCount).
    destruct Hend as [[_ ->]|[Hx _]]; [|by destruct (Hne Hx)].
    split; [by eapply procs_ok_step, E2; apply Hw|done| |].
    - intros q _. simpl. destruct (decide (q = pid)) as [->|]; [by eexists|by rewrite lookup_insert_ne].
    - right. exists [], names, 0. eexists. split; [done|]. split; [apply lookup_insert_eq|].
      split; [apply Probing|]. done. }
  apply (fun H => listed_run _ _ _ _ _ _ _ _ (ti_procs _ Hw) H HL Hls') in E3;
    [|intros q Hq; by eapply (pids_name w1 ph' names)].
  destruct (ls_probe _ _ _ _ _ _ E3) as [Hd|(seen & todo & ret & p3 & Hn & Hp3 & Hpr & Hr)].
  { apply (po_apart _ (ls_procs _ _ _ _ _ _ E3)) in Hd. congruence. }
  rewrite Hp in Hp3. injection Hp3 as <-.
  destruct (probe_reported _ _ _ _ _ _ Hpr _ Hc) as (-> & Er).
  apply report_inj in Er as [-> ->]. rewrite app_nil_r in Hn. subst seen. split.
  { apply elem_of_running. eexists. split; [exact Hp1|]. done. }
  pose proof (live_count_running _ ph' _ Hw Hdir). pose proof (live_count_later _ ph' _ Hw Hdir w3 Hsize). lia.
Qed.

(** Two workers execute map tasks at the same time, beside a worker that died
    inside one; the second to list the directory reports two. *)
Definition demo_task : prog := MTiming.Map "1700000000.0" "in" "text".

Definition demo_first : list label :=
  [Begin 3 demo_task; Begin 7 demo_task; Begin 12 demo_task;
   Run 3 Success; Run 3 Success; Run 3 Success; Die 3;
   Run 7 Success; Run 7 Success; Run 7 Success;
   Run 12 Success; Run 12 Success; Run 12 Success; Run 12 Success].
Definition demo_listing : list string :=
  ["mr-worker-map-12"; "mr-worker-map-3"; "mr-worker-map-7"]%string.
Definition demo_rest : list label :=
  [Run 12 Success; Run 12 Failure; Run 7 Success; Run 12 Success; Run 12 Success; Run 12 Success].

Definition demo_w1 : World := default (boot ∅) (run demo_first (boot ∅)).
Definition demo_w2 : World := default (boot ∅) (step (Run 12 (Listed demo_listing)) demo_w1).
Definition demo_w3 : World := default (boot ∅) (run demo_rest demo_w2).

Lemma demo_tasks : Forall (begins timing_task) demo_first.
Proof. repeat constructor. Qed.

Lemma demo_same : Forall (same_task 12) demo_rest.
Proof. repeat constructor. Qed.

Lemma demo_steps :
  run demo_first (boot ∅) = Some demo_w1 /\
  step (Run 12 (Listed demo_listing)) demo_w1 = Some demo_w2 /\ run demo_rest demo_w2 = Some demo_w3.
Proof. split_and!; apply is_Some_default; vm_compute; reflexivity. Qed.

Lemma demo_empty name : is_Some ((∅ : FS) !! name) -> ~ announces name.
Proof. intros H. by apply lookup_empty_is_Some in H. Qed.

Lemma parallel_workers_counted_witness :
  size (running MapPhase demo_w1) = 2%nat /\
  (12 ∈ running MapPhase demo_w1) /\
  (Z.of_nat (size (running MapPhase demo_w1 ∩ dom (procs demo_w3))) <= 2
     <= Z.of_nat (size (running MapPhase demo_w1))).
Proof.
  split; [vm_compute; reflexivity|]. destruct demo_steps as (E1 & E2 & E3).
  apply (parallel_workers_counted ∅ demo_first demo_w1 12 demo_listing demo_w2 demo_rest demo_w3
    (mkProc 0 (Return (report MapPhase "1700000000.0" 12 2))) MapPhase "1700000000.0" 2
    demo_empty demo_tasks E1); try assumption; try (vm_compute; reflexivity).
  - vm_compute. discriminate.
  - exact demo_same.
Defined.
