(* ===== verification/MRJobCount.v ===== *)
(** * mr-main/mrapps/jobcount.go and crash.go

    jobcount.go counts how often map tasks are run: every call of [Map]
    leaves a file named after its process and its number there, and [Reduce]
    counts the files.  crash.go is nocrash.go with random exits and delays. *)

From Stdlib Require Import ZArith Lia Ascii.
From stdpp Require Import base numbers strings pretty gmap list.
From S2P Require Import Prelude MRWorker MRApps MRFiles MRSystem MRTiming.
Local Open Scope Z_scope.

(** [strings.HasPrefix] *)
Definition HasPrefix (s prefix : string) : bool :=
  match strip prefix s with Some _ => true | None => false end.

(** ** jobcount.go *)

Definition jobfile (me c : Z) : string :=
  "mr-worker-jobcount-" +:+ pretty me +:+ "-" +:+ pretty c.

Module JobCount.
Definition Map (filename contents : string) : prog :=
  Getpid (fun me =>
  LoadCount (fun count =>
  let f := jobfile me count in
  StoreCount (count + 1) (
  WriteFile f "x" (fun ok =>
  if negb ok then Exit else
  RandInt 3000 (fun _ =>
  Sleep (
  Return (Pairs [mkKeyValue "a" "x"]))))))).

(** The loop over the files. *)
Definition count_files (names : list string) : Z :=
  foldl (fun invocations name =>
    if HasPrefix name "mr-worker-jobcount" then invocations + 1 else invocations) 0 names.

Definition Reduce (key : string) (values : list string) : prog :=
  Readdirnames None (fun files =>
  match files with
  | None => Exit
  | Some names => Return (Line (pretty (count_files names)))
  end).
End JobCount.

(** ** crash.go *)

Module Crash.
Definition maybeCrash (k : prog) : prog :=
  RandInt 1000 (fun rr =>
  if rr <? 330 then Exit
  else if rr <? 660 then RandInt (10 * 1000) (fun _ => Sleep k)
  else k).

Definition Map (filename contents : string) : prog :=
  maybeCrash (Return (Pairs
    [mkKeyValue "a" filename; mkKeyValue "b" (pretty (Z.of_nat (String.length filename)));
     mkKeyValue "c" (pretty (Z.of_nat (String.length contents))); mkKeyValue "d" "xyzzy"])).

Definition Reduce (key : string) (values : list string) : prog :=
  maybeCrash (Return (Line (Join " " (sort_strings values)))).
End Crash.

Lemma maybeCrash_returns r out : may_return (Crash.maybeCrash (Return r)) out -> out = r.
Proof.
  unfold Crash.maybeCrash. intros H. inversion H as [| | | | | | | | |? ? rr ? _ Hk|]; subst.
  destruct (rr <? 330); [inversion Hk|].
  destruct (rr <? 660); [|by inversion Hk].
  inversion Hk as [| | | | | | | | |? ? ? ? _ Hs|]; subst. inversion Hs as [| | | | | | | | | |? ? Hr]; subst.
  by inversion Hr.
Qed.

(** The tasks of crash.go that return do what those of nocrash.go do. *)
Lemma crash_like_nocrash filename contents key values out :
  (may_return (Crash.Map filename contents) out -> out = Pairs (NoCrash.Map filename contents)) /\
  (may_return (Crash.Reduce key values) out -> out = Line (NoCrash.Reduce key values)).
Proof. split; apply maybeCrash_returns. Qed.

(** ** The files of jobcount.go *)

Inductive jobcount_task : prog -> Prop :=
| JobMap filename contents : jobcount_task (JobCount.Map filename contents)
| JobReduce key values : jobcount_task (JobCount.Reduce key values).

(** Map tasks that were begun: of the two kinds, those that ask for their pid. *)
Definition begins_map (l : label) : bool :=
  match l with Begin _ (Getpid _) => true | _ => false end.

Definition maps_begun (ls : list label) : Z := len (filter (fun l => begins_map l = true) ls).

(** Before a map task wrote its file. *)
Definition before_write (m : prog) : bool :=
  match m with Getpid _ | LoadCount _ | StoreCount _ _ | WriteFile _ _ _ => true | _ => false end.

Definition unwritten (w : World) : gset Z :=
  dom (filter (fun '(_, p) => before_write (code p) = true) (procs w)).

Definition written (c me : Z) : prog :=
  WriteFile (jobfile me c) "x" (fun ok =>
    if negb ok then Exit else
    RandInt 3000 (fun _ => Sleep (Return (Pairs [mkKeyValue "a" "x"])))).

(** The places of a task of process [me] whose variable is [count]. *)
Inductive at_job (me count : Z) : prog -> Prop :=
| AtJobReturn r : at_job me count (Return r)
| AtJobMap filename contents : at_job me count (JobCount.Map filename contents)
| AtJobLoad : at_job me count (LoadCount (fun c => StoreCount (c + 1) (written c me)))
| AtJobStore : at_job me count (StoreCount (count + 1) (written count me))
| AtJobWrite c : count = c + 1 -> at_job me count (written c me)
| AtJobRand : at_job me count (RandInt 3000 (fun _ => Sleep (Return (Pairs [mkKeyValue "a" "x"]))))
| AtJobSleep : at_job me count (Sleep (Return (Pairs [mkKeyValue "a" "x"])))
| AtJobReduce key values : at_job me count (JobCount.Reduce key values).

(** The number the next file of a process has. *)
Definition next_number (p : proc) : Z :=
  match code p with WriteFile _ _ _ => count p - 1 | _ => count p end.

Lemma exec_job w me p r fs' p' :
  at_job me (count p) (code p) -> exec w me p r = Some (fs', p') ->
  (code p' = Exit /\ fs' = files w) \/
  (at_job me (count p') (code p') /\
   ((fs' = files w /\ before_write (code p') = before_write (code p) /\ next_number p' = next_number p) \/
    (fs' = <[jobfile me (next_number p) := "x"%string]> (files w) /\
     before_write (code p) = true /\ before_write (code p') = false /\
     next_number p' = next_number p + 1))).
Proof.
  destruct p as [n m]. unfold exec, next_number. cbn [code count]. intros Hm.
  destruct Hm as [r0|f con| | |c ->| | |key values].
  - by destruct r.
  - destruct r; try done. intros [= <- <-]. right. split; [apply AtJobLoad|by left].
  - destruct r; try done. intros [= <- <-]. right. split; [apply AtJobStore|by left].
  - destruct r; try done. intros [= <- <-]. right. split; [by apply AtJobWrite|]. left. cbn. split_and!; (done || lia).
  - destruct r; try done; unfold written; intros [= <- <-]; [right|by left].
    split; [apply AtJobRand|]. right. cbn. split_and!; try done; [|lia].
    by replace (c + 1 - 1) with c by lia.
  - destruct r as [| | |z]; try done. case_match; [|done]. intros [= <- <-]. right.
    split; [apply AtJobSleep|by left].
  - destruct r; try done. intros [= <- <-]. right. split; [apply AtJobReturn|by left].
  - destruct r as [| |names|]; try done; [intros [= <- <-]; by left|]. cbn [JobCount.Reduce].
    case_match; [|done]. intros [= <- <-]. right. split; [apply AtJobReturn|by left].
Qed.

Lemma jobfile_inj q c q' c' :
  0 <= q -> 0 <= q' -> jobfile q c = jobfile q' c' -> q = q' /\ c = c'.
Proof.
  intros Hq Hq' E. unfold jobfile in E.
  assert (pretty q +:+ String "-" (pretty c) = pretty q' +:+ String "-" (pretty c')) as E'.
  { by injection E. }
  apply digits_dash in E' as [E1 E2]; [|by apply pretty_digits..].
  split; by apply (inj pretty).
Qed.

Lemma jobfile_prefix q c : HasPrefix (jobfile q c) "mr-worker-jobcount" = true.
Proof. reflexivity. Qed.

Lemma count_files_filter names :
  JobCount.count_files names = len (filter (fun name => HasPrefix name "mr-worker-jobcount" = true) names).
Proof.
  unfold JobCount.count_files. rewrite <- (Z.add_0_l (len _)). generalize 0 as n.
  induction names as [|name names IH]; intros n; [simpl; unfold len; simpl; lia|].
  cbn [foldl]. rewrite IH, filter_cons. destruct (HasPrefix name _).
  - rewrite decide_True by done. rewrite len_cons. lia.
  - by rewrite decide_False.
Qed.

(** ** Every call is written, about to be written or lost with its process *)

(** [S] are the process and the number of each file, [b] the tasks begun. *)
Record job_inv (b : Z) (S : gset (Z * Z)) (w : World) : Prop := {
  ji_procs : procs_ok w;
  ji_task q p : procs w !! q = Some p -> at_job q (count p) (code p);
  ji_files name : HasPrefix name "mr-worker-jobcount" = true ->
    is_Some (files w !! name) <-> exists q c, (q, c) ∈ S /\ name = jobfile q c;
  ji_known q c : (q, c) ∈ S -> q ∈ known w;
  ji_number q c p : (q, c) ∈ S -> procs w !! q = Some p -> c < next_number p;
  ji_nat q p : procs w !! q = Some p -> 0 <= next_number p;
  ji_upper : Z.of_nat (size S) + Z.of_nat (size (unwritten w)) <= b;
  ji_lower : b <= Z.of_nat (size S) + Z.of_nat (size (unwritten w)) + Z.of_nat (size (dead w));
}.

Lemma elem_of_unwritten w q :
  q ∈ unwritten w <-> exists p, procs w !! q = Some p /\ before_write (code p) = true.
Proof.
  unfold unwritten. rewrite elem_of_dom. split.
  - intros [p [Hp Hq]%map_lookup_filter_Some]. eauto.
  - intros (p & Hp & Hq). exists p. by apply map_lookup_filter_Some.
Qed.

(** A process that takes one step or begins a task changes its own place
    only. *)
Lemma unwritten_insert fs q p w :
  unwritten (mkWorld fs (<[q := p]> (procs w)) (dead w)) =
  if before_write (code p) then {[q]} ∪ unwritten w else unwritten w ∖ {[q]}.
Proof.
  apply set_eq. intros x. rewrite elem_of_unwritten. simpl.
  destruct (decide (x = q)) as [->|Hne].
  - rewrite lookup_insert_eq. destruct (before_write (code p)) eqn:E.
    + split; [set_solver|]. intros _. by exists p.
    + split; [|set_solver]. intros (p' & [= <-] & E'); congruence.
  - rewrite lookup_insert_ne, <- elem_of_unwritten by done.
    destruct (before_write (code p)); set_solver.
Qed.

Lemma unwritten_kill q w : unwritten (kill q w) = unwritten w ∖ {[q]}.
Proof.
  apply set_eq. intros x. rewrite elem_of_difference, !elem_of_unwritten, elem_of_singleton. simpl.
  destruct (decide (x = q)) as [->|Hne].
  - rewrite lookup_delete_eq. naive_solver.
  - rewrite lookup_delete_ne by done. naive_solver.
Qed.

Lemma size_remove (X : gset Z) q : (size X <= size (X ∖ {[q]}) + 1)%nat /\ (size (X ∖ {[q]}) <= size X)%nat.
Proof.
  split; [|apply subseteq_size; set_solver].
  assert (X ⊆ {[q]} ∪ X ∖ {[q]}) as H.
  { intros x Hx. destruct (decide (x = q)); set_solver. }
  apply subseteq_size in H. rewrite size_union in H by set_solver. rewrite size_singleton in H. lia.
Qed.

Lemma size_add (X : gset Z) q : q ∉ X -> (size ({[q]} ∪ X) = size X + 1)%nat.
Proof. intros Hq. rewrite size_union by set_solver. rewrite size_singleton. lia. Qed.

Lemma size_remove_in (X : gset Z) q : q ∈ X -> (size X = size (X ∖ {[q]}) + 1)%nat.
Proof.
  intros Hq. assert (X = {[q]} ∪ X ∖ {[q]}) as E.
  { apply set_eq. intros x. destruct (decide (x = q)); set_solver. }
  rewrite E at 1. rewrite size_union by set_solver. rewrite size_singleton. lia.
Qed.

Lemma job_inv_kill b S w q : job_inv b S w -> is_Some (procs w !! q) -> job_inv b S (kill q w).
Proof.
  intros Hw Hq. assert (step (Die q) w = Some (kill q w)) as E by (simpl; by destruct Hq as [p ->]).
  assert (q ∉ dead w) as Hd.
  { intros Hd%(po_apart _ (ji_procs _ _ _ Hw)). rewrite Hd in Hq. by destruct Hq. }
  split; simpl.
  - by eapply procs_ok_step; [apply Hw|].
  - intros q' p' [_ Hp]%lookup_delete_Some. by eapply ji_task.
  - apply Hw.
  - intros q' c HS. apply (known_step _ _ _ E). by eapply ji_known.
  - intros q' c p HS [_ Hp]%lookup_delete_Some. by eapply ji_number.
  - intros q' p' [_ Hp]%lookup_delete_Some. by eapply ji_nat.
  - rewrite unwritten_kill. pose proof (size_remove (unwritten w) q). pose proof (ji_upper _ _ _ Hw). lia.
  - rewrite unwritten_kill. pose proof (size_add (dead w) q Hd).
    pose proof (size_remove (unwritten w) q). pose proof (ji_lower _ _ _ Hw). lia.
Qed.

(** A process outside of a task begins one. *)
Lemma job_inv_begin b S w q p :
  job_inv b S w -> procs_ok (mkWorld (files w) (<[q := p]> (procs w)) (dead w)) ->
  q ∉ unwritten w -> q ∉ dead w -> at_job q (count p) (code p) ->
  0 <= next_number p -> (forall c, (q, c) ∈ S -> c < next_number p) ->
  job_inv (b + if before_write (code p) then 1 else 0) S
    (mkWorld (files w) (<[q := p]> (procs w)) (dead w)).
Proof.
  intros Hw Hok Hu Hd Ht Hn Hc.
  assert (size (unwritten (mkWorld (files w) (<[q := p]> (procs w)) (dead w))) =
    size (unwritten w) + if before_write (code p) then 1 else 0)%nat as Hs.
  { rewrite unwritten_insert. destruct (before_write (code p)).
    - by apply size_add.
    - rewrite difference_disjoint_L by set_solver. lia. }
  split; simpl; [done| | | | | | |].
  - intros q' p' [[<- <-]|[_ Hp]]%lookup_insert_Some; [done|by eapply ji_task].
  - apply Hw.
  - intros q' c HS%(ji_known _ _ _ Hw). unfold known in *. simpl. set_solver.
  - intros q' c p' HS [[<- <-]|[_ Hp]]%lookup_insert_Some; [by apply Hc|by eapply ji_number].
  - intros q' p' [[<- <-]|[_ Hp]]%lookup_insert_Some; [done|by eapply ji_nat].
  - rewrite Hs. pose proof (ji_upper _ _ _ Hw). destruct (before_write (code p)); lia.
  - rewrite Hs. pose proof (ji_lower _ _ _ Hw). destruct (before_write (code p)); lia.
Qed.

Lemma live_range b S w q : job_inv b S w -> is_Some (procs w !! q) -> 0 <= q /\ q ∉ dead w.
Proof.
  intros Hw [p Hp]. split.
  - enough (0 < q < 2 ^ 31) by lia. apply (po_range _ (ji_procs _ _ _ Hw)). unfold known.
    apply elem_of_union_l. by apply elem_of_dom.
  - intros Hd%(po_apart _ (ji_procs _ _ _ Hw)). congruence.
Qed.

(** A call of a task: nothing changes but its place, or its file is written. *)
Lemma job_inv_exec b S w w' q p fs' p' r :
  job_inv b S w -> procs w !! q = Some p -> exec w q p r = Some (fs', p') ->
  exited (code p') = false -> w' = mkWorld fs' (<[q := p']> (procs w)) (dead w) ->
  procs_ok w' -> exists S', job_inv b S' w'.
Proof.
  intros Hw Hp He Hne Hw' Hok.
  destruct (exec_job _ _ _ _ _ _ (ji_task _ _ _ Hw _ _ Hp) He) as [[Hx _]|[Ht Hd]];
    [by rewrite Hx in Hne|].
  destruct (live_range _ _ _ _ Hw ltac:(by eexists)) as [Hq Hnd].
  assert (known w' = known w) as Hkn.
  { unfold known. subst w'. simpl. by rewrite dom_insert_lookup_L by (by eexists). }
  assert (unwritten w' = if before_write (code p') then {[q]} ∪ unwritten w else unwritten w ∖ {[q]}) as Hu
    by (subst w'; apply unwritten_insert).
  assert (q ∈ unwritten w <-> before_write (code p) = true) as Hin.
  { rewrite elem_of_unwritten. rewrite Hp. split; [by intros (? & [= <-] & ?)|eauto]. }
  assert (forall x px, procs w' !! x = Some px ->
    (x = q /\ px = p') \/ (x <> q /\ procs w !! x = Some px)) as Hl.
  { subst w'. simpl. intros x px [[<- <-]|[? ?]]%lookup_insert_Some; eauto. }
  destruct Hd as [(-> & Hb & Hn)|(-> & Hb & Hb' & Hn)].
  - exists S. assert (unwritten w' = unwritten w) as Hu'.
    { rewrite Hu, Hb. destruct (before_write (code p)); set_solver. }
    split; rewrite ?Hu', ?Hkn; subst w'; simpl; try apply Hw; [done| | |].
    + intros x px [[-> ->]|[_ Hx]]%Hl; [done|by eapply ji_task].
    + intros x c px HS [[-> ->]|[_ Hx]]%Hl; [rewrite Hn|]; by eapply ji_number.
    + intros x px [[-> ->]|[_ Hx]]%Hl; [rewrite Hn|]; by eapply ji_nat.
  - exists ({[(q, next_number p)]} ∪ S).
    assert ((q, next_number p) ∉ S) as Hfresh.
    { intros HS. pose proof (ji_number _ _ _ Hw _ _ _ HS Hp). lia. }
    assert (size ({[(q, next_number p)]} ∪ S) = size S + 1)%nat as HsS.
    { rewrite size_union by set_solver. rewrite size_singleton. lia. }
    assert (size (unwritten w) = size (unwritten w') + 1)%nat as HsU.
    { rewrite Hu, Hb'. by apply size_remove_in, Hin. }
    split; rewrite ?HsS, ?Hkn; [done| | | | | | |].
    + intros x px [[-> ->]|[_ Hx]]%Hl; [done|by eapply ji_task].
    + intros name Hname. subst w'. simpl. rewrite lookup_insert_is_Some'.
      rewrite (ji_files _ _ _ Hw name Hname). setoid_rewrite elem_of_union.
      setoid_rewrite elem_of_singleton. split.
      * intros [<-|(x & c & HS & ->)]; [exists q, (next_number p)|exists x, c]; eauto.
      * intros (x & c & [[= -> ->]|HS] & ->); eauto.
    + intros x c [[= -> ->]%elem_of_singleton|HS]%elem_of_union; [|by eapply ji_known].
      unfold known. apply elem_of_union_l. by apply elem_of_dom.
    + intros x c px HS [[-> ->]|[Hxq Hx]]%Hl.
      * apply elem_of_union in HS as [[= ->]%elem_of_singleton|HS]; [lia|].
        pose proof (ji_number _ _ _ Hw _ _ _ HS Hp). lia.
      * apply elem_of_union in HS as [[= ]%elem_of_singleton|HS]; [done|by eapply ji_number].
    + intros x px [[-> ->]|[_ Hx]]%Hl; [|by eapply ji_nat].
      pose proof (ji_nat _ _ _ Hw _ _ Hp). lia.
    + pose proof (ji_upper _ _ _ Hw). lia.
    + pose proof (ji_lower _ _ _ Hw). subst w'. simpl in *. lia.
Qed.

Lemma task_place me n m :
  jobcount_task m -> at_job me n m /\ next_number (mkProc n m) = n /\
  (forall pid, begins_map (Begin pid m) = before_write m).
Proof. destruct 1; (split; [constructor|done]). Qed.

Lemma job_inv_step l b S w w' :
  job_inv b S w -> begins jobcount_task l -> step l w = Some w' ->
  exists S', job_inv (b + if begins_map l then 1 else 0) S' w'.
Proof.
  intros Hw Hl E. pose proof (procs_ok_step _ _ _ (ji_procs _ _ _ Hw) E) as Hok.
  destruct l as [q m|q r|q].
  - exists S. destruct (task_place q 0 m Hl) as (_ & _ & Hb). rewrite (Hb q). simpl in E.
    destruct (procs w !! q) as [p|] eqn:Hp.
    + destruct (code p) as [out| | | | | | | | | | |] eqn:Hc; try done. injection E as <-.
      destruct (task_place q (count p) m Hl) as (Ht & Hn & _).
      destruct (live_range _ _ _ _ Hw ltac:(by eexists)) as [Hq Hnd].
      assert (next_number p = count p) as Hnp by (unfold next_number; by rewrite Hc).
      apply (job_inv_begin b S w q (mkProc (count p) m)); try done.
      * intros (p' & Hp' & Hbw)%elem_of_unwritten. rewrite Hp in Hp'. injection Hp' as <-. by rewrite Hc in Hbw.
      * rewrite Hn, <- Hnp. by eapply ji_nat.
      * intros c HS. rewrite Hn, <- Hnp. by eapply ji_number.
    + destruct (fresh_pid w q) eqn:Hf; [|done]. injection E as <-.
      destruct (task_place q 0 m Hl) as (Ht & Hn & _).
      unfold fresh_pid in Hf. apply andb_true_iff in Hf as [_ Hf%bool_decide_eq_true].
      apply (job_inv_begin b S w q (mkProc 0 m)); try done.
      * intros (p' & Hp' & _)%elem_of_unwritten. congruence.
      * by rewrite Hn.
      * intros c HS%(ji_known _ _ _ Hw). unfold known in HS. exfalso.
        apply elem_of_union in HS as [[p' ?]%elem_of_dom|?]; [congruence|done].
  - simpl. rewrite Z.add_0_r. apply step_run_inv in E as (p & fs' & p' & Hp & He & [[Hne E]|[Hx ->]]).
    + by eapply job_inv_exec.
    + exists S. destruct (exec_job _ _ _ _ _ _ (ji_task _ _ _ Hw _ _ Hp) He) as [[_ ->]|[Ht _]].
      * apply (job_inv_kill b S w q); [done|by eexists].
      * rewrite Hx in Ht. inversion Ht.
  - exists S. simpl in *. rewrite Z.add_0_r. destruct (procs w !! q) as [p|] eqn:Hp; [|done].
    injection E as <-. apply job_inv_kill; [done|by eexists].
Qed.

Lemma counts_run ls b S w w' :
  Forall (begins jobcount_task) ls -> job_inv b S w -> run ls w = Some w' ->
  exists S', job_inv (b + maps_begun ls) S' w'.
Proof.
  intros Hls. revert b S w. induction Hls as [|l ls Hl _ IH]; intros b S w Hw E; simpl in E.
  - injection E as <-. exists S. by rewrite Z.add_0_r.
  - destruct (step l w) as [w1|] eqn:E1; [|done].
    destruct (job_inv_step _ _ _ _ _ Hw Hl E1) as [S1 Hw1]. destruct (IH _ _ _ Hw1 E) as [S' Hw'].
    exists S'. unfold maps_begun. rewrite filter_cons. destruct (begins_map l).
    + rewrite decide_True by done. rewrite len_cons. by rewrite Z.add_assoc.
    + rewrite decide_False by done. by rewrite Z.add_0_r in Hw'.
Qed.

(** The names [Reduce] counts are those of the files in [S]. *)
Lemma count_listed b S w names :
  job_inv b S w -> lists_dir (files w) None names = true ->
  JobCount.count_files names = Z.of_nat (size S).
Proof.
  intros Hw Hl. rewrite count_files_filter. unfold lists_dir in Hl.
  apply andb_true_iff in Hl as [[Hnd%bool_decide_eq_true Hf]%andb_true_iff Hlen%Z.eqb_eq].
  rewrite forallb_forall in Hf.
  assert (forall name, name ∈ names <-> is_Some (files w !! name)) as Hall.
  { assert ((list_to_set names : gset string) = dom (files w)) as E.
    { apply set_subseteq_size_eq.
      - intros n Hn%elem_of_list_to_set%list_elem_of_In%Hf. apply elem_of_dom.
        by apply bool_decide_eq_true in Hn.
      - rewrite size_list_to_set, size_dom by done. unfold len in Hlen. lia. }
    intros name. by rewrite <- elem_of_dom, <- E, elem_of_list_to_set. }
  set (F := filter _ names). assert (NoDup F) as HF by by apply NoDup_filter.
  assert (F ≡ₚ (fun '(q, c) => jobfile q c) <$> elements S) as E.
  { apply NoDup_Permutation; [done| |].
    - apply NoDup_fmap_2_strong; [|apply NoDup_elements].
      intros [q c] [q' c'] Hx%elem_of_elements Hy%elem_of_elements Ej.
      apply (ji_known _ _ _ Hw), (po_range _ (ji_procs _ _ _ Hw)) in Hx, Hy.
      by apply jobfile_inj in Ej as [-> ->]; [|lia..].
    - intros name. unfold F. rewrite list_elem_of_filter, Hall, list_elem_of_fmap. split.
      + intros [Hp (q & c & HS & ->)%(ji_files _ _ _ Hw _ Hp)]. exists (q, c). split; [done|].
        by apply elem_of_elements.
      + intros ([q c] & -> & HS%elem_of_elements). split; [done|].
        apply (ji_files _ _ _ Hw); [done|]. eauto. }
  unfold len. by rewrite E, length_fmap.
Qed.

(** C23: the number of map tasks that were run.  Let processes run tasks of
    jobcount.go in a directory without files of that name, interleaving,
    failing and dying in any way.  The number that [Reduce] returns is that of
    the map tasks begun before it listed the directory, less those that had
    not written their file or died before they did: it is exact when no
    process died and no map task was still before its write. *)
Theorem jobcount_counts_maps fs ls w1 pid names w2 p n :
  (forall name, is_Some (fs !! name) -> HasPrefix name "mr-worker-jobcount" = false) ->
  Forall (begins jobcount_task) ls -> run ls (boot fs) = Some w1 ->
  step (Run pid (Listed names)) w1 = Some w2 ->
  procs w2 !! pid = Some p -> code p = Return (Line (pretty n)) ->
  maps_begun ls - Z.of_nat (size (unwritten w1)) - Z.of_nat (size (dead w1)) <= n <=
  maps_begun ls - Z.of_nat (size (unwritten w1)).
Proof.
  intros Hfs Hls E1 E2 Hp Hc. destruct (counts_run ls 0 ∅ (boot fs) w1 Hls) as [S Hw]; [|done|].
  { assert (forall q p', procs (boot fs) !! q = Some p' -> False) as Hno
      by (intros q p'; simpl; by rewrite lookup_empty).
    assert (unwritten (boot fs) = ∅) as Hun.
    { apply set_eq. intros q. rewrite elem_of_unwritten. split; [|set_solver].
      intros (p' & []%Hno & _). }
    split; rewrite ?Hun; [apply procs_ok_boot|by intros q p' []%Hno| |by intros q c ?%elem_of_empty|
      by intros q c p' ?%elem_of_empty|by intros q p' []%Hno|done|done].
    intros name Hn. split; [|intros (q & c & HS & _); set_solver]. intros Hs%Hfs. congruence. }
  apply step_run_inv in E2 as (p1 & fs' & p2 & Hp1 & He & Hend).
  enough (n = Z.of_nat (size S)) as ->.
  { pose proof (ji_upper _ _ _ Hw). pose proof (ji_lower _ _ _ Hw). lia. }
  pose proof (ji_task _ _ _ Hw _ _ Hp1) as Ht. destruct p1 as [c m]. unfold exec in He. cbn [code count] in *.
  destruct Ht as [| | | | | | |key values]; try done. cbn [JobCount.Reduce] in He.
  destruct (lists_dir (files w1) None names) eqn:Hl; [|done]. injection He as <- <-.
  destruct Hend as [[_ ->]|[? _]]; [|done]. simpl in Hp. rewrite lookup_insert_eq in Hp. injection Hp as <-.
  injection Hc as En. apply (inj pretty) in En. by rewrite <- En, (count_listed _ _ _ _ Hw Hl).
Qed.

(** Three map tasks in two processes, one of which then reduces. *)
Definition jobs_first : list label :=
  [Begin 5 (JobCount.Map "a" ""); Begin 9 (JobCount.Map "b" "");
   Run 5 Success; Run 5 Success; Run 5 Success; Run 9 Success; Run 5 Success;
   Run 5 (Drawn 17); Run 5 Success; Begin 5 (JobCount.Map "c" "");
   Run 9 Success; Run 9 Success; Run 9 Success; Run 9 (Drawn 0); Run 9 Success;
   Run 5 Success; Run 5 Success; Run 5 Success; Run 5 Success;
   Begin 9 (JobCount.Reduce "a" ["x"; "x"; "x"])].
Definition jobs_listing : list string :=
  ["mr-worker-jobcount-5-0"; "mr-worker-jobcount-5-1"; "mr-worker-jobcount-9-0"]%string.
Definition jobs_w1 : World := default (boot ∅) (run jobs_first (boot ∅)).
Definition jobs_w2 : World := default (boot ∅) (step (Run 9 (Listed jobs_listing)) jobs_w1).

Lemma jobs_tasks : Forall (begins jobcount_task) jobs_first.
Proof. repeat constructor. Qed.

Lemma jobs_empty name : is_Some ((∅ : FS) !! name) -> HasPrefix name "mr-worker-jobcount" = false.
Proof. intros H. by apply lookup_empty_is_Some in H. Qed.

Lemma jobcount_counts_maps_witness :
  maps_begun jobs_first = 3 /\ unwritten jobs_w1 = ∅ /\ dead jobs_w1 = ∅ /\
  maps_begun jobs_first - Z.of_nat (size (unwritten jobs_w1)) - Z.of_nat (size (dead jobs_w1)) <= 3 <=
  maps_begun jobs_first - Z.of_nat (size (unwritten jobs_w1)).
Proof.
  split_and!; try (vm_compute; reflexivity);
    apply (jobcount_counts_maps ∅ jobs_first jobs_w1 9 jobs_listing jobs_w2
      (mkProc 1 (Return (Line (pretty 3)))) 3 jobs_empty jobs_tasks); try (vm_compute; reflexivity);
    apply is_Some_default; vm_compute; reflexivity.
Defined.
