(* ===== verification/MRJobSteps.v ===== *)
(** * mr: a job file by file

    The job of MRJob with the tasks taken apart: a worker opens, creates,
    appends to and reads one file at a time, so that two attempts at a task,
    or a map task and the reduce tasks that read its files, can interleave.
    A worker that dies leaves what it has written.  Each access is atomic;
    a file is read in one access. *)

From Stdlib Require Import ZArith Lia Ascii.
From stdpp Require Import base numbers strings pretty gmap list.
From S2P Require Import Prelude MRCoordinator MRWorker MRFiles MRJob.
Local Open Scope Z_scope.

(** [fmt.Fprintf] on a file that was not opened to append writes at the
    offset of its descriptor; a gap is filled with zeros. *)
Definition write_at (content : string) (off : nat) (s : string) : string :=
  let l := String.list_ascii_of_string content in
  String.string_of_list_ascii
    (take off (l ++ replicate (off - length l) Ascii.zero) ++ String.list_ascii_of_string s ++
     drop (off + String.length s) l).

(** A worker with a task, by the access it makes next. *)
Inductive attempt :=
| MapOpen (r : GetTaskReply)
| MapCreate (r : GetTaskReply) (kva : list KeyValue) (i : Z)
| MapWrite (r : GetTaskReply) (kva : list KeyValue)
| ReduceOpen (r : GetTaskReply) (intermediate : list KeyValue) (i : Z)
| ReduceCreate (r : GetTaskReply) (lines : list string)
| ReduceWrite (r : GetTaskReply) (lines : list string) (off : nat).

Definition reply_of (a : attempt) : GetTaskReply :=
  match a with
  | MapOpen r | MapCreate r _ _ | MapWrite r _ | ReduceOpen r _ _ | ReduceCreate r _ | ReduceWrite r _ _ => r
  end.

(** The worker has reached the end of its task. *)
Definition finished (a : attempt) : bool :=
  match a with MapWrite _ [] | ReduceWrite _ [] _ => true | _ => false end.

(** Where [Worker] goes with a reply. *)
Definition first_access (r : GetTaskReply) : attempt :=
  if bool_decide (TaskType r = "map"%string) then MapOpen r else ReduceOpen r [] 0.

Section steps.
Context `{JsonStream} `{GoSort}.
Context (mapf : mapFun) (reducef : reduceFun) (files : list string) (n : Z) (fs0 : FS).

(** The next access of an attempt that has not reached its end. *)
Definition access (fs : FS) (a : attempt) : result (FS * attempt) :=
  match a with
  | MapOpen r =>
    content ← readFile fs (FileName r);
    Ok (fs, MapCreate r (mapf (FileName r) content) 0)
  | MapCreate r kva i =>
    if i <? NReduce r then Ok (<[interName (Id r) i := ""%string]> fs, MapCreate r kva (i + 1))
    else Ok (fs, MapWrite r kva)
  | MapWrite r (kv :: kva) => fs ← writePair (Id r) (NReduce r) fs kv; Ok (fs, MapWrite r kva)
  | MapWrite r [] => Ok (fs, a)
  | ReduceOpen r intermediate i =>
    if i <? NMap r then
      more ← readIntermediate fs (Id r) [i];
      Ok (fs, ReduceOpen r (intermediate ++ more) (i + 1))
    else
      lines ← reduceLines reducef (go_sort intermediate);
      Ok (fs, ReduceCreate r lines)
  | ReduceCreate r lines => Ok (<[outName (Id r) := ""%string]> fs, ReduceWrite r lines 0)
  | ReduceWrite r (line :: lines) off =>
    let name := outName (Id r) in
    Ok (<[name := write_at (default ""%string (fs !! name)) off line]> fs,
        ReduceWrite r lines (off + String.length line))
  | ReduceWrite r [] off => Ok (fs, a)
  end.

Record Running := mkRunning {
  r_co : Coordinator;
  r_timers : list (Z * string);
  r_attempts : list attempt;
  r_reports : list MarkCompleteArgs;
  r_dir : FS;
}.

Inductive fine_label :=
| FGet                (* a worker calls GetTask *)
| FAccess (k : nat)   (* the next access of the k-th attempt *)
| FFinish (k : nat)   (* the k-th attempt is at its end: its worker is about to report it *)
| FReport (k : nat)   (* the k-th report reaches the coordinator *)
| FTimer (k : nat)    (* the k-th timer fires *)
| FDie (k : nat)      (* the worker of the k-th attempt dies *)
| FLose (k : nat).    (* the worker with the k-th report dies before it reports *)

(** As [job_step], but for the accesses. *)
Definition fine_step (l : fine_label) (j : Running) : option (result Running) :=
  match l with
  | FGet =>
    let '(c, reply, ts) := GetTask (r_co j) in
    Some (Ok (mkRunning c (r_timers j ++ ts)
      (r_attempts j ++ (if is_task reply then [first_access reply] else [])) (r_reports j) (r_dir j)))
  | FAccess k =>
    a ← r_attempts j !! k;
    if finished a then None
    else Some ('(fs, a) ← access (r_dir j) a;
               Ok (mkRunning (r_co j) (r_timers j) (<[k := a]> (r_attempts j)) (r_reports j) fs))
  | FFinish k =>
    a ← r_attempts j !! k;
    if finished a then
      Some (Ok (mkRunning (r_co j) (r_timers j) (delete k (r_attempts j))
        (r_reports j ++ [mkMarkCompleteArgs (Id (reply_of a)) (TaskType (reply_of a))]) (r_dir j)))
    else None
  | FReport k =>
    args ← r_reports j !! k;
    Some (c ← MarkComplete (r_co j) args;
          Ok (mkRunning c (r_timers j) (r_attempts j) (delete k (r_reports j)) (r_dir j)))
  | FTimer k =>
    '(idx, ty) ← r_timers j !! k;
    Some (c ← DetectStraggler (r_co j) idx ty;
          Ok (mkRunning c (delete k (r_timers j)) (r_attempts j) (r_reports j) (r_dir j)))
  | FDie k =>
    _ ← r_attempts j !! k;
    Some (Ok (mkRunning (r_co j) (r_timers j) (delete k (r_attempts j)) (r_reports j) (r_dir j)))
  | FLose k =>
    _ ← r_reports j !! k;
    Some (Ok (mkRunning (r_co j) (r_timers j) (r_attempts j) (delete k (r_reports j)) (r_dir j)))
  end.

(** The tasks some worker is at, or about to report. *)
Definition task_of (a : attempt) : Z * string := (Id (reply_of a), TaskType (reply_of a)).
Definition report_of (a : MarkCompleteArgs) : Z * string := (mc_Id a, mc_TaskType a).
Definition owners (j : Running) : list (Z * string) :=
  (task_of <$> r_attempts j) ++ (report_of <$> r_reports j).

(** A timer fires for a task only when its worker has reported it or died:
    no live worker needs more than the ten seconds of [DetectStraggler]. *)
Definition on_time (l : fine_label) (j : Running) : bool :=
  match l with
  | FTimer k => match r_timers j !! k with Some t => bool_decide (t ∉ owners j) | None => true end
  | _ => true
  end.

Definition fine_init : Running := mkRunning (MakeCoordinator files n) [] [] [] fs0.

Inductive fine_reach (ok : fine_label -> Running -> bool) : Running -> Prop :=
| fine_reach_init : fine_reach ok fine_init
| fine_reach_step j l j' :
    fine_reach ok j -> ok l j = true -> fine_step l j = Some (Ok j') -> fine_reach ok j'.

Fixpoint fine_run (ok : fine_label -> Running -> bool) (ls : list fine_label) (j : Running)
    : option (result Running) :=
  match ls with
  | [] => Some (Ok j)
  | l :: ls =>
    if ok l j then
      r ← fine_step l j;
      match r with Ok j => fine_run ok ls j | Panic e => Some (Panic e) end
    else None
  end.

Lemma fine_run_reach ok ls j j' :
  fine_reach ok j -> fine_run ok ls j = Some (Ok j') -> fine_reach ok j'.
Proof.
  revert j. induction ls as [|l ls IH]; intros j Hj; simpl; [by intros [= <-]|].
  destruct (ok l j) eqn:Hok; [|done]. destruct (fine_step l j) as [[j1|e]|] eqn:E; simpl; [|done|done].
  apply IH. by eapply fine_reach_step.
Qed.

(** ** What an attempt has done *)

(** The job with every attempt as a task that has not begun. *)
Definition whole (j : Running) : Job :=
  mkJob (r_co j) (r_timers j) (reply_of <$> r_attempts j) (r_reports j) (r_dir j).

(** The part of a task's work that is in the directory. *)
Definition attempt_ok (fs : FS) (a : attempt) : Prop :=
  match a with
  | MapOpen r => TaskType r = "map"%string
  | MapCreate r kva i => TaskType r = "map"%string /\ kva = pairs_of mapf files fs0 (Id r) /\ 0 <= i /\
      forall p, 0 <= p < i -> fs !! interName (Id r) p = Some ""%string
  | MapWrite r kva => TaskType r = "map"%string /\ exists done, pairs_of mapf files fs0 (Id r) = done ++ kva /\
      forall p, 0 <= p < n -> fs !! interName (Id r) p = Some (inter_content n p done)
  | ReduceOpen r acc i => TaskType r = "reduce"%string /\ 0 <= i <= nmap files /\
      acc = concat ((fun m => bucket n (Id r) (pairs_of mapf files fs0 m)) <$> seqZ 0 i)
  | ReduceCreate r lines => TaskType r = "reduce"%string /\
      lines_of mapf reducef files n fs0 (Id r) = Ok lines
  | ReduceWrite r lines off => TaskType r = "reduce"%string /\ exists done,
      lines_of mapf reducef files n fs0 (Id r) = Ok (done ++ lines) /\
      off = String.length (concat_str done) /\ fs !! outName (Id r) = Some (concat_str done)
  end.

(** The files of a task. *)
Definition owns (t : Z * string) (name : string) : Prop :=
  (t.2 = "map"%string /\ exists p, 0 <= p /\ name = interName t.1 p) \/
  (t.2 = "reduce"%string /\ name = outName t.1).

Record fine_inv (j : Running) : Prop := {
  fi_job : job_inv mapf reducef files n fs0 (whole j);
  fi_attempts : Forall (attempt_ok (r_dir j)) (r_attempts j);
  fi_once : NoDup (owners j);
  fi_busy idx ty : (idx, ty) ∈ owners j -> exists t, known (r_co j) idx ty t /\ status t = "in progress"%string;
}.
End steps.
