(* ===== verification/MRJobStepsTheorems.v ===== *)
(** * mr: a job file by file, its invariant and its result

    With no live worker slower than its timer, every task has one attempt at
    a time; its accesses touch its own files only, so a job of interleaved
    accesses ends as the job of atomic tasks does.  Without that assumption
    it does not: the last section runs a job in which a slow worker's file
    is truncated under the reduce tasks. *)

From Stdlib Require Import ZArith Lia Ascii.
From stdpp Require Import base numbers strings pretty gmap list.
From S2P Require Import Prelude MRCoordinator MRWorker MRFiles MRJob Json MRApps MRTheorems MRJobSteps.
Local Open Scope Z_scope.

(** ** Writing at the end of a file *)

Lemma length_list_ascii s : length (String.list_ascii_of_string s) = String.length s.
Proof. induction s as [|c s IH]; [done|]. simpl. by rewrite IH. Qed.

Lemma list_ascii_app s t :
  String.list_ascii_of_string (s +:+ t) = String.list_ascii_of_string s ++ String.list_ascii_of_string t.
Proof. induction s as [|c s IH]; [done|]. simpl. by rewrite <- IH. Qed.

Lemma write_at_end c s : write_at c (String.length c) s = c +:+ s.
Proof.
  unfold write_at. rewrite <- length_list_ascii, Nat.sub_diag. simpl. rewrite app_nil_r.
  rewrite firstn_all, drop_ge by lia. rewrite app_nil_r, <- list_ascii_app.
  apply String.string_of_list_ascii_of_string.
Qed.

Lemma concat_str_snoc l s : concat_str (l ++ [s]) = concat_str l +:+ s.
Proof.
  induction l as [|x l IH]; simpl; [apply string_app_nil|].
  rewrite string_app_assoc. by f_equal.
Qed.

Lemma length_string_app s t : String.length (s +:+ t) = (String.length s + String.length t)%nat.
Proof. induction s as [|c s IH]; [done|]. simpl. by rewrite <- IH. Qed.

Section steps.
Context `{JsonStream} `{GoSort}.
Context (mapf : mapFun) (reducef : reduceFun) (files : list string) (n : Z) (fs0 : FS).
Context (Hrun : runnable mapf files n fs0).

Abbreviation pairs := (pairs_of mapf files fs0).
Abbreviation attempt_ok := (attempt_ok mapf reducef files n fs0).
Abbreviation task_done := (task_done mapf reducef files n fs0).
Abbreviation task_id := (task_id files n).
Abbreviation job_inv := (job_inv mapf reducef files n fs0).
Abbreviation fine_inv := (fine_inv mapf reducef files n fs0).
Abbreviation good_reply := (good_reply files n).

(** ** The files of a task are its own *)

Lemma owns_disjoint t t' name : task_id t.1 t.2 -> task_id t'.1 t'.2 -> owns t name -> owns t' name -> t = t'.
Proof.
  destruct t as [i ty], t' as [i' ty']. unfold owns. simpl.
  intros Ht Ht' [(-> & p & Hp & ->)|(-> & ->)] [(-> & p' & Hp' & E)|(-> & E)].
  - destruct Ht as [[_ Ht]|[? _]], Ht' as [[_ Ht']|[? _]]; try done.
    apply interName_inj in E as [-> _]; [done|lia|lia].
  - destruct Ht as [[_ Ht]|[? _]]; [|done]. by apply interName_outName in E; [|lia].
  - destruct Ht' as [[_ Ht']|[? _]]; [|done]. symmetry in E. by apply interName_outName in E; [|lia].
  - apply outName_inj in E as ->. done.
Qed.

Lemma owns_input t name : task_id t.1 t.2 -> owns t name -> name ∉ files.
Proof.
  destruct t as [i ty]. intros Ht [(Ety & p & Hp & ->)|(Ety & ->)] Hin; simpl in *; subst ty.
  - destruct Ht as [[_ Ht]|[? _]]; [|done]. apply (ru_inter _ _ _ _ Hrun (interName i p) i p Hin); [lia|done].
  - by eapply (ru_out _ _ _ _ Hrun).
Qed.

Definition same_files (t : Z * string) (fs fs' : FS) : Prop :=
  forall name, owns t name -> fs' !! name = fs !! name.

(** Only the files of [t] differ. *)
Definition touches (t : Z * string) (fs fs' : FS) : Prop :=
  forall name, ~ owns t name -> fs' !! name = fs !! name.

Lemma touches_others t t' fs fs' :
  task_id t.1 t.2 -> task_id t'.1 t'.2 -> t <> t' -> touches t fs fs' -> same_files t' fs fs'.
Proof. intros Ht Ht' Hne Hf name Hn. apply Hf. intros Hn'. by apply Hne, (owns_disjoint _ _ name). Qed.

Lemma touches_inputs t fs fs' :
  task_id t.1 t.2 -> touches t fs fs' -> inputs_kept files fs0 fs -> inputs_kept files fs0 fs'.
Proof.
  intros Ht Hf Hk name Hin. rewrite Hf; [by apply Hk|]. intros Hn. by eapply owns_input.
Qed.

Lemma touches_insert t name s (fs : FS) : owns t name -> touches t fs (<[name := s]> fs).
Proof. intros Hn name' Hn'. apply lookup_insert_ne. by intros ->. Qed.

Lemma task_done_frame t fs fs' :
  task_id t.1 t.2 -> same_files t fs fs' -> task_done fs t.1 t.2 -> task_done fs' t.1 t.2.
Proof.
  destruct t as [i ty]. simpl. intros [[-> Hi]|[-> Hi]] Hs; unfold MRJob.task_done; simpl.
  - intros Hd p Hp. rewrite Hs; [by apply Hd|]. left. simpl. split; [done|]. exists p. split; [lia|done].
  - intros (lines & El & Ef). exists lines. split; [done|]. rewrite Hs; [done|]. by right.
Qed.

Lemma attempt_ok_frame a fs fs' : same_files (task_of a) fs fs' -> attempt_ok fs a -> attempt_ok fs' a.
Proof.
  unfold task_of. destruct a as [r|r kva i|r kva|r acc i|r lines|r lines off]; simpl; intros Hs; try done.
  - intros (Et & E & Hi & Hf). split_and!; try done. intros p Hp. rewrite Hs; [by apply Hf|].
    left. simpl. split; [done|]. exists p. split; [lia|done].
  - intros (Et & dn & E & Hf). split; [done|]. exists dn. split; [done|]. intros p Hp.
    rewrite Hs; [by apply Hf|]. left. simpl. split; [done|]. exists p. split; [lia|done].
  - intros (Et & dn & E & Ho & Hf). split; [done|]. exists dn. split_and!; try done.
    rewrite Hs; [done|]. by right.
Qed.

(** ** One access *)

Definition access_spec (fs : FS) (a : attempt) : Prop :=
  exists fs' a', access mapf reducef fs a = Ok (fs', a') /\ reply_of a' = reply_of a /\
    attempt_ok fs' a' /\ touches (task_of a) fs fs'.

Lemma touches_refl t fs : touches t fs fs.
Proof. by intros name _. Qed.

Lemma inter_content_snoc q (l : list KeyValue) kv p :
  Z.rem (ihash (Key kv)) n = q ->
  inter_content n p (l ++ [kv]) =
    if decide (p = q) then inter_content n p l +:+ json_line kv else inter_content n p l.
Proof.
  intros <-. unfold inter_content, bucket. rewrite filter_app, filter_cons, filter_nil.
  case_decide; [subst p; rewrite decide_True by done|rewrite decide_False by done].
  - rewrite fmap_app. apply concat_str_snoc.
  - by rewrite app_nil_r.
Qed.

Lemma attempt_type fs a : attempt_ok fs a ->
  TaskType (reply_of a) = match a with MapOpen _ | MapCreate _ _ _ | MapWrite _ _ => "map" | _ => "reduce" end%string.
Proof. by destruct a; simpl; intuition. Qed.

#[local] Arguments readIntermediate : simpl never.

Lemma access_map fs a c :
  TaskType (reply_of a) = "map"%string -> good_reply c (reply_of a) -> inputs_kept files fs0 fs ->
  attempt_ok fs a -> finished a = false -> access_spec fs a.
Proof using Hrun.
  intros Et Hg Hk Ha Hf. unfold access_spec. pose proof (attempt_type _ _ Ha) as Et2. rewrite Et in Et2.
  destruct Hg as [(_ & Hid & Hname & En)|(Et' & _)]; [|congruence].
  destruct a as [r|r kva i|r [|kv kva]|r acc i|r lines|r lines off]; simpl in *; try done.
  - unfold readFile. rewrite Hk by (by eapply list_elem_of_lookup_2).
    rewrite (input_content _ _ _ _ Hrun) by (by eapply list_elem_of_lookup_2). go_run.
    do 2 eexists. split_and!; [done|done| |apply touches_refl]. simpl.
    split_and!; [done| |lia|lia]. symmetry. by apply pairs_of_lookup.
  - destruct Ha as (_ & E & Hi & Hfs). rewrite En. destruct (Z.ltb_spec i n) as [Hlt|Hge].
    + do 2 eexists. split_and!; [done|done| |].
      * simpl. split_and!; [done|done|lia|]. intros p Hp. destruct (decide (p = i)) as [->|Hne].
        { apply lookup_insert_eq. }
        rewrite lookup_insert_ne; [apply Hfs; lia|]. intros Eq. by apply interName_inj in Eq as [_ ?].
      * apply touches_insert. left. simpl. split; [done|]. by exists i.
    + do 2 eexists. split_and!; [done|done| |apply touches_refl]. simpl. split; [done|].
      exists []. split; [done|]. intros p Hp. rewrite Hfs by lia. done.
  - destruct Ha as (_ & dn & E & Hfs). rewrite En. unfold writePair.
    destruct (partition_Ok n (Key kv) (ru_n _ _ _ _ Hrun)) as [-> Hq]. go_run.
    rewrite (Hfs _ Hq). set (q := Z.rem (ihash (Key kv)) n) in *. simpl.
    do 2 eexists. split_and!; [done|done| |].
    + simpl. split; [done|]. exists (dn ++ [kv]). split; [by rewrite <- app_assoc|].
      intros p Hp. rewrite (inter_content_snoc q) by done. case_decide as Epq.
      * subst p. apply lookup_insert_eq.
      * rewrite lookup_insert_ne; [by apply Hfs|]. intros Eq. apply interName_inj in Eq as [_ ?]; done.
    + apply touches_insert. left. simpl. split; [done|]. exists q. split; [lia|done].
Qed.

Lemma access_reduce fs a c :
  TaskType (reply_of a) = "reduce"%string -> good_reply c (reply_of a) ->
  (forall i, 0 <= i < nmap files -> map_done mapf files n fs0 fs i) ->
  attempt_ok fs a -> finished a = false -> access_spec fs a.
Proof using Hrun.
  intros Et Hg Hm Ha Hf. unfold access_spec. pose proof (attempt_type _ _ Ha) as Et2. rewrite Et in Et2.
  destruct Hg as [(Et' & _)|(_ & Hid & En & _)]; [congruence|].
  destruct a as [r|r kva i|r [|kv kva]|r acc i|r lines|r [|line lines] off]; simpl in *; try done.
  - destruct Ha as (_ & Hi & E). rewrite En. destruct (Z.ltb_spec i (nmap files)) as [Hlt|Hge].
    + rewrite (readIntermediate_spec mapf files n fs0 Hrun fs (Id r) [i] Hid)
        by (intros x ->%list_elem_of_singleton; split; [lia|apply Hm; lia]).
      go_run. do 2 eexists. split_and!; [done|done| |apply touches_refl]. simpl.
      split_and!; [done|lia|lia|]. rewrite E, seqZ_app by lia. simpl.
      rewrite fmap_app, concat_app. done.
    + assert (i = nmap files) as -> by lia.
      assert (acc = bucket n (Id r) (all_pairs mapf files fs0)) as ->.
      { rewrite E, all_pairs_concat, bucket_concat, <- list_fmap_compose. done. }
      destruct (reduceLines_spec reducef (bucket n (Id r) (all_pairs mapf files fs0)))
        as (ks & _ & _ & El).
      rewrite El. go_run. do 2 eexists. split_and!; [done|done| |apply touches_refl]. done.
  - destruct Ha as (_ & El). do 2 eexists. split_and!; [done|done| |].
    + simpl. split; [done|]. exists []. split_and!; [done|done|apply lookup_insert_eq].
    + apply touches_insert. by right.
  - destruct Ha as (_ & dn & El & Ho & Hfs). do 2 eexists. split_and!; [done|done| |].
    + simpl. split; [done|]. exists (dn ++ [line]). rewrite <- app_assoc, concat_str_snoc.
      split_and!; [done|by rewrite length_string_app, Ho|].
      rewrite Hfs. simpl. rewrite Ho, write_at_end. apply lookup_insert_eq.
    + apply touches_insert. by right.
Qed.

(** An attempt at its end has done its task. *)
Lemma finished_done fs a :
  attempt_ok fs a -> finished a = true -> task_done fs (Id (reply_of a)) (TaskType (reply_of a)).
Proof.
  intros Ha Hf. rewrite (attempt_type _ _ Ha). unfold MRJob.task_done.
  destruct a as [r|r kva i|r [|kv kva]|r acc i|r lines|r [|line lines] off]; simpl in *; try done.
  - destruct Ha as (_ & dn & E & Hfs). rewrite app_nil_r in E. subst dn. exact Hfs.
  - destruct Ha as (_ & dn & El & _ & Hfs). rewrite app_nil_r in El. by exists dn.
Qed.

Lemma first_access_ok c fs r : good_reply c r -> attempt_ok fs (first_access r) /\ reply_of (first_access r) = r.
Proof.
  intros [(Et & _)|(Et & Hid & En & _)]; unfold first_access; rewrite Et; simpl; [done|].
  split_and!; try done. apply len_nonneg.
Qed.

(** ** The invariant is kept *)

Abbreviation fine_step := (fine_step mapf reducef).
Abbreviation whole_inv := (fi_job mapf reducef files n fs0).

Lemma fine_inv_init : fine_inv (fine_init files n fs0).
Proof using Hrun.
  constructor; [by apply job_inv_init|constructor|constructor|]. by intros idx ty ?%elem_of_nil.
Qed.

Lemma attempt_task j k a :
  fine_inv j -> r_attempts j !! k = Some a ->
  good_reply (r_co j) (reply_of a) /\ attempt_ok (r_dir j) a /\
  task_id (task_of a).1 (task_of a).2 /\ task_of a ∈ owners j.
Proof.
  intros Hi Hk.
  assert (task_of a ∈ owners j) as Hin.
  { unfold owners. apply elem_of_app. left. by eapply list_elem_of_fmap_2, list_elem_of_lookup_2. }
  split_and!; [|by eapply Forall_lookup_1, Hk; apply Hi| |done].
  - eapply Forall_lookup_1; [apply (ji_assigned _ _ _ _ _ _ (whole_inv j Hi))|].
    simpl. by rewrite list_lookup_fmap, Hk.
  - unfold task_of in *. destruct (fi_busy _ _ _ _ _ _ Hi _ _ Hin) as (t & Hkn & _).
    by eapply known_id; [apply (ji_co _ _ _ _ _ _ (whole_inv j Hi))|].
Qed.

(** Tasks other than those of [j]'s owners. *)
Lemma owners_delete_attempt j k a :
  r_attempts j !! k = Some a ->
  owners j ≡ₚ task_of a :: (task_of <$> delete k (r_attempts j)) ++ (report_of <$> r_reports j).
Proof. intros Hk. unfold owners. by rewrite (delete_Permutation _ _ _ Hk) at 1. Qed.

Lemma owners_delete_report j k a :
  r_reports j !! k = Some a ->
  owners j ≡ₚ report_of a :: (task_of <$> r_attempts j) ++ (report_of <$> delete k (r_reports j)).
Proof.
  intros Hk. unfold owners. rewrite (delete_Permutation _ _ _ Hk) at 1. simpl.
  by rewrite <- Permutation_middle.
Qed.

(** Fewer owners, nothing else changed. *)
Lemma fine_inv_less j atts reps t :
  fine_inv j -> owners j ≡ₚ t :: (task_of <$> atts) ++ (report_of <$> reps) ->
  Forall (fun a => a ∈ r_attempts j) atts -> Forall (fun a => a ∈ r_reports j) reps ->
  fine_inv (mkRunning (r_co j) (r_timers j) atts reps (r_dir j)).
Proof.
  intros [Hj Ha Ho Hb] Hp Hat Hre. rewrite Hp in Ho. apply NoDup_cons in Ho as [_ Ho].
  rewrite Forall_forall in Ha. rewrite Forall_forall in Hat. rewrite Forall_forall in Hre.
  constructor; simpl.
  - destruct Hj. constructor; simpl in *; try done.
    + apply Forall_forall. intros r (a & -> & Hin)%list_elem_of_fmap_1.
      rewrite Forall_forall in ji_assigned. apply ji_assigned, list_elem_of_fmap_2. by apply Hat.
    + apply Forall_forall. intros a Hin. rewrite Forall_forall in ji_reports.
      by apply ji_reports, Hre.
  - apply Forall_forall. intros a Hin. by apply Ha, Hat.
  - exact Ho.
  - intros idx ty Hin. apply Hb. rewrite Hp. by right.
Qed.

Lemma Forall_sub_delete {A} (l : list A) k : Forall (fun a => a ∈ l) (delete k l).
Proof. apply Forall_delete, Forall_forall. done. Qed.

Lemma fine_inv_die j k a :
  fine_inv j -> r_attempts j !! k = Some a ->
  fine_inv (mkRunning (r_co j) (r_timers j) (delete k (r_attempts j)) (r_reports j) (r_dir j)).
Proof.
  intros Hi Hk. eapply fine_inv_less; [done|by apply owners_delete_attempt|apply Forall_sub_delete|].
  by apply Forall_forall.
Qed.

Lemma fine_inv_lose j k a :
  fine_inv j -> r_reports j !! k = Some a ->
  fine_inv (mkRunning (r_co j) (r_timers j) (r_attempts j) (delete k (r_reports j)) (r_dir j)).
Proof.
  intros Hi Hk. eapply fine_inv_less; [done|by apply owners_delete_report| |apply Forall_sub_delete].
  by apply Forall_forall.
Qed.

Lemma fine_inv_finish j k a :
  fine_inv j -> r_attempts j !! k = Some a -> finished a = true ->
  fine_inv (mkRunning (r_co j) (r_timers j) (delete k (r_attempts j))
    (r_reports j ++ [mkMarkCompleteArgs (Id (reply_of a)) (TaskType (reply_of a))]) (r_dir j)).
Proof.
  intros Hi Hk Hf. destruct (attempt_task j k a Hi Hk) as (Hg & Ha & Hid & _).
  pose proof (owners_delete_attempt j k a Hk) as Hp.
  pose proof (fine_inv_die j k a Hi Hk) as [Hj Hat _ _].
  assert (owners j ≡ₚ owners (mkRunning (r_co j) (r_timers j) (delete k (r_attempts j))
    (r_reports j ++ [mkMarkCompleteArgs (Id (reply_of a)) (TaskType (reply_of a))]) (r_dir j))) as Hsame.
  { rewrite Hp. unfold owners. simpl. rewrite fmap_app, app_assoc. simpl.
    by rewrite Permutation_cons_append. }
  constructor; simpl; [|done|by rewrite <- Hsame; apply Hi|].
  - destruct Hj. constructor; simpl in *; try done.
    apply Forall_app. split; [done|]. apply Forall_singleton. simpl. split; [done|].
    by apply finished_done.
  - intros idx ty Hin. rewrite <- Hsame in Hin. by apply (fi_busy _ _ _ _ _ _ Hi).
Qed.

Lemma fine_inv_access j k a :
  fine_inv j -> r_attempts j !! k = Some a -> finished a = false ->
  exists fs' a', access mapf reducef (r_dir j) a = Ok (fs', a') /\
    fine_inv (mkRunning (r_co j) (r_timers j) (<[k := a']> (r_attempts j)) (r_reports j) fs').
Proof using Hrun.
  intros Hi Hk Hf. destruct (attempt_task j k a Hi Hk) as (Hg & Ha & Hid & Hown).
  assert (access_spec (r_dir j) a) as (fs' & a' & E & Er & Ha' & Ht).
  { destruct (Hg) as [(Et & _)|(Et & _ & _ & Hall)].
    - eapply access_map; try done. exact (ji_inputs _ _ _ _ _ _ (whole_inv j Hi)).
    - eapply access_reduce; try done. intros i Hin.
      by apply (completed_maps _ _ _ _ _ (whole j) (whole_inv j Hi)). }
  exists fs', a'. split; [exact E|]. destruct Hi as [Hj Hat Ho Hb].
  assert (task_of a' = task_of a) as Etask by (unfold task_of; by rewrite Er).
  assert (task_of <$> <[k := a']> (r_attempts j) = task_of <$> r_attempts j) as Eat.
  { rewrite list_fmap_insert, Etask. apply list_insert_id. by rewrite list_lookup_fmap, Hk. }
  assert (forall t, task_id t.1 t.2 -> t <> task_of a -> task_done (r_dir j) t.1 t.2 ->
    task_done fs' t.1 t.2) as Hdone.
  { intros t Hid' Hne. apply task_done_frame; [done|]. exact (touches_others (task_of a) t _ _ Hid Hid' (not_eq_sym Hne) Ht). }
  assert (NoDup (task_of <$> r_attempts j) /\
    (forall x, x ∈ task_of <$> r_attempts j -> x ∉ report_of <$> r_reports j)) as [Hnd Hdis].
  { unfold owners in Ho. apply NoDup_app in Ho as (? & ? & _). done. }
  constructor; simpl.
  - destruct Hj. constructor; simpl in *; try done.
    + rewrite list_fmap_insert, Er. by rewrite list_insert_id by (by rewrite list_lookup_fmap, Hk).
    + eapply Forall_impl; [by apply Forall_and; split; [apply ji_reports|apply Forall_forall; intros x Hx; exact Hx]|].
      intros x [[Hx Hd] Hin]. split; [done|]. apply (Hdone (report_of x)); [done| |done].
      intros Eq. apply (Hdis (task_of a)).
      * by eapply list_elem_of_fmap_2, list_elem_of_lookup_2.
      * rewrite <- Eq. by apply list_elem_of_fmap_2.
    + intros idx ty t Hkn Hs. apply (Hdone (idx, ty)); [by eapply known_id| |by eapply ji_done].
      intros Eq. rewrite <- Eq in Hown. destruct (Hb _ _ Hown) as (t' & Hkn' & Hs').
      rewrite (known_fun _ _ _ _ _ Hkn Hkn') in Hs. congruence.
    + exact (touches_inputs (task_of a) _ _ Hid Ht ji_inputs).
  - apply Forall_lookup. intros i b Hb'. destruct (lookup_update _ _ _ _ _ _ Hk Hb') as [[_ ->]|[Hne Hb2]]; [done|].
    eapply attempt_ok_frame; [|by eapply Forall_lookup_1, Hb2].
    apply (touches_others (task_of a) _ _ _ Hid); [| |exact Ht].
    + assert (task_of b ∈ owners j) as Hbo.
      { unfold owners. apply elem_of_app. left. by eapply list_elem_of_fmap_2, list_elem_of_lookup_2. }
      destruct (Hb _ _ Hbo) as (t & Hkn & _). by eapply known_id; [apply Hj|].
    + intros Eq. apply Hne. eapply (NoDup_lookup _ i k (task_of a) Hnd); rewrite list_lookup_fmap.
      * by rewrite Hb2, Eq.
      * by rewrite Hk.
  - unfold owners. simpl. by rewrite Eat.
  - unfold owners. simpl. by rewrite Eat.
Qed.

Lemma fine_inv_get j c r ts :
  fine_inv j -> GetTask (r_co j) = (c, r, ts) ->
  fine_inv (mkRunning c (r_timers j ++ ts)
    (r_attempts j ++ (if is_task r then [first_access r] else [])) (r_reports j) (r_dir j)).
Proof using Hrun.
  intros Hi HG. pose proof (job_inv_get _ _ _ _ _ (whole j) c r ts (whole_inv j Hi) HG) as Hj'.
  destruct Hi as [Hj Hat Ho Hb]. pose proof (ji_co _ _ _ _ _ _ Hj) as Hw. simpl in Hw.
  destruct (GetTask_task _ _ _ _ _ _ Hw HG) as [(Er & -> & ->)|(t & Er & Hk & Hs & Ec & -> & Hg)];
    rewrite Er in *.
  { rewrite !app_nil_r in *. constructor; done. }
  destruct (first_access_ok c (r_dir j) r Hg) as [Ha Erep].
  assert (task_of (first_access r) = (Id r, TaskType r)) as Et by (unfold task_of; by rewrite Erep).
  assert (owners (mkRunning c (r_timers j ++ [(Id r, TaskType r)]) (r_attempts j ++ [first_access r])
    (r_reports j) (r_dir j)) ≡ₚ (Id r, TaskType r) :: owners j) as Hp.
  { unfold owners. simpl. rewrite fmap_app. simpl. rewrite Et, <- app_assoc. simpl.
    symmetry. apply Permutation_middle. }
  constructor; simpl.
  - unfold whole in *. simpl in *. by rewrite fmap_app; simpl; rewrite Erep.
  - apply Forall_app. split; [done|]. by apply Forall_singleton.
  - rewrite Hp. apply NoDup_cons. split; [|done]. intros Hin.
    destruct (Hb _ _ Hin) as (t' & Hk' & Hs'). rewrite (known_fun _ _ _ _ _ Hk Hk') in Hs. congruence.
  - intros idx ty Hin. rewrite Hp in Hin. subst c.
    destruct (decide ((idx, ty) = (Id r, TaskType r))) as [[= -> ->]|Hne].
    + exists (set_status "in progress" t). split; [by apply known_kept|done].
    + apply elem_of_cons in Hin as [?|Hin]; [done|]. destruct (Hb _ _ Hin) as (t' & Hk' & Hs').
      exists t'. split; [by apply known_other|done].
Qed.

(** A task nobody is at gets another status, or none does. *)
Lemma fine_inv_status j c ts k idx ty :
  fine_inv j -> (idx, ty) ∉ owners (mkRunning c ts (r_attempts j) (delete k (r_reports j)) (r_dir j)) ->
  (c = r_co j \/ exists t s d, known (r_co j) idx ty t /\ c = with_status (r_co j) idx ty t s d) ->
  job_inv (mkJob c ts (reply_of <$> r_attempts j) (delete k (r_reports j)) (r_dir j)) ->
  fine_inv (mkRunning c ts (r_attempts j) (delete k (r_reports j)) (r_dir j)).
Proof.
  intros [Hj Hat Ho Hb] Hn Hc Hj'.
  assert (owners (mkRunning c ts (r_attempts j) (delete k (r_reports j)) (r_dir j)) `sublist_of` owners j) as Hsub.
  { unfold owners. simpl. apply sublist_app; [done|]. apply list.fmap_sublist, sublist_delete. }
  constructor; simpl; [done|done|by eapply sublist_NoDup|].
  intros idx' ty' Hin. destruct (Hb idx' ty') as (t' & Hk' & Hs'); [by eapply elem_of_sublist|].
  exists t'. split; [|done]. destruct Hc as [->|(t & s & d & Hk & ->)]; [done|].
  apply known_other; [done|done|]. by intros [= -> ->].
Qed.

Lemma fine_inv_report j k a :
  fine_inv j -> r_reports j !! k = Some a ->
  exists c, MarkComplete (r_co j) a = Ok c /\
    fine_inv (mkRunning c (r_timers j) (r_attempts j) (delete k (r_reports j)) (r_dir j)).
Proof using Hrun.
  intros Hi Hk. destruct (job_inv_report _ _ _ _ _ Hrun (whole j) k a (whole_inv j Hi) Hk) as (c & E & Hj).
  exists c. split; [exact E|]. pose proof (owners_delete_report j k a Hk) as Hp.
  pose proof (fi_once _ _ _ _ _ _ Hi) as Hnd. rewrite Hp in Hnd. apply NoDup_cons in Hnd as [Hn _].
  destruct a as [idx ty]. eapply fine_inv_status; [exact Hi|exact Hn| |exact Hj].
  destruct (fi_busy _ _ _ _ _ _ Hi idx ty) as (t & Hkn & _); [rewrite Hp; left|].
  simpl in E. rewrite (MarkComplete_spec _ _ _ _ Hkn) in E. injection E as <-.
  case_decide; [right; eauto|by left].
Qed.

Lemma fine_inv_timer j k idx ty :
  fine_inv j -> r_timers j !! k = Some (idx, ty) -> (idx, ty) ∉ owners j ->
  exists c, DetectStraggler (r_co j) idx ty = Ok c /\
    fine_inv (mkRunning c (delete k (r_timers j)) (r_attempts j) (r_reports j) (r_dir j)).
Proof using Hrun.
  intros Hi Hk Hn. pose proof (whole_inv j Hi) as Hj.
  destruct (job_inv_timer _ _ _ _ _ Hrun (whole j) k idx ty Hj Hk) as (c & E & Hj').
  exists c. split; [exact E|]. simpl in E.
  pose proof (Forall_lookup_1 _ _ _ _ (ji_timers _ _ _ _ _ _ Hj) Hk) as Hid.
  destruct (known_exists _ _ _ _ _ (ji_co _ _ _ _ _ _ Hj) Hid) as [t Hkn]. simpl in Hkn.
  rewrite (DetectStraggler_spec _ _ _ _ Hkn) in E. injection E as <-.
  destruct Hi as [_ Hat Ho Hb]. constructor; simpl; try done.
  intros idx' ty' Hin. destruct (Hb _ _ Hin) as (t' & Hk' & Hs'). exists t'. split; [|done].
  case_decide; [|done]. apply known_other; [done|done|]. by intros [= -> ->].
Qed.

Lemma fine_step_inv l j r :
  fine_inv j -> on_time l j = true -> fine_step l j = Some r -> exists j', r = Ok j' /\ fine_inv j'.
Proof using Hrun.
  intros Hi Hot Hst. destruct l as [|k|k|k|k|k|k]; cbn [MRJobSteps.fine_step on_time] in Hst, Hot.
  - destruct (GetTask (r_co j)) as [[c r0] ts] eqn:E. injection Hst as <-. eexists.
    split; [done|]. by apply fine_inv_get.
  - apply bind_Some in Hst as (a & Hk & Hst). destruct (finished a) eqn:Hf; [done|]. injection Hst as <-.
    destruct (fine_inv_access j k a Hi Hk Hf) as (fs' & a' & -> & Hi'). go_run. by eexists.
  - apply bind_Some in Hst as (a & Hk & Hst). destruct (finished a) eqn:Hf; [|done]. injection Hst as <-.
    eexists. split; [done|]. by apply fine_inv_finish.
  - apply bind_Some in Hst as (a & Hk & [= <-]).
    destruct (fine_inv_report j k a Hi Hk) as (c & -> & Hi'). go_run. by eexists.
  - apply bind_Some in Hst as ([idx ty] & Hk & [= <-]). rewrite Hk in Hot. apply bool_decide_eq_true in Hot.
    destruct (fine_inv_timer j k idx ty Hi Hk Hot) as (c & -> & Hi'). go_run. by eexists.
  - apply bind_Some in Hst as (a & Hk & [= <-]). eexists. split; [done|]. by eapply fine_inv_die.
  - apply bind_Some in Hst as (a & Hk & [= <-]). eexists. split; [done|]. by eapply fine_inv_lose.
Qed.

Lemma fine_reach_inv j : fine_reach mapf reducef files n fs0 on_time j -> fine_inv j.
Proof using Hrun.
  induction 1 as [|j l j' _ IH Hot Hst]; [apply fine_inv_init|].
  by destruct (fine_step_inv _ _ _ IH Hot Hst) as (j'' & [= <-] & ?).
Qed.
End steps.

Section theorems.
Context `{JsonStream} `{GoSort}.
Context (mapf : mapFun) (reducef : reduceFun) (files : list string) (n : Z) (fs0 : FS).

(** C10: tasks interleaved file by file.  Let the job be [runnable], with any
    number of reduce tasks, and Reduce not depend on the order of the values.
    Workers open, create, append to and
    read the shared files one at a time, in any interleaving, and may die
    half-way through a task; a dead worker's task is done again.  As long as
    no timer fires for a task whose worker is still at it, no step panics,
    and when the job is done its output files together hold a permutation of
    the lines [mrsequential.go] writes. *)
Theorem interleaved_job_matches_sequential j :
  runnable mapf files n fs0 -> order_free reducef ->
  fine_reach mapf reducef files n fs0 on_time j ->
  (forall l e, on_time l j = true -> fine_step mapf reducef l j <> Some (Panic e)) /\
  (Done (r_co j) = true ->
   exists lines outs,
     sequential mapf reducef fs0 files = Ok (<[outName 0 := concat_str lines]> fs0) /\
     len outs = n /\
     (forall p out, outs !! p = Some out -> r_dir j !! outName (Z.of_nat p) = Some (concat_str out)) /\
     concat outs ≡ₚ lines).
Proof.
  intros Hrun Hfree Hj. pose proof (fine_reach_inv _ _ _ _ _ Hrun _ Hj) as Hi. split.
  - intros l e Hot Hst. by destruct (fine_step_inv _ _ _ _ _ Hrun _ _ _ Hi Hot Hst) as (? & ? & _).
  - intros Hd. destruct (sequential_lines mapf reducef files n fs0 Hfree Hrun)
      as (ks & outs & _ & _ & E & Hall & Hp).
    destruct (inv_outputs mapf reducef files n fs0 (whole j) outs Hrun (fi_job _ _ _ _ _ _ Hi) Hd Hall)
      as [Hlen Hout].
    by eexists _, outs.
Qed.
End theorems.

(** ** Runs *)

#[local] Existing Instance merge_go_sort.

Definition both (m : nat) : list fine_label := mjoin (replicate m [FAccess 0; FAccess 1]).
Definition finish_both : list fine_label := [FFinish 0; FFinish 0; FReport 0; FReport 0].

(** The state a run ends in. *)
Definition fine_end (mapf : mapFun) (reducef : reduceFun) (ok : fine_label -> Running -> bool)
    (ls : list fine_label) (j : Running) : Running :=
  match fine_run mapf reducef ok ls j with Some (Ok j') => j' | _ => j end.

Lemma fine_end_reach mapf reducef files n fs0 ok ls :
  fine_reach mapf reducef files n fs0 ok (fine_end mapf reducef ok ls (fine_init files n fs0)).
Proof.
  unfold fine_end. destruct (fine_run _ _ _ _ _) as [[j|]|] eqn:E; try apply fine_reach_init.
  eapply fine_run_reach; [apply fine_reach_init|exact E].
Qed.

(** A worker dies with one pair of the first file written; two workers then
    do all tasks, access by access in turn. *)
Definition interleaved_labels : list fine_label :=
  [FGet] ++ replicate 5 (FAccess 0) ++ [FDie 0; FTimer 0; FGet; FGet] ++ both 6 ++ finish_both ++
  [FGet; FGet] ++ both 5 ++ [FAccess 0] ++ finish_both.

Definition interleaved_job : Running :=
  fine_end demo_map demo_reduce on_time interleaved_labels (fine_init demo_files 2 demo_fs).

Lemma interleaved_job_matches_sequential_witness :
  Done (r_co interleaved_job) = true /\ r_dir interleaved_job !! "mr-out-1"%string <> None /\
  (forall l e, on_time l interleaved_job = true ->
     fine_step demo_map demo_reduce l interleaved_job <> Some (Panic e)) /\
  (Done (r_co interleaved_job) = true ->
   exists lines outs,
     sequential demo_map demo_reduce demo_fs demo_files
       = Ok (<[outName 0 := concat_str lines]> demo_fs) /\
     len outs = 2 /\
     (forall p out, outs !! p = Some out ->
        r_dir interleaved_job !! outName (Z.of_nat p) = Some (concat_str out)) /\
     concat outs ≡ₚ lines).
Proof.
  split; [vm_compute; reflexivity|]. split; [vm_compute; discriminate|].
  apply (interleaved_job_matches_sequential demo_map demo_reduce demo_files 2 demo_fs);
    [apply demo_runnable|apply demo_order_free|apply fine_end_reach].
Defined.

(** *** Workers slower than their timers *)

Definition any_time (l : fine_label) (j : Running) : bool := true.

(** A worker reads the first file and stops; its timer fires and another
    worker does the task, and the other map task; the first worker goes on,
    creates its intermediate files anew and dies; the reduce tasks run. *)
Definition late_labels : list fine_label :=
  [FGet; FAccess 0; FTimer 0; FGet; FGet] ++ replicate 6 (FAccess 1) ++ [FFinish 1; FReport 0] ++
  replicate 6 (FAccess 1) ++ [FFinish 1; FReport 0] ++ replicate 3 (FAccess 0) ++ [FDie 0; FGet; FGet] ++
  both 4 ++ [FAccess 0; FAccess 0] ++ finish_both.

(** A late attempt at a map task empties the files of a completed one: the
    job finishes with all pairs of the first input missing. *)
Theorem late_map_loses_pairs :
  exists j, fine_reach demo_map demo_reduce demo_files 2 demo_fs any_time j /\ Done (r_co j) = true /\
    r_dir j !! "mr-out-0"%string = Some ("all 1" +:+ newline +:+ "y 1" +:+ newline) /\
    r_dir j !! "mr-out-1"%string = Some ""%string /\
    exists fs, sequential demo_map demo_reduce demo_fs demo_files = Ok fs /\
      fs !! "mr-out-0"%string = Some ("all 2" +:+ newline +:+ "x 1" +:+ newline +:+ "y 1" +:+ newline).
Proof.
  exists (fine_end demo_map demo_reduce any_time late_labels (fine_init demo_files 2 demo_fs)).
  split; [apply fine_end_reach|]. split_and!; [vm_compute; reflexivity..|].
  eexists. split; vm_compute; reflexivity.
Qed.

(** Two attempts at the map task of the only file: both create its
    intermediate file, then both append their pair. *)
Definition overlap_labels : list fine_label :=
  [FGet] ++ replicate 3 (FAccess 0) ++ [FTimer 0; FGet] ++ replicate 3 (FAccess 1) ++ both 1 ++
  [FFinish 0; FReport 0; FGet] ++ replicate 4 (FAccess 1) ++ [FFinish 1; FReport 0].

(** early_exit.go then counts its file twice. *)
Theorem overlapping_maps_count_twice :
  exists j, fine_reach EarlyExit.Map EarlyExit.Reduce ["x"]%string 1 demo_fs any_time j /\
    Done (r_co j) = true /\
    r_dir j !! "mr-out-0"%string = Some ("x 2" +:+ newline) /\
    exists fs, sequential EarlyExit.Map EarlyExit.Reduce demo_fs ["x"]%string = Ok fs /\
      fs !! "mr-out-0"%string = Some ("x 1" +:+ newline).
Proof.
  exists (fine_end EarlyExit.Map EarlyExit.Reduce any_time overlap_labels (fine_init ["x"]%string 1 demo_fs)).
  split; [apply fine_end_reach|]. split_and!; [vm_compute; reflexivity..|].
  eexists. split; vm_compute; reflexivity.
Qed.
