(* ===== verification/MRPlugin.v ===== *)
(** * mr-main: loading an application

    [loadPlugin] of mrworker.go and mrsequential.go, and [main] of
    mrsequential.go.  The package [plugin] of the Go library is the parameter
    [Open]: the symbols of a plugin file, or its error; a symbol is a value
    of some Go type, of which the programs expect two. *)

From Stdlib Require Import ZArith Lia.
From stdpp Require Import base numbers strings pretty gmap list.
From S2P Require Import Prelude MRWorker.
Local Open Scope Z_scope.

(** [plugin.Symbol] *)
Inductive Symbol :=
| MapSymbol (f : mapFun)
| ReduceSymbol (f : reduceFun)
| OtherSymbol.

(** [plugin.Plugin], with its [Lookup] *)
Definition Plugin := string -> option Symbol.

Definition as_map (s : Symbol) : result mapFun :=
  match s with MapSymbol f => Ok f | _ => Panic TypeAssertion end.
Definition as_reduce (s : Symbol) : result reduceFun :=
  match s with ReduceSymbol f => Ok f | _ => Panic TypeAssertion end.

Section plugins.
Context (Open : string -> option Plugin).

Definition loadPlugin (filename : string) : result (mapFun * reduceFun) :=
  match Open filename with
  | None => Panic (LogFatal ("cannot load plugin " +:+ filename))
  | Some p =>
    match p "Map"%string with
    | None => Panic (LogFatal ("cannot find Map in " +:+ filename))
    | Some xmapf =>
      mapf ← as_map xmapf;
      match p "Reduce"%string with
      | None => Panic (LogFatal ("cannot find Reduce in " +:+ filename))
      | Some xreducef =>
        reducef ← as_reduce xreducef;
        Ok (mapf, reducef)
      end
    end
  end.

(** [main] of mrsequential.go on [os.Args]; [None]: the usage message. *)
Definition mrsequential `{GoSort} (args : list string) (fs : FS) : option (result FS) :=
  if len args <? 3 then None
  else Some (
    '(mapf, reducef) ← loadPlugin (nth 1 args ""%string);
    sequential mapf reducef fs (drop 2 args)).

(** ** A plugin loads exactly when it has both functions *)

Lemma loadPlugin_ok filename mapf reducef :
  loadPlugin filename = Ok (mapf, reducef) <->
  exists p, Open filename = Some p /\
    p "Map"%string = Some (MapSymbol mapf) /\ p "Reduce"%string = Some (ReduceSymbol reducef).
Proof.
  unfold loadPlugin. destruct (Open filename) as [p|]; [|naive_solver].
  split.
  - intros E. exists p. split; [done|]. destruct (p "Map"%string) as [[f|f|]|]; simpl in E; try done.
    destruct (p "Reduce"%string) as [[g|g|]|]; simpl in E; try done. by injection E as -> ->.
  - intros (p' & [= <-] & -> & ->). done.
Qed.

(** With the plugin loaded the program is its loop. *)
Lemma mrsequential_loaded `{GoSort} prog so files fs mapf reducef :
  loadPlugin so = Ok (mapf, reducef) -> files <> [] ->
  mrsequential (prog :: so :: files) fs = Some (sequential mapf reducef fs files).
Proof.
  intros E Hf. unfold mrsequential. destruct files as [|f files]; [done|].
  destruct (Z.ltb_spec (len (prog :: so :: f :: files)) 3) as [Hlt|_].
  { unfold len in Hlt. cbn [length] in Hlt. lia. }
  cbn [nth drop]. by rewrite E.
Qed.
End plugins.
