(* ===== verification/MRMain.v ===== *)
(** * mr-main: the programs of a MapReduce job

    mrcoordinator.go and mrworker.go as processes: a coordinator that polls
    [Done] and leaves, and workers that come and go, call it, work on the
    shared directory file by file, sleep, and end their processes when the
    job is done or the coordinator is gone. *)

From Stdlib Require Import ZArith Lia.
From stdpp Require Import base numbers strings pretty gmap list.
From S2P Require Import Prelude MRCoordinator MRWorker MRFiles MRJob MRJobSteps MRPlugin.
Local Open Scope Z_scope.

(** Where [main] of mrcoordinator.go is: in the loop over [Done], in the
    last sleep, returned; or its process died of a panic in a handler. *)
Inductive coordinator_main :=
| Polling
| LastSecond
| MainReturned
| MainPanicked (e : panic).

(** Where a worker's process is. *)
Inductive worker :=
| Asking                               (* Worker: about to call GetTask *)
| Working (a : attempt)                (* DoMap, DoReduce *)
| Reporting (args : MarkCompleteArgs)  (* about to call MarkComplete *)
| Sleeping                             (* time.Sleep *)
| Returned                             (* Worker and main returned *)
| Fatal (message : string)             (* log.Fatal of a failed call *)
| Aborted (e : panic)                  (* a panic or log.Fatal in main or in a task *)
| Killed.

Record Programs := mkPrograms {
  p_co : Coordinator;
  p_timers : list (Z * string);
  p_dir : FS;
  p_main : coordinator_main;
  p_workers : list worker;
}.

Inductive program_label :=
| NewWorker (args : list string)     (* mrworker.go is started *)
| Poll                               (* mrcoordinator.go calls Done *)
| LeaveMain                          (* the last sleep is over *)
| Straggler (k : nat)                (* the k-th timer fires *)
| Call (i : nat)                     (* worker i calls the coordinator *)
| CutCall (i : nat) (served : bool)  (* the coordinator leaves during worker i's call *)
| Work (i : nat)                     (* worker i goes on with its task *)
| Wake (i : nat)                     (* worker i has slept *)
| Kill (i : nat).                    (* worker i is killed *)

(** [os.Args] of mrcoordinator.go; the job has ten reduce tasks. *)
Definition start_coordinator (args : list string) (fs : FS) : option Programs :=
  if len args <? 2 then None
  else Some (mkPrograms (MakeCoordinator (drop 1 args) 10) [] fs Polling []).

(** [main] of mrworker.go on [os.Args] up to the call of [Worker]; [None]:
    the usage message. *)
Definition start_worker (Open : string -> option Plugin) (args : list string) : option worker :=
  if negb (len args =? 2) then None
  else match loadPlugin Open (nth 1 args ""%string) with
       | Ok _ => Some Asking
       | Panic e => Some (Aborted e)
       end.

(** The coordinator's process listens. *)
Definition serving (m : coordinator_main) : bool :=
  match m with Polling | LastSecond => true | _ => false end.

(** [rpc.DialHTTP] in [call] *)
Definition dial (m : coordinator_main) : option string :=
  if serving m then None else Some "dialing:"%string.

(** [Worker] with the reply of [GetTask]. *)
Definition got_reply (reply : GetTaskReply) : worker :=
  if Done_ reply then Returned
  else if is_task reply then Working (first_access reply)
  else Sleeping.

Definition set_worker (i : nat) (w : worker) (p : Programs) : Programs :=
  mkPrograms (p_co p) (p_timers p) (p_dir p) (p_main p) (<[i := w]> (p_workers p)).

Definition set_main (m : coordinator_main) (p : Programs) : Programs :=
  mkPrograms (p_co p) (p_timers p) (p_dir p) m (p_workers p).

Definition set_coordinator (c : Coordinator) (ts : list (Z * string)) (p : Programs) : Programs :=
  mkPrograms c ts (p_dir p) (p_main p) (p_workers p).

Definition set_dir (fs : FS) (p : Programs) : Programs :=
  mkPrograms (p_co p) (p_timers p) fs (p_main p) (p_workers p).

(** [GetTask] of worker.go when the call is served and answered. *)
Definition call_GetTask (i : nat) (p : Programs) : Programs :=
  match dial (p_main p) with
  | Some message => set_worker i (Fatal message) p
  | None =>
    let '(c, reply, ts) := MRCoordinator.GetTask (p_co p) in
    set_worker i (got_reply reply) (set_coordinator c (p_timers p ++ ts) p)
  end.

(** [MarkComplete] of worker.go; a panic of the handler ends the
    coordinator's process, and the call fails. *)
Definition call_MarkComplete (i : nat) (args : MarkCompleteArgs) (p : Programs) : Programs :=
  match dial (p_main p) with
  | Some message => set_worker i (Fatal message) p
  | None =>
    match MRCoordinator.MarkComplete (p_co p) args with
    | Ok c => set_worker i Sleeping (set_coordinator c (p_timers p) p)
    | Panic e => set_worker i (Fatal "MarkComplete failed") (set_main (MainPanicked e) p)
    end
  end.

(** [call] when the coordinator's process ends during it, before or after
    the call was served: it returns false, and its caller gives up. *)
Definition cut_call (i : nat) (served : bool) (w : worker) (p : Programs) : option Programs :=
  match p_main p, w with
  | LastSecond, Asking =>
    Some (set_main MainReturned (set_worker i (Fatal "GetTask failed")
            (if served then call_GetTask i p else p)))
  | LastSecond, Reporting args =>
    Some (set_main MainReturned (set_worker i (Fatal "MarkComplete failed")
            (if served then call_MarkComplete i args p else p)))
  | _, _ => None
  end.

(** [for m.Done() == false { time.Sleep(time.Second) }] *)
Definition poll_Done (p : Programs) : option Programs :=
  match p_main p with
  | Polling => Some (if negb (Done (p_co p)) then p else set_main LastSecond p)
  | _ => None
  end.

Section programs.
Context `{JsonStream} `{GoSort}.
Context (Open : string -> option Plugin) (so : string).

(** All workers of a job are given one plugin, [so]. *)
Definition program_step (l : program_label) (p : Programs) : option Programs :=
  match l with
  | NewWorker args =>
    if negb (bool_decide (args !! 1%nat = Some so)) then None else
    w ← start_worker Open args;
    Some (mkPrograms (p_co p) (p_timers p) (p_dir p) (p_main p) (p_workers p ++ [w]))
  | Poll => poll_Done p
  | LeaveMain => match p_main p with LastSecond => Some (set_main MainReturned p) | _ => None end
  | Straggler k =>
    if serving (p_main p) then
      '(idx, ty) ← p_timers p !! k;
      match DetectStraggler (p_co p) idx ty with
      | Ok c => Some (set_coordinator c (delete k (p_timers p)) p)
      | Panic e => Some (set_main (MainPanicked e) p)
      end
    else None
  | Call i =>
    w ← p_workers p !! i;
    match w with
    | Asking => Some (call_GetTask i p)
    | Reporting args => Some (call_MarkComplete i args p)
    | _ => None
    end
  | CutCall i served =>
    w ← p_workers p !! i;
    cut_call i served w p
  | Work i =>
    w ← p_workers p !! i;
    match w with
    | Working a =>
      if finished a then
        Some (set_worker i (Reporting (mkMarkCompleteArgs (Id (reply_of a)) (TaskType (reply_of a)))) p)
      else
        match
          '(mapf, reducef) ← loadPlugin Open so;
          access mapf reducef (p_dir p) a
        with
        | Ok (fs, a) => Some (set_worker i (Working a) (set_dir fs p))
        | Panic e => Some (set_worker i (Aborted e) p)
        end
    | _ => None
    end
  | Wake i =>
    w ← p_workers p !! i;
    match w with Sleeping => Some (set_worker i Asking p) | _ => None end
  | Kill i =>
    w ← p_workers p !! i;
    match w with
    | Asking | Working _ | Reporting _ | Sleeping => Some (set_worker i Killed p)
    | _ => None
    end
  end.

Fixpoint program_run (ls : list program_label) (p : Programs) : option Programs :=
  match ls with
  | [] => Some p
  | l :: ls => p ← program_step l p; program_run ls p
  end.
End programs.

(** The tasks workers are at. *)
Definition at_work (w : worker) : option attempt := match w with Working a => Some a | _ => None end.
Definition at_report (w : worker) : option MarkCompleteArgs :=
  match w with Reporting args => Some args | _ => None end.
Definition taken_tasks (p : Programs) : list (Z * string) :=
  (task_of <$> omap at_work (p_workers p)) ++ (report_of <$> omap at_report (p_workers p)).

(** As [on_time]: a timer fires only for a task no live worker is at. *)
Definition prompt (l : program_label) (p : Programs) : bool :=
  match l with
  | Straggler k => match p_timers p !! k with Some t => bool_decide (t ∉ taken_tasks p) | None => true end
  | _ => true
  end.

Inductive program_reach `{JsonStream} `{GoSort} (Open : string -> option Plugin) (so : string)
    (args : list string) (fs : FS) : Programs -> Prop :=
| program_start p : start_coordinator args fs = Some p -> program_reach Open so args fs p
| program_next p l p' :
    program_reach Open so args fs p -> prompt l p = true ->
    program_step Open so l p = Some p' -> program_reach Open so args fs p'.
