(* ===== verification/MRMainTheorems.v ===== *)
(** * mr-main: what the programs of a job do

    Every execution of the programs is one of MRJobSteps, with the tasks of
    the workers in another order; so the coordinator leaves only when the
    output is complete, and the workers follow. *)

From Stdlib Require Import ZArith Lia.
From stdpp Require Import base numbers strings pretty gmap list.
From S2P Require Import Prelude MRCoordinator MRWorker MRFiles MRJob Json MRApps MRTheorems.
From S2P Require Import MRJobSteps MRJobStepsTheorems MRPlugin MRMain.
Local Open Scope Z_scope.

(** ** Lists up to order *)

Lemma omap_split {A B} (f : A -> option B) l i w :
  l !! i = Some w -> omap f l ≡ₚ option_list (f w) ++ omap f (delete i l).
Proof.
  revert i. induction l as [|x l IH]; intros [|i] Hi; simplify_eq/=.
  - by destruct (f w).
  - destruct (f x); [|by apply IH]. rewrite (IH i Hi). apply Permutation_middle.
Qed.

Lemma delete_insert_list {A} (l : list A) i w : delete i (<[i := w]> l) = delete i l.
Proof. revert i. induction l as [|x l IH]; intros [|i]; simpl; try done. by rewrite IH. Qed.

Lemma omap_update {A B} (f : A -> option B) l i w w' :
  l !! i = Some w -> omap f (<[i := w']> l) ≡ₚ option_list (f w') ++ omap f (delete i l).
Proof.
  intros Hi. rewrite (omap_split f _ i w') by (by eapply lookup_updated). by rewrite delete_insert_list.
Qed.

Lemma omap_none {A B} (f : A -> option B) l i w w' :
  l !! i = Some w -> f w = None -> f w' = None -> omap f (<[i := w']> l) ≡ₚ omap f l.
Proof. intros Hi E E'. by rewrite (omap_update f l i w w' Hi), (omap_split f l i w Hi), E, E'. Qed.

Lemma perm_lookup {A} (x : A) l l' : x :: l ≡ₚ l' -> exists k, l' !! k = Some x /\ l ≡ₚ delete k l'.
Proof.
  intros Hp. assert (x ∈ l') as [k Hk]%list_elem_of_lookup_1 by (rewrite <- Hp; left).
  exists k. split; [done|]. apply (Permutation_cons_inv (a := x)). by rewrite Hp, <- delete_Permutation.
Qed.

(** ** Programs and the job *)

Section programs.
Context `{JsonStream} `{GoSort}.
Context (Open : string -> option Plugin) (so : string).
Context (mapf : mapFun) (reducef : reduceFun) (args : list string) (fs0 : FS).

Abbreviation files := (drop 1 args).
Abbreviation fine_reach := (fine_reach mapf reducef files 10 fs0 on_time).
Abbreviation fine_step := (fine_step mapf reducef).

Record shows (p : Programs) (j : Running) : Prop := {
  sh_co : r_co j = p_co p;
  sh_timers : r_timers j = p_timers p;
  sh_dir : r_dir j = p_dir p;
  sh_attempts : omap at_work (p_workers p) ≡ₚ r_attempts j;
  sh_reports : omap at_report (p_workers p) ≡ₚ r_reports j;
}.

Lemma shows_tasks p j : shows p j -> taken_tasks p ≡ₚ owners j.
Proof. intros []. unfold taken_tasks, owners. by rewrite sh_attempts0, sh_reports0. Qed.

(** The job goes on, or stands still. *)
Definition follows (p' : Programs) : Prop := exists j', fine_reach j' /\ shows p' j'.

(** A worker moves between two places that are no task. *)
Lemma follows_idle p j i w w' :
  fine_reach j -> shows p j -> p_workers p !! i = Some w ->
  at_work w = None -> at_report w = None -> at_work w' = None -> at_report w' = None ->
  follows (set_worker i w' p).
Proof.
  intros Hj [] Hi Ew Er Ew' Er'. exists j. split; [done|]. constructor; simpl; try done.
  - by rewrite (omap_none at_work _ i w w').
  - by rewrite (omap_none at_report _ i w w').
Qed.

Lemma follows_main p m : follows p -> follows (set_main m p).
Proof. intros (j & Hj & []). exists j. split; [done|]. by constructor. Qed.

(** A worker's attempt is one of the job's. *)
Lemma shows_attempt p j i a :
  shows p j -> p_workers p !! i = Some (Working a) ->
  exists k, r_attempts j !! k = Some a /\ omap at_work (delete i (p_workers p)) ≡ₚ delete k (r_attempts j).
Proof.
  intros [] Hi. apply perm_lookup. rewrite <- sh_attempts0. symmetry. exact (omap_split at_work _ i _ Hi).
Qed.

Lemma shows_report p j i r :
  shows p j -> p_workers p !! i = Some (Reporting r) ->
  exists k, r_reports j !! k = Some r /\ omap at_report (delete i (p_workers p)) ≡ₚ delete k (r_reports j).
Proof.
  intros [] Hi. apply perm_lookup. rewrite <- sh_reports0. symmetry. exact (omap_split at_report _ i _ Hi).
Qed.

(** A worker leaves its task. *)
Lemma follows_die p j i a w' :
  fine_reach j -> shows p j -> p_workers p !! i = Some (Working a) ->
  at_work w' = None -> at_report w' = None -> follows (set_worker i w' p).
Proof.
  intros Hj Hs Hi Ew' Er'. destruct (shows_attempt p j i a Hs Hi) as (k & Hk & Hp). destruct Hs.
  eexists. split.
  - eapply (fine_reach_step _ _ _ _ _ _ j (FDie k)); [done|done|]. simpl. by rewrite Hk.
  - constructor; simpl; try done.
    + by rewrite (omap_update at_work _ i _ w' Hi), Ew', Hp.
    + by rewrite (omap_none at_report _ i _ w' Hi).
Qed.

Lemma follows_lose p j i r w' :
  fine_reach j -> shows p j -> p_workers p !! i = Some (Reporting r) ->
  at_work w' = None -> at_report w' = None -> follows (set_worker i w' p).
Proof.
  intros Hj Hs Hi Ew' Er'. destruct (shows_report p j i r Hs Hi) as (k & Hk & Hp). destruct Hs.
  eexists. split.
  - eapply (fine_reach_step _ _ _ _ _ _ j (FLose k)); [done|done|]. simpl. by rewrite Hk.
  - constructor; simpl; try done.
    + by rewrite (omap_none at_work _ i _ w' Hi).
    + by rewrite (omap_update at_report _ i _ w' Hi), Er', Hp.
Qed.

(** ** One step of the programs *)

Context (Hrun : runnable mapf files 10 fs0).
Context (Hload : loadPlugin Open so = Ok (mapf, reducef)).

Abbreviation fine_inv := (fine_inv mapf reducef files 10 fs0).
Abbreviation program_step := (program_step Open so).

Lemma fine_ok j : fine_reach j -> fine_inv j.
Proof using Hrun. by apply fine_reach_inv. Qed.

(** The job takes a step: no panic. *)
Lemma fine_next l j r :
  fine_reach j -> on_time l j = true -> fine_step l j = Some r -> exists j', r = Ok j' /\ fine_reach j'.
Proof using Hrun.
  intros Hj Hot Hst. destruct (fine_step_inv _ _ _ _ _ Hrun l j r (fine_ok j Hj) Hot Hst) as (j' & -> & _).
  exists j'. split; [done|]. by eapply fine_reach_step.
Qed.

Lemma done_no_task c c' r ts : MRCoordinator.GetTask c = (c', r, ts) -> Done_ r = true -> is_task r = false.
Proof. intros HG Hd. apply GetTask_outcome in HG. destruct HG; simpl in *; done. Qed.

(** A served call of GetTask. *)
Lemma follows_get p j i w' c r ts :
  fine_reach j -> shows p j -> p_workers p !! i = Some Asking -> MRCoordinator.GetTask (p_co p) = (c, r, ts) ->
  w' = got_reply r -> follows (set_worker i w' (set_coordinator c (p_timers p ++ ts) p)).
Proof using Hrun.
  intros Hj [] Hi HG ->.
  pose proof (fun r => fine_next FGet j r Hj eq_refl) as Hnext.
  cbn [MRJobSteps.fine_step] in Hnext. rewrite sh_co0, HG in Hnext.
  destruct (Hnext _ eq_refl) as (j' & E & Hj'). injection E as <-.
  eexists. split; [exact Hj'|]. unfold got_reply. constructor; simpl; try done.
  - by rewrite sh_timers0.
  - destruct (Done_ r) eqn:Hd; [rewrite (done_no_task _ _ _ _ HG Hd)|destruct (is_task r) eqn:Et].
    + by rewrite app_nil_r, (omap_none at_work _ i Asking).
    + rewrite (omap_update at_work _ i Asking) by done. simpl. rewrite Permutation_cons_append.
      by rewrite <- sh_attempts0, (omap_split at_work _ i _ Hi).
    + by rewrite app_nil_r, (omap_none at_work _ i Asking).
  - rewrite (omap_none at_report _ i Asking); [done|done|done|]. by destruct (Done_ r), (is_task r).
Qed.

(** A served call of MarkComplete. *)
Lemma follows_report p j i a :
  fine_reach j -> shows p j -> p_workers p !! i = Some (Reporting a) ->
  exists c, MRCoordinator.MarkComplete (p_co p) a = Ok c /\
    forall w', at_work w' = None -> at_report w' = None ->
      follows (set_worker i w' (set_coordinator c (p_timers p) p)).
Proof using Hrun.
  intros Hj Hs Hi. destruct (shows_report p j i a Hs Hi) as (k & Hk & Hp). destruct Hs.
  pose proof (fun r => fine_next (FReport k) j r Hj eq_refl) as Hnext.
  cbn [MRJobSteps.fine_step] in Hnext. rewrite Hk in Hnext. simpl in Hnext.
  destruct (Hnext _ eq_refl) as (j' & E & Hj'). rewrite sh_co0 in E.
  destruct (MRCoordinator.MarkComplete (p_co p) a) as [c|] eqn:Ec; [|done].
  cbn in E. injection E as <-. exists c. split; [done|]. intros w' Ew' Er'.
  eexists. split; [exact Hj'|]. constructor; simpl; try done.
  - by rewrite (omap_none at_work _ i _ w' Hi).
  - by rewrite (omap_update at_report _ i _ w' Hi), Er', Hp.
Qed.

Lemma follows_work p j i a :
  fine_reach j -> shows p j -> p_workers p !! i = Some (Working a) -> finished a = false ->
  exists fs a', access mapf reducef (p_dir p) a = Ok (fs, a') /\ follows (set_worker i (Working a') (set_dir fs p)).
Proof using Hrun.
  intros Hj Hs Hi Hf. destruct (shows_attempt p j i a Hs Hi) as (k & Hk & Hp). destruct Hs.
  pose proof (fun r => fine_next (FAccess k) j r Hj eq_refl) as Hnext.
  cbn [MRJobSteps.fine_step] in Hnext. rewrite Hk in Hnext. simpl in Hnext. rewrite Hf in Hnext.
  destruct (Hnext _ eq_refl) as (j' & E & Hj'). rewrite sh_dir0 in E.
  destruct (access mapf reducef (p_dir p) a) as [[fs a']|] eqn:Ea; [|done].
  cbn in E. injection E as <-. exists fs, a'. split; [done|].
  eexists. split; [exact Hj'|]. constructor; simpl; try done.
  - rewrite (omap_update at_work _ i _ _ Hi), Hp. simpl.
    rewrite (delete_Permutation (<[k := a']> (r_attempts j)) k a') by (by eapply lookup_updated).
    by rewrite delete_insert_list.
  - by rewrite (omap_none at_report _ i _ _ Hi).
Qed.

Lemma follows_finish p j i a :
  fine_reach j -> shows p j -> p_workers p !! i = Some (Working a) -> finished a = true ->
  follows (set_worker i (Reporting (mkMarkCompleteArgs (Id (reply_of a)) (TaskType (reply_of a)))) p).
Proof using Hrun.
  intros Hj Hs Hi Hf. destruct (shows_attempt p j i a Hs Hi) as (k & Hk & Hp). destruct Hs.
  eexists. split.
  - eapply (fine_reach_step _ _ _ _ _ _ j (FFinish k)); [done|done|]. simpl. by rewrite Hk; simpl; rewrite Hf.
  - constructor; simpl; try done.
    + by rewrite (omap_update at_work _ i _ _ Hi), Hp.
    + rewrite (omap_update at_report _ i _ _ Hi). simpl. rewrite Permutation_cons_append, <- sh_reports0.
      by rewrite (omap_split at_report _ i _ Hi).
Qed.

Lemma follows_straggler p j k idx ty :
  fine_reach j -> shows p j -> p_timers p !! k = Some (idx, ty) -> (idx, ty) ∉ taken_tasks p ->
  exists c, DetectStraggler (p_co p) idx ty = Ok c /\ follows (set_coordinator c (delete k (p_timers p)) p).
Proof using Hrun.
  intros Hj Hs Hk Hn. rewrite (shows_tasks p j Hs) in Hn. destruct Hs.
  assert (on_time (FTimer k) j = true) as Hot.
  { simpl. rewrite sh_timers0, Hk. by apply bool_decide_eq_true_2. }
  pose proof (fun r => fine_next (FTimer k) j r Hj Hot) as Hnext.
  cbn [MRJobSteps.fine_step] in Hnext. rewrite sh_timers0, Hk in Hnext. simpl in Hnext.
  destruct (Hnext _ eq_refl) as (j' & E & Hj'). rewrite sh_co0 in E.
  destruct (DetectStraggler (p_co p) idx ty) as [c|]; [|done]. cbn in E. injection E as <-.
  exists c. split; [done|]. eexists. split; [exact Hj'|]. by constructor.
Qed.

(** ** The invariant *)

Definition unharmed (w : worker) : Prop := forall e, w <> Aborted e.

Record program_ok (p : Programs) : Prop := {
  po_follows : follows p;
  po_workers : Forall unharmed (p_workers p);
  po_main : forall e, p_main p <> MainPanicked e;
  po_done : p_main p <> Polling -> Done (p_co p) = true;
}.

Lemma reduces_GetTask c c' r ts : MRCoordinator.GetTask c = (c', r, ts) -> reducesLeft c' <= reducesLeft c.
Proof. intros HG%GetTask_outcome. by destruct HG. Qed.

Lemma reduces_MarkComplete c a c' : MRCoordinator.MarkComplete c a = Ok c' -> reducesLeft c' <= reducesLeft c.
Proof.
  unfold MRCoordinator.MarkComplete. repeat case_bool_decide; [| |by intros [= ->]];
    (destruct (ifInProgress _ _ _) as [[ts|]|]; cbn; intros [= <-]; simpl; lia).
Qed.

Lemma reduces_DetectStraggler c idx ty c' : DetectStraggler c idx ty = Ok c' -> reducesLeft c' <= reducesLeft c.
Proof.
  unfold DetectStraggler. repeat case_bool_decide; [| |by intros [= ->]];
    (destruct (ifInProgress _ _ _) as [[ts|]|]; cbn; intros [= <-]; simpl; lia).
Qed.

Lemma done_kept p p' :
  follows p' -> reducesLeft (p_co p') <= reducesLeft (p_co p) -> Done (p_co p) = true -> Done (p_co p') = true.
Proof using Hrun.
  intros (j & Hj & []) Hle Hd. apply Z.eqb_eq in Hd. apply Z.eqb_eq.
  pose proof (ji_co _ _ _ _ _ _ (fi_job _ _ _ _ _ _ (fine_ok j Hj))) as Hw. simpl in Hw.
  destruct (left_nonneg _ _ _ Hw) as [_ ?]. rewrite <- sh_co0 in *. lia.
Qed.

(** A worker moves; its coordinator may have taken a step. *)
Lemma ok_move p p' i w' :
  program_ok p -> follows p' -> p_workers p' = <[i := w']> (p_workers p) -> unharmed w' ->
  reducesLeft (p_co p') <= reducesLeft (p_co p) -> p_main p' = p_main p -> program_ok p'.
Proof using Hrun.
  intros [] Hf Hw Hu Hr Em. constructor; [done| |by rewrite Em|].
  - rewrite Hw. by apply Forall_insert.
  - rewrite Em. intros Hm. by eapply done_kept, po_done0.
Qed.

Lemma got_reply_unharmed r : unharmed (got_reply r).
Proof. intros e. unfold got_reply. by destruct (Done_ r), (is_task r). Qed.

Lemma call_ok p i :
  program_ok p -> p_workers p !! i = Some Asking -> program_ok (call_GetTask i p).
Proof using Hrun.
  intros Hp Hi. destruct (po_follows _ Hp) as (j & Hj & Hs). unfold call_GetTask.
  destruct (dial (p_main p)) as [m|].
  - eapply (ok_move p _ i); [done|by eapply (follows_idle p j i Asking)|done|done|done|done].
  - destruct (MRCoordinator.GetTask (p_co p)) as [[c r] ts] eqn:E.
    eapply (ok_move p _ i); [done|by eapply follows_get|done|apply got_reply_unharmed|by eapply reduces_GetTask|done].
Qed.

Lemma report_ok p i a :
  program_ok p -> p_workers p !! i = Some (Reporting a) -> program_ok (call_MarkComplete i a p).
Proof using Hrun.
  intros Hp Hi. destruct (po_follows _ Hp) as (j & Hj & Hs). unfold call_MarkComplete.
  destruct (dial (p_main p)) as [m|].
  - eapply (ok_move p _ i); [done|by eapply follows_lose|done|done|done|done].
  - destruct (follows_report p j i a Hj Hs Hi) as (c & E & Hf). rewrite E.
    eapply (ok_move p _ i); [done|by apply Hf|done|done|by eapply reduces_MarkComplete|done].
Qed.

Lemma main_ok p m :
  program_ok p -> (forall e, m <> MainPanicked e) -> Done (p_co p) = true -> program_ok (set_main m p).
Proof. intros [] Hm Hd. constructor; [by apply follows_main|done|done|done]. Qed.

(** The worker whose call was cut off. *)
Lemma cut_ok p' i w m :
  program_ok p' -> p_main p' = LastSecond -> p_workers p' !! i = Some w ->
  program_ok (set_main MainReturned (set_worker i (Fatal m) p')).
Proof using Hrun.
  intros Hp' Em' Hi. destruct (po_follows _ Hp') as (j & Hj & Hs).
  assert (follows (set_worker i (Fatal m) p')) as Hf.
  { destruct w as [|a|a| | | | |];
      try (by eapply (follows_idle p' j i); try done); [by eapply follows_die|by eapply follows_lose]. }
  apply main_ok; [|done|].
  - eapply (ok_move p' _ i (Fatal m)); try done.
  - apply (po_done _ Hp'). by rewrite Em'.
Qed.

Lemma start_worker_asking wargs w :
  wargs !! 1%nat = Some so -> start_worker Open wargs = Some w -> w = Asking.
Proof using Hload.
  intros Hso. unfold start_worker. destruct (negb _); [done|].
  by rewrite (nth_lookup_Some _ _ _ _ Hso), Hload; intros [= <-].
Qed.

Lemma program_step_ok l p p' :
  program_ok p -> prompt l p = true -> program_step l p = Some p' -> program_ok p'.
Proof using Hrun Hload.
  intros Hp Hl Hst. pose proof (po_follows _ Hp) as (j & Hj & Hs).
  destruct l as [wargs| | |k|i|i served|i|i|i]; cbn [MRMain.program_step prompt] in Hst, Hl.
  - case_bool_decide as Hso; [|done]. apply bind_Some in Hst as (w & Hw & [= <-]).
    apply (start_worker_asking wargs w Hso) in Hw as ->. destruct Hp, Hs. constructor; simpl; [|apply Forall_app; by repeat constructor|done|done].
    exists j. split; [done|]. constructor; simpl; try done; by rewrite omap_app, app_nil_r.
  - unfold poll_Done in Hst. destruct (p_main p); try done. injection Hst as <-. destruct (Done (p_co p)) eqn:Hd; simpl; [|done]. by apply main_ok.
  - destruct (p_main p) eqn:Em; try done. injection Hst as <-. apply main_ok; [done|done|]. apply (po_done _ Hp). by rewrite Em.
  - destruct (serving (p_main p)); [|done]. apply bind_Some in Hst as ([idx ty] & Hk & Hst).
    rewrite Hk in Hl. apply bool_decide_eq_true in Hl.
    destruct (follows_straggler p j k idx ty Hj Hs Hk Hl) as (c & E & Hf). rewrite E in Hst. injection Hst as <-.
    destruct Hp. constructor; try done. intros Hm. eapply done_kept; [done| |by apply po_done0].
    by eapply reduces_DetectStraggler.
  - apply bind_Some in Hst as (w & Hi & Hst). destruct w; try done; injection Hst as <-;
      [by apply call_ok|by apply report_ok].
  - apply bind_Some in Hst as (w & Hi & Hst). unfold cut_call in Hst. destruct (p_main p) eqn:Em; try done.
    destruct w; try done; injection Hst as <-; destruct served; try (by eapply cut_ok);
      [pose proof (call_ok p i Hp Hi) as Hp'|pose proof (report_ok p i args0 Hp Hi) as Hp'].
    + revert Hp'. unfold call_GetTask. rewrite Em. simpl.
      destruct (MRCoordinator.GetTask (p_co p)) as [[c r] ts]. intros Hp'.
      eapply cut_ok; [done|done|]. simpl. by eapply lookup_updated.
    + destruct (follows_report p j i args0 Hj Hs Hi) as (c & E & _).
      revert Hp'. unfold call_MarkComplete. rewrite Em. simpl. rewrite E. intros Hp'.
      eapply cut_ok; [done|done|]. simpl. by eapply lookup_updated.
  - apply bind_Some in Hst as (w & Hi & Hst). destruct w as [|a| | | | | |]; try done.
    destruct (finished a) eqn:Hf.
    + injection Hst as <-. eapply (ok_move p _ i); [done|by eapply follows_finish|done|done|done|done].
    + destruct (follows_work p j i a Hj Hs Hi Hf) as (fs & a' & E & Hfo).
      rewrite Hload in Hst. simpl in Hst. rewrite E in Hst. injection Hst as <-.
      eapply (ok_move p _ i); [done|done|done|done|done|done].
  - apply bind_Some in Hst as (w & Hi & Hst). destruct w; try done; injection Hst as <-.
    eapply (ok_move p _ i); [done|by eapply (follows_idle p j i Sleeping)|done|done|done|done].
  - apply bind_Some in Hst as (w & Hi & Hst). destruct w as [|a|a| | | | |]; try done; injection Hst as <-;
      (eapply (ok_move p _ i); [done| |done|done|done|done]).
    + by eapply (follows_idle p j i Asking).
    + by eapply follows_die.
    + by eapply follows_lose.
    + by eapply (follows_idle p j i Sleeping).
Qed.

Lemma start_ok p : start_coordinator args fs0 = Some p -> program_ok p.
Proof.
  unfold start_coordinator. destruct (_ <? _); [done|]. intros [= <-]. constructor; try done.
  exists (fine_init files 10 fs0). split; [apply fine_reach_init|]. by constructor.
Qed.

(** The usage test: there is an input file. *)
Lemma reach_files p : program_reach Open so args fs0 p -> files <> [].
Proof using Type.
  induction 1 as [p Hp|]; [|done]. unfold start_coordinator in Hp.
  destruct (Z.ltb_spec (len args) 2) as [|Hlen]; [done|]. intros E%(f_equal length).
  rewrite length_drop in E. unfold len in Hlen. simpl in E. lia.
Qed.

Lemma program_reach_ok p : program_reach Open so args fs0 p -> program_ok p.
Proof using Hrun Hload. induction 1; [by apply start_ok|by eapply program_step_ok]. Qed.

(** ** After the coordinator has left *)

Abbreviation pairs := (pairs_of mapf files fs0).

(** The accesses an attempt still has to make. *)
Definition left_to_do (a : attempt) : nat :=
  match a with
  | MapOpen r => 1 + (Z.to_nat (NReduce r) + 1 + length (pairs (Id r)))
  | MapCreate r kva i => Z.to_nat (NReduce r - i) + 1 + length kva
  | MapWrite r kva => length kva
  | ReduceOpen r acc i => Z.to_nat (NMap r - i) + 2 +
      match lines_of mapf reducef files 10 fs0 (Id r) with Ok lines => length lines | Panic _ => 0 end
  | ReduceCreate r lines => 1 + length lines
  | ReduceWrite r lines off => length lines
  end.

(** The steps a worker still has to make when nobody answers. *)
Definition steps_left (w : worker) : nat :=
  match w with
  | Asking | Reporting _ => 1
  | Sleeping => 2
  | Working a => 2 + left_to_do a
  | _ => 0
  end.

Definition all_left (ws : list worker) : nat := sum_list (steps_left <$> ws).

Lemma all_left_update ws i w w' :
  ws !! i = Some w -> (steps_left w' < steps_left w)%nat -> (all_left (<[i := w']> ws) < all_left ws)%nat.
Proof.
  unfold all_left. revert i. induction ws as [|x ws IH]; intros [|i] Hi Hlt; simplify_eq/=; [lia|].
  specialize (IH i Hi Hlt). lia.
Qed.

#[local] Arguments readIntermediate : simpl never.

Lemma access_left fs a fs' a' :
  access mapf reducef fs a = Ok (fs', a') -> attempt_ok mapf reducef files 10 fs0 fs' a' ->
  finished a = false -> (left_to_do a' < left_to_do a)%nat.
Proof.
  destruct a as [r|r kva i|r [|kv kva]|r acc i|r lines|r [|line lines] off]; simpl; intros E Ha Hf; try done.
  - destruct (readFile fs (FileName r)) as [content|]; [|done]. cbn in E. injection E as <- <-.
    destruct Ha as (_ & -> & _). simpl. lia.
  - destruct (Z.ltb_spec i (NReduce r)); injection E as <- <-; simpl; lia.
  - destruct (writePair _ _ fs kv) as [fs1|]; [|done]. cbn in E. injection E as <- <-. simpl. lia.
  - destruct (Z.ltb_spec i (NMap r)).
    + destruct (readIntermediate fs (Id r) [i]) as [more|]; [|done]. cbn in E. injection E as <- <-. simpl. lia.
    + destruct (reduceLines reducef _) as [lines|]; [|done]. cbn in E. injection E as <- <-.
      destruct Ha as [_ ->]. simpl. lia.
  - injection E as <- <-. simpl. lia.
  - injection E as <- <-. simpl. lia.
Qed.

Definition starts (l : program_label) : bool := match l with NewWorker _ => true | _ => false end.
Definition ended (w : worker) : bool :=
  match w with Returned | Fatal _ | Aborted _ | Killed => true | _ => false end.

(** Any step then ends a worker or brings it closer to its end. *)
Lemma gone_step l p p' :
  program_ok p -> p_main p = MainReturned -> starts l = false -> program_step l p = Some p' ->
  program_ok p' /\ p_main p' = MainReturned /\ (all_left (p_workers p') < all_left (p_workers p))%nat.
Proof using Hrun Hload.
  intros Hp Em Hl Hst.
  assert (prompt l p = true) as Hpr.
  { destruct l; try done. simpl in Hst. by rewrite Em in Hst. }
  pose proof (program_step_ok l p p' Hp Hpr Hst) as Hp'. split; [exact Hp'|].
  destruct l as [wargs| | |k|i|i served|i|i|i]; cbn [MRMain.program_step] in Hst;
    unfold poll_Done in Hst; rewrite ?Em in Hst; try done; apply bind_Some in Hst as (w & Hi & Hst).
  - unfold call_GetTask, call_MarkComplete, dial in Hst. rewrite Em in Hst.
    destruct w; try done; injection Hst as <-; (split; [done|]); simpl;
      (eapply all_left_update; [done|simpl; lia]).
  - unfold cut_call in Hst. by rewrite Em in Hst.
  - destruct w as [|a| | | | | |]; try done. destruct (finished a) eqn:Hf.
    + injection Hst as <-. split; [done|]. eapply all_left_update; [done|simpl; lia].
    + rewrite Hload in Hst. cbn [mbind result_bind] in Hst.
      destruct (access mapf reducef (p_dir p) a) as [[fs a']|e] eqn:E; injection Hst as <-; (split; [done|]);
        (eapply all_left_update; [done|]); simpl; [|lia].
      do 2 apply -> Nat.succ_lt_mono. eapply access_left; [done| |done].
      destruct (po_follows _ Hp') as (j & Hj & Hs).
      destruct (shows_attempt _ j i a' Hs) as (k & Hk & _); [simpl; by eapply lookup_updated|].
      pose proof (Forall_lookup_1 _ _ _ _ (fi_attempts _ _ _ _ _ _ (fine_ok j Hj)) Hk) as Ha.
      by rewrite (sh_dir _ _ Hs) in Ha.
  - destruct w; try done; injection Hst as <-. split; [done|]. eapply all_left_update; [done|simpl; lia].
  - destruct w; try done; injection Hst as <-; (split; [done|]); (eapply all_left_update; [done|simpl; lia]).
Qed.

Lemma gone_run ls p p' :
  program_ok p -> p_main p = MainReturned -> Forall (fun l => starts l = false) ls ->
  program_run Open so ls p = Some p' -> (length ls <= all_left (p_workers p))%nat.
Proof using Hrun Hload.
  intros Hp Em Hls. revert p Hp Em. induction Hls as [|l ls Hl _ IH]; intros p Hp Em E; simpl in *; [lia|].
  apply bind_Some in E as (p1 & E1 & E). destruct (gone_step l p p1 Hp Em Hl E1) as (Hp1 & Em1 & Hlt).
  specialize (IH p1 Hp1 Em1 E). lia.
Qed.

(** A worker that has not ended can go on. *)
Definition own_step (l : program_label) : bool :=
  match l with Call _ | Work _ | Wake _ => true | _ => false end.

Lemma can_go_on p :
  Forall (fun w => ended w = true) (p_workers p) \/
  exists l p', own_step l = true /\ program_step l p = Some p'.
Proof.
  destruct (decide (Forall (fun w => ended w = true) (p_workers p))) as [|Hn]; [by left|right].
  apply not_Forall_Exists in Hn; [|intros ?; apply _]. apply Exists_exists in Hn as (w & Hin & Hw).
  apply list_elem_of_lookup_1 in Hin as [i Hi]. simpl in Hw.
  destruct w as [|a|a| | | | |]; simpl in Hw; try done.
  - exists (Call i). eexists. split; [done|]. simpl. rewrite Hi. done.
  - exists (Work i). simpl. rewrite Hi. simpl. destruct (finished a); [by eexists|].
    match goal with |- context [match ?r with Ok _ => _ | Panic _ => _ end] => destruct r as [[fs a']|] end; by eexists.
  - exists (Call i). eexists. split; [done|]. simpl. rewrite Hi. done.
  - exists (Wake i). eexists. split; [done|]. simpl. rewrite Hi. done.
Qed.
End programs.

(** ** The properties *)

Section theorems.
Context `{JsonStream} `{GoSort}.
Context (Open : string -> option Plugin) (so : string).
Context (mapf : mapFun) (reducef : reduceFun) (args : list string) (fs0 : FS).

(** C4: the programs do their job.  Start mrcoordinator.go on the input files
    and any number of mrworker.go with one plugin, at any time; workers may
    be killed at any access to a file, but no timer fires for a task whose
    worker is alive.
    Let the job be [runnable] (the input files exist, none has the name of a
    file the job writes, and the pairs of the application survive JSON) and
    the application's Reduce not depend on the order of the values.
    Then no process panics, and from the moment mrcoordinator.go leaves its
    loop until all processes have ended, the files mr-out-0 .. mr-out-9
    together hold a permutation of the lines that mrsequential.go, given that
    plugin and those input files, writes to mr-out-0. *)
Theorem coordinator_leaves_complete_output p :
  loadPlugin Open so = Ok (mapf, reducef) ->
  runnable mapf (drop 1 args) 10 fs0 -> order_free reducef ->
  program_reach Open so args fs0 p ->
  (forall e, p_main p <> MainPanicked e /\ Aborted e ∉ p_workers p) /\
  (p_main p <> Polling ->
   exists lines outs,
     mrsequential Open ("mrsequential"%string :: so :: drop 1 args) fs0
       = Some (Ok (<[outName 0 := concat_str lines]> fs0)) /\
     len outs = 10 /\
     (forall i out, outs !! i = Some out -> p_dir p !! outName (Z.of_nat i) = Some (concat_str out)) /\
     concat outs ≡ₚ lines).
Proof.
  intros Hload Hrun Hfree Hp. pose proof (reach_files _ _ _ _ _ Hp) as Hfiles.
  apply (program_reach_ok _ _ mapf reducef _ _ Hrun Hload) in Hp. destruct Hp as [(j & Hj & Hs) Hw Hm Hd]. split.
  - intros e. split; [done|]. intros Hin. rewrite Forall_forall in Hw. by apply (Hw _ Hin e).
  - intros Hp. destruct (sequential_lines mapf reducef (drop 1 args) 10 fs0 Hfree Hrun)
      as (ks & outs & _ & _ & E & Hall & Hperm).
    pose proof (fi_job _ _ _ _ _ _ (fine_reach_inv _ _ _ _ _ Hrun _ Hj)) as Hi.
    assert (Done (co (whole j)) = true) as Hdj by (simpl; rewrite (sh_co _ _ Hs); by apply Hd).
    destruct (inv_outputs _ _ _ _ _ (whole j) outs Hrun Hi Hdj Hall) as [Hlen Hout].
    simpl in Hout. rewrite (sh_dir _ _ Hs) in Hout. eexists _, outs. split; [|done].
    rewrite (mrsequential_loaded _ _ _ _ _ mapf reducef Hload); [by rewrite E|done].
Qed.

(** C27: no process stays behind.  Once mrcoordinator.go has returned, and no
    further worker is started, every execution is bounded, whatever tasks
    the workers were in, and it can go on until all workers have ended. *)
Theorem workers_leave p :
  loadPlugin Open so = Ok (mapf, reducef) -> runnable mapf (drop 1 args) 10 fs0 ->
  program_reach Open so args fs0 p -> p_main p = MainReturned ->
  exists bound, forall ls p', Forall (fun l => starts l = false) ls ->
    program_run Open so ls p = Some p' ->
    (length ls <= bound)%nat /\
    (Forall (fun w => ended w = true) (p_workers p') \/
     exists l p'', own_step l = true /\ program_step Open so l p' = Some p'').
Proof.
  intros Hload Hrun Hp%(program_reach_ok _ _ mapf reducef _ _ Hrun Hload) Em. eexists. intros ls p' Hls E. split.
  - by eapply gone_run.
  - apply can_go_on.
Qed.
End theorems.

(** ** Runs *)

#[local] Existing Instance merge_go_sort.

Definition demo_args : list string := ["mrcoordinator"; "x"; "y"]%string.

Lemma ten_runnable : runnable demo_map (drop 1 demo_args) 10 demo_fs.
Proof. destruct demo_runnable. constructor; [lia|done..]. Qed.

(** One plugin file is there. *)
Definition demo_plugin : Plugin := fun name =>
  if bool_decide (name = "Map"%string) then Some (MapSymbol demo_map)
  else if bool_decide (name = "Reduce"%string) then Some (ReduceSymbol demo_reduce) else None.
Definition demo_Open (filename : string) : option Plugin :=
  if bool_decide (filename = "wc.so"%string) then Some demo_plugin else None.

Abbreviation demo_step := (program_step demo_Open "wc.so").
Abbreviation demo_reach := (program_reach demo_Open "wc.so" demo_args demo_fs).

(** The labels that are possible, one after the other. *)
Fixpoint run_possible (ls : list program_label) (p : Programs) : Programs :=
  match ls with
  | [] => p
  | l :: ls =>
    match demo_step l p with
    | Some p' => run_possible ls (if prompt l p then p' else p)
    | None => run_possible ls p
    end
  end.

Lemma run_possible_reach ls p : demo_reach p -> demo_reach (run_possible ls p).
Proof.
  revert p. induction ls as [|l ls IH]; intros p Hp; simpl; [done|].
  destruct (demo_step l p) as [p'|] eqn:E; [|by apply IH]. apply IH.
  destruct (prompt l p) eqn:Hl; [by eapply program_next|done].
Qed.

Definition demo_start : Programs :=
  default (mkPrograms (MakeCoordinator [] 0) [] ∅ Polling []) (start_coordinator demo_args demo_fs).

Lemma demo_start_reach : demo_reach demo_start.
Proof. apply program_start. reflexivity. Qed.

(** A worker is killed in the middle of the first map task; two workers do
    all tasks; then mrcoordinator.go leaves, while a fourth worker starts. *)
Definition demo_workers : list program_label :=
  [NewWorker ["mrworker"; "wc.so"]%string; Call 0] ++ replicate 7 (Work 0) ++ [Kill 0; Straggler 0] ++
  replicate 2 (NewWorker ["mrworker"; "wc.so"]%string) ++
  mjoin (replicate 120 [Call 1; Call 2; Work 1; Work 2; Wake 1; Wake 2]).

Definition demo_finished : Programs :=
  run_possible (demo_workers ++ [Poll; NewWorker ["mrworker"; "wc.so"]%string; LeaveMain]) demo_start.

Lemma coordinator_leaves_complete_output_witness :
  p_main demo_finished = MainReturned /\ p_workers demo_finished = [Killed; Returned; Returned; Asking] /\
  (forall e, p_main demo_finished <> MainPanicked e /\ Aborted e ∉ p_workers demo_finished) /\
  (p_main demo_finished <> Polling ->
   exists lines outs,
     mrsequential demo_Open ["mrsequential"; "wc.so"; "x"; "y"]%string demo_fs
       = Some (Ok (<[outName 0 := concat_str lines]> demo_fs)) /\
     len outs = 10 /\
     (forall i out, outs !! i = Some out -> p_dir demo_finished !! outName (Z.of_nat i) = Some (concat_str out)) /\
     concat outs ≡ₚ lines).
Proof.
  split; [vm_compute; reflexivity|]. split; [vm_compute; reflexivity|].
  apply (coordinator_leaves_complete_output demo_Open "wc.so" demo_map demo_reduce demo_args demo_fs);
    [reflexivity|apply ten_runnable|apply demo_order_free|apply run_possible_reach, demo_start_reach].
Defined.

Lemma workers_leave_witness :
  p_main demo_finished = MainReturned /\
  exists bound, forall ls p', Forall (fun l => starts l = false) ls ->
    program_run demo_Open "wc.so" ls demo_finished = Some p' ->
    (length ls <= bound)%nat /\
    (Forall (fun w => ended w = true) (p_workers p') \/
     exists l p'', own_step l = true /\ demo_step l p' = Some p'').
Proof.
  split; [vm_compute; reflexivity|].
  apply (workers_leave demo_Open "wc.so" demo_map demo_reduce demo_args demo_fs);
    [reflexivity|apply ten_runnable|apply run_possible_reach, demo_start_reach|vm_compute; reflexivity].
Defined.
