(* ===== verification/MRWordJobs.v ===== *)
(** * mr-main/mrapps: word counts and indexes

    What a finished job of wc.go or of indexer.go has written, its tasks
    interleaved file by file and no live worker slower than its timer. *)

From Stdlib Require Import ZArith Lia Ascii.
From stdpp Require Import base numbers strings pretty gmap list sorting.
From S2P Require Import Prelude MRCoordinator MRWorker MRFiles MRJob.
From S2P Require Import Json MRApps MRWords MRTheorems MRJobSteps MRJobStepsTheorems.
Local Open Scope Z_scope.

Section jobs.
Context `{JsonStream} `{GoSort}.
Context (wideLetter : N -> bool) (files : list string) (n : Z) (fs0 : FS).

(** A finished job has one line per key of its input. *)
Lemma fine_job_lines mapf reducef j :
  order_free reducef -> runnable mapf files n fs0 ->
  fine_reach mapf reducef files n fs0 on_time j -> Done (r_co j) = true ->
  exists ks outs, NoDup ks /\ (forall k, k ∈ ks <-> k ∈ Key <$> all_pairs mapf files fs0) /\
    len outs = n /\
    (forall p out, outs !! p = Some out -> r_dir j !! outName (Z.of_nat p) = Some (concat_str out)) /\
    concat outs ≡ₚ
      (fun k => outputLine k (reducef k (values_of k (all_pairs mapf files fs0)))) <$> ks.
Proof.
  intros Hfree Hrun Hj Hd. apply (job_lines mapf reducef files n fs0 Hfree (whole j)); [done| |done].
  apply fine_reach_inv in Hj; [|done]. apply Hj.
Qed.

Definition words_in (name : string) : list string := words wideLetter (content_of fs0 name).

(** ** wc.go *)

(** The occurrences of a word in all input files. *)
Definition word_count (w : string) : Z := len (filter (fun x => x = w) (concat (words_in <$> files))).

Lemma all_words : Key <$> all_pairs (WC.Map wideLetter) files fs0 = concat (words_in <$> files).
Proof.
  unfold all_pairs, words_in. induction files as [|name fls IH]; [done|].
  rewrite !fmap_cons. simpl concat. rewrite fmap_app, IH. f_equal. unfold WC.Map.
  rewrite <- list_fmap_compose. apply list_fmap_id.
Qed.

Lemma values_of_words w :
  values_of w (all_pairs (WC.Map wideLetter) files fs0) = replicate (Z.to_nat (word_count w)) "1"%string.
Proof.
  unfold word_count, len. rewrite Nat2Z.id, <- all_words.
  assert (Forall (fun kv => Value kv = "1"%string) (all_pairs (WC.Map wideLetter) files fs0)) as Hall.
  { apply Forall_concat, Forall_fmap, Forall_true. intros name. by apply Forall_fmap, Forall_true. }
  unfold values_of. induction Hall as [|kv l Hv _ IH]; [done|]. rewrite fmap_cons, !filter_cons.
  case_decide; [|exact IH]. rewrite fmap_cons, IH, Hv. done.
Qed.

Lemma word_counted w : w ∈ Key <$> all_pairs (WC.Map wideLetter) files fs0 <-> 0 < word_count w.
Proof.
  rewrite all_words. unfold word_count, len. split.
  - intros Hin. assert (w ∈ filter (fun x => x = w) (concat (words_in <$> files))) as Hf
      by (by apply list_elem_of_filter).
    destruct (filter _ _); [by apply elem_of_nil in Hf|]. simpl. lia.
  - intros Hpos. destruct (filter (fun x => x = w) (concat (words_in <$> files))) as [|x l] eqn:E; [simpl in Hpos; lia|].
    assert (x ∈ filter (fun x => x = w) (concat (words_in <$> files))) as Hf by (rewrite E; left).
    by apply list_elem_of_filter in Hf as [-> Hin].
Qed.

(** Word counts.  A finished wc job has written, over all its output
    files, one line per word of the input files, each with the number of its
    occurrences in all of them, in decimal; and no other line.  The words are
    the maximal sequences of letters of the texts, decoded from UTF-8. *)
Theorem word_count_job j :
  runnable (WC.Map wideLetter) files n fs0 ->
  fine_reach (WC.Map wideLetter) WC.Reduce files n fs0 on_time j -> Done (r_co j) = true ->
  exists ws outs, NoDup ws /\ (forall w, w ∈ ws <-> 0 < word_count w) /\ len outs = n /\
    (forall p out, outs !! p = Some out -> r_dir j !! outName (Z.of_nat p) = Some (concat_str out)) /\
    concat outs ≡ₚ (fun w => outputLine w (pretty (word_count w))) <$> ws.
Proof.
  intros Hrun Hj Hd. destruct (fine_job_lines _ _ j (proj2 (proj2 (proj2 reduces_order_free))) Hrun Hj Hd)
    as (ks & outs & Hnd & Hks & Hlen & Hout & Hp).
  exists ks, outs. split_and!; [done| |done|done|].
  - intros w. by rewrite Hks, word_counted.
  - rewrite Hp. apply reflexive_eq, list_fmap_ext. intros i k _. f_equal.
    rewrite values_of_words. unfold WC.Reduce. f_equal. unfold len. rewrite length_replicate.
    apply Z2Nat.id. unfold word_count. apply len_nonneg.
Qed.

(** ** indexer.go *)

Context (order : list string -> list string) (Horder : forall l, order l ≡ₚ l).

(** The input files that have the word. *)
Definition documents (w : string) : list string := filter (fun name => w ∈ words_in name) files.

Lemma indexed_words (ws : list string) : elements (foldl (fun (m : gset string) w => {[w]} ∪ m) ∅ ws) ≡ₚ remove_dups ws.
Proof.
  apply NoDup_Permutation; [apply NoDup_elements|apply NoDup_remove_dups|].
  intros w. rewrite elem_of_elements, elem_of_remove_dups.
  assert (forall m : gset string, w ∈ foldl (fun m w => {[w]} ∪ m) m ws <-> w ∈ m \/ w ∈ ws) as Hgen.
  { induction ws as [|x ws IH]; intros m; simpl; [set_solver|]. rewrite IH. set_solver. }
  rewrite Hgen. set_solver.
Qed.

Lemma values_of_document w name ws :
  NoDup ws -> values_of w ((fun w => mkKeyValue w name) <$> ws) = if decide (w ∈ ws) then [name] else [].
Proof.
  unfold values_of. induction 1 as [|x ws Hx _ IH]; [done|].
  rewrite fmap_cons, filter_cons. cbn [Key]. destruct (decide (x = w)) as [->|Hne].
  - rewrite (decide_True (P := w ∈ w :: ws)) by left. rewrite fmap_cons, IH.
    by rewrite (decide_False (P := w ∈ ws)).
  - rewrite IH. destruct (decide (w ∈ ws)).
    + by rewrite (decide_True (P := w ∈ x :: ws)) by (by right).
    + rewrite (decide_False (P := w ∈ x :: ws)); [done|]. by intros [->|]%elem_of_cons.
Qed.

Lemma values_of_index w :
  values_of w (all_pairs (Indexer.Map wideLetter order) files fs0) = documents w.
Proof.
  unfold all_pairs, documents. induction files as [|name fls IH]; [done|].
  rewrite fmap_cons. simpl concat. rewrite values_of_app, IH, filter_cons. unfold Indexer.Map.
  assert (NoDup (order (elements (foldl (fun (m : gset string) w => {[w]} ∪ m) ∅ (words_in name))))) as Hnd
    by (rewrite Horder; apply NoDup_elements).
  unfold words_in in Hnd |- * at 1. rewrite (values_of_document w name _ Hnd).
  assert (w ∈ order (elements (foldl (fun (m : gset string) w => {[w]} ∪ m) ∅ (words wideLetter (content_of fs0 name))))
    <-> w ∈ words_in name) as Hw by (by rewrite Horder, indexed_words, elem_of_remove_dups).
  destruct (decide (w ∈ words_in name)).
  - by rewrite decide_True by (by apply Hw).
  - by rewrite decide_False by (by rewrite Hw).
Qed.

Lemma word_indexed w :
  w ∈ Key <$> all_pairs (Indexer.Map wideLetter order) files fs0 <-> documents w <> [].
Proof.
  rewrite <- values_of_index. split.
  - intros (kv & -> & Hin)%list_elem_of_fmap_1 E.
    assert (Value kv ∈ values_of (Key kv) (all_pairs (Indexer.Map wideLetter order) files fs0)) as Hv
      by (by apply list_elem_of_fmap_2, list_elem_of_filter).
    rewrite E in Hv. by apply elem_of_nil in Hv.
  - intros Hne. destruct (values_of w _) as [|v l] eqn:E; [done|].
    assert (v ∈ values_of w (all_pairs (Indexer.Map wideLetter order) files fs0)) as Hv by (rewrite E; left).
    apply list_elem_of_fmap_1 in Hv as (kv & _ & [<- Hin]%list_elem_of_filter).
    by apply list_elem_of_fmap_2.
Qed.

(** C36: the index.  Let an indexer job run with its tasks interleaved file
    by file, workers dying anywhere, but no timer firing for a task whose
    worker is still at it.  Once it is finished it has written, over all its
    output files, one line per word of the input files, with the number of the files
    that have it and their names, sorted and separated by commas; and no
    other line; in whatever order Go goes through its maps. *)
Theorem index_job j :
  runnable (Indexer.Map wideLetter order) files n fs0 ->
  fine_reach (Indexer.Map wideLetter order) Indexer.Reduce files n fs0 on_time j -> Done (r_co j) = true ->
  exists ws outs, NoDup ws /\ (forall w, w ∈ ws <-> exists name, name ∈ files /\ w ∈ words_in name) /\
    len outs = n /\
    (forall p out, outs !! p = Some out -> r_dir j !! outName (Z.of_nat p) = Some (concat_str out)) /\
    concat outs ≡ₚ (fun w => outputLine w
      (pretty (len (documents w)) +:+ " " +:+ Join "," (sort_strings (documents w)))) <$> ws.
Proof using Horder.
  intros Hrun Hj Hd. assert (order_free Indexer.Reduce) as Hfree.
  { intros key vs vs' E. unfold Indexer.Reduce, len. by rewrite (sort_strings_perm _ _ E), (Permutation_length E). }
  destruct (fine_job_lines _ _ j Hfree Hrun Hj Hd) as (ks & outs & Hnd & Hks & Hlen & Hout & Hp).
  exists ks, outs. split_and!; [done| |done|done|].
  - intros w. rewrite Hks, word_indexed. unfold documents. split.
    + intros Hne. destruct (filter _ _) as [|name l] eqn:E; [done|].
      assert (name ∈ filter (fun name => w ∈ words_in name) files) as Hin by (rewrite E; left).
      apply list_elem_of_filter in Hin as [Hw Hin]. by exists name.
    + intros (name & Hin & Hw) E.
      assert (name ∈ filter (fun name => w ∈ words_in name) files) as Hf by (by apply list_elem_of_filter).
      rewrite E in Hf. by apply elem_of_nil in Hf.
  - rewrite Hp. apply reflexive_eq, list_fmap_ext. intros i k _. by rewrite values_of_index.
Qed.
End jobs.

(** ** Two texts *)

#[local] Existing Instance merge_go_sort.

(** No letters above ASCII. *)
Definition ascii_letters : N -> bool := fun _ => false.

Definition text_fs : FS := {["t1"%string := "to be, or not to be"%string; "t2"%string := "to do"%string]}.
Definition text_files : list string := ["t1"; "t2"]%string.

(** The labels that are possible and on time, one after the other. *)
Fixpoint fine_possible (mapf : mapFun) (reducef : reduceFun) (ls : list fine_label) (j : Running) : Running :=
  match ls with
  | [] => j
  | l :: ls =>
    match fine_step mapf reducef l j with
    | Some (Ok j') => fine_possible mapf reducef ls (if on_time l j then j' else j)
    | _ => fine_possible mapf reducef ls j
    end
  end.

Lemma fine_possible_reach mapf reducef fls n fs0 ls j :
  fine_reach mapf reducef fls n fs0 on_time j ->
  fine_reach mapf reducef fls n fs0 on_time (fine_possible mapf reducef ls j).
Proof.
  revert j. induction ls as [|l ls IH]; intros j Hj; simpl; [done|].
  destruct (fine_step mapf reducef l j) as [[j'|]|] eqn:E; [|by apply IH..]. apply IH.
  destruct (on_time l j) eqn:Ho; [by eapply fine_reach_step|done].
Qed.

(** A worker dies in its first task; then two work in turn. *)
Definition text_labels : list fine_label :=
  [FGet] ++ replicate 4 (FAccess 0) ++ [FDie 0; FTimer 0] ++
  mjoin (replicate 60 [FGet; FAccess 0; FAccess 1; FFinish 1; FFinish 0; FReport 0]).

Definition text_job (mapf : mapFun) (reducef : reduceFun) : Running :=
  fine_possible mapf reducef text_labels (fine_init text_files 2 text_fs).

Lemma text_job_reach mapf reducef :
  fine_reach mapf reducef text_files 2 text_fs on_time (text_job mapf reducef).
Proof. apply fine_possible_reach, fine_reach_init. Qed.

Lemma text_runnable mapf :
  forallb (fun kv => valid_utf8 (Key kv) && valid_utf8 (Value kv)) (all_pairs mapf text_files text_fs) = true ->
  runnable mapf text_files 2 text_fs.
Proof.
  intros Hok. constructor; [lia| | | |].
  - repeat constructor; eexists; reflexivity.
  - intros name i p Hin _. unfold interName. simpl.
    apply elem_of_cons in Hin as [->|Hin%list_elem_of_singleton]; [|subst]; discriminate.
  - intros name p Hin. unfold outName. simpl.
    apply elem_of_cons in Hin as [->|Hin%list_elem_of_singleton]; [|subst]; discriminate.
  - apply Forall_forall. intros kv Hin. apply list_elem_of_In in Hin.
    by apply andb_prop, (proj1 (forallb_forall _ _) Hok).
Qed.

Definition wc_map : mapFun := WC.Map ascii_letters.

Lemma wc_runnable : runnable wc_map text_files 2 text_fs.
Proof. apply text_runnable. vm_compute. reflexivity. Qed.

Lemma word_count_job_witness :
  word_count ascii_letters text_files text_fs "to" = 3 /\
  exists ws outs, NoDup ws /\ (forall w, w ∈ ws <-> 0 < word_count ascii_letters text_files text_fs w) /\
    len outs = 2 /\
    (forall p out, outs !! p = Some out ->
       r_dir (text_job wc_map WC.Reduce) !! outName (Z.of_nat p) = Some (concat_str out)) /\
    concat outs ≡ₚ
      (fun w => outputLine w (pretty (word_count ascii_letters text_files text_fs w))) <$> ws.
Proof.
  split; [vm_compute; reflexivity|].
  apply (word_count_job ascii_letters text_files 2 text_fs (text_job wc_map WC.Reduce));
    [apply wc_runnable|apply text_job_reach|vm_compute; reflexivity].
Defined.

(** A map whose keys come in reverse order. *)
Definition index_map : mapFun := Indexer.Map ascii_letters (@rev string).

Lemma rev_order (l : list string) : rev l ≡ₚ l.
Proof. symmetry. apply Permutation_rev. Qed.

Lemma index_runnable : runnable index_map text_files 2 text_fs.
Proof. apply text_runnable. vm_compute. reflexivity. Qed.

Lemma index_job_witness :
  documents ascii_letters text_files text_fs "be" = ["t1"%string] /\
  exists ws outs, NoDup ws /\
    (forall w, w ∈ ws <-> exists name, name ∈ text_files /\ w ∈ words_in ascii_letters text_fs name) /\
    len outs = 2 /\
    (forall p out, outs !! p = Some out ->
       r_dir (text_job index_map Indexer.Reduce) !! outName (Z.of_nat p) = Some (concat_str out)) /\
    concat outs ≡ₚ (fun w => outputLine w
      (pretty (len (documents ascii_letters text_files text_fs w)) +:+ " " +:+
       Join "," (sort_strings (documents ascii_letters text_files text_fs w)))) <$> ws.
Proof.
  split; [vm_compute; reflexivity|].
  apply (index_job ascii_letters text_files 2 text_fs (@rev string) rev_order (text_job index_map Indexer.Reduce));
    [apply index_runnable|apply text_job_reach|vm_compute; reflexivity].
Defined.

(** U+00E9 in two bytes, a byte that is no UTF-8, a surrogate. *)
Example decode_runes :
  fst <$> runes 0 (String (ascii_of_nat 195) (String (ascii_of_nat 169) (String (ascii_of_nat 255)
    (String (ascii_of_nat 237) (String (ascii_of_nat 160) (String (ascii_of_nat 128) "x"))))))
  = [233; 65533; 65533; 65533; 65533; 120]%N.
Proof. reflexivity. Qed.
