(* ===== verification/Float64.v ===== *)
(** * float64

    The binary64 numbers of the Standard Library's [SpecFloat], as Go uses
    them: arithmetic, comparison, and conversion from and to integers.
    Integers below 2^53 are exact; a product of positive numbers exceeds the
    exact one by a unit in the last place at most. *)

From Stdlib Require Import ZArith Lia SpecFloat.
From stdpp Require Import base numbers list.
From S2P Require Import Prelude.
Local Open Scope Z_scope.

Abbreviation float64 := spec_float.

#[export] Instance float64_eq_dec : EqDecision float64.
Proof. solve_decision. Defined.

Definition float_zero : float64 := S754_zero false.
Definition float_add (x y : float64) : float64 := SFadd 53 1024 x y.
Definition float_sub (x y : float64) : float64 := SFsub 53 1024 x y.
Definition float_mul (x y : float64) : float64 := SFmul 53 1024 x y.
Definition float_div (x y : float64) : float64 := SFdiv 53 1024 x y.
Definition float_ltb (x y : float64) : bool := SFltb x y.
(** [float64(n)] *)
Definition float_of_int (n : Z) : float64 := binary_normalize 53 1024 n 0 false.

(** [int64(f)] rounds toward zero; Go does not say what it is for a number
    out of range, for an infinity or for NaN: [other]. *)
Definition float_to_int64 (other : Z) (f : float64) : Z :=
  match f with
  | S754_zero _ => 0
  | S754_finite s m e =>
    let n := Z.shiftl (Zpos m) e in
    let n := if s then - n else n in
    if (- 2 ^ 63 <=? n) && (n <? 2 ^ 63) then n else other
  | _ => other
  end.

(** ** Digits and shifts *)

Lemma digits_log2 p : Zpos (digits2_pos p) = Z.log2 (Zpos p) + 1.
Proof.
  induction p as [p IH|p IH|]; [| |done]; cbn [digits2_pos]; rewrite Pos2Z.inj_succ, IH.
  - change (Zpos p~1) with (2 * Zpos p + 1). rewrite Z.log2_succ_double; lia.
  - change (Zpos p~0) with (2 * Zpos p). rewrite Z.log2_double; lia.
Qed.

Lemma digits_mul_pow2 p k : 0 <= k -> Z.log2 (Zpos p * 2 ^ k) = Z.log2 (Zpos p) + k.
Proof. intros Hk. rewrite Z.log2_mul_pow2; lia. Qed.

Lemma iter_xO m d : Zpos (Pos.iter xO m d) = Zpos m * 2 ^ Zpos d.
Proof.
  revert d. refine (Pos.peano_ind _ _ _); [simpl; lia|]. intros d IH.
  rewrite Pos.iter_succ, Pos2Z.inj_succ, Z.pow_succ_r by lia.
  change (Zpos (Pos.iter xO m d)~0) with (2 * Zpos (Pos.iter xO m d)). lia.
Qed.

Lemma shl_align_spec m e e' :
  let '(m', e'') := shl_align m e e' in e'' = Z.min e e' /\ Zpos m' = Zpos m * 2 ^ (e - e'').
Proof.
  unfold shl_align. destruct (e' - e) as [|d|d] eqn:E.
  - split; [lia|]. rewrite Z.sub_diag. lia.
  - split; [lia|]. rewrite Z.sub_diag. lia.
  - split; [lia|]. rewrite iter_xO. do 2 f_equal. lia.
Qed.

Lemma iter_pos_nat {A} (f : A -> A) n x : SpecFloat.iter_pos f n x = Nat.iter (Pos.to_nat n) f x.
Proof.
  revert x. induction n as [n IH|n IH|]; intros x; cbn [SpecFloat.iter_pos]; [| |done].
  - rewrite !IH, <- Nat.iter_add. rewrite Pos2Nat.inj_xI.
    replace (S (2 * Pos.to_nat n))%nat with ((Pos.to_nat n + Pos.to_nat n) + 1)%nat by lia.
    by rewrite (Nat.iter_add _ 1).
  - rewrite !IH, <- Nat.iter_add. f_equal. lia.
Qed.

Lemma shr_1_div r : 0 <= shr_m r -> shr_m (shr_1 r) = shr_m r / 2.
Proof.
  destruct r as [[|[p|p|]|p] b s]; simpl; intros Hr; try done; try lia.
  - apply (Z.div_unique _ 2 _ 1); lia.
  - apply (Z.div_unique _ 2 _ 0); lia.
Qed.

Lemma shr_iter_div n r :
  0 <= shr_m r -> shr_m (Nat.iter n shr_1 r) = shr_m r / 2 ^ Z.of_nat n.
Proof.
  intros Hr. induction n as [|n IH]; [simpl; by rewrite Z.div_1_r|].
  rewrite Nat.iter_succ, shr_1_div; rewrite IH; [|apply Z.div_pos; lia].
  rewrite Z.div_div by lia. f_equal. rewrite Nat2Z.inj_succ, Z.pow_succ_r; lia.
Qed.

(** Shifting out zeros. *)
Lemma shr_iter_exact n m :
  0 <= m -> Nat.iter n shr_1 (Build_shr_record (m * 2 ^ Z.of_nat n) false false) = Build_shr_record m false false.
Proof.
  intros Hm. revert m Hm. induction n as [|n IH]; intros m Hm; [simpl; f_equal; lia|].
  rewrite Nat.iter_succ. replace (m * 2 ^ Z.of_nat (S n)) with ((2 * m) * 2 ^ Z.of_nat n)
    by (rewrite Nat2Z.inj_succ, Z.pow_succ_r by lia; lia).
  rewrite IH by lia. by destruct m as [|p|p].
Qed.

Lemma shr_exact m e k :
  0 <= m -> 0 <= k ->
  shr (Build_shr_record (m * 2 ^ k) false false) e k = (Build_shr_record m false false, e + k).
Proof.
  intros Hm Hk. destruct k as [|k|k]; simpl shr; [|f_equal|lia].
  - by rewrite Z.mul_1_r, Z.add_0_r.
  - rewrite iter_pos_nat, <- (positive_nat_Z k). by apply shr_iter_exact.
Qed.

(** ** Integers below 2^53 *)

Definition is_exact (n : Z) : Prop := 0 <= n < 2 ^ 53.

(** The number of binary digits. *)
Definition digits (n : Z) : Z := Z.log2 n + 1.

(** A positive integer with all 53 bits of its mantissa. *)
Definition canonical (n : Z) : float64 :=
  S754_finite false (Z.to_pos (n * 2 ^ (53 - digits n))) (digits n - 53).

Lemma digits_range n : 0 < n < 2 ^ 53 -> 1 <= digits n <= 53.
Proof.
  intros [H0 H1]. unfold digits. pose proof (Z.log2_nonneg n).
  apply Z.log2_lt_pow2 in H1; lia.
Qed.

Lemma round_aux_int m e n :
  0 < n < 2 ^ 53 -> e <= digits n - 53 -> Zpos m = n * 2 ^ (- e) ->
  binary_round_aux 53 1024 false (Zpos m) e loc_Exact = canonical n.
Proof.
  intros Hn He Em. pose proof (digits_range n Hn) as Hd.
  unfold binary_round_aux, shr_fexp. cbn [Zdigits2 shr_record_of_loc].
  assert (fexp 53 1024 (Zpos (digits2_pos m) + e) = digits n - 53) as ->.
  { rewrite digits_log2, Em, Z.log2_mul_pow2 by lia. unfold fexp, emin, digits in *. lia. }
  replace (Zpos m) with ((n * 2 ^ (53 - digits n)) * 2 ^ (digits n - 53 - e))
    by (rewrite Em, <- Z.mul_assoc, <- Z.pow_add_r by lia; f_equal; f_equal; lia).
  rewrite shr_exact by lia. cbn [shr_m loc_of_shr_record round_nearest_even].
  replace (e + (digits n - 53 - e)) with (digits n - 53) by lia.
  destruct (n * 2 ^ (53 - digits n)) as [|q|q] eqn:Eq; [lia| |lia]. cbn [Zdigits2].
  assert (fexp 53 1024 (Zpos (digits2_pos q) + (digits n - 53)) - (digits n - 53) = 0) as ->.
  { rewrite digits_log2, <- Eq, Z.log2_mul_pow2 by lia. unfold fexp, emin, digits in *. lia. }
  simpl. destruct (Z.leb_spec (digits n - 53) (1024 - 53)); [|lia].
  unfold canonical. by rewrite Eq.
Qed.

Lemma binary_round_int p e n :
  e <= 0 -> 0 < n < 2 ^ 53 -> Zpos p = n * 2 ^ (- e) ->
  binary_round 53 1024 false p e = canonical n.
Proof.
  intros He Hn Ep. pose proof (digits_range n Hn) as Hd. unfold binary_round.
  assert (fexp 53 1024 (Zpos (digits2_pos p) + e) = digits n - 53) as ->.
  { rewrite digits_log2, Ep, Z.log2_mul_pow2 by lia. unfold fexp, emin, digits in *. lia. }
  pose proof (shl_align_spec p e (digits n - 53)) as Hs.
  destruct (shl_align p e (digits n - 53)) as [m e']. destruct Hs as [-> Em].
  apply round_aux_int; [done|lia|]. rewrite Em, Ep, <- Z.mul_assoc, <- Z.pow_add_r by lia.
  f_equal. f_equal. lia.
Qed.

Lemma float_of_int_canonical n : 0 < n < 2 ^ 53 -> float_of_int n = canonical n.
Proof.
  intros Hn. unfold float_of_int. destruct n as [|p|p]; [lia| |lia].
  apply binary_round_int; [done|done|]. simpl. lia.
Qed.

(** Sums of integers are exact. *)
Lemma float_add_int a b :
  0 <= a -> 0 <= b -> a + b < 2 ^ 53 -> float_add (float_of_int a) (float_of_int b) = float_of_int (a + b).
Proof.
  intros Ha Hb Hab.
  destruct (decide (a = 0)) as [->|Ha0].
  { rewrite Z.add_0_l. destruct (decide (b = 0)) as [->|Hb0]; [reflexivity|].
    by rewrite (float_of_int_canonical b) by lia. }
  destruct (decide (b = 0)) as [->|Hb0].
  { rewrite Z.add_0_r. by rewrite (float_of_int_canonical a) by lia. }
  rewrite !float_of_int_canonical by lia. unfold canonical at 1 2, float_add, SFadd. cbn [cond_Zopp].
  set (ea := digits a - 53). set (eb := digits b - 53).
  pose proof (digits_range a ltac:(lia)). pose proof (digits_range b ltac:(lia)).
  pose proof (shl_align_spec (Z.to_pos (a * 2 ^ (53 - digits a))) ea (Z.min ea eb)) as Hsa.
  pose proof (shl_align_spec (Z.to_pos (b * 2 ^ (53 - digits b))) eb (Z.min ea eb)) as Hsb.
  destruct (shl_align _ ea _) as [ma e1], (shl_align _ eb _) as [mb e2]. cbn [fst].
  destruct Hsa as [-> Ea], Hsb as [-> Eb]. rewrite Z2Pos.id in Ea, Eb by lia.
  rewrite <- Z.mul_assoc, <- Z.pow_add_r in Ea, Eb by lia.
  set (ez := Z.min ea eb) in *.
  replace (53 - digits a + (ea - Z.min ea ez)) with (- ez) in Ea by lia.
  replace (53 - digits b + (eb - Z.min eb ez)) with (- ez) in Eb by lia.
  rewrite Ea, Eb, <- Z.mul_add_distr_r.
  destruct ((a + b) * 2 ^ (- ez)) as [|p|p] eqn:Ep; [lia| |lia]. cbn [binary_normalize].
  apply binary_round_int; lia.
Qed.

Lemma float_ltb_finite m1 e1 m2 e2 :
  float_ltb (S754_finite false m1 e1) (S754_finite false m2 e2) =
  match e1 ?= e2 with Eq => Zpos m1 <? Zpos m2 | Lt => true | Gt => false end.
Proof.
  unfold float_ltb, SFltb. cbn [SFcompare]. destruct (e1 ?= e2); [|done|done].
  unfold Z.ltb. rewrite <- Pos2Z.inj_compare. unfold Pos.compare.
  by destruct (Pos.compare_cont Eq m1 m2).
Qed.

(** So is their order. *)
Lemma float_ltb_int a b : is_exact a -> is_exact b -> float_ltb (float_of_int a) (float_of_int b) = (a <? b).
Proof.
  intros Ha Hb. unfold is_exact in *. destruct (decide (a = 0)) as [->|Ha0].
  { destruct (decide (b = 0)) as [->|Hb0]; [reflexivity|].
    rewrite (float_of_int_canonical b) by lia. symmetry. apply Z.ltb_lt. lia. }
  destruct (decide (b = 0)) as [->|Hb0].
  { rewrite (float_of_int_canonical a) by lia. symmetry. apply Z.ltb_ge. lia. }
  rewrite !float_of_int_canonical by lia. unfold canonical. rewrite float_ltb_finite.
  pose proof (digits_range a ltac:(lia)). pose proof (digits_range b ltac:(lia)).
  destruct (Z.compare_spec (digits a - 53) (digits b - 53)) as [E|E|E]; symmetry.
  - rewrite !Z2Pos.id by lia. replace (digits b) with (digits a) by lia.
    unfold Z.ltb. by rewrite <- Zmult_compare_compat_r by lia.
  - apply Z.ltb_lt. unfold digits in *. apply Z.log2_lt_cancel. lia.
  - apply Z.ltb_ge. unfold digits in *. apply Z.lt_le_incl, Z.log2_lt_cancel. lia.
Qed.

(** ** Products of positive numbers *)

Lemma shr_div r e k :
  0 <= shr_m r ->
  let '(r', e') := shr r e k in e' = e + Z.max 0 k /\ shr_m r' = shr_m r / 2 ^ Z.max 0 k /\ (k <= 0 -> r' = r).
Proof.
  intros Hr. destruct k as [|k|k]; simpl shr.
  - split_and!; [lia|by rewrite Z.div_1_r|done].
  - split_and!; [lia| |lia]. rewrite iter_pos_nat, shr_iter_div, positive_nat_Z by done. done.
  - split_and!; [lia|by rewrite Z.div_1_r|done].
Qed.

Lemma round_up_once m l : 0 <= m -> m <= round_nearest_even m l <= m + 1.
Proof. intros Hm. destruct l as [|[]]; simpl; try lia. destruct (Z.even m); lia. Qed.

(** [m * 2^e] as an integer, for all exponents that products have. *)
Definition scaled (m e : Z) : Z := m * 2 ^ (e + 2200).

Lemma scaled_shift q e k : 0 <= q -> -2200 <= e -> 0 <= k -> scaled (q / 2 ^ k) (e + k) <= scaled q e.
Proof.
  intros Hq He Hk. unfold scaled. replace (e + k + 2200) with (k + (e + 2200)) by lia.
  rewrite Z.pow_add_r, Z.mul_assoc by lia. apply Z.mul_le_mono_nonneg_r; [lia|].
  rewrite Z.mul_comm. apply Z.mul_div_le. lia.
Qed.

Lemma scaled_mono m m' e : -2200 <= e -> m <= m' -> scaled m e <= scaled m' e.
Proof. intros He Hm. unfold scaled. apply Z.mul_le_mono_nonneg_r; lia. Qed.

(** One unit in the last place of [M * 2^E], or the least positive number. *)
Lemma unit_bound M E :
  -2200 <= E -> 0 < M ->
  2 ^ 52 * scaled 1 (fexp 53 1024 (digits M + E)) <= scaled M E + 2 ^ 52 * 2 ^ 1126 \/
  fexp 53 1024 (digits M + E) <= E.
Proof.
  intros HE HM. unfold fexp, emin. destruct (Z.max_spec (digits M + E - 53) (3 - 1024 - 53)) as [[? ->]|[? ->]].
  - left. unfold scaled. assert (0 <= M * 2 ^ (E + 2200)) by lia.
    replace (3 - 1024 - 53 + 2200) with 1126 by lia. lia.
  - destruct (decide (digits M + E - 53 <= E)) as [|Hd]; [by right|left].
    unfold scaled. replace (digits M + E - 53 + 2200) with ((digits M - 53) + (E + 2200)) by lia.
    rewrite Z.pow_add_r, Z.mul_1_l, Z.mul_assoc, <- Z.pow_add_r by lia.
    replace (52 + (digits M - 53)) with (Z.log2 M) by (unfold digits; lia).
    pose proof (Z.log2_spec M HM) as [Hlog _].
    assert (2 ^ Z.log2 M * 2 ^ (E + 2200) <= M * 2 ^ (E + 2200)) by (apply Z.mul_le_mono_nonneg_r; lia).
    assert (0 <= 2 ^ 52 * 2 ^ 1126) by lia. lia.
Qed.

Definition with_error (v : Z) : Z := (2 ^ 52 + 1) * v + 2 ^ 52 * 2 ^ 1126.

Lemma round_aux_bound M E :
  -2148 <= E ->
  match binary_round_aux 53 1024 false (Zpos M) E loc_Exact with
  | S754_zero s => s = false
  | S754_finite s m e => s = false /\ -1074 <= e /\ 2 ^ 52 * scaled (Zpos m) e <= with_error (scaled (Zpos M) E)
  | S754_infinity _ => 2 ^ 52 * 2 ^ (972 + 2200) <= with_error (scaled (Zpos M) E)
  | S754_nan => False
  end.
Proof.
  intros HE. unfold binary_round_aux, shr_fexp. cbn [Zdigits2 shr_record_of_loc].
  rewrite digits_log2. fold (digits (Zpos M)).
  pose proof (unit_bound (Zpos M) E ltac:(lia) ltac:(lia)) as Hunit.
  set (f1 := fexp 53 1024 (digits (Zpos M) + E)) in *.
  assert (-1074 <= f1) as Hf1 by (unfold f1, fexp, emin; lia).
  pose proof (shr_div (Build_shr_record (Zpos M) false false) E (f1 - E) ltac:(simpl; lia)) as H1.
  destruct (shr _ E (f1 - E)) as [r1 e1]. destruct H1 as (He1 & Hm1 & Hr1). cbn [shr_m] in Hm1.
  assert (0 <= shr_m r1) as Hpos1 by (rewrite Hm1; apply Z.div_pos; lia).
  set (q := round_nearest_even (shr_m r1) (loc_of_shr_record r1)).
  assert (shr_m r1 <= q <= shr_m r1 + 1) as Hq by (by apply round_up_once).
  assert (2 ^ 52 * scaled q e1 <= with_error (scaled (Zpos M) E)) as Hq'.
  { assert (0 <= scaled (Zpos M) E) by (unfold scaled; lia).
    destruct (Z.le_gt_cases f1 E) as [Hle|Hgt].
    - assert (q = Zpos M) as -> by (unfold q; by rewrite Hr1 by lia).
      replace e1 with E by lia. unfold with_error. lia.
    - destruct Hunit as [Hunit|]; [|lia]. rewrite Z.max_r in He1, Hm1 by lia.
      assert (scaled q e1 <= scaled (shr_m r1) e1 + scaled 1 f1) as Hs.
      { replace f1 with e1 by lia. unfold scaled. rewrite <- Z.mul_add_distr_r.
        apply Z.mul_le_mono_nonneg_r; lia. }
      assert (scaled (shr_m r1) e1 <= scaled (Zpos M) E).
      { rewrite Hm1, He1. apply scaled_shift; lia. }
      unfold with_error. lia. }
  pose proof (shr_div (Build_shr_record q false false) e1
    (fexp 53 1024 (Zdigits2 q + e1) - e1) ltac:(simpl; lia)) as H2.
  destruct (shr _ e1 _) as [r2 e2]. destruct H2 as (He2 & Hm2 & _). cbn [shr_m] in Hm2.
  set (k := Z.max 0 _) in *.
  assert (scaled (shr_m r2) e2 <= scaled q e1) as Hs2 by (rewrite Hm2, He2; apply scaled_shift; lia).
  assert (0 <= shr_m r2) by (rewrite Hm2; apply Z.div_pos; lia).
  destruct (shr_m r2) as [|m|m]; [done| |lia].
  destruct (Z.leb_spec e2 (1024 - 53)).
  - split_and!; [done|lia|]. lia.
  - assert (2 ^ (972 + 2200) <= scaled (Zpos m) e2); [|lia]. unfold scaled.
    assert (2 ^ (972 + 2200) <= 2 ^ (e2 + 2200)) by (apply Z.pow_le_mono_r; lia). lia.
Qed.

Lemma float_mul_bound m1 e1 m2 e2 :
  -1074 <= e1 -> -1074 <= e2 ->
  match float_mul (S754_finite false m1 e1) (S754_finite false m2 e2) with
  | S754_zero s => s = false
  | S754_finite s m e =>
    s = false /\ -1074 <= e /\ 2 ^ 52 * scaled (Zpos m) e <= with_error (scaled (Zpos (m1 * m2)) (e1 + e2))
  | S754_infinity _ => 2 ^ 52 * 2 ^ (972 + 2200) <= with_error (scaled (Zpos (m1 * m2)) (e1 + e2))
  | S754_nan => False
  end.
Proof. intros H1 H2. apply round_aux_bound. lia. Qed.

(** Truncation of a positive number. *)
Lemma shiftl_scaled m e : 0 <= m -> -2200 <= e -> Z.shiftl m e * 2 ^ 2200 <= scaled m e.
Proof.
  intros Hm He. unfold scaled. destruct (Z.le_gt_cases 0 e) as [H0|H0].
  - rewrite Z.shiftl_mul_pow2, <- Z.mul_assoc, <- Z.pow_add_r by lia. lia.
  - replace e with (- - e) at 1 by lia. rewrite Z.shiftl_opp_r, Z.shiftr_div_pow2 by lia.
    replace 2200 with (- e + (e + 2200)) at 1 by lia. rewrite Z.pow_add_r, Z.mul_assoc by lia.
    apply Z.mul_le_mono_nonneg_r; [lia|]. rewrite Z.mul_comm. apply Z.mul_div_le. lia.
Qed.

Lemma scaled_mul m m' e e' :
  -1074 <= e -> -1074 <= e' <= 0 -> scaled (m * m') (e + e') * 2 ^ (- e') = scaled m e * m'.
Proof.
  intros He He'. unfold scaled.
  replace (m * 2 ^ (e + 2200) * m') with (m * m' * (2 ^ (e + e' + 2200) * 2 ^ (- e'))).
  - lia.
  - rewrite <- Z.pow_add_r by lia. replace (e + e' + 2200 + - e') with (e + 2200) by lia. lia.
Qed.

(** A positive float64 at most [v], in the scale of [scaled]. *)
Definition at_most (v : Z) (f : float64) : Prop :=
  match f with
  | S754_zero s => s = false
  | S754_finite s m e => s = false /\ -1074 <= e /\ scaled (Zpos m) e <= v
  | _ => False
  end.

Lemma float_mul_at_most f mc ec u v :
  at_most u f -> -1074 <= ec <= 0 ->
  (2 ^ 52 + 1) * (u * Zpos mc) + 2 ^ 52 * 2 ^ 1126 * 2 ^ (- ec) <= 2 ^ 52 * v * 2 ^ (- ec) -> v < 2 ^ 3172 ->
  at_most v (float_mul f (S754_finite false mc ec)).
Proof.
  intros Hf Hec Hv Hmax. destruct f as [s|s| |s m e]; simpl in Hf; try done; [by rewrite Hf|].
  destruct Hf as (-> & He & Hm). pose proof (float_mul_bound m e mc ec He ltac:(lia)) as Hb.
  assert (with_error (scaled (Zpos (m * mc)) (e + ec)) <= 2 ^ 52 * v) as Hle.
  { pose proof (scaled_mul (Zpos m) (Zpos mc) e ec He Hec) as Hs. change (Zpos m * Zpos mc) with (Zpos (m * mc)) in Hs.
    assert (0 < 2 ^ (- ec)) as Hp by (apply Z.pow_pos_nonneg; lia).
    apply (Z.mul_le_mono_pos_r _ _ (2 ^ (- ec)) Hp). etrans; [|exact Hv].
    unfold with_error. rewrite Z.mul_add_distr_r, <- Z.mul_assoc, Hs.
    apply Z.add_le_mono_r, Z.mul_le_mono_nonneg_l; [lia|]. apply Z.mul_le_mono_nonneg_r; lia. }
  destruct (float_mul _ _) as [s|s| |s m' e']; simpl; [done| |done|].
  - apply (Z.lt_irrefl (2 ^ 52 * 2 ^ (972 + 2200))).
    eapply Z.le_lt_trans; [exact Hb|]. eapply Z.le_lt_trans; [exact Hle|].
    apply Z.mul_lt_mono_pos_l; [lia|]. exact Hmax.
  - destruct Hb as (-> & ? & ?). split_and!; [done|done|]. apply (Z.mul_le_mono_pos_l _ _ (2 ^ 52)); lia.
Qed.

Lemma at_most_truncates other v b f :
  at_most v f -> v < (b + 1) * 2 ^ 2200 -> 0 <= b < 2 ^ 63 -> 0 <= float_to_int64 other f <= b.
Proof.
  intros Hf Hv Hb. destruct f as [s|s| |s m e]; simpl in Hf; try done; [simpl; lia|].
  destruct Hf as (-> & He & Hm). unfold float_to_int64.
  pose proof (shiftl_scaled (Zpos m) e ltac:(lia) ltac:(lia)) as Hs.
  assert (Z.shiftl (Zpos m) e < b + 1) as Hlt.
  { apply (Z.mul_lt_mono_pos_r (2 ^ 2200)); [apply Z.pow_pos_nonneg; lia|].
    eapply Z.le_lt_trans; [exact Hs|]. by eapply Z.le_lt_trans. }
  assert (0 <= Z.shiftl (Zpos m) e) by (apply Z.shiftl_nonneg; lia).
  set (k := Z.shiftl (Zpos m) e) in *. clearbody k.
  destruct (Z.leb_spec (- 2 ^ 63) k); [|lia]. destruct (Z.ltb_spec k (2 ^ 63)); [simpl; lia|lia].
Qed.

(** A float64 in the half-open interval from 0 to 1. *)
Definition in_unit (f : float64) : bool :=
  match f with
  | S754_zero s => negb s
  | S754_finite s m e => negb s && bounded 53 1024 m e && float_ltb f (float_of_int 1)
  | _ => false
  end.

Lemma in_unit_at_most f : in_unit f = true -> at_most (2 ^ 2200) f.
Proof.
  destruct f as [s|s| |s m e]; cbn [in_unit at_most]; try done; [by destruct s|].
  intros [[Hs Hb]%andb_true_iff Hlt]%andb_true_iff. destruct s; [done|].
  unfold bounded, canonical_mantissa in Hb. apply andb_true_iff in Hb as [Hc _]. apply Z.eqb_eq in Hc.
  rewrite digits_log2 in Hc. unfold fexp, emin in Hc. split_and!; [done|lia|].
  change (float_of_int 1) with (S754_finite false 4503599627370496 (-52)) in Hlt.
  rewrite float_ltb_finite in Hlt.
  assert (Zpos m < 2 ^ 53 /\ e <= -53 \/ Zpos m < 2 ^ 52 /\ e = -52) as Hm.
  { revert Hlt. destruct (Z.compare_spec e (-52)) as [->|He|]; intros Hlt; [right|left|done].
    - apply Z.ltb_lt in Hlt. lia.
    - split; [|lia]. apply Z.log2_lt_cancel. change (Z.log2 (2 ^ 53)) with 53. lia. }
  unfold scaled. destruct Hm as [[Hm He]|[Hm ->]].
  - transitivity (2 ^ 53 * 2 ^ (e + 2200)); [apply Z.mul_le_mono_nonneg_r; lia|].
    rewrite <- Z.pow_add_r by lia. apply Z.pow_le_mono_r; lia.
  - change (-52 + 2200) with 2148. change (2 ^ 2200) with (2 ^ 52 * 2 ^ 2148).
    apply Z.mul_le_mono_nonneg_r; lia.
Qed.
