(* ===== verification/WeatherAggregator.v ===== *)
(** * ws: what an aggregator is to do

    A machine for both aggregators of src/ws, one event per step: a call to
    a station returns, its report is taken, the ticker ticks, quit.
    WeatherLoops has the loops and goroutines of the code and shows that both
    implement it.  Values are the binary64 numbers of Float64. *)

From Stdlib Require Import ZArith Lia SpecFloat.
From stdpp Require Import base numbers strings gmap list.
From S2P Require Import Prelude Float64.
Local Open Scope Z_scope.

Record WeatherReport := mkWeatherReport { Value : float64; Id : Z; Batch : Z }.

#[export] Instance WeatherReport_eq_dec : EqDecision WeatherReport.
Proof. solve_decision. Defined.

(** ** State and events *)

(** [calls]: calls of [getWeatherData(id, batch)]; [returned]: their results
    that have not been taken. *)
Record Aggregator := mkAggregator {
  batch : Z;
  total : float64;
  count : Z;
  calls : list (Z * Z);
  returned : list WeatherReport;
  out : list WeatherReport;
  stopped : bool;
}.

Inductive event :=
| EReturn (i : nat) (value : float64)  (* the i-th call returns with the value *)
| EReceive (report : WeatherReport)    (* a report is taken *)
| ETick                                (* the average is reported, a batch starts *)
| EQuit.                               (* the quit case *)

(** [for i := 0; i < k; i++ { go func(...)(i, batch) }] *)
Definition startBatch (k b : Z) : list (Z * Z) := (fun i => (i, b)) <$> seqZ 0 k.

Definition initAggregator (k : Z) : Aggregator :=
  mkAggregator 0 float_zero 0 (startBatch k 0) [] [] false.

(** What [getWeatherData(id, batch)] returns when the station answered
    [value]. *)
Definition getWeatherData (value : float64) (id b : Z) : WeatherReport := mkWeatherReport value id b.

Definition callReturns (i : nat) (value : float64) (s : Aggregator) : option Aggregator :=
  '(id, b) ← calls s !! i;
  Some (mkAggregator (batch s) (total s) (count s) (delete i (calls s))
          (returned s ++ [getWeatherData value id b]) (out s) (stopped s)).

(** [if report.Batch == batch { total += report.Value; count++ }] *)
Definition addReport (report : WeatherReport) (s : Aggregator) : Aggregator :=
  if Batch report =? batch s
  then mkAggregator (batch s) (float_add (total s) (Value report)) (count s + 1)
         (calls s) (returned s) (out s) (stopped s)
  else s.

(** One of the goroutines that hold the report hands it over. *)
Definition handOver (report : WeatherReport) (s : Aggregator) : option Aggregator :=
  '(i, _) ← list_find (fun r => r = report) (returned s);
  Some (addReport report
          (mkAggregator (batch s) (total s) (count s) (calls s) (delete i (returned s))
             (out s) (stopped s))).

Definition tick (k : Z) (s : Aggregator) : Aggregator :=
  let average := float_div (total s) (float_of_int (count s)) in
  mkAggregator (batch s + 1) float_zero 0 (calls s ++ startBatch k (batch s + 1)) (returned s)
    (out s ++ [mkWeatherReport average 0 (batch s)]) (stopped s).

Definition quit (s : Aggregator) : Aggregator :=
  mkAggregator (batch s) (total s) (count s) (calls s) (returned s) (out s) true.

(** Reports may be taken, but are not reported, after quit. *)
Definition aggregator (k : Z) (e : event) (s : Aggregator) : option Aggregator :=
  match e with
  | EReturn i value => callReturns i value s
  | EReceive report => handOver report s
  | ETick => if stopped s then None else Some (tick k s)
  | EQuit => if stopped s then None else Some (quit s)
  end.

Fixpoint run (k : Z) (es : list event) (s : Aggregator) : option Aggregator :=
  match es with
  | [] => Some s
  | e :: es => s ← aggregator k e s; run k es s
  end.

(** ** Specification *)

(** The reports received before each tick; [cur] are those since the last. *)
Fixpoint intervals (es : list event) (cur : list WeatherReport) : list (list WeatherReport) :=
  match es with
  | [] => []
  | ETick :: es => cur :: intervals es []
  | EReceive report :: es => intervals es (cur ++ [report])
  | _ :: es => intervals es cur
  end.

(** The reports of a batch among those received. *)
Definition of_batch (b : Z) (rs : list WeatherReport) : list WeatherReport :=
  filter (fun r => Batch r = b) rs.

Definition sum (rs : list WeatherReport) : float64 := foldl float_add float_zero (Value <$> rs).

Definition batchReport (b : Z) (rs : list WeatherReport) : WeatherReport :=
  mkWeatherReport (float_div (sum (of_batch b rs)) (float_of_int (len (of_batch b rs)))) 0 b.

(** Stations heard of for a batch: called, returned or received. *)
Definition stations (b : Z) (cs : list (Z * Z)) (rs : list WeatherReport) : list Z :=
  (fst <$> filter (fun c => c.2 = b) cs) ++ (Id <$> of_batch b rs).

Record agg_inv (k : Z) (done : list (list WeatherReport)) (cur : list WeatherReport)
    (s : Aggregator) : Prop := {
  ai_batch : batch s = len done;
  ai_total : total s = sum (of_batch (batch s) cur);
  ai_count : count s = len (of_batch (batch s) cur);
  ai_out : out s = imap (fun b rs => batchReport (Z.of_nat b) rs) done;
  ai_calls : Forall (fun c => c.2 <= batch s) (calls s);
  ai_returned : Forall (fun r => Batch r <= batch s) (returned s);
  ai_stations : stations (batch s) (calls s) (returned s ++ cur) ≡ₚ seqZ 0 k;
  ai_cur : Forall (fun r => Batch r <= batch s) cur;
  ai_done : forall b rs, done !! b = Some rs ->
    exists rest, (Id <$> of_batch (Z.of_nat b) rs) ++ rest ≡ₚ seqZ 0 k;
}.

(** ** Preservation *)

Lemma of_batch_app b rs1 rs2 : of_batch b (rs1 ++ rs2) = of_batch b rs1 ++ of_batch b rs2.
Proof. apply filter_app. Qed.

Lemma of_batch_one b r : of_batch b [r] = if decide (Batch r = b) then [r] else [].
Proof. unfold of_batch. rewrite filter_cons. by case_decide. Qed.

Lemma of_batch_none b rs : Forall (fun r => Batch r <= b) rs -> of_batch (b + 1) rs = [].
Proof.
  unfold of_batch. induction 1 as [|r rs Hr _ IH]; [done|].
  rewrite filter_cons, decide_False by lia. done.
Qed.

#[export] Instance of_batch_proper b : Proper ((≡ₚ) ==> (≡ₚ)) (of_batch b).
Proof. intros rs rs' E. unfold of_batch. by rewrite E. Qed.

#[export] Instance stations_proper b : Proper ((≡ₚ) ==> (≡ₚ) ==> (≡ₚ)) (stations b).
Proof. intros cs cs' E rs rs' E'. unfold stations. by rewrite E, E'. Qed.

Lemma sum_snoc rs r : sum (rs ++ [r]) = float_add (sum rs) (Value r).
Proof. unfold sum. by rewrite fmap_app, foldl_app. Qed.

(** A call of station [id] becomes a report of it. *)
Lemma stations_return b id b' v cs rs :
  stations b cs (mkWeatherReport v id b' :: rs) ≡ₚ stations b ((id, b') :: cs) rs.
Proof.
  unfold stations. unfold of_batch. rewrite !filter_cons. simpl.
  destruct (decide (b' = b)); [|done]. simpl. by rewrite Permutation_middle.
Qed.

Lemma stations_start b k cs rs :
  Forall (fun c => c.2 <= b) cs -> Forall (fun r => Batch r <= b) rs ->
  stations (b + 1) (cs ++ startBatch k (b + 1)) rs ≡ₚ seqZ 0 k.
Proof.
  intros Hcs Hrs. unfold stations. rewrite of_batch_none by done. rewrite app_nil_r, filter_app.
  assert (filter (fun c => c.2 = b + 1) cs = []) as ->.
  { clear rs Hrs. induction Hcs as [|c cs Hc _ IH]; [done|].
    rewrite filter_cons, decide_False by lia. done. }
  apply reflexive_eq. simpl. unfold startBatch.
  induction (seqZ 0 k) as [|i l IH]; [done|]. rewrite fmap_cons, filter_cons. simpl.
  rewrite decide_True by done. rewrite fmap_cons, IH. done.
Qed.

Lemma delete_perm {A} (l : list A) i x : l !! i = Some x -> l ≡ₚ x :: delete i l.
Proof. apply delete_Permutation. Qed.

Lemma agg_inv_init k : agg_inv k [] [] (initAggregator k).
Proof.
  constructor; simpl; try done.
  - apply Forall_fmap, Forall_true. intros i. simpl. lia.
  - apply (stations_start (-1) k [] []); constructor.
Qed.

Lemma agg_inv_return k done cur i v s s' :
  agg_inv k done cur s -> callReturns i v s = Some s' -> agg_inv k done cur s'.
Proof.
  intros [] Hst. apply bind_Some in Hst as ([id b] & Hi & [= <-]). constructor; simpl; try done.
  - by apply Forall_delete.
  - apply Forall_app. split; [done|]. apply Forall_singleton.
    by apply (Forall_lookup_1 _ _ _ _ ai_calls0 Hi).
  - rewrite <- ai_stations0.
    transitivity (stations (batch s) ((id, b) :: delete i (calls s)) (returned s ++ cur)).
    + rewrite <- (stations_return _ _ _ v). apply stations_proper; [done|].
      rewrite <- app_assoc. simpl. by rewrite <- Permutation_middle.
    + apply stations_proper; [|done]. symmetry. by apply delete_perm.
Qed.

Lemma agg_inv_receive k done cur r s s' :
  agg_inv k done cur s -> handOver r s = Some s' -> agg_inv k done (cur ++ [r]) s'.
Proof.
  intros [] Hst. apply bind_Some in Hst as ([i r'] & Hf & [= <-]).
  apply list_find_Some in Hf as (Hi & -> & _).
  pose proof (Forall_lookup_1 _ _ _ _ ai_returned0 Hi) as Hr.
  assert (delete i (returned s) ++ cur ++ [r] ≡ₚ returned s ++ cur) as Hperm.
  { transitivity ((r :: delete i (returned s)) ++ cur).
    - rewrite app_assoc, (Permutation_app_comm _ [r]). done.
    - apply Permutation_app_tail. symmetry. by apply delete_perm. }
  unfold addReport. simpl. destruct (Z.eqb_spec (Batch r) (batch s)) as [Eb|Eb];
    constructor; simpl; rewrite ?of_batch_app, ?of_batch_one; try done.
  - rewrite decide_True by done. by rewrite sum_snoc, ai_total0.
  - rewrite decide_True by done. rewrite len_app, ai_count0. done.
  - by apply Forall_delete.
  - by rewrite Hperm.
  - apply Forall_app. split; [done|]. by apply Forall_singleton.
  - rewrite decide_False by done. by rewrite app_nil_r.
  - rewrite decide_False by done. by rewrite app_nil_r.
  - by apply Forall_delete.
  - by rewrite Hperm.
  - apply Forall_app. split; [done|]. by apply Forall_singleton.
Qed.

Lemma agg_inv_tick k done cur s : agg_inv k done cur s -> agg_inv k (done ++ [cur]) [] (tick k s).
Proof.
  intros []. unfold tick. constructor; simpl; try done.
  - rewrite len_app, ai_batch0. done.
  - rewrite ai_out0, imap_app. f_equal. simpl. unfold batchReport.
    rewrite Nat.add_0_r. change (Z.of_nat (length done)) with (len done).
    by rewrite <- ai_batch0, ai_total0, ai_count0.
  - apply Forall_app. split; [eapply Forall_impl; [done|]; simpl; lia|].
    apply Forall_fmap, Forall_true. intros i. simpl. lia.
  - eapply Forall_impl; [done|]. simpl. lia.
  - rewrite app_nil_r. by apply stations_start.
  - intros b rs Hb. apply lookup_app_Some in Hb as [Hb|[Hle Hb]]; [by eapply ai_done0|].
    apply list_lookup_singleton_Some in Hb as [E <-].
    assert (Z.of_nat b = batch s) as -> by (rewrite ai_batch0; unfold len; lia).
    unfold stations in ai_stations0. rewrite of_batch_app, fmap_app in ai_stations0.
    eexists. rewrite <- ai_stations0. rewrite Permutation_app_comm.
    by rewrite app_assoc.
Qed.

Lemma aggregator_run_inv k es done cur s s' :
  agg_inv k done cur s -> run k es s = Some s' ->
  exists cur', agg_inv k (done ++ intervals es cur) cur' s'.
Proof.
  revert done cur s. induction es as [|e es IH]; intros done cur s Hi HR; simpl in HR.
  { injection HR as <-. exists cur. simpl. by rewrite app_nil_r. }
  apply bind_Some in HR as (s1 & Hst & HR). destruct e as [i v|r| |]; simpl in Hst |- *.
  - by apply (IH _ _ s1), HR; eapply agg_inv_return.
  - by apply (IH _ _ s1), HR; eapply agg_inv_receive.
  - destruct (stopped s); [done|]. injection Hst as <-.
    destruct (IH _ _ _ (agg_inv_tick _ _ _ _ Hi) HR) as (cur' & Hi'). exists cur'.
    by rewrite <- app_assoc in Hi'.
  - destruct (stopped s); [done|]. injection Hst as <-. apply (IH _ _ (quit s)); [|done].
    destruct Hi. by constructor.
Qed.

Lemma aggregator_run_reports k es s b rs :
  run k es (initAggregator k) = Some s ->
  out s = imap (fun b rs => batchReport (Z.of_nat b) rs) (intervals es []) /\
  (intervals es [] !! b = Some rs ->
   NoDup (Id <$> of_batch (Z.of_nat b) rs) /\
   Forall (fun id => 0 <= id < k) (Id <$> of_batch (Z.of_nat b) rs)).
Proof.
  intros HR. destruct (aggregator_run_inv k es [] [] _ _ (agg_inv_init k) HR) as (cur & Hi).
  simpl in Hi. split; [apply Hi|]. intros Hb.
  destruct (ai_done _ _ _ _ Hi _ _ Hb) as [rest E]. split.
  - pose proof (NoDup_seqZ 0 k) as Hnd. rewrite <- E in Hnd. exact (proj1 (proj1 (NoDup_app _ _) Hnd)).
  - apply Forall_forall. intros id Hid.
    assert (id ∈ seqZ 0 k) as Hin%elem_of_seqZ by (rewrite <- E; apply elem_of_app; by left). lia.
Qed.

(** The averages.  The b-th report on [out] is that of batch b: the float64
    average of the values of batch b taken before the b-th tick, in the
    order they came (reports of earlier batches are ignored, an interval
    without reports gives NaN).  No station counts twice in it, and only
    stations 0..k-1 do; nothing is reported after quit. *)
Theorem aggregators_report_averages k es s :
  run k es (initAggregator k) = Some s ->
  out s = imap (fun b rs => batchReport (Z.of_nat b) rs) (intervals es []) /\
  (forall b rs, intervals es [] !! b = Some rs ->
     NoDup (Id <$> of_batch (Z.of_nat b) rs) /\
     Forall (fun id => 0 <= id < k) (Id <$> of_batch (Z.of_nat b) rs) /\
     (of_batch (Z.of_nat b) rs = [] -> Value (batchReport (Z.of_nat b) rs) = S754_nan)) /\
  (forall e s', stopped s = true -> aggregator k e s = Some s' -> out s' = out s).
Proof.
  intros HR. split; [exact (proj1 (aggregator_run_reports k es s 0%nat [] HR))|]. split.
  - intros b rs Hb. destruct (aggregator_run_reports k es s b rs HR) as [_ H].
    destruct (H Hb). split_and!; try done. unfold batchReport. intros ->. reflexivity.
  - intros e s' Hs He. destruct e as [i v|r| |]; simpl in He; rewrite ?Hs in He; try done.
    + by apply bind_Some in He as ([id b] & _ & [= <-]).
    + apply bind_Some in He as ([i r'] & _ & [= <-]). unfold addReport. by case_match.
Qed.

(** The events without the reports that are taken after quit. *)
Fixpoint until_quit (quitted : bool) (es : list event) : list event :=
  match es with
  | [] => []
  | EReceive report :: es => if quitted then until_quit quitted es else EReceive report :: until_quit quitted es
  | EQuit :: es => EQuit :: until_quit true es
  | e :: es => e :: until_quit quitted es
  end.

(** The same to an observer; before quit, the same. *)
Record agg_equiv (s s' : Aggregator) : Prop := {
  ae_batch : batch s' = batch s;
  ae_calls : calls s' = calls s;
  ae_out : out s' = out s;
  ae_stopped : stopped s' = stopped s;
  ae_running : stopped s = false -> s' = s;
}.

Lemma handOver_frame r s s' :
  handOver r s = Some s' ->
  batch s' = batch s /\ calls s' = calls s /\ out s' = out s /\ stopped s' = stopped s.
Proof. intros ([i x] & _ & [= <-])%bind_Some. unfold addReport. by case_match. Qed.


Lemma agg_equiv_refl s : agg_equiv s s.
Proof. by constructor. Qed.

(** What an observer sees does not depend on the reports taken after quit. *)
Lemma agg_equiv_step k e s s1 s' :
  agg_equiv s s' -> aggregator k e s = Some s1 ->
  match e with
  | EReceive _ => stopped s = true /\ agg_equiv s1 s'
  | _ => False
  end \/
  ((forall r, e = EReceive r -> stopped s = false) /\
   exists s1', aggregator k e s' = Some s1' /\ agg_equiv s1 s1').
Proof.
  intros Heq Hst. pose proof Heq as [Eb Ec Eo Es Er]. destruct (stopped s) eqn:Hs.
  - destruct e as [i v|r| |]; simpl in Hst |- *; rewrite ?Hs in Hst; try done.
    + right. split; [done|]. unfold callReturns in *. rewrite Ec, Eb, Eo, Es.
      apply bind_Some in Hst as ([id b] & -> & [= <-]). simpl.
      eexists. split; [done|]. constructor; simpl; congruence.
    + left. split; [done|]. apply handOver_frame in Hst as (? & ? & ? & ?). constructor; congruence.
  - rewrite (Er eq_refl). right. split; [done|]. exists s1. split; [done|apply agg_equiv_refl].
Qed.
