(* ===== verification/WeatherLoops.v ===== *)
(** * ws: the two aggregators

    [channelAggregator] of channel_aggregator.go and [mutexAggregator] of
    mutex_aggregator.go: where the select loop is, where the goroutines of
    the stations are and, in the second, who holds the mutex.  Sending on
    [out] blocks until it is received; meanwhile the first loop receives no
    reports and the second holds its mutex.  The two share no step; each
    implements the machine of WeatherAggregator, and so does what the other
    does. *)

From Stdlib Require Import ZArith Lia SpecFloat.
From stdpp Require Import base numbers strings gmap list.
From S2P Require Import Prelude Float64 WeatherAggregator.
Local Open Scope Z_scope.

(** ** Implementations of the machine

    A label is one step of a loop or of a goroutine.  [does]: the event of
    the machine it is, if any; [fires]: the select takes the ticker's case;
    [sound]: the invariant of the implementation. *)
Class Implementation (St Label : Type) := {
  boot : Z -> St;
  istep : Z -> Label -> St -> option St;
  view : St -> Aggregator;
  does : Label -> option event;
  fires : Label -> bool;
  sound : St -> Prop;
  boot_sound k : sound (boot k);
  boot_view k : view (boot k) = initAggregator k;
  istep_view k l s s' :
    sound s -> istep k l s = Some s' ->
    sound s' /\
    match does l with
    | Some e => aggregator k e (view s) = Some (view s')
    | None => view s' = view s
    end;
}.

(** The machine itself. *)
#[export] Instance machine : Implementation Aggregator event.
Proof.
  refine {| boot := initAggregator; istep := aggregator; view := id; does := Some;
            fires := fun _ => false; sound := fun _ => True |}; done.
Defined.

(** A run, and the events it is made of. *)
Fixpoint irun `{Implementation St Label} (k : Z) (ls : list Label) (s : St) : option (St * list event) :=
  match ls with
  | [] => Some (s, [])
  | l :: ls =>
    s ← istep k l s;
    '(s, es) ← irun k ls s;
    Some (s, option_list (does l) ++ es)
  end.

Lemma irun_run `{Implementation St Label} k ls s s' es :
  sound s -> irun k ls s = Some (s', es) -> sound s' /\ run k es (view s) = Some (view s').
Proof.
  revert s es. induction ls as [|l ls IH]; intros s es Hs HR; simpl in HR; [by injection HR as <- <-|].
  apply bind_Some in HR as (s1 & Hst & HR). apply bind_Some in HR as ([s2 es2] & HR & [= <- <-]).
  destruct (istep_view _ _ _ _ Hs Hst) as [Hs1 Hv]. destruct (IH _ _ Hs1 HR) as [Hs2 HR2].
  split; [done|]. destruct (does l) as [e|]; simpl; rewrite <- HR2; [by rewrite Hv|by rewrite Hv].
Qed.

Lemma irun_app `{Implementation St Label} k ls ls' s s1 s2 es es' :
  irun k ls s = Some (s1, es) -> irun k ls' s1 = Some (s2, es') -> irun k (ls ++ ls') s = Some (s2, es ++ es').
Proof.
  revert s es. induction ls as [|l ls IH]; intros s es E E'; simpl in *; [by injection E as <- <-|].
  apply bind_Some in E as (s3 & -> & E). apply bind_Some in E as ([s4 es4] & E & [= <- <-]). simpl.
  rewrite (IH _ _ E E'). simpl. by rewrite app_assoc.
Qed.

(** Case analysis on the tests of one step and of the event it is. *)
Ltac implements :=
  repeat match goal with
  | H : (if ?x then None else _) = Some _ |- _ => destruct x eqn:?; [done|]
  | H : _ ≫= _ = Some _ |- _ => apply bind_Some in H as (? & ? & ?)
  | x : _ * _ |- _ => destruct x
  end;
  unfold callReturns, handOver, addReport, quit, tick in *; simpl in *;
  repeat case_match; simplify_eq/=; destruct_and?; simplify_eq/=; try done;
  repeat match goal with H : ?x = Some _ |- context [?x] => rewrite H; simpl end;
  repeat case_match; simplify_eq/=; try done; try congruence.

(** ** channelAggregator *)

Module Channel.

Inductive loop :=
| Selecting
| Received (report : WeatherReport)  (* case report := <-reports *)
| Sending (report : WeatherReport)   (* out <- WeatherReport{...} *)
| Returned.

(** [sending]: goroutines in [reports <- ...]. *)
Record State := mkState {
  batch : Z;
  total : float64;
  count : Z;
  at_ : loop;
  calls : list (Z * Z);
  sending : list WeatherReport;
  out : list WeatherReport;
}.

Inductive label :=
| CallReturns (i : nat) (value : float64)  (* the i-th call of getWeatherData *)
| Receive (report : WeatherReport)         (* select: <-reports *)
| Add                                      (* if report.Batch == batch { ... } *)
| Ticker                                   (* select: <-ticker.C *)
| OutReceived                              (* out <- completes; up to the next select *)
| Quit.                                    (* select: <-quit *)

(** The variables and goroutines before the loop. *)
Definition start (k : Z) : State := mkState 0 float_zero 0 Selecting (startBatch k 0) [] [].

Definition channelAggregator (k : Z) (l : label) (s : State) : option State :=
  match l, at_ s with
  | CallReturns i value, _ =>
    '(stationID, b) ← calls s !! i;
    Some (mkState (batch s) (total s) (count s) (at_ s) (delete i (calls s))
            (sending s ++ [getWeatherData value stationID b]) (out s))
  | Receive report, Selecting =>
    '(i, _) ← list_find (fun r => r = report) (sending s);
    Some (mkState (batch s) (total s) (count s) (Received report) (calls s) (delete i (sending s)) (out s))
  | Add, Received report =>
    if Batch report =? batch s then
      Some (mkState (batch s) (float_add (total s) (Value report)) (count s + 1) Selecting
              (calls s) (sending s) (out s))
    else Some (mkState (batch s) (total s) (count s) Selecting (calls s) (sending s) (out s))
  | Ticker, Selecting =>
    let average := float_div (total s) (float_of_int (count s)) in
    Some (mkState (batch s) (total s) (count s) (Sending (mkWeatherReport average 0 (batch s)))
            (calls s) (sending s) (out s))
  | OutReceived, Sending report =>
    let batch' := batch s + 1 in
    Some (mkState batch' float_zero 0 Selecting (calls s ++ startBatch k batch') (sending s) (out s ++ [report]))
  | Quit, Selecting =>
    Some (mkState (batch s) (total s) (count s) Returned (calls s) (sending s) (out s))
  | _, _ => None
  end.

Definition has_returned (m : loop) : bool := match m with Returned => true | _ => false end.

(** A received report counts as added. *)
Definition view (s : State) : Aggregator :=
  let a := mkAggregator (batch s) (total s) (count s) (calls s) (sending s) (out s) (has_returned (at_ s)) in
  match at_ s with Received report => addReport report a | _ => a end.

(** What is being sent is still the average of the batch. *)
Definition sound (s : State) : Prop :=
  match at_ s with
  | Sending report => report = mkWeatherReport (float_div (total s) (float_of_int (count s))) 0 (batch s)
  | _ => True
  end.

Definition does (l : label) : option event :=
  match l with
  | CallReturns i value => Some (EReturn i value)
  | Receive report => Some (EReceive report)
  | OutReceived => Some ETick
  | Quit => Some EQuit
  | Add | Ticker => None
  end.

Definition fires (l : label) : bool := match l with Ticker => true | _ => false end.
End Channel.

#[export] Instance channel_implementation : Implementation Channel.State Channel.label.
Proof.
  refine {| boot := Channel.start; istep := Channel.channelAggregator; view := Channel.view;
            does := Channel.does; fires := Channel.fires; sound := Channel.sound |}; try done.
  intros k l [b t c m cs sd o] s' Hs Hst. unfold Channel.sound, Channel.view in *. simpl in *.
  destruct l as [i v|r| | | |], m as [|r'|r'|]; simpl in Hst |- *; try done;
    implements.
Defined.

(** ** mutexAggregator *)

Module Mutex.

Inductive loop :=
| Selecting
| Locking                            (* case <-ticker.C: m.Lock() *)
| Sending (report : WeatherReport)   (* out <- WeatherReport{...}, with m *)
| Unlocking                          (* m.Unlock() *)
| Returned.

(** A goroutine that has locked m. *)
Inductive holder :=
| Testing (report : WeatherReport)   (* if report.Batch == batch *)
| Counting                           (* count++ *)
| Leaving.                           (* m.Unlock() *)

(** [locking]: goroutines in [m.Lock()]. *)
Record State := mkState {
  m : bool;
  batch : Z;
  total : float64;
  count : Z;
  at_ : loop;
  inside : option holder;
  calls : list (Z * Z);
  locking : list WeatherReport;
  out : list WeatherReport;
}.

Inductive label :=
| CallReturns (i : nat) (value : float64)  (* the i-th call of getWeatherData *)
| Lock (report : WeatherReport)            (* a goroutine: m.Lock() *)
| Go                                       (* the goroutine that holds m *)
| Ticker                                   (* select: <-ticker.C *)
| LoopLock                                 (* the loop: m.Lock(), average *)
| OutReceived                              (* out <- completes; up to m.Unlock() *)
| LoopUnlock                               (* the loop: m.Unlock() *)
| Quit.                                    (* select: <-quit *)

Definition start (k : Z) : State :=
  mkState false 0 float_zero 0 Selecting None (startBatch k 0) [] [].

(** The goroutine of a station, once it has m. *)
Definition goroutine (h : holder) (s : State) : State :=
  match h with
  | Testing report =>
    if Batch report =? batch s then
      mkState (m s) (batch s) (float_add (total s) (Value report)) (count s) (at_ s) (Some Counting)
        (calls s) (locking s) (out s)
    else mkState (m s) (batch s) (total s) (count s) (at_ s) (Some Leaving) (calls s) (locking s) (out s)
  | Counting =>
    mkState (m s) (batch s) (total s) (count s + 1) (at_ s) (Some Leaving) (calls s) (locking s) (out s)
  | Leaving =>
    mkState false (batch s) (total s) (count s) (at_ s) None (calls s) (locking s) (out s)
  end.

Definition mutexAggregator (k : Z) (l : label) (s : State) : option State :=
  match l, at_ s with
  | CallReturns i value, _ =>
    '(stationID, b) ← calls s !! i;
    Some (mkState (m s) (batch s) (total s) (count s) (at_ s) (inside s) (delete i (calls s))
            (locking s ++ [getWeatherData value stationID b]) (out s))
  | Lock report, _ =>
    if m s then None else
    '(i, _) ← list_find (fun r => r = report) (locking s);
    Some (mkState true (batch s) (total s) (count s) (at_ s) (Some (Testing report)) (calls s)
            (delete i (locking s)) (out s))
  | Go, _ => h ← inside s; Some (goroutine h s)
  | Ticker, Selecting =>
    Some (mkState (m s) (batch s) (total s) (count s) Locking (inside s) (calls s) (locking s) (out s))
  | LoopLock, Locking =>
    if m s then None else
    let average := float_div (total s) (float_of_int (count s)) in
    Some (mkState true (batch s) (total s) (count s) (Sending (mkWeatherReport average 0 (batch s)))
            (inside s) (calls s) (locking s) (out s))
  | OutReceived, Sending report =>
    let batch' := batch s + 1 in
    Some (mkState (m s) batch' float_zero 0 Unlocking (inside s) (calls s ++ startBatch k batch')
            (locking s) (out s ++ [report]))
  | LoopUnlock, Unlocking =>
    Some (mkState false (batch s) (total s) (count s) Selecting (inside s) (calls s) (locking s) (out s))
  | Quit, Selecting =>
    Some (mkState (m s) (batch s) (total s) (count s) Returned (inside s) (calls s) (locking s) (out s))
  | _, _ => None
  end.

Definition has_returned (l : loop) : bool := match l with Returned => true | _ => false end.

(** What the goroutine inside is about to do counts as done. *)
Definition view (s : State) : Aggregator :=
  let a := mkAggregator (batch s) (total s) (count s) (calls s) (locking s) (out s) (has_returned (at_ s)) in
  match inside s with
  | Some (Testing report) => addReport report a
  | Some Counting =>
    mkAggregator (batch s) (total s) (count s + 1) (calls s) (locking s) (out s) (has_returned (at_ s))
  | _ => a
  end.

(** The loop and a goroutine are not both inside, and m is locked exactly
    when one is; so what is being sent stays the average. *)
Definition sound (s : State) : Prop :=
  match at_ s with
  | Sending report =>
    m s = true /\ inside s = None /\
    report = mkWeatherReport (float_div (total s) (float_of_int (count s))) 0 (batch s)
  | Unlocking => m s = true /\ inside s = None
  | _ => m s = match inside s with Some _ => true | None => false end
  end.

Definition does (l : label) : option event :=
  match l with
  | CallReturns i value => Some (EReturn i value)
  | Lock report => Some (EReceive report)
  | OutReceived => Some ETick
  | Quit => Some EQuit
  | Go | Ticker | LoopLock | LoopUnlock => None
  end.

Definition fires (l : label) : bool := match l with Ticker => true | _ => false end.
End Mutex.

#[export] Instance mutex_implementation : Implementation Mutex.State Mutex.label.
Proof.
  refine {| boot := Mutex.start; istep := Mutex.mutexAggregator; view := Mutex.view;
            does := Mutex.does; fires := Mutex.fires; sound := Mutex.sound |}; try done.
  intros k l [mu b t c lp ins cs lk o] s' Hs Hst. unfold Mutex.sound, Mutex.view in *. simpl in *.
  destruct l as [i v|r| | | | | |], lp as [| |r'| |]; simpl in Hst |- *; try done;
    unfold Mutex.goroutine in *; implements.
Defined.

(** ** The machine's steps as runs of the code *)

Definition channel_at (a : Aggregator) : Channel.State :=
  Channel.mkState (batch a) (total a) (count a) (if stopped a then Channel.Returned else Channel.Selecting)
    (calls a) (returned a) (out a).

Definition mutex_at (a : Aggregator) : Mutex.State :=
  Mutex.mkState false (batch a) (total a) (count a) (if stopped a then Mutex.Returned else Mutex.Selecting)
    None (calls a) (returned a) (out a).

Lemma channel_at_view a : Channel.view (channel_at a) = a.
Proof. by destruct a as [? ? ? ? ? ? []]. Qed.

Lemma mutex_at_view a : Mutex.view (mutex_at a) = a.
Proof. by destruct a as [? ? ? ? ? ? []]. Qed.

Definition channel_labels (e : event) : list Channel.label :=
  match e with
  | EReturn i value => [Channel.CallReturns i value]
  | EReceive report => [Channel.Receive report; Channel.Add]
  | ETick => [Channel.Ticker; Channel.OutReceived]
  | EQuit => [Channel.Quit]
  end.

Definition mutex_labels (e : event) (a : Aggregator) : list Mutex.label :=
  match e with
  | EReturn i value => [Mutex.CallReturns i value]
  | EReceive report => Mutex.Lock report :: replicate (if Batch report =? batch a then 3 else 2) Mutex.Go
  | ETick => [Mutex.Ticker; Mutex.LoopLock; Mutex.OutReceived; Mutex.LoopUnlock]
  | EQuit => [Mutex.Quit]
  end.

Lemma channel_event k e a a' :
  aggregator k e a = Some a' -> (forall r, e = EReceive r -> stopped a = false) ->
  irun k (channel_labels e) (channel_at a) = Some (channel_at a', [e]).
Proof.
  destruct a as [b t c cs rs o st]. intros Hst Hrec.
  destruct e as [i v|r| |]; simpl in Hst; unfold channel_at; simpl.
  - apply bind_Some in Hst as ([id b'] & E & [= <-]). simpl in E |- *. by rewrite E.
  - pose proof (Hrec r eq_refl) as Es. simpl in Es. subst st. unfold handOver, addReport in Hst. simpl in Hst.
    apply bind_Some in Hst as ([i r'] & Hf & Hst).
    destruct (Batch r =? b) eqn:Eb; simplify_eq/=; rewrite Hf; simpl; rewrite Eb; done.
  - destruct st; [done|]. by injection Hst as <-.
  - destruct st; [done|]. by injection Hst as <-.
Qed.

Lemma mutex_event k e a a' :
  aggregator k e a = Some a' -> irun k (mutex_labels e a) (mutex_at a) = Some (mutex_at a', [e]).
Proof.
  destruct a as [b t c cs rs o st]. intros Hst.
  destruct e as [i v|r| |]; simpl in Hst; unfold mutex_at; simpl.
  - apply bind_Some in Hst as ([id b'] & E & [= <-]). simpl in E |- *. by rewrite E.
  - unfold handOver, addReport in Hst. simpl in Hst. apply bind_Some in Hst as ([i r'] & Hf & Hst).
    destruct (Batch r =? b) eqn:Eb; simplify_eq/=; rewrite Hf; simpl; rewrite Eb; done.
  - destruct st; [done|]. by injection Hst as <-.
  - destruct st; [done|]. by injection Hst as <-.
Qed.

Lemma mutex_events k es a a' :
  run k es a = Some a' -> exists ls, irun k ls (mutex_at a) = Some (mutex_at a', es).
Proof.
  revert a. induction es as [|e es IH]; intros a HR; simpl in HR; [injection HR as <-; by exists []|].
  apply bind_Some in HR as (a1 & Hst & HR). destruct (IH _ HR) as [ls E].
  exists (mutex_labels e a ++ ls). eapply (irun_app k _ ls _ _ _ [e]); [by apply mutex_event|done].
Qed.

(** The channel version, without the reports taken after quit. *)
Lemma channel_events k es a a' s :
  agg_equiv a a' -> run k es a = Some s ->
  exists ls s', irun k ls (channel_at a') = Some (channel_at s', until_quit (stopped a) es) /\ agg_equiv s s'.
Proof.
  revert a a'. induction es as [|e es IH]; intros a a' Heq HR; simpl in HR.
  { injection HR as <-. by exists [], a'. }
  apply bind_Some in HR as (a1 & Hst & HR).
  destruct (agg_equiv_step _ _ _ _ _ Heq Hst) as [Hskip|(Hrec & a1' & Hst' & Heq1)].
  - destruct e as [|r| |]; try done. destruct Hskip as [Es Heq1].
    destruct (IH _ _ Heq1 HR) as (ls & s' & E & ?). exists ls, s'. split; [|done].
    rewrite E. simpl. rewrite Es. apply handOver_frame in Hst as (_ & _ & _ & ->). by rewrite Es.
  - destruct (IH _ _ Heq1 HR) as (ls & s' & E & ?). exists (channel_labels e ++ ls), s'. split; [|done].
    assert (until_quit (stopped a) (e :: es) = [e] ++ until_quit (stopped a1) es) as ->.
    { destruct e as [i v|r| |]; simpl in Hst |- *.
      - by apply bind_Some in Hst as ([] & _ & [= <-]).
      - rewrite (Hrec r eq_refl). apply handOver_frame in Hst as (_ & _ & _ & ->). by rewrite (Hrec r eq_refl).
      - destruct (stopped a) eqn:Es; [done|]. injection Hst as <-. simpl. by rewrite Es.
      - destruct (stopped a) eqn:Es; [done|]. by injection Hst as <-. }
    eapply irun_app; [|exact E]. apply channel_event; [done|]. intros r Er. rewrite (ae_stopped _ _ Heq). by eapply Hrec.
Qed.

(** An aggregator shows its environment: what it has reported, its batch,
    the calls it has open and whether it has returned. *)
Definition looks_like (a a' : Aggregator) : Prop :=
  out a' = out a /\ batch a' = batch a /\ calls a' = calls a /\ stopped a' = stopped a.

(** C35: the two aggregators are equivalent.  To every run of the channel
    version, step by step through its select loop and goroutines, there is
    one of the mutex version with the same events: the same calls return the
    same values, the same reports are taken in the same order, the same
    ticks and quit.  It has sent the same reports, is in the same batch and
    has the same calls open.  And to every run of the mutex version, with
    goroutines that hold the mutex, count and unlock in any interleaving
    with the loop, there is one of the channel version with the same events
    but the reports that goroutines still add after quit. *)
Theorem aggregators_equivalent k :
  (forall ls s es, irun k ls (Channel.start k) = Some (s, es) ->
     exists ls' s', irun k ls' (Mutex.start k) = Some (s', es) /\ looks_like (Channel.view s) (Mutex.view s')) /\
  (forall ls s es, irun k ls (Mutex.start k) = Some (s, es) ->
     exists ls' s', irun k ls' (Channel.start k) = Some (s', until_quit false es) /\
       looks_like (Mutex.view s) (Channel.view s')).
Proof.
  split; intros ls s es HR.
  - apply irun_run in HR as [_ HR]; [|done]. apply mutex_events in HR as [ls' E].
    exists ls', (mutex_at (view s)). split; [exact E|]. by rewrite mutex_at_view.
  - apply irun_run in HR as [_ HR]; [|done].
    destruct (channel_events k es _ _ _ (agg_equiv_refl _) HR) as (ls' & s' & E & []).
    exists ls', (channel_at s'). split; [exact E|]. by rewrite channel_at_view.
Qed.

(** Two stations; one answers in time, the other after the tick.  In the
    mutex version the late goroutine has the mutex when the ticker fires. *)
Definition two_runs : list Mutex.label :=
  [Mutex.CallReturns 1 (float_of_int 20); Mutex.Lock (mkWeatherReport (float_of_int 20) 1 0);
   Mutex.Ticker; Mutex.Go; Mutex.Go; Mutex.Go; Mutex.LoopLock; Mutex.OutReceived;
   Mutex.CallReturns 0 (float_of_int 90); Mutex.LoopUnlock;
   Mutex.Lock (mkWeatherReport (float_of_int 90) 0 0); Mutex.Quit; Mutex.Go; Mutex.Go].

Definition two_events : list event :=
  [EReturn 1 (float_of_int 20); EReceive (mkWeatherReport (float_of_int 20) 1 0); ETick;
   EReturn 0 (float_of_int 90); EReceive (mkWeatherReport (float_of_int 90) 0 0); EQuit].

Lemma aggregators_equivalent_witness :
  exists s s' ls', irun 2 two_runs (Mutex.start 2) = Some (s, two_events) /\
    out (Mutex.view s) = [mkWeatherReport (float_of_int 20) 0 0] /\
    irun 2 ls' (Channel.start 2) = Some (s', until_quit false two_events) /\
    looks_like (Mutex.view s) (Channel.view s').
Proof.
  destruct (irun 2 two_runs (Mutex.start 2)) as [[s es]|] eqn:E; [|vm_compute in E; discriminate E].
  assert (es = two_events) as -> by (vm_compute in E; injection E as <- <-; vm_compute; reflexivity).
  destruct (proj2 (aggregators_equivalent 2) two_runs s two_events E) as (ls' & s' & E' & Hl).
  exists s, s', ls'. split; [reflexivity|]. split; [|split; [exact E'|exact Hl]].
  vm_compute in E. injection E as <-. vm_compute. reflexivity.
Defined.
