(* ===== verification/WeatherStation.v ===== *)
(** * ws: the weather station and the call to it

    The RPC handler of ws.go and the closure [getWeatherData] of setup.go.
    What math/rand draws and when a call returns are arguments; times are
    nanoseconds. *)

From Stdlib Require Import ZArith Lia SpecFloat.
From stdpp Require Import base numbers strings gmap list.
From S2P Require Import Prelude Float64 WeatherAggregator.
Local Open Scope Z_scope.

Record WeatherStation := mkWeatherStation { id : Z; averagePeriod : float64; testName : string }.

(** The results of the calls of math/rand in a call of the handler. *)
Record Draws := mkDraws {
  random : Z;          (* rand.Intn(10) *)
  before : Z;          (* rand.Intn(2) *)
  fraction : float64;  (* rand.Float64() *)
  temperature : Z;     (* rand.Intn(100) *)
}.

Definition legal (d : Draws) : bool :=
  (0 <=? random d) && (random d <? 10) && ((before d =? 0) || (before d =? 1)) &&
  in_unit (fraction d) && (0 <=? temperature d) && (temperature d <? 100).

(** [time.Second.Nanoseconds()] *)
Definition second : Z := 1000000000.

(** The literal [0.15]: division rounds to the nearest float64. *)
Definition margin : float64 := float_div (float_of_int 15) (float_of_int 100).

Section station.
Context (other : Z).

(** [time.Duration(f)] *)
Definition Duration (f : float64) : Z := float_to_int64 other f.

(** How long the station sleeps, and its reply; [None] for the one in ten
    calls that never return. *)
Definition GetWeatherRPCHandler (t : WeatherStation) (Batch : Z) (d : Draws) : option (Z * WeatherReport) :=
  if random d =? 6 then None
  else
    let delay := Duration (float_mul (float_mul (fraction d) (float_sub (averagePeriod t) margin))
                             (float_of_int second)) in
    let delay :=
      if before d =? 1 then delay
      else wrap64 (delay + Duration (float_mul (float_add (averagePeriod t) (float_mul (float_of_int 2) margin))
                                       (float_of_int second))) in
    Some (delay, mkWeatherReport (float_of_int (temperature d)) (id t) Batch).

(** ** getWeatherData *)

Record weatherCallReceipt := mkReceipt { r_id : Z; r_batch : Z }.

Record internalWeatherCallReport := mkCallReport {
  requestedAtTime : Z;
  returnedAtTime : Z;
  c_value : float64;
  c_id : Z;
  c_batch : Z;
  c_delay : Z;
}.

(** [float64(delay.Microseconds()) < averagePeriod*float64(time.Second.Microseconds())] *)
Definition within_period (ap : float64) (delay : Z) : bool :=
  float_ltb (float_of_int (Z.quot delay 1000)) (float_mul ap (float_of_int 1000000)).

(** The call of station [id] for [batch] returned [reply]: what goes into the
    back channel of the tester, and the result.  [requestedAtTime] and
    [startTime] are one reading of the clock. *)
Definition callReturned (ap : float64) (requestedAt returnedAt : Z) (reply : WeatherReport) (id batch : Z)
    : list internalWeatherCallReport * WeatherReport :=
  let delay := returnedAt - requestedAt in
  (if within_period ap delay
   then [mkCallReport requestedAt returnedAt (Value reply) id batch delay] else [],
   getWeatherData (Value reply) id batch).

(** ** The tester's periods *)

(** The literals [0.8] and [5.0] of ws_test.go. *)
Definition short_period : float64 := float_div (float_of_int 8) (float_of_int 10).
Definition long_period : float64 := float_of_int 5.

(** [time.Duration(averagePeriod * float64(time.Second))], the ticker's. *)
Definition period (ap : float64) : Z := Duration (float_mul ap (float_of_int second)).

Lemma short_period_ns : period short_period = 800000000.
Proof. vm_compute. reflexivity. Qed.

Lemma long_period_ns : period long_period = 5000000000.
Proof. vm_compute. reflexivity. Qed.

(** The part of the delay that every call draws. *)
Definition drawn (ap : float64) (f : float64) : Z :=
  Duration (float_mul (float_mul f (float_sub ap margin)) (float_of_int second)).

Lemma drawn_bound ap f mc ec b v w :
  float_sub ap margin = S754_finite false mc ec -> in_unit f = true ->
  -1074 <= ec <= 0 ->
  (2 ^ 52 + 1) * (2 ^ 2200 * Zpos mc) + 2 ^ 52 * 2 ^ 1126 * 2 ^ (- ec) <= 2 ^ 52 * v * 2 ^ (- ec) ->
  v < 2 ^ 3172 ->
  (2 ^ 52 + 1) * (v * 8388608000000000) + 2 ^ 52 * 2 ^ 1126 * 2 ^ 23 <= 2 ^ 52 * w * 2 ^ 23 ->
  w < (b + 1) * 2 ^ 2200 -> 0 <= b < 2 ^ 63 -> w < 2 ^ 3172 ->
  0 <= drawn ap f <= b.
Proof.
  intros Ec Hf He Hv Hv' Hw Hb Hb' Hw'. unfold drawn, Duration. rewrite Ec.
  change (float_of_int second) with (S754_finite false 8388608000000000 (-23)).
  apply (at_most_truncates _ w); [|done|done].
  eapply float_mul_at_most; [|lia|exact Hw|done].
  eapply float_mul_at_most; [by apply in_unit_at_most|done|exact Hv|done].
Qed.

Lemma short_drawn f : in_unit f = true -> 0 <= drawn short_period f <= 650000001.
Proof.
  intros Hf.
  apply (drawn_bound short_period f 5854679515581645 (-53) _ (5854679515581650 * 2 ^ 2147)
    (650000001 * 2 ^ 2200));
    [vm_compute; reflexivity|exact Hf|lia|vm_compute; discriminate|vm_compute; reflexivity
    |vm_compute; discriminate|vm_compute; reflexivity|lia|vm_compute; reflexivity].
Qed.

Lemma long_drawn f : in_unit f = true -> 0 <= drawn long_period f <= 4850000001.
Proof.
  intros Hf.
  apply (drawn_bound long_period f 5460614548186726 (-50) _ (5460614548186730 * 2 ^ 2150)
    (4850000001 * 2 ^ 2200));
    [vm_compute; reflexivity|exact Hf|lia|vm_compute; discriminate|vm_compute; reflexivity
    |vm_compute; discriminate|vm_compute; reflexivity|lia|vm_compute; reflexivity].
Qed.

Definition tester_period (ap : float64) : Prop := ap = short_period \/ ap = long_period.

(** The draws of a call that comes back within the period. *)
Definition in_time (d : Draws) : bool := negb (random d =? 6) && (before d =? 1).

(** A station answers at least 149 ms before the period is over, or never
    before 300 ms after it. *)
Lemma handler_delay ap name i b d :
  tester_period ap -> legal d = true ->
  match GetWeatherRPCHandler (mkWeatherStation i ap name) b d with
  | None => random d = 6
  | Some (delay, reply) =>
    random d <> 6 /\ reply = mkWeatherReport (float_of_int (temperature d)) i b /\
    (before d = 1 /\ 0 <= delay <= period ap - 149000000 \/
     before d = 0 /\ period ap + 300000000 <= delay <= 3 * period ap)
  end.
Proof.
  intros Hap Hl. unfold legal in Hl. repeat (apply andb_true_iff in Hl as [Hl ?]).
  unfold GetWeatherRPCHandler. cbn [averagePeriod id].
  destruct (Z.eqb_spec (random d) 6) as [|Hr]; [done|]. split; [done|]. split; [done|].
  fold (drawn ap (fraction d)).
  assert (before d = 0 \/ before d = 1) as Hb by lia.
  assert (0 <= drawn ap (fraction d) <= period ap - 149000000 /\
    Duration (float_mul (float_add ap (float_mul (float_of_int 2) margin)) (float_of_int second))
      = period ap + 300000000 /\ 800000000 <= period ap <= 5000000000) as (Hd & -> & Hp).
  { destruct Hap as [->| ->].
    - rewrite short_period_ns. pose proof (short_drawn (fraction d) ltac:(done)).
      split_and!; [lia|lia|vm_compute; reflexivity|lia|lia].
    - rewrite long_period_ns. pose proof (long_drawn (fraction d) ltac:(done)).
      split_and!; [lia|lia|vm_compute; reflexivity|lia|lia]. }
  destruct Hb as [Hb|Hb]; rewrite Hb; simpl; [right|left; lia].
  rewrite wrap64_id by (unfold in_int64; lia). lia.
Qed.

(** The tester's comparison of microseconds, on integers. *)
Lemma within_period_spec ap delay :
  tester_period ap -> 0 <= delay < 2 ^ 60 -> within_period ap delay = (delay <? period ap).
Proof.
  intros Hap Hd. unfold within_period.
  assert (exists us, float_mul ap (float_of_int 1000000) = float_of_int us /\ period ap = 1000 * us /\
    0 <= us < 2 ^ 53) as (us & -> & -> & Hus).
  { destruct Hap as [->| ->].
    - exists 800000. split_and!; [vm_compute; reflexivity|apply short_period_ns|lia|lia].
    - exists 5000000. split_and!; [vm_compute; reflexivity|apply long_period_ns|lia|lia]. }
  rewrite Z.quot_div_nonneg by lia. rewrite float_ltb_int; [|split; [apply Z.div_pos; lia|]|done].
  - destruct (Z.ltb_spec delay (1000 * us)) as [Hlt|Hge].
    + apply Z.ltb_lt. apply Z.div_lt_upper_bound; lia.
    + apply Z.ltb_ge. apply Z.div_le_lower_bound; lia.
  - apply Z.div_lt_upper_bound; lia.
Qed.
End station.

Section tester.
Context (other : Z).

(** ** The station that answers

    The tester makes [K] stations per test case, each with a socket of its
    own, and registers them all with net/rpc before the first case runs. *)

Definition testCases : list (string * float64 * Z) :=
  [("TestK1", short_period, 1); ("TestK10", short_period, 10); ("TestK100", short_period, 100);
   ("TestLongAveragePeriod", long_period, 100); ("TestQuit", short_period, 100)]%string.

Definition createWeatherStations (k : Z) (ap : float64) (testName : string) : list WeatherStation :=
  (fun i => mkWeatherStation i ap testName) <$> seqZ 0 k.

(** [rpc.Register(&stations[i])] returns an error when the name of the type
    has been registered, and the tester ignores it. *)
Definition Register (registered : option WeatherStation) (t : WeatherStation) : option WeatherStation :=
  match registered with Some _ => registered | None => Some t end.

(** The receiver of all calls, over whatever socket they come. *)
Definition served (test : string) : option WeatherStation :=
  foldl Register None
    (mjoin ((fun '(name, ap, k) => createWeatherStations k ap (test +:+ name)) <$> testCases)).

(** One station answers all calls, with the period of the first test case
    also where the aggregator's is 5 s. *)
Theorem one_station_serves test : served test = Some (mkWeatherStation 0 short_period (test +:+ "TestK1")).
Proof. vm_compute. reflexivity. Qed.

(** The draws with which a call comes back within the aggregator's period. *)
Definition within (server : WeatherStation) (ap : float64) (d : Draws) : bool :=
  match GetWeatherRPCHandler other server 0 d with
  | Some (delay, _) => delay <? period other ap
  | None => false
  end.

Lemma handler_batch server b d delay reply :
  GetWeatherRPCHandler other server b d = Some (delay, reply) ->
  exists reply', GetWeatherRPCHandler other server 0 d = Some (delay, reply').
Proof. unfold GetWeatherRPCHandler. destruct (_ =? 6); [done|]. intros [= <- <-]. by eexists. Qed.

(** The station of the tester's first case and either of the tester's
    periods: answers come at least 149 ms before the period is over or at
    least 300 ms after it. *)
Lemma server_delay ap name i b d :
  tester_period ap -> legal d = true ->
  match GetWeatherRPCHandler other (mkWeatherStation i short_period name) b d with
  | None => within (mkWeatherStation i short_period name) ap d = false
  | Some (delay, reply) =>
    reply = mkWeatherReport (float_of_int (temperature d)) i b /\
    (within (mkWeatherStation i short_period name) ap d = true /\ 0 <= delay <= period other ap - 149000000 \/
     within (mkWeatherStation i short_period name) ap d = false /\ period other ap + 300000000 <= delay)
  end.
Proof.
  intros Hap Hl. pose proof (handler_delay other short_period name i b d ltac:(by left) Hl) as Hd. unfold within.
  destruct (GetWeatherRPCHandler other _ b d) as [[delay reply]|] eqn:E.
  - destruct (handler_batch _ _ _ _ _ E) as [reply' ->]. destruct Hd as (_ & -> & Hd). split; [done|].
    rewrite short_period_ns in Hd.
    destruct Hap as [->| ->]; [rewrite short_period_ns|rewrite long_period_ns].
    + destruct Hd as [[_ ?]|[_ ?]]; [left|right]; (split; [|lia]); [apply Z.ltb_lt; lia|apply Z.ltb_ge; lia].
    + left. split; [apply Z.ltb_lt|]; lia.
  - unfold GetWeatherRPCHandler in *. by destruct (_ =? 6).
Qed.
End tester.

(** C39: a station is in time or clearly late.  For the periods of the tester
    and whatever math/rand draws, the handler hangs exactly when it draws 6
    of 10; otherwise it replies with the temperature it drew, its own number
    and the batch of the request, and sleeps at least 149 ms less than the
    ticker's period or at least 300 ms more.  The float64 products are
    rounded and truncated as in the code; no conversion is out of range. *)
Theorem station_in_time_or_late other ap name i b d :
  tester_period ap -> legal d = true ->
  (GetWeatherRPCHandler other (mkWeatherStation i ap name) b d = None <-> random d = 6) /\
  forall delay reply, GetWeatherRPCHandler other (mkWeatherStation i ap name) b d = Some (delay, reply) ->
    reply = mkWeatherReport (float_of_int (temperature d)) i b /\
    (if in_time d then 0 <= delay <= period other ap - 149000000
     else period other ap + 300000000 <= delay <= 3 * period other ap).
Proof.
  intros Hap Hl. pose proof (handler_delay other ap name i b d Hap Hl) as Hd.
  destruct (GetWeatherRPCHandler _ _ _ _) as [[delay reply]|]; [|done]. destruct Hd as (Hr & -> & Hd).
  split; [done|]. intros delay' reply' [= <- <-]. split; [done|]. unfold in_time.
  destruct (Z.eqb_spec (random d) 6); [done|]. simpl. destruct Hd as [[-> ?]|[-> ?]]; done.
Qed.

(** A call that sleeps 0.8 s - 0.15 s, as good as. *)
Definition slow_draws : Draws := mkDraws 3 1 (S754_finite false 9007199254740991 (-53)) 42.

Lemma station_in_time_or_late_witness :
  GetWeatherRPCHandler 0 (mkWeatherStation 7 short_period "TestK10") 2 slow_draws
    = Some (649999999, mkWeatherReport (float_of_int 42) 7 2) /\
  in_time slow_draws = true /\
  (GetWeatherRPCHandler 0 (mkWeatherStation 7 short_period "TestK10") 2 slow_draws = None
     <-> random slow_draws = 6) /\
  forall delay reply,
    GetWeatherRPCHandler 0 (mkWeatherStation 7 short_period "TestK10") 2 slow_draws = Some (delay, reply) ->
    reply = mkWeatherReport (float_of_int (temperature slow_draws)) 7 2 /\
    (if in_time slow_draws then 0 <= delay <= period 0 short_period - 149000000
     else period 0 short_period + 300000000 <= delay <= 3 * period 0 short_period).
Proof.
  split; [vm_compute; reflexivity|]. split; [reflexivity|].
  apply station_in_time_or_late; [left; reflexivity|vm_compute; reflexivity].
Defined.
