(* ===== verification/WeatherTimed.v ===== *)
(** * ws: aggregators, stations and clocks

    An aggregator of WeatherLoops on the station of WeatherStation: every
    step has a time, calls come back when the station has slept, the ticker
    fires once a period, and what is due happens within [lag]: the start of a
    goroutine, the return of a call and the hand-over of its report, the
    report on [out].  Time can pass only as long as nothing is overdue.  With
    the tester's periods and a lag of up to 70 ms every report is the exact
    average of the stations that answered in time. *)

From Stdlib Require Import ZArith Lia.
From stdpp Require Import base numbers strings gmap list.
From S2P Require Import Prelude Float64 WeatherAggregator WeatherLoops WeatherStation.
Local Open Scope Z_scope.

(** [starts]: when the batches were started; [receipts] and [values]: what
    [getWeatherData] has sent on the back channels. *)
Record Timed (St : Type) := mkTimed {
  agg : St;
  now : Z;
  starts : list Z;
  receipts : list weatherCallReceipt;
  values : list internalWeatherCallReport;
}.
Arguments mkTimed {St}.
Arguments agg {St}.
Arguments now {St}.
Arguments starts {St}.
Arguments receipts {St}.
Arguments values {St}.

Section timed.
Context (other k : Z) (ap : float64) (server : WeatherStation) (draws : Z -> Z -> Draws) (lag : Z).

(** The answer to the call of [getWeatherData(id, batch)]: whatever station
    is asked, [server] replies. *)
Definition answer (i b : Z) : option (Z * WeatherReport) :=
  GetWeatherRPCHandler other server b (draws i b).

(** When the call comes back: a negative duration is no sleep. *)
Definition due (starts : list Z) (i b : Z) : option Z :=
  '(delay, _) ← answer i b;
  start ← starts !! Z.to_nat b;
  Some (start + Z.max 0 delay).

(** [backChannelRPCReceipts <- weatherCallReceipt{id, batch}] of a batch. *)
Definition receipts_of (b : Z) : list weatherCallReceipt :=
  (fun c => mkReceipt c.1 c.2) <$> startBatch k b.

(** The calls whose reports have not been handed over. *)
Definition open_calls (s : Aggregator) : list (Z * Z) :=
  calls s ++ ((fun r => (Id r, Batch r)) <$> returned s).

(** Nothing is overdue at time [t]; after quit nothing is due. *)
Definition in_deadlines (t : Z) (starts : list Z) (s : Aggregator) : bool :=
  stopped s ||
  ((t <=? period other ap * len starts + lag) &&
   forallb (fun c => match due starts c.1 c.2 with Some d => t <=? d + lag | None => true end)
     (open_calls s)).

(** The ticker has fired for the batch. *)
Definition ticked (t : Z) (starts : list Z) : bool := period other ap * len starts <=? t.

Section runs.
Context `{Implementation St Label}.

(** One step at its time; 2^60 ns are 36 years.  The delay [getWeatherData]
    measures begins with the batch. *)
Definition timed_step (tl : Z * Label) (T : Timed St) : option (Timed St) :=
  let '(t, l) := tl in
  if (now T <=? t) && (t <? 2 ^ 60) && in_deadlines t (starts T) (view (agg T)) &&
     (negb (fires l) || ticked t (starts T)) then
    match does l with
    | Some (EReturn j value) =>
      '(i, b) ← calls (view (agg T)) !! j;
      '(_, reply) ← answer i b;
      start ← starts T !! Z.to_nat b;
      d ← due (starts T) i b;
      if (d <=? t) && bool_decide (value = Value reply) then
        s ← istep k l (agg T);
        Some (mkTimed s t (starts T) (receipts T) (values T ++ (callReturned ap start t reply i b).1))
      else None
    | Some ETick =>
      if ticked t (starts T) then
        s ← istep k l (agg T);
        Some (mkTimed s t (starts T ++ [t]) (receipts T ++ receipts_of (batch (view s))) (values T))
      else None
    | _ =>
      s ← istep k l (agg T);
      Some (mkTimed s t (starts T) (receipts T) (values T))
    end
  else None.

Fixpoint timed_run (tls : list (Z * Label)) (T : Timed St) : option (Timed St) :=
  match tls with
  | [] => Some T
  | tl :: tls => T ← timed_step tl T; timed_run tls T
  end.

(** Both aggregators start the first batch when they start the ticker. *)
Definition timed_init : Timed St := mkTimed (boot k) 0 [0] (receipts_of 0) [].

(** ** The machine at the same times *)

Definition viewed (T : Timed St) : Timed Aggregator :=
  mkTimed (view (agg T)) (now T) (starts T) (receipts T) (values T).
End runs.

Definition later (t : Z) (T : Timed Aggregator) : Timed Aggregator :=
  mkTimed (agg T) t (starts T) (receipts T) (values T).

Lemma timed_step_view `{Implementation St Label} t l (T T' : Timed St) :
  sound (agg T) -> timed_step (t, l) T = Some T' ->
  sound (agg T') /\
  match does l with
  | Some e => timed_step (t, e) (viewed T) = Some (viewed T')
  | None => viewed T' = later t (viewed T)
  end.
Proof.
  intros Hs Hst. cbn [timed_step] in Hst.
  destruct (_ && _ && _) eqn:E1; [|done]. apply andb_true_iff in E1 as [E1 _].
  assert (forall e : event, (now (viewed T) <=? t) && (t <? 2 ^ 60) && in_deadlines t (starts (viewed T)) (view (agg (viewed T)))
    && (negb (fires e) || ticked t (starts (viewed T))) = true) as Hg by (intros e; apply andb_true_iff; split; [exact E1|reflexivity]).
  destruct (does l) as [e|] eqn:Ed.
  - cbn [timed_step]. rewrite Hg. cbn [does machine]. destruct e as [j v|r| |].
    + apply bind_Some in Hst as ([i b] & Hj & Hst). apply bind_Some in Hst as ([d0 reply] & Ha & Hst).
      apply bind_Some in Hst as (start & Hst0 & Hst). apply bind_Some in Hst as (d & Hd & Hst).
      destruct ((d <=? t) && _) eqn:E2; [|done]. apply bind_Some in Hst as (s & Hi & [= <-]).
      destruct (istep_view _ _ _ _ Hs Hi) as [Hs' Hv]. rewrite Ed in Hv. split; [done|].
      cbn [agg viewed view machine starts istep]. unfold Datatypes.id. rewrite Hj. cbn. rewrite Ha. cbn. rewrite Hst0. cbn. rewrite Hd. cbn.
      rewrite E2. cbn in Hv. by rewrite Hv.
    + apply bind_Some in Hst as (s & Hi & [= <-]).
      destruct (istep_view _ _ _ _ Hs Hi) as [Hs' Hv]. rewrite Ed in Hv. split; [done|].
      cbn [agg viewed istep machine]. by rewrite Hv.
    + cbn [starts viewed]. destruct (ticked _ _); [|done]. apply bind_Some in Hst as (s & Hi & [= <-]).
      destruct (istep_view _ _ _ _ Hs Hi) as [Hs' Hv]. rewrite Ed in Hv. split; [done|].
      cbn [agg viewed istep machine]. by rewrite Hv.
    + apply bind_Some in Hst as (s & Hi & [= <-]).
      destruct (istep_view _ _ _ _ Hs Hi) as [Hs' Hv]. rewrite Ed in Hv. split; [done|].
      cbn [agg viewed istep machine]. by rewrite Hv.
  - apply bind_Some in Hst as (s & Hi & [= <-]).
    destruct (istep_view _ _ _ _ Hs Hi) as [Hs' Hv]. rewrite Ed in Hv. split; [done|].
    unfold viewed, later. simpl. by rewrite Hv.
Qed.

(** ** What is to be reported *)

(** The stations whose call of a batch comes back within the period. *)
Definition timely (b : Z) : list Z := filter (fun i => within other server ap (draws i b) = true) (seqZ 0 k).

Definition temperatures (b : Z) : list Z := (fun i => temperature (draws i b)) <$> timely b.

Definition trueReport (b : Z) : WeatherReport :=
  mkWeatherReport (float_div (float_of_int (foldr Z.add 0 (temperatures b))) (float_of_int (len (timely b)))) 0 b.

(** The stations the tester has noted for a batch. *)
Definition noted (b : Z) (vs : list internalWeatherCallReport) : list Z :=
  c_id <$> filter (fun v => c_batch v = b) vs.

(** The timely calls of a batch that are still open. *)
Definition pending_timely (b : Z) (cs : list (Z * Z)) : list Z :=
  filter (fun i => within other server ap (draws i b) = true) (fst <$> filter (fun c => c.2 = b) cs).

Definition good_value (v : internalWeatherCallReport) : Prop :=
  c_value v = float_of_int (temperature (draws (c_id v) (c_batch v))).

Definition good_report (r : WeatherReport) : Prop :=
  within other server ap (draws (Id r) (Batch r)) = true /\ Value r = float_of_int (temperature (draws (Id r) (Batch r))).

Definition batch_done (b : Z) (rs : list WeatherReport) (T : Timed Aggregator) : Prop :=
  (Id <$> of_batch b rs) ≡ₚ timely b /\ Forall good_report (of_batch b rs) /\
  noted b (values T) ≡ₚ timely b /\ pending_timely b (calls (agg T)) = [].

Record timed_inv (dn : list (list WeatherReport)) (cur : list WeatherReport) (T : Timed Aggregator) : Prop := {
  ti_agg : agg_inv k dn cur (agg T);
  ti_len : len (starts T) = batch (agg T) + 1;
  ti_starts : forall b t, starts T !! b = Some t ->
    period other ap * Z.of_nat b <= t <= period other ap * Z.of_nat b + lag;
  ti_receipts : receipts T = mjoin (receipts_of <$> seqZ 0 (batch (agg T) + 1));
  ti_values : Forall good_value (values T) /\ Forall (fun v => c_batch v <= batch (agg T)) (values T);
  ti_done : forall b rs, dn !! b = Some rs -> batch_done (Z.of_nat b) rs T;
  ti_reports : stopped (agg T) = false ->
    Forall (fun r => Batch r = batch (agg T) -> good_report r) (returned (agg T) ++ cur);
  ti_noted : stopped (agg T) = false ->
    noted (batch (agg T)) (values T) ++ pending_timely (batch (agg T)) (calls (agg T)) ≡ₚ timely (batch (agg T));
}.

(** ** Preservation *)

Context (Hserver : averagePeriod server = short_period) (Hap : tester_period ap) (Hlegal : forall i b, legal (draws i b) = true).
Context (Hlag : 0 <= lag <= 70000000).


Lemma answer_spec i b delay reply :
  answer i b = Some (delay, reply) ->
  reply = mkWeatherReport (float_of_int (temperature (draws i b))) (id server) b /\
  (within other server ap (draws i b) = true /\ 0 <= delay <= period other ap - 149000000 \/
   within other server ap (draws i b) = false /\ period other ap + 300000000 <= delay).
Proof using Hap Hlegal Hserver.
  intros E. pose proof (server_delay other ap (testName server) (id server) b (draws i b) Hap (Hlegal i b)) as Hd.
  rewrite <- Hserver in Hd. unfold answer in E. destruct server as [sid sp name]. simpl in *. by rewrite E in Hd.
Qed.

Lemma answer_in_time i b : within other server ap (draws i b) = true -> is_Some (answer i b).
Proof using Type.
  unfold answer, within. intros Hw. destruct (GetWeatherRPCHandler _ _ b _) as [x|] eqn:E; [by eexists|].
  unfold GetWeatherRPCHandler in *. by destruct (_ =? 6).
Qed.

Lemma period_range : 800000000 <= period other ap <= 5000000000.
Proof using Hap. destruct Hap as [->| ->]; [rewrite short_period_ns|rewrite long_period_ns]; lia. Qed.

Lemma noted_app b vs vs' : noted b (vs ++ vs') = noted b vs ++ noted b vs'.
Proof. unfold noted. by rewrite filter_app, fmap_app. Qed.

#[local] Instance pending_timely_proper b : Proper ((≡ₚ) ==> (≡ₚ)) (pending_timely b).
Proof. intros cs cs' E. unfold pending_timely. by rewrite E. Qed.

Lemma pending_timely_cons b i b' cs :
  pending_timely b ((i, b') :: cs) =
  (if decide (b' = b /\ within other server ap (draws i b) = true) then [i] else []) ++ pending_timely b cs.
Proof.
  unfold pending_timely. rewrite filter_cons. simpl. destruct (decide (b' = b)) as [->|Hne].
  - rewrite fmap_cons, filter_cons. simpl. case_decide; [rewrite decide_True by done|rewrite decide_False by tauto]; done.
  - by rewrite decide_False by tauto.
Qed.

(** A call that comes back is noted exactly when it is timely. *)
Lemma return_noted dn cur T t i b delay reply start :
  timed_inv dn cur T -> answer i b = Some (delay, reply) -> starts T !! Z.to_nat b = Some start ->
  start + Z.max 0 delay <= t < 2 ^ 60 ->
  (within other server ap (draws i b) = true -> t <= start + Z.max 0 delay + lag) ->
  within_period ap (t - start) = within other server ap (draws i b).
Proof using Hserver Hap Hlegal Hlag.
  intros Hi Ha Hs Ht Hlate. destruct (ti_starts _ _ _ Hi _ _ Hs) as [Hs1 _].
  destruct (answer_spec _ _ _ _ Ha) as (_ & Hd). pose proof period_range as Hp.
  assert (0 <= period other ap * Z.of_nat (Z.to_nat b)) by lia.
  rewrite (within_period_spec other) by (done || lia).
  destruct Hd as [[Et ?]|[Et ?]]; rewrite Et; [apply Z.ltb_lt; specialize (Hlate Et); lia|apply Z.ltb_ge; lia].
Qed.

Lemma deadline_call t T i b d :
  in_deadlines t (starts T) (agg T) = true -> stopped (agg T) = false -> (i, b) ∈ open_calls (agg T) -> due (starts T) i b = Some d ->
  t <= d + lag.
Proof.
  intros Ht Hs Hin Hd. unfold in_deadlines in Ht. rewrite Hs in Ht. simpl in Ht.
  apply andb_true_iff in Ht as [_ Ht]. rewrite forallb_forall in Ht.
  specialize (Ht (i, b) (proj1 (list_elem_of_In _ _) Hin)). simpl in Ht. rewrite Hd in Ht. lia.
Qed.

Lemma deadline_tick t T :
  in_deadlines t (starts T) (agg T) = true -> stopped (agg T) = false -> t <= period other ap * len (starts T) + lag.
Proof.
  intros Ht Hs. unfold in_deadlines in Ht. rewrite Hs in Ht. simpl in Ht.
  apply andb_true_iff in Ht as [Ht _]. lia.
Qed.

(** The calls of a batch that has just been started. *)
Lemma pending_started b : pending_timely b (startBatch k b) = timely b.
Proof.
  unfold pending_timely, timely, startBatch. f_equal.
  induction (seqZ 0 k) as [|i l IH]; [done|].
  rewrite fmap_cons, filter_cons. simpl. rewrite decide_True by done. rewrite fmap_cons. by rewrite IH.
Qed.

Lemma pending_app b cs cs' : pending_timely b (cs ++ cs') = pending_timely b cs ++ pending_timely b cs'.
Proof. unfold pending_timely. by rewrite filter_app, fmap_app, filter_app. Qed.

Lemma timely_other b cs : Forall (fun c => c.2 <> b) cs -> pending_timely b cs = [].
Proof.
  unfold pending_timely. induction 1 as [|c cs Hc _ IH]; [done|].
  by rewrite filter_cons, decide_False.
Qed.

Lemma noted_other b vs : Forall (fun v => c_batch v <> b) vs -> noted b vs = [].
Proof.
  unfold noted. induction 1 as [|v vs Hv _ IH]; [done|].
  by rewrite filter_cons, decide_False.
Qed.

Lemma timed_inv_init : timed_inv [] [] (timed_init (St := Aggregator)).
Proof.
  constructor; simpl; try done.
  - apply agg_inv_init.
  - intros [|b] t; [intros [= <-]; lia|done].
  - by rewrite app_nil_r.
  - intros _. by rewrite pending_started.
Qed.

(** A call of station [i] for batch [b] comes back at [t]. *)
Record returns (T : Timed Aggregator) (t : Z) (j : nat) (i b delay start : Z) (T' : Timed Aggregator) : Prop := {
  rt_call : calls (agg T) !! j = Some (i, b);
  rt_answer : answer i b = Some (delay, mkWeatherReport (float_of_int (temperature (draws i b))) (id server) b);
  rt_start : starts T !! Z.to_nat b = Some start;
  rt_time : start + Z.max 0 delay <= t < 2 ^ 60;
  rt_agg : callReturns j (float_of_int (temperature (draws i b))) (agg T) = Some (agg T');
  rt_starts : starts T' = starts T;
  rt_receipts : receipts T' = receipts T;
  rt_values : values T' = values T ++
    (if within_period ap (t - start)
     then [mkCallReport start t (float_of_int (temperature (draws i b))) i b (t - start)] else []);
  rt_deadline : stopped (agg T) = false ->
    t <= start + Z.max 0 delay + lag /\ t <= period other ap * len (starts T) + lag;
}.

Lemma return_step T T' t j v :
  timed_step (t, EReturn j v) T = Some T' -> exists i b delay start, returns T t j i b delay start T'.
Proof using Hserver Hap Hlegal.
  intros Hst. cbn [timed_step] in Hst. cbn [view istep does fires machine] in Hst. unfold Datatypes.id, ticked in Hst. rewrite andb_true_r in Hst.
  destruct (Z.leb_spec (now T) t); [|done]. destruct (Z.ltb_spec t (2 ^ 60)); [|done].
  destruct (in_deadlines t (starts T) (agg T)) eqn:Hdl; [|done]. cbn [andb] in Hst.
  apply bind_Some in Hst as ([i b] & Hj & Hst). apply bind_Some in Hst as ([delay reply] & Ha & Hst).
  apply bind_Some in Hst as (start & Hs & Hst). apply bind_Some in Hst as (d & Hd & Hst).
  destruct (Z.leb_spec d t); [|done]. case_bool_decide as Ev; [|done]. cbn [andb] in Hst.
  apply bind_Some in Hst as (s & Hag & [= <-]). cbn in Hag.
  destruct (answer_spec _ _ _ _ Ha) as [-> _]. subst v.
  assert (d = start + Z.max 0 delay) as ->.
  { unfold due in Hd. rewrite Ha in Hd. cbn in Hd. rewrite Hs in Hd. by injection Hd as <-. }
  exists i, b, delay, start. constructor; try done. intros Hstop. split; [|by apply deadline_tick].
  eapply deadline_call; [done|done| |exact Hd]. apply elem_of_app. left. by eapply list_elem_of_lookup_2.
Qed.

(** Whether it is noted. *)
Lemma returns_within dn cur T t j i b delay start T' :
  timed_inv dn cur T -> returns T t j i b delay start T' ->
  (stopped (agg T) = false \/ within other server ap (draws i b) = false) -> within_period ap (t - start) = within other server ap (draws i b).
Proof using Hserver Hap Hlegal Hlag.
  intros Hi [] Hor. eapply return_noted; try done. intros Ht.
  destruct Hor as [Hs|]; [by apply rt_deadline0|congruence].
Qed.

Lemma noted_one b v : noted b [v] = if decide (c_batch v = b) then [c_id v] else [].
Proof. unfold noted. rewrite filter_cons. by case_decide. Qed.

Lemma returns_pending T t j i b delay start T' b' :
  returns T t j i b delay start T' ->
  pending_timely b' (calls (agg T)) ≡ₚ
    (if decide (b = b' /\ within other server ap (draws i b') = true) then [i] else []) ++ pending_timely b' (calls (agg T')).
Proof.
  intros []. unfold callReturns in rt_agg0. rewrite rt_call0 in rt_agg0. cbn in rt_agg0. injection rt_agg0 as E.
  rewrite <- E. simpl. rewrite (delete_perm _ _ _ rt_call0) at 1. by rewrite pending_timely_cons.
Qed.

(** The calls of a batch that were timely are noted or pending. *)
Lemma returns_noted dn cur T t j i b delay start T' b' :
  timed_inv dn cur T -> returns T t j i b delay start T' ->
  (stopped (agg T) = false \/ pending_timely b' (calls (agg T)) = []) ->
  noted b' (values T') ++ pending_timely b' (calls (agg T')) ≡ₚ
  noted b' (values T) ++ pending_timely b' (calls (agg T)).
Proof using Hserver Hap Hlegal Hlag.
  intros Hi Hr Hor. pose proof (returns_pending _ _ _ _ _ _ _ _ b' Hr) as Hp.
  pose proof (returns_within _ _ _ _ _ _ _ _ _ _ Hi Hr) as Hw.
  rewrite Hp, (rt_values _ _ _ _ _ _ _ _ Hr), noted_app, <- app_assoc. apply Permutation_app_head, Permutation_app_tail.
  destruct (decide (b = b')) as [->|Hne].
  - assert (stopped (agg T) = false \/ within other server ap (draws i b') = false) as Hor'.
    { destruct Hor as [|E]; [by left|right]. rewrite E in Hp. destruct (within other server ap (draws i b')); [|done].
      rewrite decide_True in Hp by done. by apply Permutation_nil_cons in Hp. }
    rewrite (Hw Hor'). destruct (within other server ap (draws i b')).
    + rewrite decide_True by done. rewrite noted_one. simpl. by rewrite decide_True.
    + by rewrite decide_False by (by intros [_ ?]).
  - rewrite decide_False by tauto. destruct (within_period _ _); [|done].
    rewrite noted_one. simpl. by rewrite decide_False.
Qed.

Lemma timed_inv_return dn cur T T' t j v :
  timed_inv dn cur T -> timed_step (t, EReturn j v) T = Some T' -> timed_inv dn cur T'.
Proof using Hserver Hap Hlegal Hlag.
  intros Hi (i & b & delay & start & Hr)%return_step.
  pose proof (fun b' => returns_noted _ _ _ _ _ _ _ _ _ _ b' Hi Hr) as Hn.
  pose proof (fun b' => returns_pending _ _ _ _ _ _ _ _ b' Hr) as Hpend.
  destruct Hr as [Hj Ha Hs Ht Hag Es Er Ev Hdl].
  pose proof (agg_inv_return _ _ _ _ _ _ _ (ti_agg _ _ _ Hi) Hag) as Hai.
  pose proof (Forall_lookup_1 _ _ _ _ (ai_calls _ _ _ _ (ti_agg _ _ _ Hi)) Hj) as Hb. simpl in Hb.
  assert (batch (agg T') = batch (agg T) /\ stopped (agg T') = stopped (agg T) /\
    returned (agg T') = returned (agg T) ++ [mkWeatherReport (float_of_int (temperature (draws i b))) i b])
    as (Eb & Est & Eret).
  { unfold callReturns in Hag. rewrite Hj in Hag. cbn in Hag. by injection Hag as <-. }
  destruct Hi as [_ Hlen Hst Hrec [Hv1 Hv2] Hdone Hrep Hnoted]. constructor.
  - done.
  - by rewrite Es, Eb.
  - by rewrite Es.
  - by rewrite Er, Eb.
  - rewrite Ev, Eb. split; apply Forall_app; (split; [done|]); destruct (within_period _ _);
      by repeat constructor.
  - intros b' rs Hrs. destruct (Hdone b' rs Hrs) as (H1 & H2 & H3 & H4).
    specialize (Hn (Z.of_nat b') (or_intror H4)). rewrite H3, H4, app_nil_r in Hn.
    specialize (Hpend (Z.of_nat b')). rewrite H4 in Hpend. apply Permutation_nil_l in Hpend.
    symmetry in Hpend. apply app_eq_nil in Hpend as [_ E]. rewrite E, app_nil_r in Hn. split_and!; done.
  - rewrite Est. intros Hstop. rewrite Eret, Eb. specialize (Hrep Hstop).
    rewrite <- app_assoc, Forall_app in *. destruct Hrep as [Hrep1 Hrep2]. split; [done|].
    apply Forall_app. split; [|done]. apply Forall_singleton. simpl. intros ->. split; [|done].
    destruct (answer_spec _ _ _ _ Ha) as [_ Hd]. destruct (Hdl Hstop) as [_ Htick]. simpl.
    destruct (Hst _ _ Hs) as [Hs1 _]. pose proof (ai_batch _ _ _ _ Hai) as Ed. rewrite Eb in Ed.
    rewrite Z2Nat.id in Hs1 by (rewrite Ed; apply len_nonneg). rewrite Hlen in Htick.
    destruct Hd as [[? ?]|[_ ?]]; [done|]. lia.
  - rewrite Est, Eb. intros Hstop. rewrite (Hn _ (or_introl Hstop)). by apply Hnoted.
Qed.

(** What the other events do to the aggregator. *)
Lemma timed_inv_same dn cur cur' T s t :
  timed_inv dn cur T -> agg_inv k dn cur' s -> batch s = batch (agg T) -> calls s = calls (agg T) ->
  (stopped s = false -> stopped (agg T) = false) -> returned s ++ cur' ≡ₚ returned (agg T) ++ cur ->
  timed_inv dn cur' (mkTimed s t (starts T) (receipts T) (values T)).
Proof.
  intros [] Ha Eb Ec Es Ep. constructor; simpl; rewrite ?Eb; try done.
  - intros b rs Hb. destruct (ti_done0 b rs Hb) as (? & ? & ? & ?). split_and!; simpl; try done. by rewrite Ec.
  - intros Hs. rewrite Ep. by apply ti_reports0, Es.
  - rewrite Ec. intros Hs. by apply ti_noted0, Es.
Qed.

Lemma timed_inv_receive dn cur T T' t r :
  timed_inv dn cur T -> timed_step (t, EReceive r) T = Some T' -> timed_inv dn (cur ++ [r]) T'.
Proof.
  intros Hi Hst. cbn [timed_step] in Hst. cbn [view istep does fires machine] in Hst. unfold Datatypes.id, ticked in Hst. rewrite andb_true_r in Hst. destruct (_ && _); [|done].
  apply bind_Some in Hst as (s & Hag & [= <-]). cbn in Hag.
  pose proof (agg_inv_receive _ _ _ _ _ _ (ti_agg _ _ _ Hi) Hag) as Ha.
  pose proof (handOver_frame _ _ _ Hag) as (Eb & Ec & _ & Es).
  apply bind_Some in Hag as ([i r'] & Hf & [= <-]). apply list_find_Some in Hf as (Hi' & -> & _).
  eapply timed_inv_same; try done; [by rewrite Es|].
  assert (forall x s, returned (addReport x s) = returned s) as Er by (intros; unfold addReport; by case_match).
  rewrite Er. simpl. rewrite (delete_perm _ _ _ Hi') at 2. rewrite app_assoc, (Permutation_app_comm _ [r]).
  done.
Qed.

Lemma timed_inv_quit dn cur T T' t :
  timed_inv dn cur T -> timed_step (t, EQuit) T = Some T' -> timed_inv dn cur T'.
Proof.
  intros Hi Hst. cbn [timed_step] in Hst. cbn [view istep does fires machine] in Hst. unfold Datatypes.id, ticked in Hst. rewrite andb_true_r in Hst. destruct (_ && _); [|done].
  apply bind_Some in Hst as (s & Hag & [= <-]). cbn in Hag.
  destruct (stopped (agg T)) eqn:Hs; [done|]. injection Hag as <-.
  eapply timed_inv_same; try done. destruct (ti_agg _ _ _ Hi). by constructor.
Qed.

(** ** The tick *)

(** At the tick no timely call of the batch is open. *)
Lemma tick_none_open dn cur T t i :
  timed_inv dn cur T -> in_deadlines t (starts T) (agg T) = true -> stopped (agg T) = false ->
  period other ap * len (starts T) <= t -> (i, batch (agg T)) ∈ open_calls (agg T) ->
  within other server ap (draws i (batch (agg T))) = false.
Proof using Hserver Hap Hlegal Hlag.
  intros Hi Hdl Hs Ht Hin. destruct (within other server ap _) eqn:Et; [|done]. exfalso.
  set (b := batch (agg T)) in *. pose proof (ti_len _ _ _ Hi) as Hlen. fold b in Hlen.
  pose proof (ai_batch _ _ _ _ (ti_agg _ _ _ Hi)) as Eb. fold b in Eb. pose proof (len_nonneg dn).
  destruct (answer_in_time _ _ Et) as [[delay reply] Ha].
  destruct (lookup_lt_is_Some_2 (starts T) (Z.to_nat b)) as [start Hst]; [unfold len in Hlen; lia|].
  destruct (ti_starts _ _ _ Hi _ _ Hst) as [_ Hst']. rewrite Z2Nat.id in Hst' by lia.
  assert (due (starts T) i b = Some (start + Z.max 0 delay)) as Hd by (unfold due; rewrite Ha; cbn; by rewrite Hst).
  pose proof (deadline_call _ _ _ _ _ Hdl Hs Hin Hd) as Hle.
  destruct (answer_spec _ _ _ _ Ha) as [_ [[_ Hdelay]|[? _]]]; [|congruence]. rewrite Hlen in Ht. lia.
Qed.

Lemma elem_of_noted b (cs : list (Z * Z)) i : i ∈ fst <$> filter (fun c => c.2 = b) cs <-> (i, b) ∈ cs.
Proof.
  rewrite list_elem_of_fmap. split.
  - intros ([i' b'] & -> & [E Hin]%list_elem_of_filter). simpl in *. by subst.
  - intros Hin. exists (i, b). split; [done|]. by apply list_elem_of_filter.
Qed.

Lemma elem_of_batch b (rs : list WeatherReport) i : i ∈ Id <$> of_batch b rs -> (i, b) ∈ (fun r => (Id r, Batch r)) <$> rs.
Proof.
  intros (r & -> & [<- Hin]%list_elem_of_filter)%list_elem_of_fmap. by apply (list_elem_of_fmap_2 (fun r => (Id r, Batch r))).
Qed.

Lemma NoDup_timely b : NoDup (timely b).
Proof. apply NoDup_filter, NoDup_seqZ. Qed.

(** The reports received are those of the timely stations. *)
Lemma tick_received dn cur T t :
  timed_inv dn cur T -> in_deadlines t (starts T) (agg T) = true -> stopped (agg T) = false ->
  period other ap * len (starts T) <= t -> batch_done (batch (agg T)) cur T.
Proof using Hserver Hap Hlegal Hlag.
  intros Hi Hdl Hs Ht. pose proof (fun i => tick_none_open _ _ _ t i Hi Hdl Hs Ht) as Hopen.
  pose proof (ai_stations _ _ _ _ (ti_agg _ _ _ Hi)) as Hst. pose proof (ti_reports _ _ _ Hi Hs) as Hrep.
  set (b := batch (agg T)) in *. unfold stations in Hst. rewrite of_batch_app, fmap_app in Hst.
  assert (pending_timely b (calls (agg T)) = []) as Hpend.
  { apply elem_of_nil_inv. intros i [Hi' Hin%elem_of_noted]%list_elem_of_filter.
    rewrite Hopen in Hi'; [done|]. apply elem_of_app. by left. }
  assert (Forall good_report (of_batch b cur)) as Hgood.
  { apply Forall_forall. intros r [Hb Hin]%list_elem_of_filter. apply Forall_app in Hrep as [_ Hrep].
    rewrite Forall_forall in Hrep. by apply Hrep. }
  split_and!; [|done| |done].
  - pose proof (NoDup_seqZ 0 k) as Hnd. rewrite <- Hst in Hnd.
    apply NoDup_app in Hnd as (_ & _ & Hnd). apply NoDup_app in Hnd as (_ & _ & Hnd).
    apply NoDup_Permutation; [done|apply NoDup_timely|]. intros i. unfold timely. rewrite list_elem_of_filter. split.
    + intros Hin. split.
      * apply list_elem_of_fmap in Hin as (r & -> & Hin). rewrite Forall_forall in Hgood.
        destruct (Hgood r Hin) as [Hr _]. apply list_elem_of_filter in Hin as [E _]. by rewrite <- E.
      * rewrite <- Hst, !elem_of_app. by do 2 right.
    + intros [Hti Hin]. rewrite <- Hst, !elem_of_app in Hin. destruct Hin as [Hin|[Hin|Hin]]; [| |done].
      * apply elem_of_noted in Hin. rewrite Hopen in Hti; [done|]. apply elem_of_app. by left.
      * apply elem_of_batch in Hin. rewrite Hopen in Hti; [done|]. apply elem_of_app. by right.
  - pose proof (ti_noted _ _ _ Hi Hs) as Hn. fold b in Hn. by rewrite Hpend, app_nil_r in Hn.
Qed.

Lemma receipts_until b : 0 <= b ->
  mjoin (receipts_of <$> seqZ 0 (b + 1)) ++ receipts_of (b + 1) = mjoin (receipts_of <$> seqZ 0 (b + 1 + 1)).
Proof.
  intros Hb. rewrite (seqZ_app 0 (b + 1) 1), fmap_app by lia.
  rewrite join_app. simpl. by rewrite app_nil_r.
Qed.

Lemma timed_inv_tick dn cur T T' t :
  timed_inv dn cur T -> timed_step (t, ETick) T = Some T' -> timed_inv (dn ++ [cur]) [] T'.
Proof using Hserver Hap Hlegal Hlag.
  intros Hi Hst. cbn [timed_step] in Hst. cbn [view istep does fires machine] in Hst. unfold Datatypes.id, ticked in Hst. rewrite andb_true_r in Hst. destruct (_ && _) eqn:Hguard; [|done].
  apply andb_true_iff in Hguard as [_ Hdl]. destruct (Z.leb_spec (period other ap * len (starts T)) t) as [Ht|]; [|done].
  apply bind_Some in Hst as (s & Hag & [= <-]). cbn in Hag.
  destruct (stopped (agg T)) eqn:Hs; [done|]. injection Hag as <-.
  pose proof (tick_received _ _ _ _ Hi Hdl Hs Ht) as (Hd1 & Hd2 & Hd3 & Hd4).
  pose proof (deadline_tick _ _ Hdl Hs) as Htick.
  destruct Hi as [Ha Hlen Hst Hrec [Hv1 Hv2] Hdone Hrep Hnoted]. pose proof (agg_inv_tick _ _ _ _ Ha) as Ha'.
  pose proof (ai_batch _ _ _ _ Ha) as Eb. pose proof (len_nonneg dn).
  assert (forall b, b <= batch (agg T) ->
    pending_timely b (calls (agg T) ++ startBatch k (batch (agg T) + 1)) = pending_timely b (calls (agg T))) as Hold.
  { intros b Hb. rewrite pending_app, (timely_other b (startBatch _ _)), app_nil_r; [done|].
    unfold startBatch. apply Forall_fmap, Forall_true. intros i. simpl. lia. }
  constructor; simpl.
  - exact Ha'.
  - rewrite len_app, Hlen. done.
  - intros b t' Hb. apply lookup_app_Some in Hb as [Hb|[Hge Hb]]; [by apply Hst|].
    apply list_lookup_singleton_Some in Hb as [E <-].
    assert (Z.of_nat b = len (starts T)) as -> by (unfold len; lia). lia.
  - rewrite Hrec. apply receipts_until. lia.
  - split; [done|]. eapply Forall_impl; [done|]. simpl. lia.
  - intros b rs Hb. apply lookup_app_Some in Hb as [Hb|[Hge Hb]].
    + destruct (Hdone b rs Hb) as (? & ? & ? & ?). split_and!; simpl; try done. rewrite Hold; [done|].
      apply lookup_lt_Some in Hb. rewrite Eb. unfold len. lia.
    + apply list_lookup_singleton_Some in Hb as [E <-].
      assert (Z.of_nat b = batch (agg T)) as -> by (rewrite Eb; unfold len; lia).
      split_and!; simpl; try done. by rewrite Hold.
  - intros _. rewrite app_nil_r. eapply Forall_impl; [apply (ai_returned _ _ _ _ Ha)|]. simpl. lia.
  - intros _. rewrite noted_other, pending_app, timely_other, pending_started; [done| |].
    + eapply Forall_impl; [apply (ai_calls _ _ _ _ Ha)|]. simpl. lia.
    + eapply Forall_impl; [exact Hv2|]. simpl. lia.
Qed.

Lemma timed_inv_later dn cur t T : timed_inv dn cur T -> timed_inv dn cur (later t T).
Proof. by intros []. Qed.

Lemma timed_run_inv `{Implementation St Label} tls dn cur (T T' : Timed St) :
  sound (agg T) -> timed_inv dn cur (viewed T) -> timed_run tls T = Some T' ->
  exists dn' cur', timed_inv dn' cur' (viewed T').
Proof using Hserver Hap Hlegal Hlag.
  revert dn cur T. induction tls as [|[t l] tls IH]; intros dn cur T Hs Hi HR; cbn [timed_run] in HR.
  { injection HR as <-. by exists dn, cur. }
  apply bind_Some in HR as (T1 & Hst & HR). destruct (timed_step_view _ _ _ _ Hs Hst) as [Hs1 Hv].
  destruct (does l) as [[j v|r| |]|].
  - eapply IH; [done|by eapply timed_inv_return|done].
  - eapply IH; [done|by eapply timed_inv_receive|done].
  - eapply IH; [done|by eapply timed_inv_tick|done].
  - eapply IH; [done|by eapply timed_inv_quit|done].
  - eapply IH; [done| |done]. rewrite Hv. by apply timed_inv_later.
Qed.

(** ** The average *)

Lemma temperature_range i b : 0 <= temperature (draws i b) < 100.
Proof using Hlegal. specialize (Hlegal i b). unfold legal in Hlegal. repeat (apply andb_true_iff in Hlegal as [Hlegal ?]). lia. Qed.

Lemma sum_exact a l :
  0 <= a -> Forall (fun x => 0 <= x < 100) l -> a + 100 * len l < 2 ^ 53 ->
  foldl float_add (float_of_int a) (float_of_int <$> l) = float_of_int (a + foldr Z.add 0 l).
Proof.
  intros Ha Hl. revert a Ha. induction Hl as [|x l Hx _ IH]; intros a Ha Hb; simpl; [by rewrite Z.add_0_r|].
  rewrite len_cons in Hb. pose proof (len_nonneg l). rewrite float_add_int by lia. rewrite IH by lia. f_equal. lia.
Qed.

(** What the tester computes from the back channel. *)
Definition noted_average (b : Z) (vs : list internalWeatherCallReport) : float64 :=
  let of_b := filter (fun v => c_batch v = b) vs in
  float_div (foldl float_add float_zero (c_value <$> of_b)) (float_of_int (len of_b)).

Lemma sum_permutation l l' : l ≡ₚ l' -> foldr Z.add 0 l = foldr Z.add 0 l'.
Proof. intros E. induction E; simpl; lia. Qed.

Lemma timely_length b : k <= 2 ^ 40 -> len (timely b) <= 2 ^ 40.
Proof.
  intros Hk. unfold timely, len. pose proof (length_filter (fun i => within other server ap (draws i b) = true) (seqZ 0 k)) as Hle.
  rewrite length_seqZ in Hle. lia.
Qed.

Lemma len_fmap {A B} (f : A -> B) l : len (f <$> l) = len l.
Proof. unfold len. by rewrite length_fmap. Qed.

(** Floats that are the temperatures of the timely stations, in any order. *)
Lemma average_exact b (fs : list float64) ids :
  k <= 2 ^ 40 -> ids ≡ₚ timely b -> fs = float_of_int <$> ((fun i => temperature (draws i b)) <$> ids) ->
  float_div (foldl float_add float_zero fs) (float_of_int (len fs)) = Value (trueReport b).
Proof using Hlegal.
  intros Hk Hp ->. pose proof (timely_length b Hk) as Hlen.
  assert (len ids = len (timely b)) as El by (unfold len; by rewrite Hp).
  change float_zero with (float_of_int 0). rewrite sum_exact.
  - simpl. f_equal.
    + f_equal. unfold temperatures. apply sum_permutation. by rewrite Hp.
    + f_equal. unfold len in *. by rewrite !length_fmap.
  - done.
  - apply Forall_fmap, Forall_true. intros i. apply temperature_range.
  - unfold len in *. rewrite !length_fmap. lia.
Qed.

Lemma batch_report b rs T : k <= 2 ^ 40 -> batch_done b rs T -> batchReport b rs = trueReport b.
Proof using Hlegal.
  intros Hk (Hp & Hgood & _). unfold batchReport, sum. rewrite <- (len_fmap Value), (average_exact b _ _ Hk Hp); [done|].
  rewrite <- !list_fmap_compose. apply list_fmap_ext. intros n r Hr. apply list_elem_of_lookup_2 in Hr.
  rewrite Forall_forall in Hgood. destruct (Hgood r Hr) as [_ ->].
  by apply list_elem_of_filter in Hr as [<- _].
Qed.

Lemma noted_report b rs T :
  k <= 2 ^ 40 -> Forall good_value (values T) -> batch_done b rs T ->
  noted_average b (values T) = Value (trueReport b).
Proof using Hlegal.
  intros Hk Hgood (_ & _ & Hp & _). unfold noted_average. rewrite <- (len_fmap c_value), (average_exact b _ _ Hk Hp); [done|].
  unfold noted. rewrite <- !list_fmap_compose. apply list_fmap_ext. intros n v Hv. apply list_elem_of_lookup_2 in Hv.
  apply list_elem_of_filter in Hv as [<- Hin]. rewrite Forall_forall in Hgood. by apply Hgood.
Qed.

(** What the tester sees of a run: every station was asked once per batch,
    and the b-th report is the true one, equals the average of the back
    channel and came within [lag] of its tick. *)
Definition reports_true `{Implementation St Label} (T : Timed St) : Prop :=
  receipts T = mjoin (receipts_of <$> seqZ 0 (len (out (view (agg T))) + 1)) /\
  forall b r, out (view (agg T)) !! b = Some r ->
    r = trueReport (Z.of_nat b) /\ Value r = noted_average (Z.of_nat b) (values T) /\
    exists t, starts T !! S b = Some t /\
      period other ap * (Z.of_nat b + 1) <= t <= period other ap * (Z.of_nat b + 1) + lag.

Lemma runs_report_true `{Implementation St Label} tls (T : Timed St) :
  k <= 2 ^ 40 -> timed_run tls timed_init = Some T -> reports_true T.
Proof using Hserver Hap Hlegal Hlag.
  intros Hk HR.
  destruct (timed_run_inv tls [] [] timed_init T (boot_sound k)) as (dn & cur & Hi); [|done|].
  { unfold viewed, timed_init. simpl. rewrite boot_view. apply timed_inv_init. }
  pose proof (ti_agg _ _ _ Hi) as Ha. cbn [agg viewed] in Ha.
  assert (len (out (view (agg T))) = batch (view (agg T))) as Elen.
  { rewrite (ai_out _ _ _ _ Ha), (ai_batch _ _ _ _ Ha). unfold len. by rewrite length_imap. }
  split; [rewrite Elen; apply (ti_receipts _ _ _ Hi)|]. intros b r Hr.
  rewrite (ai_out _ _ _ _ Ha), list_lookup_imap in Hr.
  destruct (dn !! b) as [rs|] eqn:Hb; [|done]. injection Hr as <-.
  pose proof (ti_done _ _ _ Hi b rs Hb) as Hd.
  rewrite (batch_report _ rs _ Hk Hd). split; [done|]. split.
  { symmetry. by apply (noted_report _ rs (viewed T)); [|apply Hi|]. }
  destruct (lookup_lt_is_Some_2 (starts T) (S b)) as [t Ht].
  { apply lookup_lt_Some in Hb. pose proof (ti_len _ _ _ Hi) as Hlen. cbn [agg starts viewed] in Hlen.
    rewrite (ai_batch _ _ _ _ Ha) in Hlen. unfold len in Hlen. lia. }
  exists t. split; [done|]. pose proof (ti_starts _ _ _ Hi _ _ Ht) as Hst. lia.
Qed.
End timed.

(** ** The property *)

(** C34: late answers are left out, timely ones are not.  Run either
    aggregator on [k] stations with one of the tester's periods, whatever
    math/rand draws, with every goroutine, call, hand-over and report delayed
    by up to 70 ms in any way.  All calls are served by the one station that
    the tester's net/rpc knows.  Then the b-th report carries the batch b and
    the float64 quotient of the sum and the number of the temperatures of
    exactly the calls of batch b that the station answered in less than the
    period; it equals the average the tester computes from its back channel;
    it came within the lag of the b-th tick; and every station was asked once
    per batch. *)
Theorem reports_average_timely_stations test server other k ap draws lag :
  served test = Some server ->
  tester_period ap -> (forall i b, legal (draws i b) = true) -> 0 <= lag <= 70000000 -> k <= 2 ^ 40 ->
  (forall tls (T : Timed Channel.State),
     timed_run other k ap server draws lag tls (timed_init k) = Some T ->
     reports_true other k ap server draws lag T) /\
  (forall tls (T : Timed Mutex.State),
     timed_run other k ap server draws lag tls (timed_init k) = Some T ->
     reports_true other k ap server draws lag T).
Proof.
  intros Hs Hap Hl Hlag Hk. pose proof (one_station_serves test) as E. rewrite Hs in E. injection E as ->.
  split; intros tls T; by apply runs_report_true.
Qed.

(** Three stations: one in time, one late, one that hangs. *)
Definition three_draws (i b : Z) : Draws :=
  if i =? 0 then mkDraws 3 1 (float_div (float_of_int 1) (float_of_int 2)) 20
  else if i =? 1 then mkDraws 3 0 (float_div (float_of_int 1) (float_of_int 2)) 90
  else mkDraws 6 0 float_zero 0.

Lemma three_legal i b : legal (three_draws i b) = true.
Proof. unfold three_draws. by destruct (i =? 0), (i =? 1). Qed.

Definition first_station : WeatherStation := mkWeatherStation 0 short_period "TestMutexAggregatorTestK1".

(** With a period of 0.8 s; the late report of batch 0 comes in batch 1. *)
Definition short_labels : list (Z * Mutex.label) :=
  [(330000000, Mutex.CallReturns 0 (float_of_int 20)); (331000000, Mutex.Lock (mkWeatherReport (float_of_int 20) 0 0));
   (332000000, Mutex.Go); (333000000, Mutex.Go); (334000000, Mutex.Go);
   (800000000, Mutex.Ticker); (805000000, Mutex.LoopLock); (810000000, Mutex.OutReceived);
   (811000000, Mutex.LoopUnlock);
   (1140000000, Mutex.CallReturns 2 (float_of_int 20)); (1141000000, Mutex.Lock (mkWeatherReport (float_of_int 20) 0 1));
   (1142000000, Mutex.Go); (1142000000, Mutex.Go); (1142000000, Mutex.Go);
   (1430000000, Mutex.CallReturns 0 (float_of_int 90)); (1431000000, Mutex.Lock (mkWeatherReport (float_of_int 90) 1 0));
   (1431000000, Mutex.Go); (1431000000, Mutex.Go);
   (1601000000, Mutex.Ticker); (1602000000, Mutex.LoopLock); (1605000000, Mutex.OutReceived);
   (1605000000, Mutex.LoopUnlock); (1700000000, Mutex.Quit)].

(** With a period of 5 s the same draws make two calls timely. *)
Definition long_labels : list (Z * Channel.label) :=
  [(330000000, Channel.CallReturns 0 (float_of_int 20)); (331000000, Channel.Receive (mkWeatherReport (float_of_int 20) 0 0));
   (332000000, Channel.Add);
   (1430000000, Channel.CallReturns 0 (float_of_int 90)); (1431000000, Channel.Receive (mkWeatherReport (float_of_int 90) 1 0));
   (1431000000, Channel.Add); (5000000000, Channel.Ticker); (5010000000, Channel.OutReceived)].

Lemma reports_average_timely_stations_witness :
  exists (T : Timed Mutex.State) (T' : Timed Channel.State),
    out (view (agg T)) = [mkWeatherReport (float_of_int 20) 0 0; mkWeatherReport (float_of_int 20) 0 1] /\
    out (view (agg T')) = [mkWeatherReport (float_of_int 55) 0 0] /\
    reports_true 0 3 short_period first_station three_draws 50000000 T /\
    reports_true 0 3 long_period first_station three_draws 50000000 T'.
Proof.
  destruct (timed_run 0 3 short_period first_station three_draws 50000000 short_labels (timed_init 3))
    as [T|] eqn:E; [|vm_compute in E; discriminate E].
  destruct (timed_run 0 3 long_period first_station three_draws 50000000 long_labels (timed_init 3))
    as [T'|] eqn:E'; [|vm_compute in E'; discriminate E'].
  exists T, T'.
  split; [vm_compute in E; injection E as <-; vm_compute; reflexivity|].
  split; [vm_compute in E'; injection E' as <-; vm_compute; reflexivity|]. split.
  - apply (reports_average_timely_stations "TestMutexAggregator" first_station) in E;
      [exact E|vm_compute; reflexivity|left; reflexivity|apply three_legal|lia|lia].
  - apply (reports_average_timely_stations "TestMutexAggregator" first_station) in E';
      [exact E'|vm_compute; reflexivity|right; reflexivity|apply three_legal|lia|lia].
Defined.
