(* ===== verification/Labgob.v ===== *)
(** * labgob/labgob.go: the checks around encoding/gob

    The wrapper looks at the types of what it encodes, and at the values it
    decodes into, and counts what it complains about.  Types refer to each
    other by identity and may be recursive: a type is an index into a table
    of kinds.  encoding/gob itself is a parameter. *)

From Stdlib Require Import ZArith Lia Ascii.
From stdpp Require Import base numbers strings gmap list.
From S2P Require Import Prelude Labrpc.
Local Open Scope Z_scope.

(** [reflect.Kind] with what the checks ask of a type. *)
Inductive kind :=
| Struct (fields : list (string * nat))
| Slice (elem : nat)
| Array (elem : nat)
| Ptr (elem : nat)
| Map (key elem : nat)
| OtherKind.                         (* numbers, strings, interfaces, ... *)

(** The package's variables; [complaints] is what was printed. *)
Record Checker := mkChecker {
  checked : gset nat;
  errorCount : Z;
  complaints : list (string * nat);
}.

Definition noChecks : Checker := mkChecker ∅ 0 [].

(** The value of an interface or pointer graph, as far as the checks look:
    a variable with the zero value of its type or another one. *)
#[warnings="-register-all"]
Inductive value :=
| VStruct (fields : list value)
| VPtr (p : option nat)
| VBasic (zero : bool)
| VOther.

Section labgob.

(** [unicode.IsUpper] on the first rune of a name that is not ASCII. *)
Variable wideUpper : string -> bool.

Definition isUpper (name : string) : bool :=
  match name with
  | EmptyString => false
  | String c _ =>
    let x := N_of_ascii c in
    if (x <? 128)%N then (65 <=? x)%N && (x <=? 90)%N else wideUpper name
  end.

Definition mark (t : nat) (s : Checker) : Checker :=
  mkChecker ({[t]} ∪ checked s) (errorCount s) (complaints s).

Definition complain (name : string) (t : nat) (s : Checker) : Checker :=
  mkChecker (checked s) (errorCount s + 1) (complaints s ++ [(name, t)]).

Section types.
Variable types : list kind.

(** The fuel bounds the depth of the recursion. *)
Fixpoint checkType (fuel : nat) (t : nat) (s : Checker) : result Checker :=
  match fuel with
  | O => Panic OutOfFuel
  | S fuel =>
    if decide (t ∈ checked s) then Ok s
    else
      let s := mark t s in
      match types !! t with
      | Some (Struct fields) =>
        for_each (fun '(name, ft) s =>
          checkType fuel ft (if negb (isUpper name) then complain name t s else s)) fields s
      | Some (Slice e) | Some (Array e) | Some (Ptr e) => checkType fuel e s
      | Some (Map key e) => s ← checkType fuel e s; checkType fuel key s
      | Some OtherKind | None => Ok s
      end
  end.

(** [reflect.TypeOf] of a nil interface is nil. *)
Definition checkValue (t : option nat) (s : Checker) : result Checker :=
  match t with
  | Some t => checkType (S (length types)) t s
  | None => Panic NilDereference
  end.
End types.

(** [levels]: how many more levels are looked at, 4 - depth.  The name that
    the source passes along is only printed. *)
Fixpoint checkDefault1 (pointees : nat -> value) (levels : nat) (v : value) (errors : Z) : Z :=
  match levels with
  | O => errors
  | S levels =>
    match v with
    | VStruct fields => foldl (fun errors vv => checkDefault1 pointees levels vv errors) errors fields
    | VPtr None => errors
    | VPtr (Some p) => checkDefault1 pointees levels (pointees p) errors
    | VBasic zero => if Bool.eqb zero false then errors + 1 else errors
    | VOther => errors
    end
  end.

Definition checkDefault (pointees : nat -> value) (v : option value) (s : Checker) : Checker :=
  match v with
  | None => s
  | Some v => mkChecker (checked s) (checkDefault1 pointees 3 v (errorCount s)) (complaints s)
  end.

(** ** The encoder and the decoder *)

Section coding.
Context {V : Type} (types : list kind) (typeOf : V -> option nat).
Context (gob_Encode : V -> option bytes) (gob_Decode : bytes -> option V).

Definition Encode (e : V) (s : Checker) : result (Checker * option bytes) :=
  s ← checkValue types (typeOf e) s; Ok (s, gob_Encode e).

(** [e]: the variable decoded into, and its value before. *)
Definition Decode (pointees : nat -> value) (before : option value) (e : V) (b : bytes) (s : Checker)
    : result (Checker * option V) :=
  s ← checkValue types (typeOf e) s;
  Ok (checkDefault pointees before s, gob_Decode b).

Definition Register (e : V) (s : Checker) : result Checker := checkValue types (typeOf e) s.
End coding.

(** ** The traversal of the types *)

Section traversal.
Variable types : list kind.

Definition successors (t : nat) : list nat :=
  match types !! t with
  | Some (Struct fields) => snd <$> fields
  | Some (Slice e) | Some (Array e) | Some (Ptr e) => [e]
  | Some (Map key e) => [e; key]
  | Some OtherKind | None => []
  end.

(** The lower-case fields of a type. *)
Definition lower (t : nat) : Z :=
  match types !! t with
  | Some (Struct fields) => len (filter (fun f => isUpper f.1 = false) fields)
  | _ => 0
  end.

Definition points_to (t u : nat) : Prop := u ∈ successors t.

(** All types refer to types of the table. *)
Definition wf_types : Prop := forall t u, points_to t u -> (u < length types)%nat.

Definition sum_lower (X : gset nat) : Z := foldr Z.add 0 (lower <$> elements X).

Lemma sum_lower_perm (l k : list nat) : l ≡ₚ k -> foldr Z.add 0 (lower <$> l) = foldr Z.add 0 (lower <$> k).
Proof. induction 1; csimpl; lia. Qed.

Lemma sum_lower_union X Y : X ## Y -> sum_lower (X ∪ Y) = sum_lower X + sum_lower Y.
Proof.
  intros Hd. unfold sum_lower. rewrite (sum_lower_perm _ _ (elements_disj_union X Y Hd)), fmap_app.
  induction (lower <$> elements X) as [|x l IH]; simpl; [done|]. rewrite IH. lia.
Qed.

Lemma sum_lower_empty : sum_lower ∅ = 0.
Proof. unfold sum_lower. by rewrite elements_empty. Qed.

Lemma sum_lower_singleton t : sum_lower {[t]} = lower t.
Proof. unfold sum_lower. rewrite elements_singleton. simpl. lia. Qed.

(** What a traversal from the types [ts] did: [s] before, [s'] after. *)
Record visited (ts : list nat) (s s' : Checker) : Prop := {
  vi_mono : checked s ⊆ checked s';
  vi_roots : Forall (fun t => t ∈ checked s') ts;
  vi_reach u : u ∈ checked s' -> u ∈ checked s \/ exists t, t ∈ ts /\ rtc points_to t u;
  vi_closed u v : u ∈ checked s' -> u ∉ checked s -> points_to u v -> v ∈ checked s';
}.

Lemma visited_refl s : visited [] s s.
Proof. constructor; [done|constructor|by left|done]. Qed.

Lemma visited_app ts us s1 s2 s3 :
  visited ts s1 s2 -> visited us s2 s3 -> visited (ts ++ us) s1 s3.
Proof.
  intros [M1 R1 H1 C1] [M2 R2 H2 C2]. constructor.
  - set_solver.
  - apply Forall_app. split; [|done]. eapply Forall_impl; [done|]. set_solver.
  - intros u Hu. destruct (H2 u Hu) as [Hu'|(t & ? & ?)]; [|right; exists t; set_solver].
    destruct (H1 u Hu') as [?|(t & ? & ?)]; [by left|right; exists t; set_solver].
  - intros u v Hu Hn Hv. destruct (decide (u ∈ checked s2)) as [Hu2|]; [|by eapply C2].
    apply M2. by eapply C1.
Qed.

(** A type whose successors are traversed after it is marked. *)
Lemma visited_mark t s s' :
  t ∉ checked s -> visited (successors t) (mark t s) s' -> visited [t] s s'.
Proof.
  intros Ht [M R Hr C]. simpl in *. constructor.
  - set_solver.
  - apply Forall_singleton. set_solver.
  - intros u Hu. destruct (Hr u Hu) as [Hu'|(v & Hv & Hvu)].
    + apply elem_of_union in Hu' as [->%elem_of_singleton|?]; [right; exists t; set_solver|by left].
    + right. exists t. split; [set_solver|]. by eapply rtc_l.
  - intros u v Hu Hn Huv. destruct (decide (u = t)) as [->|Hne].
    + rewrite Forall_forall in R. by apply R.
    + eapply C; [done|set_solver|done].
Qed.

(** The types not yet checked. *)
Definition unchecked (s : Checker) : gset nat := list_to_set (seq 0 (length types)) ∖ checked s.

Lemma unchecked_mark t s :
  (t < length types)%nat -> t ∉ checked s -> (size (unchecked (mark t s)) < size (unchecked s))%nat.
Proof.
  intros Hlt Ht. apply subset_size. unfold unchecked. simpl. split; [set_solver|].
  intros Hsub. assert (t ∈ list_to_set (seq 0 (length types)) ∖ checked s) as Hin.
  { apply elem_of_difference. split; [|done]. apply elem_of_list_to_set, elem_of_seq. lia. }
  apply Hsub in Hin. set_solver.
Qed.

Lemma unchecked_mono s s' : checked s ⊆ checked s' -> (size (unchecked s') <= size (unchecked s))%nat.
Proof. intros Hsub. apply subseteq_size. unfold unchecked. set_solver. Qed.

(** The complaints about what became checked. *)
Definition counted (n : Z) (s s' : Checker) : Prop :=
  errorCount s' = errorCount s + n + sum_lower (checked s' ∖ checked s).

Lemma counted_trans n m s1 s2 s3 :
  checked s1 ⊆ checked s2 -> checked s2 ⊆ checked s3 ->
  counted n s1 s2 -> counted m s2 s3 -> counted (n + m) s1 s3.
Proof.
  unfold counted. intros H1 H2 -> ->.
  assert (checked s3 ∖ checked s1 = (checked s2 ∖ checked s1) ∪ (checked s3 ∖ checked s2)) as ->.
  { apply set_eq. intros u. destruct (decide (u ∈ checked s2)); set_solver. }
  rewrite sum_lower_union by set_solver. lia.
Qed.

Lemma counted_mark t n s s' :
  t ∉ checked s -> n = lower t -> checked (mark t s) ⊆ checked s' ->
  counted n (mark t s) s' -> counted 0 s s'.
Proof.
  unfold counted. intros Ht -> Hsub ->. simpl in *.
  assert (checked s' ∖ checked s = {[t]} ∪ (checked s' ∖ ({[t]} ∪ checked s))) as ->.
  { apply set_eq. intros u. destruct (decide (u = t)); set_solver. }
  rewrite sum_lower_union, sum_lower_singleton by set_solver. lia.
Qed.

Definition checks (fuel t : nat) (s : Checker) : Prop :=
  exists s', checkType types fuel t s = Ok s' /\ visited [t] s s' /\ counted 0 s s'.

(** The loop over the fields of a struct. *)
Lemma fields_spec fuel t fields s :
  (forall ft s', (ft < length types)%nat -> (size (unchecked s') <= size (unchecked s))%nat ->
     checks fuel ft s') ->
  Forall (fun f => (f.2 < length types)%nat) fields ->
  exists s', for_each (fun '(name, ft) s =>
      checkType types fuel ft (if negb (isUpper name) then complain name t s else s)) fields s = Ok s' /\
    visited fields.*2 s s' /\ counted (len (filter (fun f => isUpper f.1 = false) fields)) s s'.
Proof.
  intros IH Hf. revert s IH. induction Hf as [|[name ft] fields Hft _ IHf]; intros s IH; cbn [for_each].
  { exists s. split_and!; [done|apply visited_refl|]. unfold counted. rewrite difference_diag_L, sum_lower_empty.
    rewrite filter_nil. unfold len. simpl. lia. }
  set (s1 := if negb (isUpper name) then complain name t s else s).
  assert (checked s1 = checked s) as E1 by (unfold s1; by destruct (isUpper name)).
  destruct (IH ft s1) as (s2 & -> & Hv & Hc); [done|unfold unchecked; by rewrite E1|]. cbn [mbind result_bind].
  destruct (IHf s2) as (s3 & -> & Hv' & Hc').
  { intros ft' s' Hft' Hle. apply IH; [done|]. etrans; [exact Hle|]. apply unchecked_mono.
    rewrite <- E1. apply (vi_mono _ _ _ Hv). }
  exists s3. split; [done|].
  assert (visited [ft] s s2) as Hv1.
  { destruct Hv as [M R Hr C]. rewrite E1 in M. constructor; [done|done|..]; intros u; rewrite <- E1; [apply Hr|apply C]. }
  split; [exact (visited_app [ft] _ _ _ _ Hv1 Hv')|].
  assert (counted (if isUpper name then 0 else 1) s s2) as Hc1.
  { unfold counted in *. rewrite Hc, E1. unfold s1. destruct (isUpper name); simpl; lia. }
  rewrite filter_cons. simpl.
  pose proof (counted_trans _ _ _ _ _ (vi_mono _ _ _ Hv1) (vi_mono _ _ _ Hv') Hc1 Hc') as Hc2.
  destruct (isUpper name); [by rewrite decide_False|]. rewrite decide_True, len_cons by done. done.
Qed.

Lemma checkType_checks fuel t s :
  wf_types -> (t < length types)%nat -> (size (unchecked s) < fuel)%nat -> checks fuel t s.
Proof.
  intros Hwf. revert t s. induction fuel as [|fuel IH]; intros t s Ht Hfuel; [lia|].
  unfold checks. cbn [checkType]. case_decide as Hck.
  { exists s. split_and!; [done| |].
    - constructor; [done|by apply Forall_singleton|by left|done].
    - unfold counted. rewrite difference_diag_L, sum_lower_empty. lia. }
  pose proof (unchecked_mark t s Ht Hck) as Hlt.
  assert (forall ft s', (ft < length types)%nat -> (size (unchecked s') <= size (unchecked (mark t s)))%nat ->
    checks fuel ft s') as Hrec by (intros; apply IH; [done|lia]).
  assert (forall u, u ∈ successors t -> (u < length types)%nat) as Hsucc by (intros; by eapply Hwf).
  assert (forall r, lower t = 0 -> (exists s', r = Ok s' /\ visited (successors t) (mark t s) s' /\
      counted 0 (mark t s) s') -> exists s', r = Ok s' /\ visited [t] s s' /\ counted 0 s s') as Hput.
  { intros r Hl (s' & -> & Hv & Hc). exists s'. split_and!; [done|by apply visited_mark|].
    apply (counted_mark t 0); [done|done|by eapply vi_mono|done]. }
  destruct (types !! t) as [[fields|e|e|e|key e|]|] eqn:E.
  - destruct (fields_spec fuel t fields (mark t s) Hrec) as (s' & -> & Hv & Hc).
    { apply Forall_forall. intros f Hf. apply Hsucc. unfold successors. rewrite E. by apply list_elem_of_fmap_2. }
    exists s'. split; [done|].
    assert (successors t = fields.*2) as Es by (unfold successors; by rewrite E).
    split; [apply visited_mark; [done|by rewrite Es]|].
    eapply (counted_mark t _); [done| |by eapply vi_mono|exact Hc]. unfold lower. by rewrite E.
  - apply Hput; unfold lower, successors in *; rewrite E in *; [done|]. apply Hrec; [set_solver|lia].
  - apply Hput; unfold lower, successors in *; rewrite E in *; [done|]. apply Hrec; [set_solver|lia].
  - apply Hput; unfold lower, successors in *; rewrite E in *; [done|]. apply Hrec; [set_solver|lia].
  - apply Hput; unfold lower, successors in *; rewrite E in *; [done|].
    destruct (Hrec e (mark t s)) as (s1 & -> & Hv1 & Hc1); [set_solver|lia|]. simpl.
    destruct (Hrec key s1) as (s2 & -> & Hv2 & Hc2); [set_solver|apply unchecked_mono; by eapply vi_mono|].
    exists s2. split_and!; [done|exact (visited_app [e] [key] _ _ _ Hv1 Hv2)|].
    eapply (counted_trans 0 0); [by eapply vi_mono|by eapply vi_mono|done|done].
  - apply Hput; unfold lower, successors in *; rewrite E in *; [done|].
    eexists. split_and!; [done|apply visited_refl|]. unfold counted. rewrite difference_diag_L, sum_lower_empty. lia.
  - apply Hput; unfold lower, successors in *; rewrite E in *; [done|].
    eexists. split_and!; [done|apply visited_refl|]. unfold counted. rewrite difference_diag_L, sum_lower_empty. lia.
Qed.

(** What was checked before, in calls that have returned. *)
Definition closed (s : Checker) : Prop := forall u v, u ∈ checked s -> points_to u v -> v ∈ checked s.

Lemma closed_reach s t u : closed s -> t ∈ checked s -> rtc (points_to) t u -> u ∈ checked s.
Proof. intros Hc Ht. induction 1 as [t|t v u Htv Hvu IH]; [done|]. apply IH. by eapply Hc. Qed.
End traversal.

(** C31: the check of a type.  On any table of types, recursive or not,
    checking a type terminates (the recursion is at most as deep as there are
    types); it checks exactly the types that can be reached from it, in any
    way, and were not checked before; and it complains exactly once about
    each lower-case field of these types.  After it, the next check can
    rely on the same. *)
Theorem checkType_complete types t s :
  wf_types types -> (t < length types)%nat -> closed types s ->
  exists s', checkValue types (Some t) s = Ok s' /\ closed types s' /\
    (forall u, u ∈ checked s' <-> u ∈ checked s \/ rtc (points_to types) t u) /\
    errorCount s' = errorCount s + sum_lower types (checked s' ∖ checked s).
Proof.
  intros Hwf Ht Hcl.
  destruct (checkType_checks types (S (length types)) t s Hwf Ht) as (s' & E & [M R Hr C] & Hc).
  { assert (size (unchecked types s) <= size (list_to_set (seq 0 (length types)) : gset nat))%nat as Hle
      by (apply subseteq_size; unfold unchecked; set_solver).
    rewrite size_list_to_set, length_seq in Hle by apply NoDup_seq. lia. }
  assert (closed types s') as Hcl'.
  { intros u v Hu Huv. destruct (decide (u ∈ checked s)) as [Hus|]; [|by eapply C].
    apply M. by eapply Hcl. }
  exists s'. split_and!; [done|done| |unfold counted in Hc; lia].
  intros u. split.
  - intros Hu. destruct (Hr u Hu) as [?|(t' & ->%list_elem_of_singleton & ?)]; [by left|by right].
  - intros [Hu|Hu]; [by apply M|]. apply (closed_reach types s' t); [done| |done].
    exact (proj1 (Forall_singleton _ _) R).
Qed.

(** ** Decoding into variables *)

(** The basic variables within reach that are not zero. *)
Fixpoint nonzero (pointees : nat -> value) (levels : nat) (v : value) : Z :=
  match levels with
  | O => 0
  | S levels =>
    match v with
    | VStruct fields => foldr (fun vv n => nonzero pointees levels vv + n) 0 fields
    | VPtr None => 0
    | VPtr (Some p) => nonzero pointees levels (pointees p)
    | VBasic zero => if zero then 0 else 1
    | VOther => 0
    end
  end.

Lemma checkDefault1_counts pointees levels v errors :
  checkDefault1 pointees levels v errors = errors + nonzero pointees levels v.
Proof.
  revert v errors. induction levels as [|levels IH]; intros v errors; simpl; [lia|].
  destruct v as [fields|[p|]|[]|]; simpl; try lia; [|apply IH].
  revert errors. induction fields as [|v fields IHf]; intros errors; simpl; [lia|].
  rewrite IHf, IH. lia.
Qed.
End labgob.

(** A list of records, [type Node struct { Value int; next *Node }]: type 0
    is the struct, 1 the pointer to it, 2 is int. *)
Definition node_types : list kind := [Struct [("Value"%string, 2%nat); ("next"%string, 1%nat)]; Ptr 0; OtherKind].

Lemma checkType_complete_witness :
  exists s', checkValue (fun _ => false) node_types (Some 1%nat) noChecks = Ok s' /\
    errorCount s' = 1 /\ (forall u, u ∈ checked s' <-> u ∈ checked noChecks \/ rtc (points_to node_types) 1%nat u).
Proof.
  destruct (checkType_complete (fun _ => false) node_types 1 noChecks) as (s' & E & _ & Hck & Herr).
  - intros t u Hu. destruct t as [|[|[|t]]]; simpl in Hu.
    + apply elem_of_cons in Hu as [->|Hu%list_elem_of_singleton]; [|subst u]; apply Nat.ltb_lt; reflexivity.
    + apply list_elem_of_singleton in Hu. subst u. apply Nat.ltb_lt; reflexivity.
    + apply elem_of_nil in Hu. contradiction.
    + apply elem_of_nil in Hu. contradiction.
  - apply Nat.ltb_lt. reflexivity.
  - intros u v Hu. exfalso. set_solver.
  - exists s'. split; [exact E|]. split; [|exact Hck].
    vm_compute in E. injection E as <-. reflexivity.
Defined.
